(** * Acoustic simulator: wave-field solver, audio accumulator, spectral peak
    finder and phonetic feature extractor.

    A shallow embedding of [acousticCore.js], [fftAnalyzer.js] and the
    [AcousticAnalyzer] class, with the properties of the specification
    stated over it.

    Numbers.  A JavaScript number is modelled as an exact rational, or one of
    the three special values [+Infinity], [-Infinity], [NaN].  Arithmetic on
    finite values is exact (binary64 rounding, overflow and the sign of zero
    are not modelled); the special values follow IEEE 754 as JavaScript does:
    [x/0] is an infinity or [NaN], every comparison with [NaN] is false, and
    so on.  The transcendental functions of [Math] are a parameter.

    Where the exact numbers stand for binary64.  The code runs on binary64,
    so a statement over the exact numbers is made on the inputs on which
    both evaluations take the same branches, return together and differ by
    rounding only.  These inputs are named by predicates that appear as
    hypotheses: samples read out of a [Float32Array] ([isFloat32]), numbers
    far from overflow and underflow ([midRange], [moderate]), coordinates
    and radii that binary64 counts exactly ([withinReach]), arrays that
    [Array] and a spread call accept ([roomSize], [spreadable]).  Where a
    claim fails outside such a range, the failing run is evaluated on
    binary64 itself, on the primitive floats, in [Binary64]. *)

From Stdlib Require Import ZArith QArith Qround Qabs Lqa Lia.
From Stdlib Require Import List Bool String Permutation Sorted.
From Stdlib Require Import PrimFloat.
Import ListNotations.

Set Implicit Arguments.
Set Warnings "-inexact-float".

(* ===================================================================== *)
(** ** JavaScript numbers *)
(* ===================================================================== *)

Inductive num : Type :=
| Fin (q : Q)
| PInf
| NInf
| NaN.

Declare Scope num_scope.
Delimit Scope num_scope with num.
Bind Scope num_scope with num.

(** Finite results are kept in lowest terms, so that equal numbers are
    equal terms. *)
Definition fin (q : Q) : num := Fin (Qred q).

Definition ofZ (z : Z) : num := Fin (inject_Z z).
Definition ofNat (n : nat) : num := ofZ (Z.of_nat n).

Definition Qlt_bool (a b : Q) : bool := negb (Qle_bool b a).

Definition isFinite (x : num) : bool :=
  match x with Fin _ => true | _ => false end.

(** [x < y], [x <= y], [x > y], [x >= y] and [x === y] on numbers. *)
Definition nlt (x y : num) : bool :=
  match x, y with
  | NaN, _ | _, NaN => false
  | Fin a, Fin b => Qlt_bool a b
  | NInf, NInf => false
  | NInf, _ => true
  | _, PInf => match x with PInf => false | _ => true end
  | _, _ => false
  end.

Definition nle (x y : num) : bool :=
  match x, y with
  | NaN, _ | _, NaN => false
  | Fin a, Fin b => Qle_bool a b
  | NInf, _ => true
  | _, PInf => true
  | _, _ => false
  end.

Definition ngt (x y : num) : bool := nlt y x.
Definition nge (x y : num) : bool := nle y x.

Definition neq (x y : num) : bool :=
  match x, y with
  | Fin a, Fin b => Qeq_bool a b
  | PInf, PInf | NInf, NInf => true
  | _, _ => false
  end.

Definition nopp (x : num) : num :=
  match x with
  | Fin a => fin (- a)
  | PInf => NInf
  | NInf => PInf
  | NaN => NaN
  end.

Definition nadd (x y : num) : num :=
  match x, y with
  | NaN, _ | _, NaN => NaN
  | Fin a, Fin b => fin (a + b)
  | PInf, NInf | NInf, PInf => NaN
  | PInf, _ | _, PInf => PInf
  | NInf, _ | _, NInf => NInf
  end.

Definition nsub (x y : num) : num := nadd x (nopp y).

(** The infinity whose sign is that of [s * a], [NaN] when [a] is zero. *)
Definition infBySign (positive : bool) (a : Q) : num :=
  if Qeq_bool a 0 then NaN
  else if Bool.eqb positive (Qlt_bool 0 a) then PInf else NInf.

Definition nmul (x y : num) : num :=
  match x, y with
  | NaN, _ | _, NaN => NaN
  | Fin a, Fin b => fin (a * b)
  | Fin a, PInf | PInf, Fin a => infBySign true a
  | Fin a, NInf | NInf, Fin a => infBySign false a
  | PInf, PInf | NInf, NInf => PInf
  | PInf, NInf | NInf, PInf => NInf
  end.

Definition ndiv (x y : num) : num :=
  match x, y with
  | NaN, _ | _, NaN => NaN
  | Fin a, Fin b =>
      if Qeq_bool b 0 then infBySign true a else fin (a / b)
  | Fin _, _ => Fin 0
  | PInf, Fin b => if Qlt_bool b 0 then NInf else PInf
  | NInf, Fin b => if Qlt_bool b 0 then PInf else NInf
  | _, _ => NaN
  end.

Definition nabs (x : num) : num :=
  match x with
  | Fin a => fin (Qabs a)
  | PInf | NInf => PInf
  | NaN => NaN
  end.

(** [Math.max(x, y)] and [Math.min(x, y)]: [NaN] as soon as an argument is. *)
Definition nmax (x y : num) : num :=
  match x, y with
  | NaN, _ | _, NaN => NaN
  | _, _ => if nle x y then y else x
  end.

Definition nmin (x y : num) : num :=
  match x, y with
  | NaN, _ | _, NaN => NaN
  | _, _ => if nle x y then x else y
  end.

(** [Math.max(...xs)] and [Math.min(...xs)]; of no argument they are
    [-Infinity] and [+Infinity]. *)
Definition maxOf (xs : list num) : num := fold_left nmax xs NInf.
Definition minOf (xs : list num) : num := fold_left nmin xs PInf.

Definition nfloor (x : num) : num :=
  match x with Fin a => ofZ (Qfloor a) | _ => x end.

Definition nround (x : num) : num :=
  match x with Fin a => ofZ (Qfloor (a + (1 # 2))) | _ => x end.

(** [x ** n] for a literal natural exponent, by repeated multiplication
    (what [Math.pow(x, 2)] and [Math.pow(2, k)] denote). *)
Fixpoint npow (x : num) (n : nat) : num :=
  match n with
  | O => Fin 1
  | S O => x
  | S m => nmul x (npow x m)
  end.

Infix "+" := nadd : num_scope.
Infix "-" := nsub : num_scope.
Infix "*" := nmul : num_scope.
Infix "/" := ndiv : num_scope.
Notation "- x" := (nopp x) : num_scope.
Infix "<?" := nlt : num_scope.
Infix "<=?" := nle : num_scope.
Infix ">?" := ngt : num_scope.
Infix ">=?" := nge : num_scope.
Infix "===" := neq (at level 70, no associativity) : num_scope.

(** An index into an array of length [len]: the number must be an integer
    in range, as a property key that names an element must. *)
Definition toIndex (len : nat) (x : num) : option nat :=
  match x with
  | Fin a =>
      if Qeq_bool a (inject_Z (Qfloor a))
         && (0 <=? Qfloor a)%Z && (Qfloor a <? Z.of_nat len)%Z
      then Some (Z.to_nat (Qfloor a)) else None
  | _ => None
  end.

(** Reading a numeric array in an arithmetic context: a missing element is
    [undefined], which every arithmetic operation turns into [NaN]. *)
Definition getNum (xs : list num) (i : nat) : num := nth i xs NaN.

Definition getNumAt (xs : list num) (x : num) : num :=
  match toIndex (List.length xs) x with Some i => getNum xs i | None => NaN end.

(** [Math]: the constant and the functions the code calls that are not
    rational operations. *)
Record MathLib : Type := {
  Math_sin : num -> num;
  Math_cos : num -> num;
  Math_sqrt : num -> num;
  Math_log : num -> num;
  Math_log10 : num -> num;
  Math_pow : num -> num -> num
}.

(** [Math.PI], the binary64 value. *)
Definition Math_PI : num := Fin (884279719003555 # 281474976710656).

(* ===================================================================== *)
(** ** Outcomes of a call *)
(* ===================================================================== *)

(** [OutOfRange] is the model's own: an element read or written outside an
    array.  JavaScript itself answers [undefined] to such a read, or throws a
    [TypeError] when the missing element is a row that is then indexed; the
    model stops at the access, so that a call that returns has touched only
    elements that exist. *)
Inductive jsError : Type :=
| TypeError (message : string)
| OutOfRange.

(** A call returns, throws, or does not return. *)
Inductive result (A : Type) : Type :=
| Ok (a : A)
| Throw (e : jsError)
| Diverge.

Arguments Ok {A} a.
Arguments Throw {A} e.
Arguments Diverge {A}.

Definition bind {A B : Type} (c : result A) (k : A -> result B) : result B :=
  match c with
  | Ok a => k a
  | Throw e => Throw e
  | Diverge => Diverge
  end.

Fixpoint foldM {A S : Type} (f : S -> A -> result S) (xs : list A) (s : S)
  : result S :=
  match xs with
  | [] => Ok s
  | x :: rest => bind (f s x) (fun s' => foldM f rest s')
  end.

(** [xs.reduce((a, b) => a + b)], with no initial value: a [TypeError] on an
    empty array. *)
Definition reduceSum (xs : list num) : result num :=
  match xs with
  | [] => Throw (TypeError "Reduce of empty array with no initial value")
  | x :: rest => Ok (fold_left nadd rest x)
  end.

(** [xs.reduce((sum, s) => sum + s * s, 0)]. *)
Definition sumSquares (xs : list num) : num :=
  fold_left (fun sum s => (sum + s * s)%num) xs (Fin 0).

(** [for (let i = start; i < start + n; i++) body], threading the state. *)
Fixpoint forRange {S : Type} (n start : nat) (body : nat -> S -> result S)
  (s : S) : result S :=
  match n with
  | O => Ok s
  | S n' => bind (body start s) (forRange n' (Datatypes.S start) body)
  end.

(** [cond || dflt] on an optional number: [undefined], [0] and [NaN] are
    falsy. *)
Definition truthy (x : num) : bool :=
  match x with
  | Fin a => negb (Qeq_bool a 0)
  | NaN => false
  | _ => true
  end.

Definition orElse (o : option num) (dflt : num) : num :=
  match o with
  | Some v => if truthy v then v else dflt
  | None => dflt
  end.

Definition orElseNat (o : option nat) (dflt : nat) : nat :=
  match o with
  | Some (S n) => S n
  | _ => dflt
  end.

(** [xs[i] = f(xs[i])] on a list; nothing changes out of range. *)
Fixpoint updNth {A : Type} (i : nat) (f : A -> A) (xs : list A) : list A :=
  match xs, i with
  | [], _ => []
  | x :: rest, O => f x :: rest
  | x :: rest, S j => x :: updNth j f rest
  end.

(* ===================================================================== *)
(** ** acousticCore.js: the wave-field solver *)
(* ===================================================================== *)

Module Solver.

(** A grid is an array of rows, [grid[y][x]]. *)
Definition grid : Type := list (list num).

Definition _createGridOf (height width : nat) (value : num) : grid :=
  repeat (repeat value width) height.

(** [g[y][x]] as an r-value. *)
Definition getCell (g : grid) (y x : nat) : result num :=
  match nth_error g y with
  | None => Throw OutOfRange
  | Some row =>
      match nth_error row x with
      | None => Throw OutOfRange
      | Some v => Ok v
      end
  end.

(** [g[y][x] = v]. *)
Definition setCell (g : grid) (y x : nat) (v : num) : result grid :=
  match nth_error g y with
  | None => Throw OutOfRange
  | Some row =>
      if (x <? List.length row)%nat
      then Ok (updNth y (updNth x (fun _ => v)) g)
      else Throw OutOfRange
  end.

(** The constructor's [options] object; an absent property is [None]. *)
Record options : Type := mkOptions {
  opt_width : option nat;
  opt_height : option nat;
  opt_cellSize : option num;
  opt_speedOfSound : option num;
  opt_airDensity : option num;
  opt_timeStep : option num;
  opt_dampingFactor : option num
}.

(** The objects pushed by [addSource], [addMembraneSource] and
    [addStringSource].  Coordinates are the results of [Math.floor] on
    finite numbers, kept as integers ([Math.floor(NaN)] and the floor of an
    infinity are not among them). *)
Inductive source : Type :=
| PointSource (x y : Z) (frequency amplitude : num) (type : string)
    (duration startTime phase : num)
| MembraneSource (centerX centerY : Z) (radius frequency amplitude mode : num)
    (startTime phase : num)
| StringSource (startX startY endX endY : Z) (frequency amplitude : num)
    (startTime phase : num).

Definition startTimeOf (s : source) : num :=
  match s with
  | PointSource _ _ _ _ _ _ t _ => t
  | MembraneSource _ _ _ _ _ _ t _ => t
  | StringSource _ _ _ _ _ _ t _ => t
  end.

(** [source.duration]: only [addSource] sets it; it is [undefined] on the
    two other kinds. *)
Definition durationOf (s : source) : option num :=
  match s with
  | PointSource _ _ _ _ _ d _ _ => Some d
  | _ => None
  end.

Inductive consoleMessage : Type :=
| CFLWarning (cflNumber : num).

Record AcousticSimulator : Type := mkSimulator {
  width : nat;
  height : nat;
  cellSize : num;
  speedOfSound : num;
  airDensity : num;
  timeStep : num;
  coeff : num;
  pressure : grid;
  pressurePrev : grid;
  pressureNext : grid;
  velocityX : grid;
  velocityY : grid;
  sources : list source;
  sourceValues : grid;
  dampingFactor : num;
  microphoneX : nat;
  microphoneY : nat;
  maxPressure : num;
  energyContent : num;
  time : option num;
  console : list consoleMessage
}.

Definition _createGrid (sim : AcousticSimulator) (value : num) : grid :=
  _createGridOf (height sim) (width sim) value.

(** [new AcousticSimulator(options)], for sizes that are counts; what
    [Array] does with any other number is in [construct] below. *)
Definition new (o : options) : AcousticSimulator :=
  let width := orElseNat (opt_width o) 128 in
  let height := orElseNat (opt_height o) 128 in
  let cellSize := orElse (opt_cellSize o) (Fin (1 # 100)) in
  let speedOfSound := orElse (opt_speedOfSound o) (Fin 343) in
  let airDensity := orElse (opt_airDensity o) (Fin (12 # 10)) in
  let timeStep0 := orElse (opt_timeStep o) (Fin (1 # 100000)) in
  let cflNumber := ((speedOfSound * timeStep0) / cellSize)%num in
  let unstable := (cflNumber >? Fin 1)%num in
  let timeStep :=
    if unstable then ((Fin (9 # 10) * cellSize) / speedOfSound)%num
    else timeStep0 in
  let coeff := npow ((speedOfSound * timeStep) / cellSize)%num 2 in
  let zero := _createGridOf height width (Fin 0) in
  {| width := width;
     height := height;
     cellSize := cellSize;
     speedOfSound := speedOfSound;
     airDensity := airDensity;
     timeStep := timeStep;
     coeff := coeff;
     pressure := zero;
     pressurePrev := zero;
     pressureNext := zero;
     velocityX := zero;
     velocityY := zero;
     sources := [];
     sourceValues := zero;
     dampingFactor := orElse (opt_dampingFactor o) (Fin (9995 # 10000));
     microphoneX := Nat.div width 2;
     microphoneY := Nat.div height 2;
     maxPressure := Fin 0;
     energyContent := Fin 0;
     time := None;
     console := if unstable then [CFLWarning cflNumber] else [] |}.

(** [Array(n)]: [n] has to be a whole number from 0 to 2^32 - 1; any other
    number is a [RangeError] ('Invalid array length'). *)
Definition arrayLength (n : num) : option nat :=
  match n with
  | Fin a =>
      if Qeq_bool a (inject_Z (Qfloor a))
         && (0 <=? Qfloor a)%Z && (Qfloor a <? 2 ^ 32)%Z
      then Some (Z.to_nat (Qfloor a)) else None
  | _ => None
  end.

(** The outcome of [new AcousticSimulator(options)] when [options.width]
    and [options.height] are any numbers: the first [_createGrid] builds
    [Array(this.height)] and, for each row, [Array(this.width)]. *)
Inductive constructed : Type :=
| Built (sim : AcousticSimulator)
| RangeError.

(** [new AcousticSimulator(options)], the sizes given as the numbers the
    caller wrote ([None]: the property is absent); they stand in for the
    sizes of [o].  After [|| 128] the height is not zero, so a row is
    built and both sizes are tried. *)
Definition construct (width height : option num) (o : options)
  : constructed :=
  match arrayLength (orElse height (Fin 128)),
        arrayLength (orElse width (Fin 128)) with
  | Some h, Some w =>
      Built (new (mkOptions (Some w) (Some h) (opt_cellSize o)
                    (opt_speedOfSound o) (opt_airDensity o) (opt_timeStep o)
                    (opt_dampingFactor o)))
  | _, _ => RangeError
  end.

Definition withSources (sim : AcousticSimulator) (srcs : list source)
  : AcousticSimulator :=
  mkSimulator (width sim) (height sim) (cellSize sim) (speedOfSound sim)
    (airDensity sim) (timeStep sim) (coeff sim) (pressure sim)
    (pressurePrev sim) (pressureNext sim) (velocityX sim) (velocityY sim)
    srcs (sourceValues sim) (dampingFactor sim) (microphoneX sim)
    (microphoneY sim) (maxPressure sim) (energyContent sim) (time sim)
    (console sim).

(** [this.time || 0]. *)
Definition timeOrZero (sim : AcousticSimulator) : num :=
  orElse (time sim) (Fin 0).

Definition addSource (sim : AcousticSimulator) (x y : Q)
  (frequency amplitude : num) (type : string) (duration : num)
  : AcousticSimulator :=
  withSources sim
    (sources sim ++
     [PointSource (Qfloor x) (Qfloor y) frequency amplitude type duration
        (timeOrZero sim) (Fin 0)]).

Definition addMembraneSource (sim : AcousticSimulator) (centerX centerY : Q)
  (radius frequency amplitude mode : num) : AcousticSimulator :=
  withSources sim
    (sources sim ++
     [MembraneSource (Qfloor centerX) (Qfloor centerY) radius frequency
        amplitude mode (timeOrZero sim) (Fin 0)]).

Definition addStringSource (sim : AcousticSimulator)
  (startX startY endX endY : Q) (frequency amplitude : num)
  : AcousticSimulator :=
  withSources sim
    (sources sim ++
     [StringSource (Qfloor startX) (Qfloor startY) (Qfloor endX) (Qfloor endY)
        frequency amplitude (timeOrZero sim) (Fin 0)]).

(** [_inBounds(x, y)]. *)
Definition _inBounds (sim : AcousticSimulator) (x y : num) : bool :=
  (x >=? Fin 0)%num && (x <? ofNat (width sim))%num
  && (y >=? Fin 0)%num && (y <? ofNat (height sim))%num.

(** The loop of [_bresenhamLine]: one iteration per unit of [fuel].  The
    integers are counted exactly, as binary64 does while they stay below
    2^53 in magnitude ([withinReach] keeps the end points far below). *)
Fixpoint bresenhamLoop (fuel : nat) (x1 y1 dx dy sx sy err x y : Z)
  : result (list (Z * Z)) :=
  match fuel with
  | O => Diverge
  | S fuel' =>
      if ((x =? x1) && (y =? y1))%Z then Ok [(x, y)]
      else
        let e2 := (2 * err)%Z in
        let '(errA, xA) :=
          if (e2 >? - dy)%Z then ((err - dy)%Z, (x + sx)%Z) else (err, x) in
        let '(errB, yB) :=
          if (e2 <? dx)%Z then ((errA + dx)%Z, (y + sy)%Z) else (errA, y) in
        bind (bresenhamLoop fuel' x1 y1 dx dy sx sy errB xA yB)
             (fun points => Ok ((x, y) :: points))
  end.

Definition _bresenhamLine (x0 y0 x1 y1 : Z) : result (list (Z * Z)) :=
  let dx := Z.abs (x1 - x0) in
  let dy := Z.abs (y1 - y0) in
  let sx := if (x0 <? x1)%Z then 1%Z else (-1)%Z in
  let sy := if (y0 <? y1)%Z then 1%Z else (-1)%Z in
  bresenhamLoop (S (Z.to_nat (dx + dy))) x1 y1 dx dy sx sy (dx - dy)%Z x0 y0.

(** The activity test of [_updateSources]: the source is passed over when
    [elapsed < 0 || elapsed > source.duration]; a comparison with
    [undefined] is false. *)
Definition sourceSkipped (time : num) (s : source) : bool :=
  let elapsed := (time - startTimeOf s)%num in
  (elapsed <? Fin 0)%num
  || match durationOf s with
     | Some d => (elapsed >? d)%num
     | None => false
     end.

(** [this.sourceValues[y][x] += v], reached once [_inBounds(x, y)] holds.
    A [y] that names no row makes [this.sourceValues[y]] undefined and the
    access to its [x] a [TypeError]; an [x] that names no element of the
    row leaves the row's elements as they are. *)
Definition addAt (sv : grid) (x y v : num) : result grid :=
  match toIndex (List.length sv) y with
  | None => Throw (TypeError "Cannot read properties of undefined")
  | Some yi =>
      match toIndex (List.length (nth yi sv [])) x with
      | None => Ok sv
      | Some xi => Ok (updNth yi (updNth xi (fun old => (old + v)%num)) sv)
      end
  end.

Definition splat (sim : AcousticSimulator) (sv : grid) (x y v : num)
  : result grid :=
  if _inBounds sim x y then addAt sv x y v else Ok sv.

(** [for (let i = start; i <= bound; i++)] over numbers: the values [i]
    takes.  [fuel] bounds the number of iterations. *)
Fixpoint numRange (fuel : nat) (i bound : num) : result (list num) :=
  if (i <=? bound)%num then
    match fuel with
    | O => Diverge
    | S fuel' =>
        bind (numRange fuel' (i + Fin 1)%num bound) (fun rest => Ok (i :: rest))
    end
  else Ok [].

(** The offsets [-radius, -radius + 1, ...] up to [radius], counted
    exactly, as binary64 does for a radius below 2^53. *)
Definition membraneOffsets (radius : num) : result (list num) :=
  let fuel :=
    match radius with
    | Fin r => S (Z.to_nat (Qfloor (2 * r)))
    | _ => O
    end in
  numRange fuel (- radius)%num radius.

Section WithMath.

Variable M : MathLib.

(** [amplitude * Math.sin(2 * Math.PI * frequency * time + phase)]. *)
Definition waveform (amplitude frequency time phase : num) : num :=
  (amplitude
   * Math_sin M (Fin 2 * Math_PI * frequency * time + phase))%num.

(** [amplitude * Math.sin(2 * Math.PI * frequency * time)]. *)
Definition waveform0 (amplitude frequency time : num) : num :=
  (amplitude * Math_sin M (Fin 2 * Math_PI * frequency * time))%num.

(** The body of the membrane's inner loop, at offsets [dx], [dy]. *)
Definition membraneCell (sim : AcousticSimulator) (centerX centerY : Z)
  (radius value dy : num) (sv : grid) (dx : num) : result grid :=
  let dist := Math_sqrt M (dx * dx + dy * dy)%num in
  if (dist <=? radius)%num then
    let x := (ofZ centerX + dx)%num in
    let y := (ofZ centerY + dy)%num in
    if _inBounds sim x y then
      let weight := Math_cos M ((Math_PI * dist) / (Fin 2 * radius))%num in
      addAt sv x y (value * weight)%num
    else Ok sv
  else Ok sv.

(** What one source adds to [this.sourceValues] once it passed the
    activity test. *)
Definition applySource (sim : AcousticSimulator) (time : num) (sv : grid)
  (s : source) : result grid :=
  match s with
  | PointSource x y frequency amplitude type _ _ phase =>
      if (String.eqb type "sine" || String.eqb type "point")%bool then
        splat sim sv (ofZ x) (ofZ y) (waveform amplitude frequency time phase)
      else
        (* an object made by [addSource] has none of the properties the
           'string' and 'membrane' branches read: nothing is added *)
        Ok sv
  | StringSource startX startY endX endY frequency amplitude _ _ =>
      let value := waveform0 amplitude frequency time in
      bind (_bresenhamLine startX startY endX endY) (fun points =>
      foldM (fun sv '(x, y) => splat sim sv (ofZ x) (ofZ y) value) points sv)
  | MembraneSource centerX centerY radius frequency amplitude _ _ _ =>
      let value := waveform0 amplitude frequency time in
      bind (membraneOffsets radius) (fun offsets =>
      foldM (fun sv dy =>
               foldM (membraneCell sim centerX centerY radius value dy)
                     offsets sv)
            offsets sv)
  end.

(** [_updateSources(time)]: the new [this.sourceValues]. *)
Definition _updateSources (sim : AcousticSimulator) (time : num)
  : result grid :=
  foldM (fun sv s =>
           if sourceSkipped time s then Ok sv
           else applySource sim time sv s)
        (sources sim) (_createGrid sim (Fin 0)).

End WithMath.

(** [_laplacian(grid, x, y)]. *)
Definition _laplacian (sim : AcousticSimulator) (g : grid) (x y : nat)
  : result num :=
  bind (if (0 <? y)%nat then getCell g (y - 1) x else Ok (Fin 0)) (fun up =>
  bind (if (y <? height sim - 1)%nat then getCell g (y + 1) x else Ok (Fin 0))
       (fun down =>
  bind (if (0 <? x)%nat then getCell g y (x - 1) else Ok (Fin 0)) (fun left =>
  bind (if (x <? width sim - 1)%nat then getCell g y (x + 1) else Ok (Fin 0))
       (fun right =>
  bind (getCell g y x) (fun center =>
  Ok (up + down + left + right - Fin 4 * center)%num))))).

(** The body of the loops of [_calculateVelocity], on the pair
    [(velocityX, velocityY)]. *)
Definition velocityCell (sim : AcousticSimulator) (y x : nat)
  (v : grid * grid) : result (grid * grid) :=
  let p := pressure sim in
  bind (if (x <? width sim - 1)%nat
        then bind (getCell p y (x + 1)) (fun a =>
             bind (getCell p y x) (fun b => Ok (a - b)%num))
        else Ok (Fin 0)) (fun dpDx =>
  bind (if (y <? height sim - 1)%nat
        then bind (getCell p (y + 1) x) (fun a =>
             bind (getCell p y x) (fun b => Ok (a - b)%num))
        else Ok (Fin 0)) (fun dpDy =>
  let rho := (airDensity sim * cellSize sim)%num in
  bind (setCell (fst v) y x (- dpDx / rho)%num) (fun vx =>
  bind (setCell (snd v) y x (- dpDy / rho)%num) (fun vy =>
  Ok (vx, vy))))).

Definition _calculateVelocity (sim : AcousticSimulator)
  : result (grid * grid) :=
  forRange (height sim) 0
    (fun y => forRange (width sim) 0 (velocityCell sim y))
    (velocityX sim, velocityY sim).

(** The body of the loops of [_updateStats], on the pair
    [(maxPressure, energyContent)]. *)
Definition statsCell (sim : AcousticSimulator) (y x : nat) (st : num * num)
  : result (num * num) :=
  bind (getCell (pressure sim) y x) (fun p0 =>
  let p := nabs p0 in
  bind (getCell (velocityX sim) y x) (fun vx =>
  bind (getCell (velocityY sim) y x) (fun vy =>
  Ok (nmax (fst st) p,
      (snd st
       + (p * p + Fin (1 # 2) * airDensity sim * (vx * vx + vy * vy)))%num)))).

Definition _updateStats (sim : AcousticSimulator) : result (num * num) :=
  forRange (height sim) 0
    (fun y => forRange (width sim) 0 (statsCell sim y))
    (Fin 0, Fin 0).

(** The body of the loops of [step], on [this.pressureNext]. *)
Definition pressureCell (sim : AcousticSimulator) (sv : grid) (y x : nat)
  (next : grid) : result grid :=
  bind (_laplacian sim (pressure sim) x y) (fun laplacian =>
  bind (getCell (pressure sim) y x) (fun p =>
  bind (getCell (pressurePrev sim) y x) (fun pPrev =>
  bind (getCell sv y x) (fun s =>
  bind (setCell next y x
          (Fin 2 * p - pPrev + coeff sim * laplacian + s)%num) (fun next1 =>
  bind (getCell next1 y x) (fun v =>
  setCell next1 y x (v * dampingFactor sim)%num)))))).

Definition step (M : MathLib) (sim : AcousticSimulator) (t : num)
  : result AcousticSimulator :=
  bind (_updateSources M sim t) (fun sv =>
  bind (forRange (height sim) 0
          (fun y => forRange (width sim) 0 (pressureCell sim sv y))
          (pressureNext sim)) (fun next =>
  (* roll the buffers *)
  let rolled :=
    mkSimulator (width sim) (height sim) (cellSize sim) (speedOfSound sim)
      (airDensity sim) (timeStep sim) (coeff sim) next (pressure sim)
      (pressurePrev sim) (velocityX sim) (velocityY sim) (sources sim) sv
      (dampingFactor sim) (microphoneX sim) (microphoneY sim)
      (maxPressure sim) (energyContent sim) (Some t) (console sim) in
  bind (_calculateVelocity rolled) (fun v =>
  let moved :=
    mkSimulator (width sim) (height sim) (cellSize sim) (speedOfSound sim)
      (airDensity sim) (timeStep sim) (coeff sim) next (pressure sim)
      (pressurePrev sim) (fst v) (snd v) (sources sim) sv
      (dampingFactor sim) (microphoneX sim) (microphoneY sim)
      (maxPressure sim) (energyContent sim) (Some t) (console sim) in
  bind (_updateStats moved) (fun st =>
  Ok (mkSimulator (width sim) (height sim) (cellSize sim) (speedOfSound sim)
        (airDensity sim) (timeStep sim) (coeff sim) next (pressure sim)
        (pressurePrev sim) (fst v) (snd v) (sources sim) sv
        (dampingFactor sim) (microphoneX sim) (microphoneY sim)
        (fst st) (snd st) (Some t) (console sim)))))).

(** [getMicrophoneSignal()]. *)
Definition getMicrophoneSignal (sim : AcousticSimulator) : result num :=
  if _inBounds sim (ofNat (microphoneX sim)) (ofNat (microphoneY sim))
  then getCell (pressure sim) (microphoneY sim) (microphoneX sim)
  else Ok (Fin 0).

(** [reset()]. *)
Definition reset (sim : AcousticSimulator) : AcousticSimulator :=
  let zero := _createGrid sim (Fin 0) in
  mkSimulator (width sim) (height sim) (cellSize sim) (speedOfSound sim)
    (airDensity sim) (timeStep sim) (coeff sim) zero zero zero zero zero
    [] zero (dampingFactor sim) (microphoneX sim) (microphoneY sim)
    (Fin 0) (Fin 0) (Some (Fin 0)) (console sim).

End Solver.

(* ===================================================================== *)
(** ** acousticCore.js: the audio accumulator *)
(* ===================================================================== *)

Module AudioBuffer.

Record AudioBuffer : Type := mkAudioBuffer {
  sampleRate : num;
  samples : list num;
  maxValue : num
}.

(** [new AudioBuffer(sampleRate)]. *)
Definition new (sampleRate : num) : AudioBuffer :=
  {| sampleRate := sampleRate; samples := []; maxValue := Fin 0 |}.

Definition addSample (b : AudioBuffer) (pressure : num) : AudioBuffer :=
  {| sampleRate := sampleRate b;
     samples := samples b ++ [pressure];
     maxValue := nmax (maxValue b) (nabs pressure) |}.

(** [normalize()].  The product [maxValue * 1.1] is exact here; on binary64
    it overflows for a peak above 1.6e308 ([moderate] samples are far
    below). *)
Definition normalize (b : AudioBuffer) : list num :=
  if (maxValue b === Fin 0)%num then samples b
  else map (fun s => (s / (maxValue b * Fin (11 # 10)))%num) (samples b).

Definition clear (b : AudioBuffer) : AudioBuffer :=
  {| sampleRate := sampleRate b; samples := []; maxValue := Fin 0 |}.

(** The buffer after [addSample] was called with each of [ps] in turn. *)
Definition addAll (b : AudioBuffer) (ps : list num) : AudioBuffer :=
  fold_left addSample ps b.

(** [toAudioBuffer()]: [new Float32Array(this.normalize())].  The rounding
    of each number to binary32 is not modelled. *)
Definition toAudioBuffer (b : AudioBuffer) : list num := normalize b.

End AudioBuffer.

(* ===================================================================== *)
(** ** fftAnalyzer.js: the peak finder of the spectral engine *)
(* ===================================================================== *)

(** A stable sort directed by a comparator, as [Array.prototype.sort]:
    [x] goes before the first element that the comparator puts strictly
    after it. *)
Section Sort.

Variable A : Type.
Variable compareFn : A -> A -> num.

Fixpoint insertSorted (x : A) (sorted : list A) : list A :=
  match sorted with
  | [] => [x]
  | y :: rest =>
      if (compareFn x y <? Fin 0)%num then x :: y :: rest
      else y :: insertSorted x rest
  end.

Definition sortBy (xs : list A) : list A :=
  fold_left (fun sorted x => insertSorted x sorted) xs [].

End Sort.

Module FFTAnalyzer.

Record FFTAnalyzer : Type := mkFFTAnalyzer {
  bufferSize : nat;
  magnitude : list num
}.

Record peak : Type := mkPeak {
  binIndex : nat;
  peakMagnitude : num;
  magnitudeDB : num;
  frequency : num
}.

Section WithMath.

Variable M : MathLib.

(** [getMagnitudeDB(index)]; a bin that does not exist reads [undefined],
    which is not [> 0]. *)
Definition getMagnitudeDB (a : FFTAnalyzer) (index : nat) : num :=
  let dB :=
    match nth_error (magnitude a) index with
    | Some mag =>
        if (mag >? Fin 0)%num then (Fin 20 * Math_log10 M mag)%num
        else Fin (-100)
    | None => Fin (-100)
    end in
  nmax dB (Fin (-100)).

(** [getFrequencyForBin(binIndex)], at the default sample rate. *)
Definition getFrequencyForBin (a : FFTAnalyzer) (binIndex : nat) : num :=
  ((ofNat binIndex * Fin 44100) / ofNat (bufferSize a))%num.

(** The inner loop of [findPeaks]: no bin [i + j], [j] from [-minDistance]
    to [minDistance] and not [0], has a dB value above that of bin [i]. *)
Definition isLocalMax (a : FFTAnalyzer) (minDistance i : nat) : bool :=
  forallb
    (fun k =>
       (k =? minDistance)%nat
       || negb (getMagnitudeDB a (i - minDistance + k)
                >? getMagnitudeDB a i)%num)
    (seq 0 (2 * minDistance + 1)).

(** The bins that the loop of [findPeaks] pushes, in the order of the
    loop. *)
Definition peakBins (a : FFTAnalyzer) (threshold : num) (minDistance : nat)
  : list nat :=
  filter
    (fun i => (getMagnitudeDB a i >? threshold)%num
              && isLocalMax a minDistance i)
    (seq minDistance
         (List.length (magnitude a) - minDistance - minDistance)).

Definition peakAt (a : FFTAnalyzer) (i : nat) : peak :=
  {| binIndex := i;
     peakMagnitude := getNum (magnitude a) i;
     magnitudeDB := getMagnitudeDB a i;
     frequency := getFrequencyForBin a i |}.

(** [findPeaks(threshold, minDistance)]. *)
Definition findPeaks (a : FFTAnalyzer) (threshold : num) (minDistance : nat)
  : list peak :=
  sortBy (fun p q => (peakMagnitude q - peakMagnitude p)%num)
         (map (peakAt a) (peakBins a threshold minDistance)).

End WithMath.

(** [getFrequencyForBin(binIndex, sampleRate)], called with a sample
    rate. *)
Definition getFrequencyForBinAt (a : FFTAnalyzer) (binIndex sampleRate : num)
  : num :=
  ((binIndex * sampleRate) / ofNat (bufferSize a))%num.

(** [getBinForFrequency(frequency, sampleRate)]; [Math.round] is the floor
    of the number plus one half. *)
Definition getBinForFrequency (a : FFTAnalyzer) (frequency sampleRate : num)
  : num :=
  nround ((frequency * ofNat (bufferSize a)) / sampleRate)%num.

End FFTAnalyzer.

(* ===================================================================== *)
(** ** The feature extractor and the classifier ([AcousticAnalyzer]) *)
(* ===================================================================== *)

Module Energy.
Record t : Type := mk {
  values : list num;
  mean : num;
  max : num;
  min : num;
  dB : num
}.
End Energy.

Module Segment.
Record t : Type := mk { start : num; end_ : num; duration : num }.
End Segment.

Module Voicing.
Record t : Type := mk {
  frames : list num;
  voicingRatio : num;
  isVoiced : bool;
  voicedSegments : list Segment.t
}.
End Voicing.

Module Pitch.
Record t : Type := mk {
  values : list num;
  mean : num;
  min : num;
  max : num;
  contour : list num
}.
End Pitch.

Module Formant.
(** [bandwidth] is absent from the placeholder [{ frequency: 0, magnitude: 0 }]. *)
Record t : Type := mk {
  frequency : num;
  magnitude : num;
  bandwidth : option num
}.
End Formant.

Module Formants.
Record t : Type := mk {
  f1 : Formant.t;
  f2 : Formant.t;
  f3 : Formant.t;
  allFormants : list Formant.t
}.
End Formants.

Module Centroid.
Record t : Type := mk { centroid : num; brightness : num }.
End Centroid.

Module ZCR.
Record t : Type := mk {
  values : list num;
  mean : num;
  isFricative : bool
}.
End ZCR.

Module MFCC.
Record t : Type := mk { coefficients : list num; spectrum : list num }.
End MFCC.

Module TimePoint.
Record t : Type := mk { time : num; energy : num; sample : num }.
End TimePoint.

Module Quality.
Record t : Type := mk {
  score : Z;
  issues : list string;
  isGood : bool
}.
End Quality.

(** The hints and characteristics are template strings; the ones that
    interpolate a number are kept as the number they print. *)
Inductive hint : Type :=
| HintVoiced
| HintUnvoiced
| HintFricative
| HintF1 (roundedHz : num)
| HintPitch (roundedHz : num).

Inductive pitchText : Type :=
| PitchAbout (roundedHz : num)
| NoPitch.

Module Characteristics.
Record t : Type := mk {
  voicing : string;
  isFricative : bool;
  brightness : string;
  pitch : pitchText;
  energy_dB_toFixed1 : num
}.
End Characteristics.

Module Summary.
Record t : Type := mk {
  soundType : string;
  quality : Quality.t;
  phonemeHints : list hint;
  characteristics : Characteristics.t
}.
End Summary.

Module Features.
Record t : Type := mk {
  duration : num;
  energy : Energy.t;
  voicing : Voicing.t;
  pitch : Pitch.t;
  formants : Formants.t;
  spectralCentroid : Centroid.t;
  zeroCrossingRate : ZCR.t;
  mfcc : MFCC.t;
  timeSeriesData : list TimePoint.t;
  summary : option Summary.t
}.
End Features.

Module AcousticAnalyzer.

(** The Web Audio buffer handed to [analyzeAudio]: [getChannelData(0)] and
    [duration]. *)
Record audioInput : Type := mkAudioInput {
  channelData : list num;
  inputDuration : num
}.

Definition epsilon : num := Fin (1 # 10000000000).

(** [Math.floor(this.sampleRate * 0.025)] and [Math.floor(this.sampleRate *
    0.010)], as counts.  The sample rate is that of an [AudioContext], a
    positive number. *)
Definition frameSizeOf (sampleRate : Q) : nat :=
  Z.to_nat (Qfloor (sampleRate * (25 # 1000))).

Definition hopSizeOf (sampleRate : Q) : nat :=
  Z.to_nat (Qfloor (sampleRate * (10 # 1000))).

(** [for (let i = start; i < limit; i += hop)]: the values [i] takes. *)
Fixpoint frameLoop (fuel i limit hop : nat) : result (list nat) :=
  if (i <? limit)%nat then
    match fuel with
    | O => Diverge
    | S fuel' =>
        bind (frameLoop fuel' (i + hop) limit hop) (fun rest => Ok (i :: rest))
    end
  else Ok [].

(** The starts of the analysis frames:
    [for (let i = 0; i < audioData.length - frameSize; i += hopSize)]. *)
Definition frameStarts (sampleRate : Q) (audioData : list num)
  : result (list nat) :=
  frameLoop (List.length audioData) 0
    (List.length audioData - frameSizeOf sampleRate) (hopSizeOf sampleRate).

(** [audioData.slice(i, i + size)]. *)
Definition slice (audioData : list num) (i size : nat) : list num :=
  firstn size (skipn i audioData).

(** The frames [audioData.slice(i, i + frameSize)]. *)
Definition framesOf (sampleRate : Q) (audioData : list num)
  : result (list (list num)) :=
  bind (frameStarts sampleRate audioData) (fun starts =>
  Ok (map (fun i => slice audioData i (frameSizeOf sampleRate)) starts)).

(** The inner loop of [analyzeEnergy] and its division.  The squares are
    exact here; those of binary32 samples are exact on binary64 too. *)
Definition frameEnergy (audioData : list num) (frameSize i : nat) : num :=
  (fold_left
     (fun sum j =>
        (sum + getNum audioData (i + j) * getNum audioData (i + j))%num)
     (seq 0 frameSize) (Fin 0)
   / ofNat frameSize)%num.

(** The normalised per-frame energies of [analyzeEnergy]. *)
Definition normalizedEnergy (sampleRate : Q) (audioData : list num)
  : result (list num) :=
  bind (frameStarts sampleRate audioData) (fun starts =>
  let energy := map (frameEnergy audioData (frameSizeOf sampleRate)) starts in
  let maxEnergy := maxOf energy in
  Ok (map (fun e => (e / maxEnergy)%num) energy)).

(** [calculateZeroCrossingRate(frame)]. *)
Definition calculateZeroCrossingRate (frame : list num) : num :=
  let crossings :=
    fold_left
      (fun c i =>
         let a := getNum frame i in
         let b := getNum frame (i - 1) in
         if ((a >=? Fin 0)%num && (b <? Fin 0)%num)
            || ((a <? Fin 0)%num && (b >=? Fin 0)%num)
         then S c else c)
      (seq 1 (List.length frame - 1)) O in
  (ofNat crossings / ofNat (List.length frame))%num.

(** [calculateAutocorrelation(frame, lag)].  The products and sums are
    exact here; on binary64 the products of binary32 samples are exact and
    the sums are rounded. *)
Definition calculateAutocorrelation (frame : list num) (lag : nat) : num :=
  let sums :=
    fold_left
      (fun '(numerator, denominator) i =>
         let a := getNum frame i in
         let b := getNum frame (i + lag) in
         ((numerator + a * b)%num, (denominator + (a * a + b * b))%num))
      (seq 0 (List.length frame - lag)) (Fin 0, Fin 0) in
  (nabs (fst sums) / (snd sums + epsilon))%num.

(** [isFrameVoiced(frame)]. *)
Definition isFrameVoiced (frame : list num) : bool :=
  let energy := (sumSquares frame / ofNat (List.length frame))%num in
  if (energy <? Fin (1 # 1000))%num then false
  else if (calculateZeroCrossingRate frame >? Fin (2 # 10))%num then false
  else (calculateAutocorrelation frame 80 >? Fin (5 # 10))%num.

(** [getVoicedSegments(voicingFrames)]: the loop, on
    [(segments, inVoiced, startTime)], and the closing test. *)
Definition frameTime : num := Fin (10 # 1000).

Definition segmentStep (st : list Segment.t * bool * num) (i : nat)
  (frame : num) : list Segment.t * bool * num :=
  let '(segments, inVoiced, startTime) := st in
  let isVoiced := (frame >? Fin 0)%num in
  if isVoiced && negb inVoiced then
    (segments, true, (ofNat i * frameTime)%num)
  else if negb isVoiced && inVoiced then
    (segments
     ++ [Segment.mk startTime (ofNat i * frameTime)%num
           (ofNat i * frameTime - startTime)%num],
     false, startTime)
  else st.

Definition getVoicedSegments (voicingFrames : list num) : list Segment.t :=
  let '(segments, inVoiced, startTime) :=
    fold_left (fun st '(i, f) => segmentStep st i f)
      (combine (seq 0 (List.length voicingFrames)) voicingFrames)
      ([], false, Fin 0) in
  if inVoiced then
    segments
    ++ [Segment.mk startTime
          (ofNat (List.length voicingFrames) * frameTime)%num
          (ofNat (List.length voicingFrames) * frameTime - startTime)%num]
  else segments.

(** [classifySoundType(features)], on the three values it reads. *)
Definition classifySoundType (isVoiced isFricative : bool) (meanPitch : num)
  : string :=
  if negb isVoiced && isFricative then
    "unvoiced fricative (f, s, sh, etc.)"
  else if isVoiced && isFricative then
    "voiced fricative (v, z, zh, etc.)"
  else if negb isVoiced && negb isFricative then
    "unvoiced stop (p, t, k, etc.)"
  else if isVoiced && (meanPitch >? Fin 80)%num then
    "voiced sound (vowel, nasal, or voiced stop)"
  else
    "unknown".

(** [assessQuality(features)], on [features.energy.max]. *)
Definition assessQuality (energyMax : num) : Quality.t :=
  let issues :=
    (if (energyMax <? Fin (3 # 10))%num then ["too quiet"%string] else [])
    ++ (if (energyMax >? Fin (95 # 100))%num
        then ["clipping/distortion"%string] else []) in
  Quality.mk (100 - Z.of_nat (List.length issues) * 20)%Z issues
    (Nat.eqb (List.length issues) 0).

(** [getPhonemeHints(features)]. *)
Definition getPhonemeHints (isVoiced isFricative : bool)
  (f1Frequency meanPitch : num) : list hint :=
  [if isVoiced then HintVoiced else HintUnvoiced]
  ++ (if isFricative then [HintFricative] else [])
  ++ (if (f1Frequency >? Fin 200)%num then [HintF1 (nround f1Frequency)]
      else [])
  ++ (if (meanPitch >? Fin 80)%num && (meanPitch <? Fin 250)%num
      then [HintPitch (nround meanPitch)] else []).

(** The least power of two not below [n], for [n >= 1]: what
    [Math.pow(2, Math.ceil(Math.log2(n)))] denotes.  It is [0] for [n = 0]
    (the logarithm is [-Infinity]). *)
Definition fftSize (n : nat) : nat :=
  match n with
  | O => O
  | _ => Nat.pow 2 (Nat.log2_up n)
  end.

Section WithMath.

Variable M : MathLib.
Variable sampleRate : Q.

(** [analyzeEnergy(audioData)]. *)
Definition analyzeEnergy (audioData : list num) : result Energy.t :=
  bind (normalizedEnergy sampleRate audioData) (fun normalized =>
  bind (reduceSum normalized) (fun total =>
  Ok (Energy.mk normalized
        (total / ofNat (List.length normalized))%num
        (maxOf normalized)
        (minOf normalized)
        (Fin 20 * Math_log10 M (maxOf normalized + epsilon))%num))).

(** [analyzeVoicing(audioData)]. *)
Definition analyzeVoicing (audioData : list num) : result Voicing.t :=
  bind (framesOf sampleRate audioData) (fun frames =>
  let voicingFrames :=
    map (fun frame => if isFrameVoiced frame then Fin 1 else Fin 0) frames in
  bind (reduceSum voicingFrames) (fun total =>
  let voicingRatio := (total / ofNat (List.length voicingFrames))%num in
  Ok (Voicing.mk voicingFrames voicingRatio
        (voicingRatio >? Fin (5 # 10))%num
        (getVoicedSegments voicingFrames)))).

(** [estimatePitch(frame)]: the search over the lags, on
    [(maxCorr, bestLag)], and the division. *)
Definition minLag : nat := Z.to_nat (Qfloor (sampleRate / 400)).
Definition maxLag : nat := Z.to_nat (Qfloor (sampleRate / 50)).

Definition bestLagOf (frame : list num) : nat :=
  snd (fold_left
         (fun '(maxCorr, bestLag) lag =>
            let corr := calculateAutocorrelation frame lag in
            if (corr >? maxCorr)%num then (corr, lag) else (maxCorr, bestLag))
         (seq minLag (maxLag - minLag)) (Fin 0, O)).

Definition estimatePitch (frame : list num) : num :=
  (Fin sampleRate / ofNat (bestLagOf frame))%num.

Definition isValidPitch (p : num) : bool :=
  (p >? Fin 50)%num && (p <? Fin 400)%num.

(** [analyzePitch(audioData)]. *)
Definition analyzePitch (audioData : list num) : result Pitch.t :=
  bind (framesOf sampleRate audioData) (fun frames =>
  let pitchValues :=
    filter (fun pitch => (pitch >? Fin 50)%num) (map estimatePitch frames) in
  let validPitches := filter isValidPitch pitchValues in
  let guarded (f : list num -> result num) : result num :=
    if (0 <? List.length validPitches)%nat then f validPitches
    else Ok (Fin 0) in
  bind (guarded (fun v =>
          bind (reduceSum v) (fun total =>
          Ok (total / ofNat (List.length v))%num))) (fun mean =>
  bind (guarded (fun v => Ok (minOf v))) (fun min =>
  bind (guarded (fun v => Ok (maxOf v))) (fun max =>
  Ok (Pitch.mk pitchValues mean min max validPitches))))).

(** [performFFT(audioData)]: the pairs [(real, imag)]. *)
Definition performFFT (audioData : list num) : list (num * num) :=
  let N := fftSize (List.length audioData) in
  map (fun k =>
         fold_left
           (fun '(real, imag) n =>
              let angle :=
                ((- (Fin 2) * Math_PI * ofNat k * ofNat n) / ofNat N)%num in
              ((real + getNum audioData n * Math_cos M angle)%num,
               (imag + getNum audioData n * Math_sin M angle)%num))
           (seq 0 (List.length audioData)) (Fin 0, Fin 0))
      (seq 0 (Nat.div (N + 1) 2)).

(** [getFFTMagnitude(fft)]. *)
Definition getFFTMagnitude (fft : list (num * num)) : list num :=
  map (fun '(real, imag) =>
         (Math_sqrt M (real * real + imag * imag)
          / ofNat (List.length fft))%num) fft.

(** [getFrequencyBins(length)]. *)
Definition getFrequencyBins (length : nat) : list num :=
  map (fun i => ((ofNat i * Fin sampleRate) / (ofNat length * Fin 2))%num)
      (seq 0 length).

Record spectralPeak : Type := mkSpectralPeak {
  peakFrequency : num;
  peakMagnitude : num;
  peakIndex : nat
}.

(** [findPeaks(magnitude, frequency)], with the default threshold.
    [Math.max(...magnitude)] is the fold [maxOf]: the call is made with one
    argument per bin, which an engine accepts for a [spreadable] spectrum.
    The product [threshold * maxMagnitude] is exact here and rounded on
    binary64. *)
Definition findPeaks (magnitude frequency : list num) : list spectralPeak :=
  let threshold := Fin (1 # 10) in
  let maxMagnitude := maxOf magnitude in
  let peaks :=
    map (fun i =>
           mkSpectralPeak (getNum frequency i) (getNum magnitude i) i)
        (filter
           (fun i =>
              (getNum magnitude i >? threshold * maxMagnitude)%num
              && (getNum magnitude i >? getNum magnitude (i - 1))%num
              && (getNum magnitude i >? getNum magnitude (i + 1))%num)
           (seq 1 (List.length magnitude - 1 - 1))) in
  sortBy (fun a b => (peakMagnitude b - peakMagnitude a)%num) peaks.

(** [xs.findIndex(pred)]. *)
Fixpoint findIndexFrom {A : Type} (pred : A -> bool) (xs : list A) (i : nat)
  : option nat :=
  match xs with
  | [] => None
  | x :: rest => if pred x then Some i else findIndexFrom pred rest (S i)
  end.

(** [estimateBandwidth(magnitude, frequency, peakFreq)]. *)
Definition estimateBandwidth (magnitude frequency : list num) (peakFreq : num)
  : num :=
  match findIndexFrom (fun f => (f >=? peakFreq)%num) frequency 0 with
  | None => Fin 0
  | Some peakIndex =>
      let peakMag := getNum magnitude peakIndex in
      let halfPower := (peakMag / Math_sqrt M (Fin 2))%num in
      let below := fun i => (getNum magnitude i <? halfPower)%num in
      (* for (let i = peakIndex; i > 0; i--): the first i below half power *)
      let lowIndex :=
        match find below (rev (seq 1 peakIndex)) with
        | Some i => i
        | None => peakIndex
        end in
      (* for (let i = peakIndex; i < magnitude.length; i++) *)
      let highIndex :=
        match find below (seq peakIndex (List.length magnitude - peakIndex)) with
        | Some i => i
        | None => peakIndex
        end in
      (getNum frequency highIndex - getNum frequency lowIndex)%num
  end.

Definition noFormant : Formant.t := Formant.mk (Fin 0) (Fin 0) None.

(** [analyzeFormants(audioData)]. *)
Definition analyzeFormants (audioData : list num) : Formants.t :=
  let fft := performFFT audioData in
  let magnitude := getFFTMagnitude fft in
  let frequency := getFrequencyBins (List.length magnitude) in
  let peaks := findPeaks magnitude frequency in
  let formants :=
    map (fun p =>
           Formant.mk (peakFrequency p) (peakMagnitude p)
             (Some (estimateBandwidth magnitude frequency (peakFrequency p))))
        (firstn 3 peaks) in
  Formants.mk (nth 0 formants noFormant) (nth 1 formants noFormant)
    (nth 2 formants noFormant) formants.

(** [analyzeSpectralCentroid(audioData)]. *)
Definition analyzeSpectralCentroid (audioData : list num) : Centroid.t :=
  let fft := performFFT audioData in
  let magnitude := getFFTMagnitude fft in
  let frequency := getFrequencyBins (List.length magnitude) in
  let sums :=
    fold_left
      (fun '(numerator, denominator) i =>
         ((numerator + getNum frequency i * getNum magnitude i)%num,
          (denominator + getNum magnitude i)%num))
      (seq 0 (List.length magnitude)) (Fin 0, Fin 0) in
  let centroid := (fst sums / (snd sums + epsilon))%num in
  Centroid.mk centroid (centroid / (Fin sampleRate / Fin 2))%num.

(** [isFricative(zcrValues)]. *)
Definition isFricative (zcrValues : list num) : result bool :=
  bind (reduceSum zcrValues) (fun total =>
  Ok ((total / ofNat (List.length zcrValues))%num >? Fin (15 # 100))%num).

(** [analyzeZeroCrossingRate(audioData)]. *)
Definition analyzeZeroCrossingRate (audioData : list num) : result ZCR.t :=
  bind (framesOf sampleRate audioData) (fun frames =>
  let zcrValues := map calculateZeroCrossingRate frames in
  bind (reduceSum zcrValues) (fun total =>
  bind (isFricative zcrValues) (fun fricative =>
  Ok (ZCR.mk zcrValues (total / ofNat (List.length zcrValues))%num
        fricative)))).

Definition freqToMel (freq : num) : num :=
  (Fin 2595 * Math_log10 M (Fin 1 + freq / Fin 700))%num.

Definition melToFreq (mel : num) : num :=
  (Fin 700 * (Math_pow M (Fin 10) (mel / Fin 2595) - Fin 1))%num.

(** [applyMelScale(magnitude)]. *)
Definition applyMelScale (magnitude : list num) : list num :=
  let numMels := 40%nat in
  let fmin := Fin 50 in
  let fmax := (Fin sampleRate / Fin 2)%num in
  let melMin := freqToMel fmin in
  let melMax := freqToMel fmax in
  map (fun i =>
         let mel :=
           (melMin + (ofNat i / (ofNat numMels - Fin 1)) * (melMax - melMin))%num in
         let freq := melToFreq mel in
         let binIndex :=
           nfloor (freq / (Fin sampleRate / ofNat (List.length magnitude)))%num in
         getNumAt magnitude
           (nmin binIndex (ofNat (List.length magnitude) - Fin 1)%num))
      (seq 0 numMels).

(** [discreteCosineTransform(input, numCoeffs)]. *)
Definition discreteCosineTransform (input : list num) (numCoeffs : nat)
  : list num :=
  let N := List.length input in
  map (fun k =>
         fold_left
           (fun sum n =>
              (sum + getNum input n
                     * Math_cos M ((Math_PI / ofNat N)
                                   * (ofNat n + Fin (1 # 2)) * ofNat k))%num)
           (seq 0 N) (Fin 0))
      (seq 0 numCoeffs).

(** [analyzeMFCC(audioData)], with the default [numCoeffs]. *)
Definition analyzeMFCC (audioData : list num) (numCoeffs : nat) : MFCC.t :=
  let fft := performFFT audioData in
  let magnitude := getFFTMagnitude fft in
  let melSpectrum := applyMelScale magnitude in
  let logMel := map (fun m => Math_log M (m + epsilon)%num) melSpectrum in
  MFCC.mk (discreteCosineTransform logMel numCoeffs) melSpectrum.

(** [extractTimeSeriesData(audioData)]. *)
Definition extractTimeSeriesData (audioData : list num)
  : result (list TimePoint.t) :=
  let frameSize := 512%nat in
  bind (frameLoop (List.length audioData) 0 (List.length audioData) frameSize)
       (fun starts =>
  Ok (map (fun i =>
             let frame := slice audioData i frameSize in
             let energy := (sumSquares frame / ofNat (List.length frame))%num in
             TimePoint.mk (ofNat i / Fin sampleRate)%num
               (Math_sqrt M energy) (getNum frame 0))
          starts)).

(** [generateSummary(features)]. *)
Definition generateSummary (f : Features.t) : Summary.t :=
  let isVoiced := Voicing.isVoiced (Features.voicing f) in
  let fricative := ZCR.isFricative (Features.zeroCrossingRate f) in
  let meanPitch := Pitch.mean (Features.pitch f) in
  Summary.mk
    (classifySoundType isVoiced fricative meanPitch)
    (assessQuality (Energy.max (Features.energy f)))
    (getPhonemeHints isVoiced fricative
       (Formant.frequency (Formants.f1 (Features.formants f))) meanPitch)
    (Characteristics.mk
       (if isVoiced then "voiced" else "unvoiced")
       fricative
       (if (Centroid.brightness (Features.spectralCentroid f) >? Fin (5 # 10))%num
        then "bright" else "dark")
       (if (meanPitch >? Fin 0)%num then PitchAbout (nround meanPitch)
        else NoPitch)
       (Energy.dB (Features.energy f))).

(** [analyzeAudio(audioBuffer)]: the analyses run in the order of the
    object literal; the first that throws ends the call. *)
Definition analyzeAudio (audioBuffer : audioInput) : result Features.t :=
  let channelData := channelData audioBuffer in
  bind (analyzeEnergy channelData) (fun energy =>
  bind (analyzeVoicing channelData) (fun voicing =>
  bind (analyzePitch channelData) (fun pitch =>
  let formants := analyzeFormants channelData in
  let centroid := analyzeSpectralCentroid channelData in
  bind (analyzeZeroCrossingRate channelData) (fun zcr =>
  let mfcc := analyzeMFCC channelData 13 in
  bind (extractTimeSeriesData channelData) (fun series =>
  let features :=
    Features.mk (inputDuration audioBuffer) energy voicing pitch formants
      centroid zcr mfcc series None in
  Ok (Features.mk (inputDuration audioBuffer) energy voicing pitch formants
        centroid zcr mfcc series (Some (generateSummary features)))))))).

End WithMath.

End AcousticAnalyzer.


(* ===================================================================== *)
(** ** acousticCore.js: [runSimulation] *)
(* ===================================================================== *)

Module Simulation.

(** The [config] object; an absent property is [None] and takes the
    destructuring default. *)
Record config : Type := mkConfig {
  duration : option Q;
  gridWidth : option nat;
  gridHeight : option nat;
  sampleRate : option Q;
  frequency : option num;
  sourceX : option Q;
  sourceY : option Q;
  amplitude : option num;
  sourceType : option string
}.

(** [const { a = d } = config]. *)
Definition dflt {A : Type} (o : option A) (d : A) : A :=
  match o with
  | Some v => v
  | None => d
  end.

(** The object [runSimulation] returns. *)
Record outcome : Type := mkOutcome {
  simulator : Solver.AcousticSimulator;
  audioBuffer : AudioBuffer.AudioBuffer;
  samples : list num;
  outSampleRate : Q
}.

(** The body of the loop: one step at [time = step / sampleRate], and the
    microphone signal appended to the buffer. *)
Definition advance (M : MathLib) (sampleRate : num)
  (st : Solver.AcousticSimulator * AudioBuffer.AudioBuffer) (step : nat)
  : result (Solver.AcousticSimulator * AudioBuffer.AudioBuffer) :=
  let time := (ofNat step / sampleRate)%num in
  bind (Solver.step M (fst st) time) (fun sim =>
  bind (Solver.getMicrophoneSignal sim) (fun signal =>
  Ok (sim, AudioBuffer.addSample (snd st) signal))).

(** [runSimulation(config)].  The grid sizes are counts and the duration
    and the sample rate finite numbers; the products under [Math.floor] are
    exact here, and are the code's when they are binary64 numbers
    ([isFloat64]). *)
Definition runSimulation (M : MathLib) (c : config) : result outcome :=
  let duration := dflt (duration c) 1 in
  let gridWidth := dflt (gridWidth c) 128%nat in
  let gridHeight := dflt (gridHeight c) 128%nat in
  let sampleRate := dflt (sampleRate c) 44100 in
  let frequency := dflt (frequency c) (Fin 440) in
  let sourceX := dflt (sourceX c) (1 # 2) in
  let sourceY := dflt (sourceY c) (1 # 2) in
  let amplitude := dflt (amplitude c) (Fin 1000) in
  let sourceType := dflt (sourceType c) "sine"%string in
  let simulator :=
    Solver.new
      (Solver.mkOptions (Some gridWidth) (Some gridHeight) None None None
         (Some (Fin 1 / Fin sampleRate)%num) None) in
  let audioBuffer := AudioBuffer.new (Fin sampleRate) in
  let simDuration := duration in
  let numSteps := Qfloor (simDuration * sampleRate) in
  let x := Qfloor (sourceX * inject_Z (Z.of_nat gridWidth)) in
  let y := Qfloor (sourceY * inject_Z (Z.of_nat gridHeight)) in
  let simulator :=
    Solver.addSource simulator (inject_Z x) (inject_Z y) frequency amplitude
      sourceType (Fin simDuration) in
  bind (foldM (advance M (Fin sampleRate)) (seq 0 (Z.to_nat numSteps))
          (simulator, audioBuffer)) (fun st =>
  Ok (mkOutcome (fst st) (snd st) (AudioBuffer.toAudioBuffer (snd st))
        sampleRate)).

End Simulation.

(* ===================================================================== *)
(** ** The simulation worker *)
(* ===================================================================== *)

Module Worker.

(** The messages the worker posts. *)
Inductive posted : Type :=
| Initialized (gridWidth gridHeight : nat) (sampleRate : Q)
    (speedOfSound dampingFactor : num)
| ResetDone
| AudioData (samples : list num) (sampleRate : num) (numSamples : nat)
| State (maxPressure energy : num) (totalSteps gridWidth gridHeight : nat)
| Progress (currentStep totalSteps : nat) (maxPressure energy : num)
| Complete (totalSteps : nat) (maxPressure energy audioDuration : num)
| Error (message : string).

(** The [data] of an 'init' message. *)
Record initConfig : Type := mkInitConfig {
  gridWidth : option nat;
  gridHeight : option nat;
  sampleRate : option Q;
  speedOfSound : option num;
  dampingFactor : option num
}.

(** The messages the worker receives; [Other] is a type the [switch] has
    no case for.  A message carries the [data] its handler reads:
    coordinates that are finite numbers, sizes and step counts that are
    whole numbers.  (A message without [data], or with a coordinate that
    is [NaN] or an infinity, is not one of these.) *)
Inductive message : Type :=
| Init (config : initConfig)
| AddSource (x y : Q) (frequency amplitude : num) (type : option string)
    (duration : option num)
| AddStringSource (startX startY endX endY : Q) (frequency amplitude : num)
| AddMembraneSource (centerX centerY : Q) (radius frequency amplitude : num)
    (mode : option num)
| Run (numSteps reportInterval : option nat)
| Reset
| GetAudio
| GetState
| Other.

(** The module's variables, and the messages posted so far, oldest first.
    ([isRunning] is declared and never assigned or read.) *)
Record state : Type := mkState {
  simulator : option Solver.AcousticSimulator;
  audioBuffer : option AudioBuffer.AudioBuffer;
  totalStepsRun : nat;
  outbox : list posted
}.

Definition initial : state := mkState None None 0 [].

Definition post (st : state) (m : posted) : state :=
  mkState (simulator st) (audioBuffer st) (totalStepsRun st)
    (outbox st ++ [m]).

Definition withSimulator (st : state) (sim : Solver.AcousticSimulator)
  : state :=
  mkState (Some sim) (audioBuffer st) (totalStepsRun st) (outbox st).

(** [initializeSimulation(config)]. *)
Definition initializeSimulation (st : state) (config : initConfig) : state :=
  let gridWidth := Simulation.dflt (gridWidth config) 128%nat in
  let gridHeight := Simulation.dflt (gridHeight config) 128%nat in
  let sampleRate := Simulation.dflt (sampleRate config) 44100 in
  let speedOfSound := Simulation.dflt (speedOfSound config) (Fin 343) in
  let dampingFactor :=
    Simulation.dflt (dampingFactor config) (Fin (9995 # 10000)) in
  let simulator :=
    Solver.new
      (Solver.mkOptions (Some gridWidth) (Some gridHeight) None
         (Some speedOfSound) None (Some (Fin 1 / Fin sampleRate)%num)
         (Some dampingFactor)) in
  mkState (Some simulator) (Some (AudioBuffer.new (Fin sampleRate))) 0
    (outbox st
     ++ [Initialized gridWidth gridHeight sampleRate speedOfSound
           dampingFactor]).

(** [error.message]. *)
Definition messageOf (e : jsError) : string :=
  match e with
  | TypeError message => message
  | OutOfRange => "out of range"
  end.

(** The solver after a [step(time)] that threw.  The exception of a solver
    whose grids have its shape comes from [_updateSources]: [this.time] is
    assigned by then, the fields are untouched, and [this.sourceValues] is
    a partly filled grid that the next [_updateSources] replaces before
    anything reads it; the model keeps the one before. *)
Definition interrupted (sim : Solver.AcousticSimulator) (time : num)
  : Solver.AcousticSimulator :=
  Solver.mkSimulator (Solver.width sim) (Solver.height sim)
    (Solver.cellSize sim) (Solver.speedOfSound sim) (Solver.airDensity sim)
    (Solver.timeStep sim) (Solver.coeff sim) (Solver.pressure sim)
    (Solver.pressurePrev sim) (Solver.pressureNext sim)
    (Solver.velocityX sim) (Solver.velocityY sim) (Solver.sources sim)
    (Solver.sourceValues sim) (Solver.dampingFactor sim)
    (Solver.microphoneX sim) (Solver.microphoneY sim)
    (Solver.maxPressure sim) (Solver.energyContent sim) (Some time)
    (Solver.console sim).

(** [(step - startStep + 1) % reportInterval === 0]. *)
Definition reports (step startStep reportInterval : nat) : bool :=
  match reportInterval with
  | O => false
  | _ => Nat.eqb (Nat.modulo (step - startStep + 1) reportInterval) 0
  end.

(** The [try] block of [runSimulation]: the iterations for the steps of
    [steps], then the 'complete' message; an exception ends the loop with
    an 'error' message. *)
Fixpoint runLoop (M : MathLib) (sampleRate : num)
  (startStep numSteps reportInterval : nat) (steps : list nat)
  (sim : Solver.AcousticSimulator) (buffer : AudioBuffer.AudioBuffer)
  (st : state) : result state :=
  match steps with
  | [] =>
      Ok (post (mkState (Some sim) (Some buffer) (totalStepsRun st)
                  (outbox st))
            (Complete (totalStepsRun st) (Solver.maxPressure sim)
               (Solver.energyContent sim)
               (ofNat (totalStepsRun st) / sampleRate)%num))
  | step :: rest =>
      let time := (ofNat step / sampleRate)%num in
      match Solver.step M sim time with
      | Diverge => Diverge
      | Throw e =>
          Ok (post (mkState (Some (interrupted sim time)) (Some buffer)
                      (totalStepsRun st) (outbox st))
                (Error (messageOf e)))
      | Ok sim1 =>
          match Solver.getMicrophoneSignal sim1 with
          | Diverge => Diverge
          | Throw e =>
              Ok (post (mkState (Some sim1) (Some buffer) (totalStepsRun st)
                          (outbox st))
                    (Error (messageOf e)))
          | Ok signal =>
              let buffer1 := AudioBuffer.addSample buffer signal in
              let st1 :=
                mkState (Some sim1) (Some buffer1) (S (totalStepsRun st))
                  (outbox st) in
              let st2 :=
                if reports step startStep reportInterval then
                  post st1
                    (Progress (step + 1) (startStep + numSteps)
                       (Solver.maxPressure sim1) (Solver.energyContent sim1))
                else st1 in
              runLoop M sampleRate startStep numSteps reportInterval rest
                sim1 buffer1 st2
          end
      end
  end.

(** [runSimulation(config)] of the worker. *)
Definition runSimulation (M : MathLib) (st : state)
  (numSteps reportInterval : option nat) : result state :=
  let numSteps := Simulation.dflt numSteps 1000%nat in
  let reportInterval := Simulation.dflt reportInterval 100%nat in
  match simulator st, audioBuffer st with
  | Some sim, Some buffer =>
      let sampleRate := AudioBuffer.sampleRate buffer in
      let startStep := totalStepsRun st in
      runLoop M sampleRate startStep numSteps reportInterval
        (seq startStep numSteps) sim buffer st
  | _, _ => Ok (post st (Error "Simulator not initialized"))
  end.

(** [self.onmessage]. *)
Definition onmessage (M : MathLib) (st : state) (m : message)
  : result state :=
  match m with
  | Init config => Ok (initializeSimulation st config)
  | AddSource x y frequency amplitude type duration =>
      match simulator st with
      | Some sim =>
          Ok (withSimulator st
                (Solver.addSource sim x y frequency amplitude
                   (Simulation.dflt type "sine"%string)
                   (Simulation.dflt duration PInf)))
      | None => Ok st
      end
  | AddStringSource startX startY endX endY frequency amplitude =>
      match simulator st with
      | Some sim =>
          Ok (withSimulator st
                (Solver.addStringSource sim startX startY endX endY
                   frequency amplitude))
      | None => Ok st
      end
  | AddMembraneSource centerX centerY radius frequency amplitude mode =>
      match simulator st with
      | Some sim =>
          Ok (withSimulator st
                (Solver.addMembraneSource sim centerX centerY radius
                   frequency amplitude (Simulation.dflt mode (Fin 0))))
      | None => Ok st
      end
  | Run numSteps reportInterval => runSimulation M st numSteps reportInterval
  | Reset =>
      match simulator st with
      | Some sim =>
          match audioBuffer st with
          | Some buffer =>
              Ok (post (mkState (Some (Solver.reset sim))
                          (Some (AudioBuffer.clear buffer)) 0 (outbox st))
                    ResetDone)
          | None => Throw (TypeError "Cannot read properties of null")
          end
      | None => Ok (post st ResetDone)
      end
  | GetAudio =>
      match audioBuffer st with
      | Some buffer =>
          let audioData := AudioBuffer.toAudioBuffer buffer in
          Ok (post st
                (AudioData audioData (AudioBuffer.sampleRate buffer)
                   (List.length audioData)))
      | None => Ok st
      end
  | GetState =>
      match simulator st with
      | Some sim =>
          Ok (post st
                (State (Solver.maxPressure sim) (Solver.energyContent sim)
                   (totalStepsRun st) (Solver.width sim) (Solver.height sim)))
      | None => Ok st
      end
  | Other => Ok st
  end.

(** The worker after a sequence of messages. *)
Definition handleAll (M : MathLib) (ms : list message) : result state :=
  foldM (onmessage M) ms initial.

End Worker.

(* ===================================================================== *)
(** ** fftAnalyzer.js: the real-time analyzer *)
(* ===================================================================== *)

(* ===================================================================== *)
(** ** Numbers stored in a [Float32Array] *)
(* ===================================================================== *)

(** [floor(log2(q))] of a positive rational. *)
Definition exponentOf (q : Q) : Z :=
  let e := (Z.log2 (Qnum q) - Z.log2 (Zpos (Qden q)))%Z in
  if Qle_bool (2 ^ e) q then e else (e - 1)%Z.

(** The nearest integer, a tie going to the even one. *)
Definition nearestEven (q : Q) : Z :=
  let f := Qfloor q in
  match Qcompare (q - inject_Z f) (1 # 2) with
  | Lt => f
  | Gt => (f + 1)%Z
  | Eq => if Z.even f then f else (f + 1)%Z
  end.

(** [Math.fround(x)]: the binary32 number nearest to [x], ties to even;
    what a [Float32Array] keeps of a number stored in it.  The significand
    has 24 bits, the spacing below 2^-126 stays 2^-149, and a result of
    2^128 or more is an infinity. *)
Definition fround (x : num) : num :=
  match x with
  | Fin q =>
      if Qeq_bool q 0 then Fin 0
      else
        let e := Z.max (exponentOf (Qabs q)) (-126) in
        let ulp := 2 ^ (e - 23) in
        let r := inject_Z (nearestEven (Qabs q / ulp)) * ulp in
        if Qle_bool (2 ^ 128) r then (if Qlt_bool 0 q then PInf else NInf)
        else fin (if Qlt_bool 0 q then r else - r)
  | _ => x
  end.

Module RealtimeAudioAnalyzer.

(** The analyzer: the sample rate of its audio context, the [fftSize] of
    its analyser node, and its two arrays. *)
Record RealtimeAudioAnalyzer : Type := mkRealtimeAudioAnalyzer {
  contextSampleRate : num;
  fftSize : nat;
  dataArray : list Byte.byte;
  magnitude : list num
}.

(** [new RealtimeAudioAnalyzer(audioContext)]: [fftSize] is 2048, and both
    arrays have [frequencyBinCount = fftSize / 2] zeros. *)
Definition new (sampleRate : num) : RealtimeAudioAnalyzer :=
  mkRealtimeAudioAnalyzer sampleRate 2048 (repeat Byte.x00 1024)
    (repeat (Fin 0) 1024).

(** [update()].  [getByteFrequencyData] copies the analyser's current
    spectrum, [spectrum], over the beginning of [dataArray]; each byte is
    then divided by 255 and the quotient stored in the [Float32Array]
    [magnitude], which rounds it to binary32.  (The quotient is rounded to
    binary64 first; for a byte that changes nothing: the binary expansion
    of [b / 255] has period 8, so the quotient is never within 2^-53 of the
    midpoint of two binary32 numbers.) *)
Definition update (a : RealtimeAudioAnalyzer) (spectrum : list Byte.byte)
  : RealtimeAudioAnalyzer :=
  let data :=
    firstn (List.length (dataArray a)) spectrum
    ++ skipn (List.length spectrum) (dataArray a) in
  mkRealtimeAudioAnalyzer (contextSampleRate a) (fftSize a) data
    (map (fun b => fround (ofNat (Byte.to_nat b) / Fin 255)%num)
         (firstn (List.length (magnitude a)) data)
     ++ skipn (List.length data) (magnitude a)).

(** [getFrequencyForBin(binIndex)]. *)
Definition getFrequencyForBin (a : RealtimeAudioAnalyzer) (binIndex : nat)
  : num :=
  ((ofNat binIndex * contextSampleRate a) / ofNat (fftSize a))%num.

Record peak : Type := mkPeak {
  binIndex : nat;
  peakMagnitude : num;
  frequency : num
}.

(** [findPeaks(threshold)]. *)
Definition findPeaks (a : RealtimeAudioAnalyzer) (threshold : num)
  : list peak :=
  let peaks :=
    map (fun i =>
           mkPeak i (getNum (magnitude a) i) (getFrequencyForBin a i))
        (filter
           (fun i =>
              (getNum (magnitude a) i >? threshold)%num
              && (getNum (magnitude a) i >? getNum (magnitude a) (i - 1))%num
              && (getNum (magnitude a) i >? getNum (magnitude a) (i + 1))%num)
           (seq 1 (List.length (magnitude a) - 1 - 1))) in
  sortBy (fun p q => (peakMagnitude q - peakMagnitude p)%num) peaks.

End RealtimeAudioAnalyzer.

(* ===================================================================== *)
(** ** PhoneticsStudio: what is computed from a recording *)
(* ===================================================================== *)

Module PhoneticsStudio.

(** [extractWaveformData(audioData)]: the mean magnitude of each full block
    of 512 samples. *)
Definition extractWaveformData (rawData : list num) : list num :=
  let samples := Nat.div (List.length rawData) 512 in
  map (fun i =>
         (fold_left
            (fun sum j => (sum + nabs (getNum rawData (i * 512 + j)))%num)
            (seq 0 512) (Fin 0)
          / Fin 512)%num)
      (seq 0 samples).

Record candidate : Type := mkCandidate {
  candidatePhoneme : string;
  candidateConfidence : num
}.

Record guess : Type := mkGuess {
  phoneme : string;
  confidence : num;
  alternatives : list candidate
}.

(** [getPhonemeGuessFromFeatures(features)]; [random] is what
    [Math.random()] returns, [currentSymbol] is [currentPhoneme.symbol]. *)
Definition getPhonemeGuessFromFeatures (random : num) (currentSymbol : string)
  (features : Features.t) : guess :=
  let isVoiced := Voicing.isVoiced (Features.voicing features) in
  let isFricative := ZCR.isFricative (Features.zeroCrossingRate features) in
  if negb isVoiced && isFricative then
    mkGuess "f" (Fin (7 # 10) + random * Fin (2 # 10))%num
      [mkCandidate "s" (Fin (25 # 100)); mkCandidate "Œ∏" (Fin (2 # 10));
       mkCandidate " É" (Fin (25 # 100))]
  else if isVoiced && isFricative then
    mkGuess "v" (Fin (65 # 100) + random * Fin (2 # 10))%num
      [mkCandidate "z" (Fin (15 # 100)); mkCandidate "√∞" (Fin (1 # 10))]
  else if negb isVoiced && negb isFricative then
    mkGuess "p" (Fin (6 # 10) + random * Fin (2 # 10))%num
      [mkCandidate "t" (Fin (15 # 100)); mkCandidate "k" (Fin (1 # 10))]
  else if isVoiced && (Pitch.mean (Features.pitch features) >? Fin 80)%num
  then
    if (Formant.frequency (Formants.f1 (Features.formants features))
        >? Fin 300)%num
    then
      mkGuess "a" (Fin (55 # 100) + random * Fin (2 # 10))%num
        [mkCandidate "e" (Fin (15 # 100)); mkCandidate "i" (Fin (1 # 10))]
    else
      mkGuess "m" (Fin (5 # 10) + random * Fin (2 # 10))%num
        [mkCandidate "n" (Fin (2 # 10)); mkCandidate "b" (Fin (1 # 10))]
  else
    mkGuess currentSymbol (Fin (5 # 10) + random * Fin (2 # 10))%num
      [mkCandidate "p" (Fin (15 # 100)); mkCandidate "a" (Fin (1 # 10))].

(** The object given to [setSystemGuess]; the confidences are kept as the
    numbers that [toFixed(2)] prints. *)
Record systemGuess : Type := mkSystemGuess {
  guessedPhoneme : string;
  guessedConfidence : num;
  alternativeGuesses : list candidate;
  acousticHints : option (list hint)
}.

(** [generateSystemGuess(features)]; [random k] is the result of the
    [k]-th call of [Math.random()] since the handler began, and [drawn] the
    number of calls made so far. *)
Definition generateSystemGuess (random : nat -> num) (drawn : nat)
  (currentSymbol : string) (features : option Features.t)
  : result systemGuess :=
  match features with
  | None =>
      Ok (mkSystemGuess currentSymbol
            (Fin (6 # 10) + random drawn * Fin (3 # 10))%num
            [mkCandidate "p"
               (Fin (1 # 10) + random (drawn + 1)%nat * Fin (2 # 10))%num;
             mkCandidate "b"
               (Fin (5 # 100) + random (drawn + 2)%nat * Fin (15 # 100))%num]
            None)
  | Some f =>
      let guess :=
        getPhonemeGuessFromFeatures (random drawn) currentSymbol f in
      match Features.summary f with
      | None => Throw (TypeError "Cannot read properties of undefined")
      | Some summary =>
          Ok (mkSystemGuess (phoneme guess) (confidence guess)
                (alternatives guess) (Some (Summary.phonemeHints summary)))
      end
  end.

(** The analysis in [mediaRecorder.onstop]: [analyzeAudio] and
    [generateSystemGuess] in a [try], the guess without features in the
    [catch]; the latter alone when there is no analyzer.  An exception of
    [analyzeAudio] comes before any call of [Math.random]; one of
    [generateSystemGuess] comes after its one call. *)
Definition guessForRecording (M : MathLib) (sampleRate : Q)
  (hasAnalyzer : bool) (random : nat -> num) (currentSymbol : string)
  (audioData : AcousticAnalyzer.audioInput) : result systemGuess :=
  if hasAnalyzer then
    match AcousticAnalyzer.analyzeAudio M sampleRate audioData with
    | Ok features =>
        match generateSystemGuess random 0 currentSymbol (Some features) with
        | Ok g => Ok g
        | Throw _ => generateSystemGuess random 1 currentSymbol None
        | Diverge => Diverge
        end
    | Throw _ => generateSystemGuess random 0 currentSymbol None
    | Diverge => Diverge
    end
  else generateSystemGuess random 0 currentSymbol None.

End PhoneticsStudio.

(* ===================================================================== *)
(** ** AcousticSimulatorPage: the colour of a cell *)
(* ===================================================================== *)

Module Page.

(** The four numbers [drawPressure] stores for a cell of pressure
    [pressure], red, green, blue and alpha, given [simulator.maxPressure]. *)
Definition pressurePixel (simulatorMaxPressure pressure : num)
  : num * num * num * num :=
  let maxPressure := nmax (Fin 1) simulatorMaxPressure in
  let normalized :=
    nmax (- (Fin 1))%num (nmin (Fin 1) (pressure / maxPressure)%num) in
  if (normalized >? Fin 0)%num then
    (nfloor (Fin 255 * normalized)%num, Fin 0, Fin 0, Fin 255)
  else
    (Fin 0, Fin 0, nfloor (Fin 255 * (- normalized))%num, Fin 255).

End Page.

(* ===================================================================== *)
(** ** The same arithmetic on binary64 *)
(* ===================================================================== *)

(** The lines of [acousticCore.js] and of the feature extractor whose
    result the range or the rounding of binary64 decides, evaluated on
    binary64 numbers: Rocq's primitive floats, which
    round to nearest, ties to even, as JavaScript does.  A decimal literal
    stands for the binary64 number nearest to it, as in the source. *)
Module Binary64.

#[local] Open Scope float_scope.

(** The stability check of the constructor, from [cflNumber] to
    [this.coeff]: the time step the solver keeps, its coefficient (the
    square [Math.pow(_, 2)]), and whether the warning was logged. *)
Record stability : Type := mkStability {
  timeStep : float;
  coeff : float;
  warned : bool
}.

Definition stabilise (speedOfSound timeStep0 cellSize : float) : stability :=
  let cflNumber := (speedOfSound * timeStep0) / cellSize in
  let unstable := 1 <? cflNumber in
  let timeStep :=
    if unstable then (0.9 * cellSize) / speedOfSound else timeStep0 in
  let courant := (speedOfSound * timeStep) / cellSize in
  mkStability timeStep (courant * courant) unstable.

(** [Math.max(x, y)]: [NaN] as soon as an argument is (the sign of a zero
    aside: the arguments here are magnitudes). *)
Definition max (x y : float) : float :=
  if (is_nan x || is_nan y)%bool then nan
  else if x <? y then y else x.

(** [this.maxValue] after [addSample] was called on each of the samples. *)
Definition maxValue (samples : list float) : float :=
  fold_left (fun m pressure => max m (abs pressure)) samples 0.

(** [normalize()] of a buffer that holds the samples. *)
Definition normalize (samples : list float) : list float :=
  if maxValue samples =? 0 then samples
  else map (fun s => s / (maxValue samples * 1.1)) samples.

(** The inner loop of [analyzeEnergy] over one frame, and its division by
    [frameSize]. *)
Definition frameEnergy (frame : list float) (frameSize : float) : float :=
  fold_left (fun sum s => sum + s * s) frame 0 / frameSize.

(** [calculateAutocorrelation(frame, lag)]. *)
Definition calculateAutocorrelation (frame : list float) (lag : nat)
  : float :=
  let sums :=
    fold_left
      (fun '(numerator, denominator) i =>
         let a := nth i frame nan in
         let b := nth (i + lag) frame nan in
         (numerator + a * b, denominator + (a * a + b * b)))
      (seq 0 (List.length frame - lag)) (0, 0) in
  abs (fst sums) / (snd sums + 1e-10).

End Binary64.
(* ===================================================================== *)
(** ** Notions used by the statements *)
(* ===================================================================== *)

(** Every number of the list is finite. *)
Definition allFinite (xs : list num) : Prop :=
  Forall (fun x => isFinite x = true) xs.

(** Descending order of a numeric key. *)
Definition descendingBy {A : Type} (key : A -> num) (a b : A) : Prop :=
  (key a >=? key b)%num = true.

(** A grid of [h] rows of [w] cells. *)
Definition hasShape (h w : nat) (g : Solver.grid) : Prop :=
  List.length g = h /\ Forall (fun row => List.length row = w) g.

(** The cell [g[y][x]] of a grid. *)
Definition cellOf (g : Solver.grid) (y x : nat) : num :=
  nth x (nth y g []) (Fin 0).

(** [g[y][x] = f(g[y][x])]. *)
Definition updCell (g : Solver.grid) (y x : nat) (f : num -> num)
  : Solver.grid :=
  updNth y (updNth x f) g.

(** The grid whose cell [(y, x)] is [val y x]. *)
Definition tabulate (h w : nat) (val : nat -> nat -> num) : Solver.grid :=
  map (fun y => map (val y) (seq 0 w)) (seq 0 h).

(** The five grids of a solver have the shape of its grid. *)
Definition wellFormed (sim : Solver.AcousticSimulator) : Prop :=
  hasShape (Solver.height sim) (Solver.width sim) (Solver.pressure sim)
  /\ hasShape (Solver.height sim) (Solver.width sim) (Solver.pressurePrev sim)
  /\ hasShape (Solver.height sim) (Solver.width sim) (Solver.pressureNext sim)
  /\ hasShape (Solver.height sim) (Solver.width sim) (Solver.velocityX sim)
  /\ hasShape (Solver.height sim) (Solver.width sim) (Solver.velocityY sim).

(** The specification's reading of the boundary: the grid continued by
    zero pressure in every direction. *)
Definition padded (h w : nat) (g : Solver.grid) (y x : Z) : num :=
  if ((0 <=? y) && (y <? Z.of_nat h) && (0 <=? x) && (x <? Z.of_nat w))%Z
  then cellOf g (Z.to_nat y) (Z.to_nat x)
  else Fin 0.

(** The five-point stencil on the continued grid. *)
Definition paddedLaplacian (h w : nat) (g : Solver.grid) (x y : nat) : num :=
  (padded h w g (Z.of_nat y - 1) (Z.of_nat x)
   + padded h w g (Z.of_nat y + 1) (Z.of_nat x)
   + padded h w g (Z.of_nat y) (Z.of_nat x - 1)
   + padded h w g (Z.of_nat y) (Z.of_nat x + 1)
   - Fin 4 * padded h w g (Z.of_nat y) (Z.of_nat x))%num.

(** The new pressure of a cell. *)
Definition nextPressure (sim : Solver.AcousticSimulator) (sv : Solver.grid)
  (y x : nat) : num :=
  ((Fin 2 * cellOf (Solver.pressure sim) y x
    - cellOf (Solver.pressurePrev sim) y x
    + Solver.coeff sim
      * paddedLaplacian (Solver.height sim) (Solver.width sim)
          (Solver.pressure sim) x y
    + cellOf sv y x)
   * Solver.dampingFactor sim)%num.

(** The forward differences of a pressure grid, 0 on the far edges. *)
Definition differenceX (w : nat) (p : Solver.grid) (y x : nat) : num :=
  if (x <? w - 1)%nat then (cellOf p y (x + 1) - cellOf p y x)%num
  else Fin 0.

Definition differenceY (h : nat) (p : Solver.grid) (y x : nat) : num :=
  if (y <? h - 1)%nat then (cellOf p (y + 1) x - cellOf p y x)%num
  else Fin 0.

Definition velocityOf (sim : Solver.AcousticSimulator) (difference : num)
  : num :=
  (- difference / (Solver.airDensity sim * Solver.cellSize sim))%num.

(** The cells of a grid, row after row. *)
Definition cellsOf (h w : nat) (g : Solver.grid) : list num :=
  flat_map (fun y => map (cellOf g y) (seq 0 w)) (seq 0 h).

(** [maxPressure] as [_updateStats] computes it from a pressure grid. *)
Definition maxAbs (h w : nat) (p : Solver.grid) : num :=
  fold_left (fun m v => nmax m (nabs v)) (cellsOf h w p) (Fin 0).

(** The velocities that [_calculateVelocity] stores. *)
Definition velocityXAt (sim : Solver.AcousticSimulator) (y x : nat) : num :=
  velocityOf sim (differenceX (Solver.width sim) (Solver.pressure sim) y x).

Definition velocityYAt (sim : Solver.AcousticSimulator) (y x : nat) : num :=
  velocityOf sim (differenceY (Solver.height sim) (Solver.pressure sim) y x).

(** What a cell adds to [energyContent]. *)
Definition energyTerm (sim : Solver.AcousticSimulator) (vx vy : Solver.grid)
  (y x : nat) : num :=
  let p := nabs (cellOf (Solver.pressure sim) y x) in
  (p * p
   + Fin (1 # 2) * Solver.airDensity sim
     * (cellOf vx y x * cellOf vx y x + cellOf vy y x * cellOf vy y x))%num.

(** A finite number whose value is an integer. *)
Definition integral (v : num) : Prop :=
  exists q z, v = Fin q /\ q == inject_Z z.

(** The sources whose evaluation is shown to end without error: every
    point and string source, and the membranes whose radius is an integer,
    negative, [-Infinity] or [NaN]. *)
Definition evaluable (s : Solver.source) : bool :=
  match s with
  | Solver.MembraneSource _ _ radius _ _ _ _ _ =>
      match radius with
      | Fin r => Qlt_bool r 0 || Qeq_bool r (inject_Z (Qfloor r))
      | PInf => false
      | _ => true
      end
  | _ => true
  end.

(** Every cell of the grid is finite, of magnitude at most [B]. *)
Definition boundedBy (h w : nat) (g : Solver.grid) (B : Q) : Prop :=
  forall y x, (y < h)%nat -> (x < w)%nat ->
              exists q, cellOf g y x = Fin q /\ Qabs q <= B.


(* ===================================================================== *)
(** ** The inputs on which the exact numbers stand for binary64 *)
(* ===================================================================== *)

(** The odd part of a positive number, and how often 2 divides it. *)
Fixpoint oddPart (p : positive) : positive :=
  match p with
  | xO p' => oddPart p'
  | _ => p
  end.

Fixpoint twos (p : positive) : nat :=
  match p with
  | xO p' => S (twos p')
  | _ => O
  end.

(** A finite binary32 number, the kind of number a [Float32Array] holds:
    [m * 2^e] with [|m| < 2^24], [e >= -149] and a magnitude below 2^128.
    In lowest terms that is a denominator [2^k] with [k <= 149] and a
    numerator whose odd part is below 2^24. *)
Definition isFloat32 (x : num) : bool :=
  match x with
  | Fin q =>
      match Qnum (Qred q) with
      | Z0 => true
      | Zpos n | Zneg n =>
          Pos.eqb (oddPart (Qden (Qred q))) 1
          && (twos (Qden (Qred q)) <=? 149)%nat
          && (Zpos (oddPart n) <? 2 ^ 24)%Z
          && (Zpos n <? 2 ^ 128 * Zpos (Qden (Qred q)))%Z
      end
  | _ => false
  end.

(** A finite binary64 number: 53 bits, spacing 2^-1074 at the least,
    magnitude below 2^1024.  A sum, difference or product of binary64
    numbers that is one itself is computed exactly. *)
Definition isFloat64 (x : num) : bool :=
  match x with
  | Fin q =>
      match Qnum (Qred q) with
      | Z0 => true
      | Zpos n | Zneg n =>
          Pos.eqb (oddPart (Qden (Qred q))) 1
          && (twos (Qden (Qred q)) <=? 1074)%nat
          && (Zpos (oddPart n) <? 2 ^ 53)%Z
          && (Zpos n <? 2 ^ 1024 * Zpos (Qden (Qred q)))%Z
      end
  | _ => false
  end.

(** The samples of [getChannelData]: a [Float32Array]. *)
Definition float32Array (xs : list num) : Prop :=
  forallb isFloat32 xs = true.

(** A positive number between 2^-100 and 2^100: products and quotients of
    three such numbers, and their squares, are far from the overflow and
    the underflow of binary64. *)
Definition midRange (q : Q) : bool :=
  Qle_bool (2 ^ (-100)) q && Qle_bool q (2 ^ 100).

(** Zero, or a finite number of magnitude between 2^-500 and 2^500: the
    quotient of two such numbers, and 1.1 times one, are binary64 numbers
    up to rounding. *)
Definition moderate (x : num) : bool :=
  match x with
  | Fin q =>
      Qeq_bool q 0
      || (Qle_bool (2 ^ (-500)) (Qabs q) && Qle_bool (Qabs q) (2 ^ 500))
  | _ => false
  end.

Definition moderateSamples (xs : list num) : Prop :=
  forallb moderate xs = true.

(** Coordinates and radii up to 2^15: the loops over them count in
    integers that binary64 holds exactly, and the cells they collect fit in
    an array. *)
Definition reach : Z := 2 ^ 15.

Definition inReach (z : Z) : bool := (Z.abs z <=? reach)%Z.

(** A source whose loops count within reach: the end points of a string,
    the centre of a membrane and its radius (a negative radius, [NaN] and
    [-Infinity] leave the loops empty). *)
Definition withinReach (s : Solver.source) : bool :=
  match s with
  | Solver.StringSource startX startY endX endY _ _ _ _ =>
      inReach startX && inReach startY && inReach endX && inReach endY
  | Solver.MembraneSource centerX centerY radius _ _ _ _ _ =>
      inReach centerX && inReach centerY
      && match radius with
         | Fin r => Qle_bool r (inject_Z reach)
         | PInf => false
         | _ => true
         end
  | Solver.PointSource _ _ _ _ _ _ _ _ => true
  end.

(** The time since the source was registered is a binary64 number: the
    subtraction [time - source.startTime] is exact, as it is for a source
    registered at time 0. *)
Definition exactElapsed (time : num) (s : Solver.source) : bool :=
  isFloat64 (time - Solver.startTimeOf s)%num.

(** A coordinate, before [Math.floor], within reach. *)
Definition coordinate (x : Q) : bool :=
  Qle_bool (- inject_Z reach) x && Qle_bool x (inject_Z reach).

(** A grid size that [Array] accepts and a room that fits in memory: the
    property is absent, or a whole number from 0 to 1024 ([0] and [NaN]
    give way to the default). *)
Definition roomSize (n : option num) : bool :=
  match n with
  | None | Some NaN => true
  | Some (Fin a) =>
      Qeq_bool a (inject_Z (Qfloor a)) && Qle_bool 0 a && Qle_bool a 1024
  | Some _ => false
  end.

(** The same for a size that is a count. *)
Definition roomCount (n : option nat) : bool :=
  match n with
  | None => true
  | Some k => (k <=? 1024)%nat
  end.

(** An array short enough to be spread into the arguments of one call
    ([Math.max(...xs)]): at most 65536 elements.  Engines refuse a call
    with too many arguments by a [RangeError]; the bound differs between
    them and is above this one. *)
Definition spreadable {A : Type} (xs : list A) : bool :=
  (Z.of_nat (List.length xs) <=? 65536)%Z.

(** A number of steps whose samples fit in one array: at most 2^24 (about
    six minutes at 44100 Hz). *)
Definition bufferLimit : Z := 2 ^ 24.

(* ===================================================================== *)
(** ** Further notions used by the statements *)
(* ===================================================================== *)

(** [+Infinity] or [NaN]: what a sum of squares is when a term is not
    finite. *)
Definition heavy (x : num) : Prop := x = PInf \/ x = NaN.

(** The two running sums of an autocorrelation: finite with
    [2 |numerator| <= denominator], or a denominator that left the finite
    numbers. *)
Definition balanced (numerator denominator : num) : Prop :=
  (exists qn qd, numerator = Fin qn /\ denominator = Fin qd
                 /\ 2 * Qabs qn <= qd)
  \/ heavy denominator.

(** Two distinct lattice cells that touch by a side or by a corner. *)
Definition kingMove (p q : Z * Z) : Prop :=
  (Z.abs (fst q - fst p) <= 1)%Z /\ (Z.abs (snd q - snd p) <= 1)%Z /\ p <> q.

(** Every cell of the list is a king's move away from the one before. *)
Fixpoint stepwise (cells : list (Z * Z)) : Prop :=
  match cells with
  | p :: (q :: _) as rest => kingMove p q /\ stepwise rest
  | _ => True
  end.

(** The cell lies in the rectangle spanned by the two corners. *)
Definition inBox (x0 y0 x1 y1 : Z) (p : Z * Z) : Prop :=
  (Z.min x0 x1 <= fst p <= Z.max x0 x1)%Z
  /\ (Z.min y0 y1 <= snd p <= Z.max y0 y1)%Z.

(** A point source that [_updateSources] passes without writing a cell:
    its type is neither 'sine' nor 'point', or its cell is outside the
    grid. *)
Definition silent (sim : Solver.AcousticSimulator) (s : Solver.source)
  : bool :=
  match s with
  | Solver.PointSource x y _ _ type _ _ _ =>
      negb (String.eqb type "sine" || String.eqb type "point")
      || negb (Solver._inBounds sim (ofZ x) (ofZ y))
  | _ => false
  end.

(** The pressure field and the one before it are zero everywhere. *)
Definition atRest (sim : Solver.AcousticSimulator) : Prop :=
  Solver.pressure sim = Solver._createGrid sim (Fin 0)
  /\ Solver.pressurePrev sim = Solver._createGrid sim (Fin 0).

(** [step] called at each of the times in turn. *)
Definition stepAll (M : MathLib) (sim : Solver.AcousticSimulator)
  (times : list num) : result Solver.AcousticSimulator :=
  foldM (Solver.step M) times sim.

(** A solver whose grids have its shape and whose microphone is a cell of
    the grid. *)
Definition ready (sim : Solver.AcousticSimulator) : Prop :=
  wellFormed sim
  /\ (Solver.microphoneX sim < Solver.width sim)%nat
  /\ (Solver.microphoneY sim < Solver.height sim)%nat.

(** Every source but a membrane of radius [+Infinity], whose loops do not
    end. *)
Definition bounded (s : Solver.source) : bool :=
  match s with
  | Solver.MembraneSource _ _ PInf _ _ _ _ _ => false
  | _ => true
  end.

(** The messages of a session that keeps within the rooms and the
    coordinates above: an 'init' for a room of at most 1024 cells a side,
    strings and membranes whose coordinates and radius are within reach. *)
Definition tame (m : Worker.message) : bool :=
  match m with
  | Worker.Init config =>
      roomCount (Worker.gridWidth config)
      && roomCount (Worker.gridHeight config)
  | Worker.AddStringSource startX startY endX endY _ _ =>
      coordinate startX && coordinate startY
      && coordinate endX && coordinate endY
  | Worker.AddMembraneSource centerX centerY radius _ _ _ =>
      coordinate centerX && coordinate centerY
      && match radius with
         | Fin r => Qle_bool r (inject_Z reach)
         | PInf => false
         | _ => true
         end
  | _ => true
  end.

(** The steps a message asks for, and those of a session. *)
Definition stepsAsked (m : Worker.message) : nat :=
  match m with
  | Worker.Run numSteps _ => Simulation.dflt numSteps 1000%nat
  | _ => O
  end.

Definition sessionSteps (ms : list Worker.message) : nat :=
  fold_right (fun m total => (stepsAsked m + total)%nat) O ms.

(** The worker's variables agree: the solver and the buffer are there
    together, and the buffer holds one sample per step counted. *)
Definition consistent (st : Worker.state) : Prop :=
  match Worker.simulator st, Worker.audioBuffer st with
  | Some sim, Some buffer =>
      ready sim
      /\ List.length (AudioBuffer.samples buffer) = Worker.totalStepsRun st
      /\ forall s, In s (Solver.sources sim) -> withinReach s = true
  | None, None => Worker.totalStepsRun st = 0%nat
  | _, _ => False
  end.

(** The bins that exceed a level and both their neighbours: the test of
    the two peak finders that compare a bin with the bins next to it. *)
Definition strictPeakBins (m : list num) (level : num) : list nat :=
  filter
    (fun i =>
       (getNum m i >? level)%num
       && (getNum m i >? getNum m (i - 1))%num
       && (getNum m i >? getNum m (i + 1))%num)
    (seq 1 (List.length m - 1 - 1)).

(** A finite number between 0 and 1. *)
Definition unitRange (v : num) : Prop :=
  exists q, v = Fin q /\ 0 <= q <= 1.

(** The step counts of a 'progress' message. *)
Definition reported (m : Worker.posted) : option (nat * nat) :=
  match m with
  | Worker.Progress currentStep totalSteps _ _ =>
      Some (currentStep, totalSteps)
  | _ => None
  end.

(** The cell of a point source. *)
Definition pointCell (s : Solver.source) : option (Z * Z) :=
  match s with
  | Solver.PointSource x y _ _ _ _ _ _ => Some (x, y)
  | _ => None
  end.

(** The cell [(y, x)] is at least [k] moves along the grid axes away from
    every point source of the list. *)
Definition beyond (k : nat) (srcs : list Solver.source) (y x : nat) : Prop :=
  forall s sx sy,
    In s srcs -> pointCell s = Some (sx, sy) ->
    (Z.of_nat k <= Z.abs (Z.of_nat x - sx) + Z.abs (Z.of_nat y - sy))%Z.

(** The maximal runs of voiced frames, as pairs [(first, past-the-last)] of
    frame indices: [k] is the index of the first frame of the list, [open]
    the start of a run that is under way. *)
Fixpoint runsFrom (open : option nat) (k : nat) (frames : list num)
  : list (nat * nat) :=
  match frames with
  | [] =>
      match open with
      | Some i => [(i, k)]
      | None => []
      end
  | f :: rest =>
      if (f >? Fin 0)%num then
        runsFrom (match open with Some i => Some i | None => Some k end)
          (S k) rest
      else
        match open with
        | Some i => (i, k) :: runsFrom None (S k) rest
        | None => runsFrom None (S k) rest
        end
  end.

(** The segment that spans the frames of a run, 10 ms per frame. *)
Definition segmentOf (run : nat * nat) : Segment.t :=
  Segment.mk (ofNat (fst run) * AcousticAnalyzer.frameTime)%num
    (ofNat (snd run) * AcousticAnalyzer.frameTime)%num
    (ofNat (snd run) * AcousticAnalyzer.frameTime
     - ofNat (fst run) * AcousticAnalyzer.frameTime)%num.

(** The number of frames of the runs. *)
Definition framesIn (runs : list (nat * nat)) : nat :=
  fold_right (fun run total => (snd run - fst run + total)%nat) 0%nat runs.

(** The runs follow each other with a gap: each starts at [lo] or later,
    is not empty, and the next one starts past its end. *)
Fixpoint spaced (lo : nat) (runs : list (nat * nat)) : Prop :=
  match runs with
  | [] => True
  | (i, j) :: rest => (lo <= i < j)%nat /\ spaced (S j) rest
  end.
(* ===================================================================== *)
(** ** Example inputs *)
(* ===================================================================== *)

Module Examples.

(** A request whose Courant number is 34.3. *)
Definition unstableRequest : Solver.options :=
  Solver.mkOptions (Some 2%nat) (Some 2%nat) (Some (Fin (1 # 100)))
    (Some (Fin 343)) None (Some (Fin (1 # 1000))) None.

(** 201 samples at 8000 Hz (the frame is 200 samples, the hop 80): silence
    with one full-scale sample at the very end. *)
Definition quietTail : list num := repeat (Fin 0) 200 ++ [Fin 1].

(** 201 samples at 8000 Hz, all of the small value 0.01. *)
Definition faintClip : list num := repeat (Fin (1 # 100)) 201.

(** 201 samples at 8000 Hz, all of the binary32 value 2^-7. *)
Definition softClip : list num := repeat (Fin (1 # 128)) 201.

(** An analyzer whose three bins are all zero, as they are before the
    first call of [analyze] or after analysing silence. *)
Definition flatSpectrum : FFTAnalyzer.FFTAnalyzer :=
  FFTAnalyzer.mkFFTAnalyzer 6 [Fin 0; Fin 0; Fin 0].

(** Five bins with a single line in the middle. *)
Definition lineSpectrum : FFTAnalyzer.FFTAnalyzer :=
  FFTAnalyzer.mkFFTAnalyzer 10 [Fin 0; Fin 0; Fin (1 # 2); Fin 0; Fin 0].

(** A solver on a single cell, with the default physics: the Courant number
    is 0.343, the damping factor 0.9995. *)
Definition tinyRoom : Solver.AcousticSimulator :=
  Solver.new
    (Solver.mkOptions (Some 1%nat) (Some 1%nat) None None None None None).

(** The same with a sine source of 0.25 Hz registered at time 0 for a
    duration of 1 s. *)
Definition timedRoom : Solver.AcousticSimulator :=
  Solver.addSource tinyRoom 0 0 (Fin (1 # 4)) (Fin 1000) "sine" (Fin 1).

(** A solver on the minimal 2 x 2 grid. *)
Definition smallRoom : Solver.AcousticSimulator :=
  Solver.new
    (Solver.mkOptions (Some 2%nat) (Some 2%nat) None None None None None).

(** The 2 x 2 solver with its field at rest at pressure 1, no source. *)
Definition restingRoom : Solver.AcousticSimulator :=
  let one := Solver._createGridOf 2 2 (Fin 1) in
  Solver.mkSimulator 2 2 (Solver.cellSize smallRoom)
    (Solver.speedOfSound smallRoom) (Solver.airDensity smallRoom)
    (Solver.timeStep smallRoom) (Solver.coeff smallRoom)
    one one (Solver.pressureNext smallRoom) (Solver.velocityX smallRoom)
    (Solver.velocityY smallRoom) [] (Solver.sourceValues smallRoom)
    (Solver.dampingFactor smallRoom) 1 1 (Fin 1) (Fin 4) None [].

End Examples.


(* ===================================================================== *)
(** ** Further example inputs *)
(* ===================================================================== *)

Module Clips.

(** 321 samples at 8000 Hz of a full-scale square wave of period 80
    samples: a 100 Hz tone. *)
Definition squareWave : list num :=
  flat_map (fun _ : nat => repeat (Fin 1) 40 ++ repeat (Fin (-1)) 40)
    (seq 0 4)
  ++ [Fin 1].

End Clips.

Module Rooms.

(** The 2 x 2 solver with the source the page registers when 'Square Wave'
    is chosen: type 'square', 440 Hz, amplitude 1000, duration 100 s. *)
Definition squareRoom : Solver.AcousticSimulator :=
  Solver.addSource Examples.smallRoom 0 0 (Fin 440) (Fin 1000) "square"
    (Fin 100).

(** A quarter of a second at 8 Hz in a 2 x 2 room: two steps. *)
Definition shortRun : Simulation.config :=
  Simulation.mkConfig (Some (1 # 4)) (Some 2%nat) (Some 2%nat) (Some 8)
    None None None None None.

End Rooms.

Module Sessions.

(** A session of the worker: a 4 x 4 room, a point source, three steps
    with a report every second step, the audio fetched, a reset, a string
    and a membrane of fractional radius, and a run with the defaults. *)
Definition session : list Worker.message :=
  [Worker.Init
     (Worker.mkInitConfig (Some 4%nat) (Some 4%nat) None None None);
   Worker.AddSource 1 1 (Fin 440) (Fin 1000) None None;
   Worker.Run (Some 3%nat) (Some 2%nat);
   Worker.GetAudio;
   Worker.Reset;
   Worker.AddStringSource 0 0 3 2 (Fin 220) (Fin 10);
   Worker.AddMembraneSource 2 2 (Fin (3 # 2)) (Fin 110) (Fin 10) None;
   Worker.Run None None;
   Worker.GetState].

End Sessions.

Module Fields.

(** A 4 x 4 room with a sine source in its corner. *)
Definition cornerRoom : Solver.AcousticSimulator :=
  Solver.addSource
    (Solver.new
       (Solver.mkOptions (Some 4%nat) (Some 4%nat) None None None None None))
    0 0 (Fin 440) (Fin 1000) "sine" PInf.

(** The worker once initialised on the 2 x 2 room, before any step. *)
Definition idleWorker : Worker.state :=
  Worker.mkState (Some Examples.smallRoom)
    (Some (AudioBuffer.new (Fin 44100))) 0 [].

(** A 4 x 4 room with a string from its corner to the cell (3, 2). *)
Definition stringRoom : Solver.AcousticSimulator :=
  Solver.addStringSource
    (Solver.new
       (Solver.mkOptions (Some 4%nat) (Some 4%nat) None None None None None))
    0 0 3 2 (Fin 220) (Fin 10).

End Fields.
(* ===================================================================== *)
(** * Properties *)
(* ===================================================================== *)

(** ** Numbers *)

Lemma Qlt_bool_iff (a b : Q) : Qlt_bool a b = true <-> a < b.
Proof.
  unfold Qlt_bool. rewrite negb_true_iff.
  split; intro H.
  - apply Qnot_le_lt. intro L. apply Qle_bool_iff in L. congruence.
  - destruct (Qle_bool b a) eqn:E; [|reflexivity].
    apply Qle_bool_iff in E. exfalso. apply (Qlt_not_le _ _ H E).
Qed.

Lemma Qlt_bool_false_iff (a b : Q) : Qlt_bool a b = false <-> b <= a.
Proof.
  unfold Qlt_bool. rewrite negb_false_iff. apply Qle_bool_iff.
Qed.

Lemma Qle_bool_false_iff (a b : Q) : Qle_bool a b = false <-> b < a.
Proof.
  rewrite <- Qlt_bool_iff. unfold Qlt_bool.
  destruct (Qle_bool a b); simpl; split; congruence.
Qed.

Lemma Qeq_bool_false_iff (a b : Q) : Qeq_bool a b = false <-> ~ a == b.
Proof.
  split; intro H.
  - apply Qeq_bool_neq. exact H.
  - destruct (Qeq_bool a b) eqn:E; [|reflexivity].
    apply Qeq_bool_iff in E. contradiction.
Qed.

Lemma fin_eq (a b : Q) : a == b -> fin a = fin b.
Proof. intro H. unfold fin. f_equal. apply Qred_complete. exact H. Qed.

Lemma nlt_Fin (a b : Q) : (Fin a <? Fin b)%num = true <-> a < b.
Proof. apply Qlt_bool_iff. Qed.

Lemma nle_Fin (a b : Q) : (Fin a <=? Fin b)%num = true <-> a <= b.
Proof. apply Qle_bool_iff. Qed.

Lemma ngt_Fin (a b : Q) : (Fin a >? Fin b)%num = true <-> b < a.
Proof. apply Qlt_bool_iff. Qed.

Lemma nge_Fin (a b : Q) : (Fin a >=? Fin b)%num = true <-> b <= a.
Proof. apply Qle_bool_iff. Qed.

Lemma ndiv_Fin (a b : Q) : ~ b == 0 -> (Fin a / Fin b)%num = fin (a / b).
Proof.
  intro H. simpl. apply Qeq_bool_false_iff in H. rewrite H. reflexivity.
Qed.

Lemma isFinite_Fin (x : num) : isFinite x = true -> exists q, x = Fin q.
Proof. destruct x; simpl; try discriminate. intros _. eauto. Qed.

(* ===================================================================== *)
(** ** The classifier *)
(* ===================================================================== *)

(** C9, with the labels the code returns.  [classifySoundType] is the
    decision table over [isVoiced], [isFricative] and [meanPitch]: unvoiced
    and fricative gives 'unvoiced fricative (f, s, sh, etc.)', voiced and
    fricative 'voiced fricative (v, z, zh, etc.)', unvoiced and not
    fricative 'unvoiced stop (p, t, k, etc.)', voiced (not fricative) with a
    mean pitch above 80 'voiced sound (vowel, nasal, or voiced stop)', and
    anything else 'unknown'.  The summary of a feature record takes its
    label from that table, and each label begins with the short name of its
    row. *)
Theorem classifySoundType_table :
  (forall pitch,
      AcousticAnalyzer.classifySoundType false true pitch
      = "unvoiced fricative (f, s, sh, etc.)"%string)
  /\ (forall pitch,
      AcousticAnalyzer.classifySoundType true true pitch
      = "voiced fricative (v, z, zh, etc.)"%string)
  /\ (forall pitch,
      AcousticAnalyzer.classifySoundType false false pitch
      = "unvoiced stop (p, t, k, etc.)"%string)
  /\ (forall pitch,
      AcousticAnalyzer.classifySoundType true false pitch
      = if (pitch >? Fin 80)%num
        then "voiced sound (vowel, nasal, or voiced stop)"%string
        else "unknown"%string)
  /\ (forall f,
      Summary.soundType (AcousticAnalyzer.generateSummary f)
      = AcousticAnalyzer.classifySoundType
          (Voicing.isVoiced (Features.voicing f))
          (ZCR.isFricative (Features.zeroCrossingRate f))
          (Pitch.mean (Features.pitch f)))
  /\ (forall voiced fricative pitch,
      existsb
        (fun label =>
           String.prefix label
             (AcousticAnalyzer.classifySoundType voiced fricative pitch))
        ["unvoiced fricative"; "voiced fricative"; "unvoiced stop";
         "voiced sound"; "unknown"]%string
      = true).
Proof.
  repeat split; intros; try reflexivity.
  destruct voiced, fricative; try reflexivity.
  unfold AcousticAnalyzer.classifySoundType. cbn [negb andb].
  destruct (pitch >? Fin 80)%num; reflexivity.
Qed.

(** C9 as stated quotes labels the code does not return: each of the first
    three rows of the table gives its short name followed by a list of
    examples in parentheses. *)
Lemma classifySoundType_labels_carry_examples :
  AcousticAnalyzer.classifySoundType false true (Fin 0)
  <> "unvoiced fricative"%string
  /\ AcousticAnalyzer.classifySoundType true true (Fin 0)
     <> "voiced fricative"%string
  /\ AcousticAnalyzer.classifySoundType false false (Fin 0)
     <> "unvoiced stop"%string.
Proof.
  repeat split; intro H; discriminate H.
Qed.

(* ===================================================================== *)
(** ** The audio accumulator *)
(* ===================================================================== *)

Lemma addAll_samples (ps : list num) :
  forall b,
    AudioBuffer.samples (AudioBuffer.addAll b ps) = AudioBuffer.samples b ++ ps.
Proof.
  induction ps as [|p ps IH]; intro b.
  - simpl. now rewrite app_nil_r.
  - change (AudioBuffer.addAll b (p :: ps))
      with (AudioBuffer.addAll (AudioBuffer.addSample b p) ps).
    rewrite IH. simpl. now rewrite <- app_assoc.
Qed.

Lemma addAll_maxValue (ps : list num) :
  forall b,
    AudioBuffer.maxValue (AudioBuffer.addAll b ps)
    = fold_left (fun m p => nmax m (nabs p)) ps (AudioBuffer.maxValue b).
Proof.
  induction ps as [|p ps IH]; intro b; [reflexivity|].
  change (AudioBuffer.addAll b (p :: ps))
    with (AudioBuffer.addAll (AudioBuffer.addSample b p) ps).
  now rewrite IH.
Qed.

(** The running peak is the largest magnitude seen so far. *)
Lemma running_peak (ps : list num) :
  allFinite ps ->
  forall q0, 0 <= q0 ->
  exists pk,
    fold_left (fun m p => nmax m (nabs p)) ps (Fin q0) = Fin pk
    /\ q0 <= pk
    /\ (forall q, In (Fin q) ps -> Qabs q <= pk)
    /\ (pk == q0 \/ exists q, In (Fin q) ps /\ Qabs q == pk).
Proof.
  induction 1 as [|p ps Hp Hps IH]; intros q0 H0.
  - exists q0. simpl. repeat split; try apply Qle_refl.
    + intros q [].
    + left. reflexivity.
  - apply isFinite_Fin in Hp. destruct Hp as [a ->].
    cbn [fold_left].
    change (nmax (Fin q0) (nabs (Fin a)))
      with (if Qle_bool q0 (Qred (Qabs a))
            then Fin (Qred (Qabs a)) else Fin q0).
    assert (Ha : Qred (Qabs a) == Qabs a) by apply Qred_correct.
    destruct (Qle_bool q0 (Qred (Qabs a))) eqn:E.
    + apply Qle_bool_iff in E.
      destruct (IH (Qred (Qabs a))) as (pk & Hf & Hle & Hall & Hex).
      { rewrite Ha. apply Qabs_nonneg. }
      exists pk. rewrite Hf. repeat split.
      * now apply Qle_trans with (Qred (Qabs a)).
      * intros q [Hq|Hq].
        -- injection Hq as <-. now rewrite <- Ha.
        -- now apply Hall.
      * right. destruct Hex as [Hex|(q & Hin & Hq)].
        -- exists a. split; [now left|]. now rewrite Hex.
        -- exists q. split; [now right|assumption].
    + apply Qle_bool_false_iff in E.
      destruct (IH q0 H0) as (pk & Hf & Hle & Hall & Hex).
      exists pk. rewrite Hf. repeat split; try assumption.
      * intros q [Hq|Hq].
        -- injection Hq as <-. rewrite <- Ha.
           apply Qle_trans with q0; [now apply Qlt_le_weak|assumption].
        -- now apply Hall.
      * destruct Hex as [Hex|(q & Hin & Hq)]; [now left|].
        right. exists q. split; [now right|assumption].
Qed.

Lemma scale_by_reciprocal (q d : Q) :
  ~ d == 0 ->
  (Fin q / Fin d)%num = (Fin q * (Fin 1 / Fin d))%num.
Proof.
  intro Hd. rewrite !ndiv_Fin by assumption.
  unfold nmul. unfold fin at 2. apply fin_eq.
  rewrite Qred_correct. field. exact Hd.
Qed.

Lemma headroom_nonzero (pk : Q) : ~ pk == 0 -> ~ Qred (pk * (11 # 10)) == 0.
Proof.
  intros Hnz Hc. rewrite Qred_correct in Hc. apply Hnz.
  apply Qmult_integral in Hc. destruct Hc as [Hc|Hc]; [exact Hc|discriminate].
Qed.

(** The numbers of the ranges are finite. *)
Lemma moderate_allFinite (ps : list num) : moderateSamples ps -> allFinite ps.
Proof.
  unfold moderateSamples. intro H. apply Forall_forall. intros x Hx.
  rewrite forallb_forall in H. specialize (H x Hx).
  destruct x; [reflexivity|discriminate H..].
Qed.

Lemma float32_allFinite (xs : list num) : float32Array xs -> allFinite xs.
Proof.
  unfold float32Array. intro H. apply Forall_forall. intros x Hx.
  rewrite forallb_forall in H. specialize (H x Hx).
  destruct x; [reflexivity|discriminate H..].
Qed.

(** C6, for samples of moderate size.  After any sequence of samples was
    added that are zero or finite numbers of magnitude between 2^-500 and
    2^500, the running peak is the largest magnitude among them, and
    [normalize()] returns the samples scaled by [1 / (peak * 1.1)]; when
    the peak is zero (no sample, or only zeros) it returns the samples as
    they are.  Every number it returns is finite: neither [NaN] nor an
    infinity. *)
Theorem normalize_scales_by_peak (sampleRate : num) (ps : list num) :
  moderateSamples ps ->
  let b := AudioBuffer.addAll (AudioBuffer.new sampleRate) ps in
  exists peak : Q,
    AudioBuffer.samples b = ps
    /\ AudioBuffer.maxValue b = Fin peak
    /\ (forall q, In (Fin q) ps -> Qabs q <= peak)
    /\ (peak == 0 \/ exists q, In (Fin q) ps /\ Qabs q == peak)
    /\ (peak == 0 -> AudioBuffer.normalize b = ps)
    /\ (~ peak == 0 ->
        AudioBuffer.normalize b
        = map (fun s => (s * (Fin 1 / (Fin peak * Fin (11 # 10))))%num) ps)
    /\ allFinite (AudioBuffer.normalize b).
Proof.
  intros Hmod b. pose proof (moderate_allFinite Hmod) as Hfin.
  assert (Hfin' : forall x, In x ps -> isFinite x = true).
  { apply Forall_forall. exact Hfin. }
  assert (Hs : AudioBuffer.samples b = ps).
  { unfold b. now rewrite addAll_samples. }
  destruct (running_peak Hfin (q0 := 0) (Qle_refl 0))
    as (pk & Hf & Hle & Hall & Hex).
  assert (Hm : AudioBuffer.maxValue b = Fin pk).
  { unfold b. rewrite addAll_maxValue. exact Hf. }
  assert (Hzero : pk == 0 -> AudioBuffer.normalize b = ps).
  { intro Hz. unfold AudioBuffer.normalize. rewrite Hm. simpl.
    apply Qeq_bool_iff in Hz. now rewrite Hz. }
  assert (Hscaled : ~ pk == 0 ->
            AudioBuffer.normalize b
            = map (fun s => (s * (Fin 1 / (Fin pk * Fin (11 # 10))))%num) ps).
  { intro Hnz. unfold AudioBuffer.normalize. rewrite Hm, Hs.
    cbn [neq]. apply Qeq_bool_false_iff in Hnz as Hb. rewrite Hb.
    apply map_ext_in. intros s Hin.
    apply Hfin', isFinite_Fin in Hin.
    destruct Hin as [q ->].
    change (Fin pk * Fin (11 # 10))%num with (Fin (Qred (pk * (11 # 10)))).
    apply scale_by_reciprocal. now apply headroom_nonzero. }
  exists pk. repeat split; try assumption.
  destruct (Qeq_dec pk 0) as [Hz|Hnz].
  - now rewrite (Hzero Hz).
  - rewrite (Hscaled Hnz). apply Forall_forall. intros x Hx.
    apply in_map_iff in Hx. destruct Hx as (s & <- & Hin).
    apply Hfin', isFinite_Fin in Hin.
    destruct Hin as [q ->].
    change (Fin pk * Fin (11 # 10))%num with (Fin (Qred (pk * (11 # 10)))).
    rewrite ndiv_Fin by now apply headroom_nonzero. reflexivity.
Qed.

Lemma normalize_scales_by_peak_witness :
  moderateSamples [Fin (1 # 2); Fin (-2); Fin 0]
  /\ exists peak : Q,
       AudioBuffer.maxValue
         (AudioBuffer.addAll (AudioBuffer.new (Fin 44100))
            [Fin (1 # 2); Fin (-2); Fin 0]) = Fin peak
       /\ allFinite
            (AudioBuffer.normalize
               (AudioBuffer.addAll (AudioBuffer.new (Fin 44100))
                  [Fin (1 # 2); Fin (-2); Fin 0])).
Proof.
  assert (H : moderateSamples [Fin (1 # 2); Fin (-2); Fin 0]).
  { reflexivity. }
  split; [exact H|].
  destruct (normalize_scales_by_peak (Fin 44100) H)
    as (peak & _ & Hm & _ & _ & _ & _ & Hf).
  exists peak. split; assumption.
Defined.

(** C6 as stated fails.  [addSample] takes any number: once [+Infinity]
    was added the peak is infinite, and [normalize()] returns [NaN] for
    that sample and 0 for a finite one.  And on binary64 a finite sample at
    the top of the range makes [peak * 1.1] overflow: the one sample
    1.7e308 is normalised to 0, not to [1 / 1.1]. *)
Lemma normalize_is_not_always_finite :
  AudioBuffer.normalize
    (AudioBuffer.addAll (AudioBuffer.new (Fin 44100)) [PInf; Fin 1])
  = [NaN; Fin 0]
  /\ Binary64.normalize [1.7e308%float] = [0%float].
Proof.
  split; vm_compute; reflexivity.
Qed.

(* ===================================================================== *)
(** ** The solver: construction *)
(* ===================================================================== *)

Lemma orElse_positive (q : Q) (dflt : num) :
  0 < q -> orElse (Some (Fin q)) dflt = Fin q.
Proof.
  intro H. unfold orElse, truthy.
  assert (E : Qeq_bool q 0 = false).
  { apply Qeq_bool_false_iff. intro Hc. rewrite Hc in H.
    exact (Qlt_irrefl 0 H). }
  now rewrite E.
Qed.

(** The Courant number [c * dt / dx] as the code computes it. *)
Lemma courant_value (c dt dx : Q) :
  0 < dx ->
  ((Fin c * Fin dt) / Fin dx)%num = Fin (Qred (Qred (c * dt) / dx))
  /\ Qred (Qred (c * dt) / dx) == c * dt / dx.
Proof.
  intro Hdx.
  assert (Hnz : ~ dx == 0).
  { intro Hc. rewrite Hc in Hdx. exact (Qlt_irrefl 0 Hdx). }
  split.
  - cbn [nmul]. unfold fin at 1. now rewrite ndiv_Fin.
  - now rewrite !Qred_correct.
Qed.

(** The stability check of the constructor on the exact numbers: the
    coefficient is at most 1, and the time step is replaced exactly when
    the Courant number exceeds 1. *)
Lemma new_enforces_cfl (o : Solver.options) (c dt dx : Q) :
  Solver.opt_speedOfSound o = Some (Fin c) ->
  Solver.opt_timeStep o = Some (Fin dt) ->
  Solver.opt_cellSize o = Some (Fin dx) ->
  0 < c -> 0 < dt -> 0 < dx ->
  let sim := Solver.new o in
  exists dt' k : Q,
    Solver.speedOfSound sim = Fin c
    /\ Solver.cellSize sim = Fin dx
    /\ Solver.timeStep sim = Fin dt'
    /\ Solver.coeff sim = Fin k
    /\ k == (c * dt' / dx) ^ 2
    /\ k <= 1
    /\ (1 < c * dt / dx ->
        dt' == (9 # 10) * dx / c
        /\ Solver.timeStep sim = ((Fin (9 # 10) * Fin dx) / Fin c)%num
        /\ Solver.console sim <> [])
    /\ (c * dt / dx <= 1 -> dt' = dt /\ Solver.console sim = []).
Proof.
  intros Hc Hdt Hdx Pc Pdt Pdx sim.
  assert (Nc : ~ c == 0).
  { intro E. rewrite E in Pc. exact (Qlt_irrefl 0 Pc). }
  assert (Ndx : ~ dx == 0).
  { intro E. rewrite E in Pdx. exact (Qlt_irrefl 0 Pdx). }
  destruct (courant_value c dt Pdx) as [Ecfl Vcfl].
  set (cfl := Qred (Qred (c * dt) / dx)) in *.
  assert (Es : Solver.speedOfSound sim = Fin c).
  { unfold sim, Solver.new. cbn [Solver.speedOfSound]. rewrite Hc.
    now apply orElse_positive. }
  assert (Ex : Solver.cellSize sim = Fin dx).
  { unfold sim, Solver.new. cbn [Solver.cellSize]. rewrite Hdx.
    now apply orElse_positive. }
  assert (Et : Solver.timeStep sim
               = if Qlt_bool 1 cfl
                 then ((Fin (9 # 10) * Fin dx) / Fin c)%num else Fin dt).
  { unfold sim, Solver.new. cbn [Solver.timeStep].
    rewrite Hc, Hdt, Hdx, !orElse_positive by assumption.
    rewrite Ecfl. reflexivity. }
  assert (Ew : Solver.console sim
               = if Qlt_bool 1 cfl then [Solver.CFLWarning (Fin cfl)] else []).
  { unfold sim, Solver.new. cbn [Solver.console].
    rewrite Hc, Hdt, Hdx, !orElse_positive by assumption.
    rewrite Ecfl. reflexivity. }
  assert (Ek : Solver.coeff sim
               = npow ((Solver.speedOfSound sim * Solver.timeStep sim)
                       / Solver.cellSize sim)%num 2) by reflexivity.
  destruct (Qlt_bool 1 cfl) eqn:B.
  - (* the request is unstable: the time step is clamped *)
    apply Qlt_bool_iff in B.
    set (dt' := Qred (Qred ((9 # 10) * dx) / c)).
    assert (Vdt : dt' == (9 # 10) * dx / c).
    { unfold dt'. now rewrite !Qred_correct. }
    assert (Et' : Solver.timeStep sim = Fin dt').
    { rewrite Et. cbn [nmul]. unfold fin at 1. now rewrite ndiv_Fin. }
    destruct (courant_value c dt' Pdx) as [Ecfl' Vcfl'].
    set (r := Qred (Qred (c * dt') / dx)) in *.
    exists dt', (Qred (r * r)).
    assert (Vr : r == 9 # 10).
    { rewrite Vcfl', Vdt. field. split; assumption. }
    split; [exact Es|]. split; [exact Ex|]. split; [exact Et'|].
    split; [rewrite Ek, Es, Et', Ex, Ecfl'; reflexivity|].
    split; [rewrite Qred_correct, Vcfl'; ring|].
    split; [rewrite Qred_correct, Vr; discriminate|].
    split.
    + intros _. split; [exact Vdt|]. split; [exact Et|].
      rewrite Ew. discriminate.
    + intro L. exfalso. rewrite Vcfl in B. exact (Qlt_not_le _ _ B L).
  - (* the request is stable: the time step is kept *)
    apply Qlt_bool_false_iff in B.
    exists dt, (Qred (cfl * cfl)).
    assert (P : 0 <= cfl).
    { rewrite Vcfl. apply Qlt_le_weak.
      apply Qlt_shift_div_l; [assumption|].
      rewrite Qmult_0_l. apply Qmult_lt_0_compat; assumption. }
    split; [exact Es|]. split; [exact Ex|]. split; [exact Et|].
    split; [rewrite Ek, Es, Et, Ex, Ecfl; reflexivity|].
    split; [rewrite Qred_correct, Vcfl; ring|].
    split.
    { rewrite Qred_correct.
      apply Qle_trans with (1 * cfl).
      - apply Qmult_le_compat_r; assumption.
      - rewrite Qmult_1_l. assumption. }
    split.
    + intro L. exfalso. rewrite Vcfl in B. exact (Qlt_not_le _ _ L B).
    + intros _. split; [reflexivity|exact Ew].
Qed.


Lemma midRange_positive (q : Q) : midRange q = true -> 0 < q.
Proof.
  unfold midRange. intro H. apply andb_prop in H. destruct H as [H _].
  apply Qle_bool_iff in H.
  apply Qlt_le_trans with (2 ^ (-100)); [reflexivity|exact H].
Qed.

(** A size of a room is a length that [Array] accepts. *)
Lemma roomSize_arrayLength (n : option num) :
  roomSize n = true ->
  exists k, Solver.arrayLength (orElse n (Fin 128)) = Some k.
Proof.
  destruct n as [[a| | |]|]; cbn [roomSize]; intro H;
    try discriminate H; try (exists 128%nat; reflexivity).
  apply andb_prop in H. destruct H as [H H2].
  apply andb_prop in H. destruct H as [H0 H1].
  apply Qle_bool_iff in H1, H2.
  unfold orElse, truthy.
  destruct (Qeq_bool a 0); [exists 128%nat; reflexivity|].
  cbn [negb]. unfold Solver.arrayLength. rewrite H0. cbn [andb].
  assert (L : (0 <= Qfloor a)%Z).
  { change 0%Z with (Qfloor 0). now apply Qfloor_resp_le. }
  assert (U : (Qfloor a <= 1024)%Z).
  { change 1024%Z with (Qfloor 1024). now apply Qfloor_resp_le. }
  apply Z.leb_le in L. rewrite L. cbn [andb].
  assert (B : (Qfloor a <? 2 ^ 32)%Z = true).
  { apply Z.ltb_lt. apply Z.le_lt_trans with 1024%Z; [exact U|reflexivity]. }
  rewrite B. eexists. reflexivity.
Qed.

(** C2, away from the ends of the binary64 range.  When the speed of
    sound, the time step and the cell size that are asked for lie between
    2^-100 and 2^100, and each grid size is absent or a whole number from 0
    to 1024, construction returns a solver whose coefficient
    [(speedOfSound * timeStep / cellSize)^2], taken at the time step the
    solver keeps, is at most 1.  Either the request keeps its time step and
    nothing is logged, or the time step is replaced by
    [0.9 * cellSize / speedOfSound] and a warning is logged: the first when
    the Courant number of the request is at most 1, the second when it is
    at least [1 + 2^-40] (in between, rounding decides). *)
Theorem constructor_enforces_cfl (o : Solver.options)
  (width height : option num) (c dt dx : Q) :
  Solver.opt_speedOfSound o = Some (Fin c) ->
  Solver.opt_timeStep o = Some (Fin dt) ->
  Solver.opt_cellSize o = Some (Fin dx) ->
  midRange c = true -> midRange dt = true -> midRange dx = true ->
  roomSize width = true -> roomSize height = true ->
  exists sim (dt' k : Q),
    Solver.construct width height o = Solver.Built sim
    /\ Solver.speedOfSound sim = Fin c
    /\ Solver.cellSize sim = Fin dx
    /\ Solver.timeStep sim = Fin dt'
    /\ Solver.coeff sim = Fin k
    /\ k == (c * dt' / dx) ^ 2
    /\ k <= 1
    /\ ((dt' = dt /\ Solver.console sim = [])
        \/ (dt' == (9 # 10) * dx / c
            /\ Solver.timeStep sim = ((Fin (9 # 10) * Fin dx) / Fin c)%num
            /\ Solver.console sim <> []))
    /\ (c * dt / dx <= 1 -> dt' = dt /\ Solver.console sim = [])
    /\ (1 + 2 ^ (-40) <= c * dt / dx ->
        dt' == (9 # 10) * dx / c /\ Solver.console sim <> []).
Proof.
  intros Hc Hdt Hdx Rc Rdt Rdx Rw Rh.
  destruct (roomSize_arrayLength height Rh) as [h Eh].
  destruct (roomSize_arrayLength width Rw) as [w Ew].
  set (o' := Solver.mkOptions (Some w) (Some h) (Solver.opt_cellSize o)
               (Solver.opt_speedOfSound o) (Solver.opt_airDensity o)
               (Solver.opt_timeStep o) (Solver.opt_dampingFactor o)).
  destruct (@new_enforces_cfl o' c dt dx Hc Hdt Hdx
              (midRange_positive c Rc) (midRange_positive dt Rdt)
              (midRange_positive dx Rdx))
    as (dt' & k & Es & Ex & Et & Ek & Vk & Lk & Hclamp & Hkeep).
  exists (Solver.new o'), dt', k.
  split; [unfold Solver.construct; now rewrite Eh, Ew|].
  repeat (split; [assumption|]).
  split.
  { destruct (Qlt_le_dec 1 (c * dt / dx)) as [L|L].
    - right. now apply Hclamp.
    - left. now apply Hkeep. }
  split; [exact Hkeep|].
  intro L.
  assert (L' : 1 < c * dt / dx).
  { apply Qlt_le_trans with (1 + 2 ^ (-40)); [reflexivity|exact L]. }
  destruct (Hclamp L') as (A & _ & B). split; assumption.
Qed.

Lemma constructor_enforces_cfl_witness :
  Solver.construct (Some (Fin 64)) None Examples.unstableRequest
  = Solver.Built
      (Solver.new
         (Solver.mkOptions (Some 64%nat) (Some 128%nat)
            (Solver.opt_cellSize Examples.unstableRequest)
            (Solver.opt_speedOfSound Examples.unstableRequest)
            (Solver.opt_airDensity Examples.unstableRequest)
            (Solver.opt_timeStep Examples.unstableRequest)
            (Solver.opt_dampingFactor Examples.unstableRequest)))
  /\ exists sim (k : Q),
       Solver.construct (Some (Fin 64)) None Examples.unstableRequest
       = Solver.Built sim
       /\ Solver.timeStep sim = ((Fin (9 # 10) * Fin (1 # 100)) / Fin 343)%num
       /\ Solver.coeff sim = Fin k /\ k <= 1.
Proof.
  split; [reflexivity|].
  destruct (@constructor_enforces_cfl Examples.unstableRequest
              (Some (Fin 64)) None 343 (1 # 1000) (1 # 100)
              eq_refl eq_refl eq_refl eq_refl eq_refl eq_refl
              eq_refl eq_refl)
    as (sim & dt' & k & Eb & _ & _ & _ & Hk & _ & Hle & _ & _ & Hclamp).
  exists sim, k. split; [exact Eb|].
  split; [|split; assumption].
  destruct Hclamp as [_ Hw]; [vm_compute; discriminate|].
  pose proof Eb as Eb'. vm_compute in Eb'.
  injection Eb' as <-. reflexivity.
Defined.

(** C2 as stated fails at both ends.  On binary64, for a speed of sound
    of 1.3, a time step of 1 and a cell size of 2^-1073, the Courant number
    overflows, the time step is replaced, and the replacement, rounded
    among the subnormal numbers, leaves a Courant number of 1.5: the
    coefficient is 2.25.  And a grid width of 2.5 makes [Array] throw a
    [RangeError]: construction fails. *)
Lemma constructor_fails_at_the_ends :
  Binary64.coeff (Binary64.stabilise 1.3%float 1%float 0x1p-1073%float)
  = 2.25%float
  /\ Binary64.warned (Binary64.stabilise 1.3%float 1%float 0x1p-1073%float)
     = true
  /\ Solver.construct (Some (Fin (5 # 2))) None Examples.unstableRequest
     = Solver.RangeError.
Proof.
  repeat split; vm_compute; reflexivity.
Qed.

(* ===================================================================== *)
(** ** Frames *)
(* ===================================================================== *)

Lemma bind_Ok {A B : Type} (c : result A) (k : A -> result B) (b : B) :
  bind c k = Ok b -> exists a, c = Ok a /\ k a = Ok b.
Proof. destruct c; simpl; intro H; try discriminate. eauto. Qed.

(** The frame loop ends as soon as the hop is positive, and visits the
    multiples of the hop that lie below the limit. *)
Lemma frameLoop_spec (hop limit : nat) :
  (1 <= hop)%nat ->
  forall fuel i,
    (limit - i <= fuel)%nat ->
    exists starts,
      AcousticAnalyzer.frameLoop fuel i limit hop = Ok starts
      /\ forall s, In s starts
                   <-> (s < limit)%nat /\ exists k, s = (i + k * hop)%nat.
Proof.
  intro Hhop. induction fuel as [|fuel IH]; intros i Hfuel.
  - exists []. simpl.
    assert (E : (i <? limit)%nat = false) by (apply Nat.ltb_ge; lia).
    rewrite E. split; [reflexivity|].
    intro s. split; [intros []|].
    intros [Hs [k ->]]. lia.
  - cbn [AcousticAnalyzer.frameLoop].
    destruct (i <? limit)%nat eqn:E.
    + apply Nat.ltb_lt in E.
      destruct (IH (i + hop)%nat) as (rest & Hrest & Hin); [lia|].
      exists (i :: rest). rewrite Hrest. split; [reflexivity|].
      intro s. split.
      * intros [<-|Hs].
        -- split; [assumption|]. exists 0%nat. lia.
        -- apply Hin in Hs. destruct Hs as [Hlt [k ->]].
           split; [assumption|]. exists (S k). lia.
      * intros [Hlt [k ->]]. destruct k as [|k].
        -- left. lia.
        -- right. apply Hin. split; [lia|]. exists k. lia.
    + apply Nat.ltb_ge in E. exists []. split; [reflexivity|].
      intro s. split; [intros []|].
      intros [Hs [k ->]]. lia.
Qed.

Lemma frameLoop_none (fuel i limit hop : nat) :
  (limit <= i)%nat -> AcousticAnalyzer.frameLoop fuel i limit hop = Ok [].
Proof.
  intro H. apply Nat.ltb_ge in H.
  destruct fuel; simpl; now rewrite H.
Qed.

(** A clip no longer than a frame has no analysis frame at all. *)
Lemma frameStarts_short (sampleRate : Q) (audioData : list num) :
  (List.length audioData <= AcousticAnalyzer.frameSizeOf sampleRate)%nat ->
  AcousticAnalyzer.frameStarts sampleRate audioData = Ok [].
Proof.
  intro H. unfold AcousticAnalyzer.frameStarts.
  apply frameLoop_none. lia.
Qed.

Lemma frameStarts_spec (sampleRate : Q) (audioData : list num) :
  (1 <= AcousticAnalyzer.hopSizeOf sampleRate)%nat ->
  exists starts,
    AcousticAnalyzer.frameStarts sampleRate audioData = Ok starts
    /\ forall s,
         In s starts
         <-> (s < List.length audioData
                  - AcousticAnalyzer.frameSizeOf sampleRate)%nat
             /\ exists k, s = (k * AcousticAnalyzer.hopSizeOf sampleRate)%nat.
Proof.
  intro Hhop. unfold AcousticAnalyzer.frameStarts.
  destruct (@frameLoop_spec (AcousticAnalyzer.hopSizeOf sampleRate)
              (List.length audioData
               - AcousticAnalyzer.frameSizeOf sampleRate)
              Hhop (List.length audioData) 0%nat)
    as (starts & Hs & Hin); [lia|].
  exists starts. split; [exact Hs|]. exact Hin.
Qed.

(** ** The short-clip failure of [analyzeAudio] *)

Lemma analyzeEnergy_short (M : MathLib) (sampleRate : Q)
  (audioData : list num) :
  (List.length audioData <= AcousticAnalyzer.frameSizeOf sampleRate)%nat ->
  AcousticAnalyzer.analyzeEnergy M sampleRate audioData = Throw (TypeError "Reduce of empty array with no initial value").
Proof.
  intro H. unfold AcousticAnalyzer.analyzeEnergy,
    AcousticAnalyzer.normalizedEnergy.
  rewrite frameStarts_short by exact H. reflexivity.
Qed.

Lemma analyzeAudio_short (M : MathLib) (sampleRate : Q)
  (input : AcousticAnalyzer.audioInput) :
  (List.length (AcousticAnalyzer.channelData input)
   <= AcousticAnalyzer.frameSizeOf sampleRate)%nat ->
  AcousticAnalyzer.analyzeAudio M sampleRate input = Throw (TypeError "Reduce of empty array with no initial value").
Proof.
  intro H. unfold AcousticAnalyzer.analyzeAudio.
  rewrite analyzeEnergy_short by exact H. reflexivity.
Qed.

(** C1.  [analyzeAudio] throws on a clip that is no longer than one
    analysis frame: 1000 samples of value 0.5 at 44100 Hz (22.7 ms, the
    frame is 1102 samples) give no frame, and the sum over the empty list of
    frame energies is a [TypeError]. *)
Theorem analyzeAudio_throws_on_short_clip :
  forall (M : MathLib) (duration : num),
    AcousticAnalyzer.analyzeAudio M 44100
      (AcousticAnalyzer.mkAudioInput (repeat (Fin (1 # 2)) 1000) duration)
    = Throw (TypeError "Reduce of empty array with no initial value").
Proof.
  intros M duration. apply analyzeAudio_short.
  cbn [AcousticAnalyzer.channelData]. rewrite repeat_length.
  apply Nat.leb_le. vm_compute. reflexivity.
Qed.

(* ===================================================================== *)
(** ** Energy and quality *)
(* ===================================================================== *)

Lemma nmax_Fin (a b : Q) :
  nmax (Fin a) (Fin b) = if Qle_bool a b then Fin b else Fin a.
Proof. reflexivity. Qed.

Lemma fold_nmax_finite (xs : list num) :
  allFinite xs ->
  forall a, exists m,
    fold_left nmax xs (Fin a) = Fin m
    /\ a <= m
    /\ (forall q, In (Fin q) xs -> q <= m)
    /\ (m = a \/ In (Fin m) xs).
Proof.
  induction 1 as [|x xs Hx Hxs IH]; intro a.
  - exists a. simpl. repeat split; try apply Qle_refl; auto.
    intros q [].
  - apply isFinite_Fin in Hx. destruct Hx as [b ->].
    cbn [fold_left]. rewrite nmax_Fin.
    destruct (Qle_bool a b) eqn:E.
    + apply Qle_bool_iff in E.
      destruct (IH b) as (m & Hf & Hle & Hall & Hin).
      exists m. rewrite Hf. split; [reflexivity|]. split.
      { now apply Qle_trans with b. }
      split.
      * intros q [Hq|Hq]; [injection Hq as <-; assumption|now apply Hall].
      * right. destruct Hin as [->|Hin]; [now left|now right].
    + apply Qle_bool_false_iff in E.
      destruct (IH a) as (m & Hf & Hle & Hall & Hin).
      exists m. rewrite Hf. split; [reflexivity|]. split; [assumption|].
      split.
      * intros q [Hq|Hq]; [|now apply Hall].
        injection Hq as <-.
        apply Qle_trans with a; [now apply Qlt_le_weak|assumption].
      * destruct Hin as [->|Hin]; [now left|right; now right].
Qed.

(** [Math.max(...xs)] of finite numbers, at least one, is one of them and
    bounds them all. *)
Lemma maxOf_finite (xs : list num) :
  allFinite xs -> xs <> [] ->
  exists m,
    maxOf xs = Fin m /\ In (Fin m) xs /\ forall q, In (Fin q) xs -> q <= m.
Proof.
  intros Hfin Hne. destruct xs as [|x xs]; [congruence|].
  inversion Hfin as [|? ? Hx Hxs]; subst.
  apply isFinite_Fin in Hx. destruct Hx as [a ->].
  destruct (fold_nmax_finite Hxs a) as (m & Hf & Hle & Hall & Hin).
  exists m. unfold maxOf. cbn [fold_left].
  change (nmax NInf (Fin a)) with (Fin a). rewrite Hf.
  split; [reflexivity|]. split.
  - destruct Hin as [->|Hin]; [now left|now right].
  - intros q [Hq|Hq]; [injection Hq as <-; assumption|now apply Hall].
Qed.

Lemma allFinite_nth (xs : list num) (n : nat) :
  allFinite xs -> (n < List.length xs)%nat -> exists q, getNum xs n = Fin q.
Proof.
  intros Hfin Hn. apply isFinite_Fin.
  unfold allFinite in Hfin. rewrite Forall_forall in Hfin.
  apply Hfin. unfold getNum. now apply nth_In.
Qed.

Lemma square_nonneg (q : Q) : 0 <= q * q.
Proof. nra. Qed.

Lemma square_pos (q : Q) : ~ q == 0 -> 0 < q * q.
Proof.
  intro H. destruct (Q_dec q 0) as [[L|G]|E]; [nra|nra|contradiction].
Qed.

(** A sum of squares of finite numbers is finite, and positive as soon as
    one of them is not zero. *)
Lemma sum_of_squares (g : nat -> num) (js : list nat) :
  (forall j, In j js -> exists q, g j = Fin q) ->
  forall acc, exists total,
    fold_left (fun sum j => (sum + g j * g j)%num) js (Fin acc) = Fin total
    /\ acc <= total
    /\ ((exists j q, In j js /\ g j = Fin q /\ ~ q == 0) -> acc < total).
Proof.
  induction js as [|j js IH]; intros Hg acc.
  - exists acc. simpl. split; [reflexivity|]. split; [apply Qle_refl|].
    intros (j & q & [] & _).
  - destruct (Hg j (or_introl eq_refl)) as [q Hq].
    cbn [fold_left]. rewrite Hq.
    change (Fin acc + Fin q * Fin q)%num
      with (Fin (Qred (acc + Qred (q * q)))).
    set (acc' := Qred (acc + Qred (q * q))).
    assert (V : acc' == acc + q * q).
    { unfold acc'. now rewrite !Qred_correct. }
    destruct (IH (fun i Hi => Hg i (or_intror Hi)) acc')
      as (total & Hf & Hle & Hpos).
    exists total. split; [exact Hf|].
    assert (L : acc <= acc').
    { rewrite V. pose proof (square_nonneg q). lra. }
    split; [now apply Qle_trans with acc'|].
    intros (i & r & [<-|Hi] & Hr & Hnz).
    + rewrite Hq in Hr. injection Hr as <-.
      apply Qlt_le_trans with acc'; [|assumption].
      rewrite V. pose proof (square_pos Hnz). lra.
    + apply Qle_lt_trans with acc'; [assumption|].
      apply Hpos. exists i, r. auto.
Qed.

Lemma ofNat_nonzero (n : nat) :
  (1 <= n)%nat -> ~ inject_Z (Z.of_nat n) == 0.
Proof.
  intros H E. unfold Qeq in E. simpl in E. lia.
Qed.

Lemma ofNat_positive (n : nat) : (1 <= n)%nat -> 0 < inject_Z (Z.of_nat n).
Proof.
  intro H. unfold Qlt. simpl. lia.
Qed.

(** The energy of an analysed frame of a finite clip. *)
Lemma frameEnergy_finite (audioData : list num) (frameSize i : nat) :
  allFinite audioData ->
  (1 <= frameSize)%nat ->
  (i + frameSize <= List.length audioData)%nat ->
  exists e,
    AcousticAnalyzer.frameEnergy audioData frameSize i = Fin e
    /\ 0 <= e
    /\ ((exists j q, (j < frameSize)%nat
                     /\ getNum audioData (i + j) = Fin q /\ ~ q == 0)
        -> 0 < e).
Proof.
  intros Hfin Hsize Hfit. unfold AcousticAnalyzer.frameEnergy.
  destruct (@sum_of_squares (fun j => getNum audioData (i + j))
              (seq 0 frameSize)) with (acc := 0)
    as (total & Hf & Hle & Hpos).
  { intros j Hj. apply in_seq in Hj. apply allFinite_nth; [assumption|lia]. }
  rewrite Hf. unfold ofNat, ofZ.
  rewrite ndiv_Fin by now apply ofNat_nonzero.
  exists (Qred (total / inject_Z (Z.of_nat frameSize))).
  split; [reflexivity|].
  pose proof (ofNat_positive Hsize) as P.
  split.
  - rewrite Qred_correct. apply Qle_shift_div_l; [assumption|]. lra.
  - intros (j & q & Hj & Hq & Hnz).
    rewrite Qred_correct. apply Qlt_shift_div_l; [assumption|].
    rewrite Qmult_0_l. apply Hpos. exists j, q.
    split; [apply in_seq; lia|]. split; assumption.
Qed.

(** C10, as the code has it.  When the sample rate is at least 100 Hz (the
    hop is then a positive number of samples), the samples are binary32
    numbers, as [getChannelData] returns them (the square of one neither
    overflows nor underflows in binary64), and some analysed frame -- one
    that starts at a multiple [k] of the hop with
    [k * hop < length - frameSize] -- holds a sample that is not zero, the
    per-frame energies are divided by the largest of them: [energy.max] is
    exactly 1, [energy.dB] is [20 * log10(1 + 1e-10)], and [assessQuality]
    reports the single issue "clipping/distortion" with a score of 80. *)
Theorem energy_peak_is_one (M : MathLib) (sampleRate : Q)
  (audioData : list num) (k j : nat) (q : Q) :
  float32Array audioData ->
  (1 <= AcousticAnalyzer.hopSizeOf sampleRate)%nat ->
  (k * AcousticAnalyzer.hopSizeOf sampleRate
   < List.length audioData - AcousticAnalyzer.frameSizeOf sampleRate)%nat ->
  (j < AcousticAnalyzer.frameSizeOf sampleRate)%nat ->
  getNum audioData (k * AcousticAnalyzer.hopSizeOf sampleRate + j) = Fin q ->
  ~ q == 0 ->
  exists e,
    AcousticAnalyzer.analyzeEnergy M sampleRate audioData = Ok e
    /\ Energy.max e = Fin 1
    /\ Energy.dB e
       = (Fin 20 * Math_log10 M (Fin 1 + AcousticAnalyzer.epsilon))%num
    /\ AcousticAnalyzer.assessQuality (Energy.max e)
       = Quality.mk 80 ["clipping/distortion"%string] false.
Proof.
  intros Hf32 Hhop Hk Hj Hq Hnz.
  pose proof (float32_allFinite Hf32) as Hfin.
  set (fs := AcousticAnalyzer.frameSizeOf sampleRate) in *.
  set (hop := AcousticAnalyzer.hopSizeOf sampleRate) in *.
  destruct (@frameStarts_spec sampleRate audioData Hhop)
    as (starts & Hstarts & Hin).
  fold fs hop in Hin.
  set (energy := map (AcousticAnalyzer.frameEnergy audioData fs) starts).
  (* every frame energy is finite and not negative *)
  assert (Hen : forall x, In x energy -> exists e, x = Fin e /\ 0 <= e).
  { intros x Hx. apply in_map_iff in Hx. destruct Hx as (s & <- & Hs).
    apply Hin in Hs. destruct Hs as [Hs _].
    destruct (@frameEnergy_finite audioData fs s Hfin) as (e & He & Hpos & _);
      [lia|lia|].
    exists e. split; assumption. }
  assert (Hfe : allFinite energy).
  { apply Forall_forall. intros x Hx.
    destruct (Hen x Hx) as (e & -> & _). reflexivity. }
  (* frame [k] has a positive energy *)
  assert (Hkin : In (k * hop)%nat starts).
  { apply Hin. split; [assumption|]. exists k. reflexivity. }
  destruct (@frameEnergy_finite audioData fs (k * hop)%nat Hfin)
    as (ek & Hek & _ & Hekpos); [lia|lia|].
  assert (Pek : 0 < ek).
  { apply Hekpos. exists j, q. repeat split; assumption. }
  assert (Hekin : In (Fin ek) energy).
  { unfold energy. rewrite <- Hek. now apply in_map. }
  (* the largest energy *)
  destruct (@maxOf_finite energy Hfe) as (mx & Hmx & Hmxin & Hmxall).
  { intro E. rewrite E in Hekin. exact Hekin. }
  assert (Pmx : 0 < mx).
  { apply Qlt_le_trans with ek; [assumption|now apply Hmxall]. }
  assert (Nmx : ~ mx == 0) by (intro E; rewrite E in Pmx; exact (Qlt_irrefl 0 Pmx)).
  set (normalized := map (fun e => (e / Fin mx)%num) energy).
  assert (Hnorm : AcousticAnalyzer.normalizedEnergy sampleRate audioData
                  = Ok normalized).
  { unfold AcousticAnalyzer.normalizedEnergy. rewrite Hstarts.
    cbn [bind]. fold fs. fold energy. rewrite Hmx. reflexivity. }
  (* the normalised energies: each at most 1, one of them exactly 1 *)
  assert (Hn : forall x, In x normalized ->
                         exists y, x = fin y /\ y <= 1).
  { intros x Hx. apply in_map_iff in Hx. destruct Hx as (e0 & <- & He0).
    destruct (Hen e0 He0) as (e & -> & _).
    rewrite ndiv_Fin by assumption. exists (e / mx). split; [reflexivity|].
    apply Qle_shift_div_r; [assumption|]. rewrite Qmult_1_l.
    now apply Hmxall. }
  assert (Hone : In (Fin 1) normalized).
  { unfold normalized. apply in_map_iff. exists (Fin mx).
    split; [|assumption]. rewrite ndiv_Fin by assumption.
    change (Fin 1) with (fin 1). apply fin_eq. now field. }
  assert (Hfn : allFinite normalized).
  { apply Forall_forall. intros x Hx.
    destruct (Hn x Hx) as (y & -> & _). reflexivity. }
  destruct (@maxOf_finite normalized Hfn) as (m & Hm & Hmin & Hmall).
  { intro E. rewrite E in Hone. exact Hone. }
  assert (Hm1 : m = 1).
  { destruct (Hn _ Hmin) as (y & Hy & Hle).
    unfold fin in Hy. injection Hy as ->.
    assert (G : 1 <= Qred y) by now apply Hmall.
    rewrite Qred_correct in G.
    change 1 with (Qred 1). apply Qred_complete.
    apply Qle_antisym; assumption. }
  subst m.
  destruct normalized as [|n0 rest] eqn:En; [destruct Hone|].
  unfold AcousticAnalyzer.analyzeEnergy. rewrite Hnorm.
  cbn [bind reduceSum]. eexists. split; [reflexivity|].
  cbn [Energy.max Energy.dB]. rewrite Hm.
  repeat split; reflexivity.
Qed.

(** Why the samples are taken to be binary32 numbers: on binary64 the
    square of a smaller number underflows, and a frame of 200 samples of
    1e-200 has energy 0. *)
Example squares_underflow_on_binary64 :
  Binary64.frameEnergy (repeat 1e-200%float 200) 200%float = 0%float.
Proof. vm_compute. reflexivity. Qed.

Lemma repeat_allFinite (q : Q) (n : nat) : allFinite (repeat (Fin q) n).
Proof.
  apply Forall_forall. intros x Hx. apply repeat_spec in Hx. now subst.
Qed.

Lemma energy_peak_is_one_witness :
  float32Array Examples.softClip
  /\ (1 <= AcousticAnalyzer.hopSizeOf 8000)%nat
  /\ forall M : MathLib,
       exists e,
         AcousticAnalyzer.analyzeEnergy M 8000 Examples.softClip = Ok e
         /\ Energy.max e = Fin 1
         /\ AcousticAnalyzer.assessQuality (Energy.max e)
            = Quality.mk 80 ["clipping/distortion"%string] false.
Proof.
  assert (Hfin : float32Array Examples.softClip).
  { vm_compute. reflexivity. }
  assert (Hhop : (1 <= AcousticAnalyzer.hopSizeOf 8000)%nat).
  { apply Nat.leb_le. vm_compute. reflexivity. }
  split; [exact Hfin|]. split; [exact Hhop|].
  intro M.
  destruct (@energy_peak_is_one M 8000 Examples.softClip 0%nat 0%nat (1 # 128)
              Hfin Hhop)
    as (e & He & Hmax & _ & Hq).
  - apply Nat.ltb_lt. vm_compute. reflexivity.
  - apply Nat.ltb_lt. vm_compute. reflexivity.
  - reflexivity.
  - discriminate.
  - exists e. repeat split; assumption.
Defined.

(** C10 as stated fails: a clip of 201 samples at 8000 Hz holds a full
    frame and a sample that is not zero, but the only analysed frame is
    samples 0 to 199, all zero; the largest energy is 0, the division
    [0 / 0] makes [energy.max] a [NaN], neither test of [assessQuality]
    fires, and the score is 100 with no issue. *)
Lemma energy_peak_not_always_one :
  AcousticAnalyzer.frameSizeOf 8000 = 200%nat
  /\ List.length Examples.quietTail = 201%nat
  /\ In (Fin 1) Examples.quietTail
  /\ allFinite Examples.quietTail
  /\ AcousticAnalyzer.normalizedEnergy 8000 Examples.quietTail = Ok [NaN]
  /\ forall M : MathLib,
       exists e,
         AcousticAnalyzer.analyzeEnergy M 8000 Examples.quietTail = Ok e
         /\ Energy.max e = NaN
         /\ AcousticAnalyzer.assessQuality (Energy.max e)
            = Quality.mk 100 [] true.
Proof.
  split; [vm_compute; reflexivity|].
  split; [vm_compute; reflexivity|].
  split; [apply in_or_app; right; now left|].
  split.
  { apply Forall_app. split; [apply repeat_allFinite|].
    constructor; [reflexivity|constructor]. }
  split; [vm_compute; reflexivity|].
  intro M. eexists. split; [vm_compute; reflexivity|].
  split; reflexivity.
Qed.

(* ===================================================================== *)
(** ** Pitch *)
(* ===================================================================== *)

Lemma hopSize_positive (sampleRate : Q) :
  100 <= sampleRate -> (1 <= AcousticAnalyzer.hopSizeOf sampleRate)%nat.
Proof.
  intro H. unfold AcousticAnalyzer.hopSizeOf.
  assert (L : (1 <= Qfloor (sampleRate * (10 # 1000)))%Z).
  { change 1%Z with (Qfloor 1). apply Qfloor_resp_le. lra. }
  lia.
Qed.

Lemma framesOf_returns (sampleRate : Q) (audioData : list num) :
  (1 <= AcousticAnalyzer.hopSizeOf sampleRate)%nat ->
  exists frames, AcousticAnalyzer.framesOf sampleRate audioData = Ok frames.
Proof.
  intro H. destruct (@frameStarts_spec sampleRate audioData H)
    as (starts & Hs & _).
  unfold AcousticAnalyzer.framesOf. rewrite Hs. simpl. eauto.
Qed.

(** The lag search returns its initial 0 or one of the lags it tried. *)
Lemma lag_search (frame : list num) (lags : list nat) :
  forall maxCorr bestLag,
    let found :=
      snd (fold_left
             (fun '(maxCorr, bestLag) lag =>
                let corr :=
                  AcousticAnalyzer.calculateAutocorrelation frame lag in
                if (corr >? maxCorr)%num then (corr, lag)
                else (maxCorr, bestLag))
             lags (maxCorr, bestLag)) in
    found = bestLag \/ In found lags.
Proof.
  induction lags as [|lag lags IH]; intros maxCorr bestLag; simpl.
  - now left.
  - destruct (AcousticAnalyzer.calculateAutocorrelation frame lag
              >? maxCorr)%num.
    + destruct (IH (AcousticAnalyzer.calculateAutocorrelation frame lag) lag)
        as [E|E]; simpl in E.
      * right. left. symmetry. exact E.
      * right. right. exact E.
    + destruct (IH maxCorr bestLag) as [E|E]; simpl in E.
      * left. exact E.
      * right. right. exact E.
Qed.

Lemma bestLagOf_range (sampleRate : Q) (frame : list num) :
  let b := AcousticAnalyzer.bestLagOf sampleRate frame in
  b = 0%nat
  \/ (AcousticAnalyzer.minLag sampleRate <= b
      < AcousticAnalyzer.maxLag sampleRate)%nat.
Proof.
  unfold AcousticAnalyzer.bestLagOf.
  destruct (lag_search frame
              (seq (AcousticAnalyzer.minLag sampleRate)
                   (AcousticAnalyzer.maxLag sampleRate
                    - AcousticAnalyzer.minLag sampleRate))
              (Fin 0) 0%nat) as [E|E]; simpl in E.
  - left. exact E.
  - right. apply in_seq in E. simpl. lia.
Qed.

(** Every per-frame estimate is above 50 Hz: the lags stop short of
    [sampleRate / 50], and a frame with no correlation at all is estimated
    at [+Infinity]. *)
Lemma estimatePitch_above_50 (sampleRate : Q) (frame : list num) :
  0 < sampleRate ->
  (AcousticAnalyzer.estimatePitch sampleRate frame >? Fin 50)%num = true.
Proof.
  intro Hsr. unfold AcousticAnalyzer.estimatePitch.
  destruct (bestLagOf_range sampleRate frame) as [E|[_ E]].
  - rewrite E. simpl. unfold infBySign.
    assert (Z1 : Qeq_bool sampleRate 0 = false).
    { apply Qeq_bool_false_iff. intro C. rewrite C in Hsr.
      exact (Qlt_irrefl 0 Hsr). }
    assert (Z2 : Qlt_bool 0 sampleRate = true) by now apply Qlt_bool_iff.
    rewrite Z1, Z2. reflexivity.
  - set (b := AcousticAnalyzer.bestLagOf sampleRate frame) in *.
    unfold AcousticAnalyzer.maxLag in E.
    assert (Hb : (1 <= b)%nat \/ b = 0%nat) by lia.
    destruct Hb as [Hb|Hb].
    + unfold ofNat, ofZ. rewrite ndiv_Fin by now apply ofNat_nonzero.
      apply ngt_Fin. rewrite Qred_correct.
      pose proof (ofNat_positive Hb) as P.
      apply Qlt_shift_div_l; [assumption|].
      assert (F : inject_Z (Z.of_nat b) + 1 <= sampleRate / 50).
      { apply Qle_trans with (inject_Z (Qfloor (sampleRate / 50)));
          [|apply Qfloor_le].
        change 1 with (inject_Z 1). rewrite <- inject_Z_plus.
        rewrite <- Zle_Qle. lia. }
      assert (G : 50 * (inject_Z (Z.of_nat b) + 1) <= sampleRate).
      { apply Qle_trans with (50 * (sampleRate / 50)).
        - apply Qmult_le_l; [reflexivity|assumption].
        - apply Qle_lteq. right. field. }
      lra.
    + rewrite Hb. simpl. unfold infBySign.
      assert (Z1 : Qeq_bool sampleRate 0 = false).
      { apply Qeq_bool_false_iff. intro C. rewrite C in Hsr.
        exact (Qlt_irrefl 0 Hsr). }
      assert (Z2 : Qlt_bool 0 sampleRate = true) by now apply Qlt_bool_iff.
      rewrite Z1, Z2. reflexivity.
Qed.

Lemma filter_all {A : Type} (p : A -> bool) (xs : list A) :
  (forall x, In x xs -> p x = true) -> filter p xs = xs.
Proof.
  induction xs as [|x xs IH]; intro H; simpl; [reflexivity|].
  rewrite (H x (or_introl eq_refl)). f_equal. apply IH.
  intros y Hy. apply H. now right.
Qed.

Lemma isValidPitch_range (v : num) :
  AcousticAnalyzer.isValidPitch v = true ->
  (Fin 50 <=? v)%num = true /\ (v <=? Fin 400)%num = true
  /\ (Fin 50 <? v)%num = true /\ (v <? Fin 400)%num = true.
Proof.
  unfold AcousticAnalyzer.isValidPitch. intro H.
  apply andb_true_iff in H. destruct H as [H1 H2].
  destruct v as [q| | |]; try discriminate.
  apply ngt_Fin in H1. apply nlt_Fin in H2.
  repeat split.
  - apply nle_Fin. now apply Qlt_le_weak.
  - apply nle_Fin. now apply Qlt_le_weak.
  - now apply nlt_Fin.
  - now apply nlt_Fin.
Qed.

(** C4.  For a clip at a sample rate of at least 100 Hz, [analyzePitch]
    returns; [values] holds the raw series, one estimate per analysis frame;
    the observations behind the aggregate are those estimates that pass the
    validity test, all of them within [[50, 400]] Hz; [mean], [min] and [max]
    are the average, the least and the largest of these observations, and all
    three are 0 when there is none. *)
Theorem pitch_aggregate_over_valid_range (sampleRate : Q)
  (audioData : list num) :
  100 <= sampleRate ->
  exists frames p,
    AcousticAnalyzer.framesOf sampleRate audioData = Ok frames
    /\ AcousticAnalyzer.analyzePitch sampleRate audioData = Ok p
    /\ Pitch.values p = map (AcousticAnalyzer.estimatePitch sampleRate) frames
    /\ Pitch.contour p
       = filter AcousticAnalyzer.isValidPitch (Pitch.values p)
    /\ (forall v, In v (Pitch.contour p) ->
          In v (Pitch.values p)
          /\ (Fin 50 <=? v)%num = true /\ (v <=? Fin 400)%num = true)
    /\ Pitch.mean p
       = match Pitch.contour p with
         | [] => Fin 0
         | first :: rest =>
             (fold_left nadd rest first
              / ofNat (List.length (Pitch.contour p)))%num
         end
    /\ Pitch.min p
       = match Pitch.contour p with
         | [] => Fin 0
         | _ => minOf (Pitch.contour p)
         end
    /\ Pitch.max p
       = match Pitch.contour p with
         | [] => Fin 0
         | _ => maxOf (Pitch.contour p)
         end
    /\ (Pitch.contour p = [] ->
        Pitch.mean p = Fin 0 /\ Pitch.min p = Fin 0 /\ Pitch.max p = Fin 0).
Proof.
  intro Hsr.
  assert (Psr : 0 < sampleRate) by lra.
  destruct (@framesOf_returns sampleRate audioData (hopSize_positive Hsr))
    as (frames & Hframes).
  set (raw := map (AcousticAnalyzer.estimatePitch sampleRate) frames).
  assert (Hraw : filter (fun pitch => (pitch >? Fin 50)%num) raw = raw).
  { apply filter_all. intros x Hx. apply in_map_iff in Hx.
    destruct Hx as (frame & <- & _). now apply estimatePitch_above_50. }
  set (valid := filter AcousticAnalyzer.isValidPitch raw).
  exists frames.
  unfold AcousticAnalyzer.analyzePitch. rewrite Hframes. cbn [bind].
  fold raw. rewrite Hraw. fold valid.
  assert (Hv : forall v, In v valid ->
                 In v raw /\ (Fin 50 <=? v)%num = true
                 /\ (v <=? Fin 400)%num = true).
  { intros v Hvin. apply filter_In in Hvin. destruct Hvin as [Hin Hok].
    apply isValidPitch_range in Hok. tauto. }
  destruct valid as [|first rest] eqn:Ev.
  - eexists. split; [reflexivity|]. split; [reflexivity|].
    cbn [Pitch.values Pitch.contour Pitch.mean Pitch.min Pitch.max].
    fold valid. rewrite Ev.
    repeat split; try reflexivity;
      match goal with H : In _ [] |- _ => destruct H end.
  - eexists. split; [reflexivity|]. split; [reflexivity|].
    cbn [Pitch.values Pitch.contour Pitch.mean Pitch.min Pitch.max].
    fold valid. rewrite Ev.
    repeat split; try reflexivity; try discriminate; now apply Hv.
Qed.

Lemma pitch_aggregate_over_valid_range_witness :
  100 <= 8000
  /\ exists p,
       AcousticAnalyzer.analyzePitch 8000 Examples.faintClip = Ok p
       /\ (forall v, In v (Pitch.contour p) ->
             (Fin 50 <=? v)%num = true /\ (v <=? Fin 400)%num = true)
       /\ (Pitch.contour p = [] ->
           Pitch.mean p = Fin 0 /\ Pitch.min p = Fin 0 /\ Pitch.max p = Fin 0).
Proof.
  assert (H : 100 <= 8000) by discriminate.
  split; [exact H|].
  destruct (@pitch_aggregate_over_valid_range 8000 Examples.faintClip H)
    as (frames & p & _ & Hp & _ & _ & Hrange & _ & _ & _ & Hzero).
  exists p. split; [exact Hp|]. split; [|exact Hzero].
  intros v Hv. destruct (Hrange v Hv) as (_ & H1 & H2). split; assumption.
Defined.

(** Silence has no periodicity: the one frame is estimated at [+Infinity],
    which the raw series keeps and the aggregate leaves out. *)
Example analyzePitch_of_silence :
  AcousticAnalyzer.analyzePitch 8000 (repeat (Fin 0) 201)
  = Ok (Pitch.mk [PInf] (Fin 0) (Fin 0) (Fin 0) []).
Proof. vm_compute. reflexivity. Qed.

(* ===================================================================== *)
(** ** Clips longer than a frame *)
(* ===================================================================== *)

Lemma reduceSum_returns (xs : list num) :
  xs <> [] -> exists total, reduceSum xs = Ok total.
Proof.
  destruct xs as [|x xs]; [congruence|]. intros _. simpl. eauto.
Qed.

Lemma analyzePitch_returns (sampleRate : Q) (audioData : list num) :
  (1 <= AcousticAnalyzer.hopSizeOf sampleRate)%nat ->
  exists p, AcousticAnalyzer.analyzePitch sampleRate audioData = Ok p.
Proof.
  intro Hhop.
  destruct (@framesOf_returns sampleRate audioData Hhop) as (frames & Hf).
  unfold AcousticAnalyzer.analyzePitch. rewrite Hf. cbn [bind].
  match goal with
  | |- context [filter AcousticAnalyzer.isValidPitch ?l] =>
      destruct (filter AcousticAnalyzer.isValidPitch l) as [|v rest]
  end; simpl; eauto.
Qed.

(** Away from the short-clip failure, every analysis returns: a clip
    longer than one frame, at a sample rate of at least 100 Hz, gets its
    feature record, whatever its samples (silence, saturated or constant
    signals included). *)
Lemma analyzeAudio_returns (M : MathLib) (sampleRate : Q)
  (input : AcousticAnalyzer.audioInput) :
  100 <= sampleRate ->
  (AcousticAnalyzer.frameSizeOf sampleRate
   < List.length (AcousticAnalyzer.channelData input))%nat ->
  exists f,
    AcousticAnalyzer.analyzeAudio M sampleRate input = Ok f
    /\ Features.duration f = AcousticAnalyzer.inputDuration input
    /\ Features.summary f <> None.
Proof.
  intros Hsr Hlen.
  pose proof (hopSize_positive Hsr) as Hhop.
  set (audioData := AcousticAnalyzer.channelData input) in *.
  destruct (@frameStarts_spec sampleRate audioData Hhop)
    as (starts & Hstarts & Hin).
  assert (Hne : starts <> []).
  { intro E. assert (H0 : In 0%nat starts).
    { apply Hin. split; [lia|]. exists 0%nat. reflexivity. }
    rewrite E in H0. exact H0. }
  unfold AcousticAnalyzer.analyzeAudio. fold audioData.
  (* energy *)
  unfold AcousticAnalyzer.analyzeEnergy, AcousticAnalyzer.normalizedEnergy.
  rewrite Hstarts. cbn [bind].
  match goal with
  | |- context [reduceSum ?l] =>
      destruct (@reduceSum_returns l) as [total Ht];
        [intro E; apply map_eq_nil in E; apply map_eq_nil in E; contradiction|];
        rewrite Ht
  end.
  cbn [bind].
  (* voicing *)
  unfold AcousticAnalyzer.analyzeVoicing, AcousticAnalyzer.framesOf.
  rewrite Hstarts. cbn [bind].
  match goal with
  | |- context [reduceSum ?l] =>
      destruct (@reduceSum_returns l) as [voiced Hv];
        [intro E; apply map_eq_nil in E; apply map_eq_nil in E; contradiction|];
        rewrite Hv
  end.
  cbn [bind].
  (* pitch *)
  destruct (@analyzePitch_returns sampleRate audioData Hhop) as [p Hp].
  rewrite Hp. cbn [bind].
  (* zero crossings *)
  unfold AcousticAnalyzer.analyzeZeroCrossingRate, AcousticAnalyzer.framesOf,
    AcousticAnalyzer.isFricative.
  rewrite Hstarts. cbn [bind].
  match goal with
  | |- context [reduceSum ?l] =>
      destruct (@reduceSum_returns l) as [crossings Hz];
        [intro E; apply map_eq_nil in E; apply map_eq_nil in E; contradiction|];
        rewrite Hz
  end.
  cbn [bind].
  (* time series *)
  unfold AcousticAnalyzer.extractTimeSeriesData.
  destruct (@frameLoop_spec 512 (List.length audioData) ltac:(lia)
              (List.length audioData) 0%nat ltac:(lia))
    as (series & Hseries & _).
  rewrite Hseries. cbn [bind].
  eexists. split; [reflexivity|]. split; [reflexivity|]. discriminate.
Qed.

(* ===================================================================== *)
(** ** The comparator sort *)
(* ===================================================================== *)

Section SortProperties.

Variable A : Type.
Variable compareFn : A -> A -> num.

Lemma insertSorted_perm (x : A) (sorted : list A) :
  Permutation (insertSorted compareFn x sorted) (x :: sorted).
Proof.
  induction sorted as [|y rest IH]; simpl.
  - apply Permutation_refl.
  - destruct (compareFn x y <? Fin 0)%num.
    + apply Permutation_refl.
    + apply perm_trans with (y :: x :: rest).
      * now apply perm_skip.
      * apply perm_swap.
Qed.

Lemma sortBy_fold_perm (xs : list A) :
  forall acc,
    Permutation
      (fold_left (fun sorted x => insertSorted compareFn x sorted) xs acc)
      (acc ++ xs).
Proof.
  induction xs as [|x xs IH]; intro acc; simpl.
  - rewrite app_nil_r. apply Permutation_refl.
  - eapply perm_trans; [apply IH|].
    eapply perm_trans.
    + apply Permutation_app_tail. apply insertSorted_perm.
    + simpl. apply Permutation_middle.
Qed.

Lemma sortBy_perm (xs : list A) : Permutation (sortBy compareFn xs) xs.
Proof. unfold sortBy. apply (sortBy_fold_perm xs []). Qed.

(** When the comparator is [key b - key a] on finite keys, the result is
    in descending order of the key. *)
Variable key : A -> num.
Hypothesis compareFn_key : forall a b, compareFn a b = (key b - key a)%num.

Local Abbreviation descending := (descendingBy key).

Lemma compare_finite (a b : A) (p q : Q) :
  key a = Fin p -> key b = Fin q ->
  ((compareFn a b <? Fin 0)%num = true <-> q < p).
Proof.
  intros Ha Hb. rewrite compareFn_key, Ha, Hb.
  change (Fin q - Fin p)%num with (Fin (Qred (q + Qred (- p)))).
  rewrite nlt_Fin, !Qred_correct. split; intro H; lra.
Qed.

Lemma insertSorted_descending (x : A) (sorted : list A) :
  isFinite (key x) = true ->
  Forall (fun y => isFinite (key y) = true) sorted ->
  Sorted descending sorted ->
  Sorted descending (insertSorted compareFn x sorted)
  /\ forall z, HdRel descending z sorted -> descending z x ->
               HdRel descending z (insertSorted compareFn x sorted).
Proof.
  intros Hx. apply isFinite_Fin in Hx. destruct Hx as [p Hp].
  induction sorted as [|y rest IH]; intros Hfin Hs.
  - simpl. split; [repeat constructor|]. intros z _ Hz. now constructor.
  - inversion Hfin as [|? ? Hy Hrest]; subst.
    inversion Hs as [|? ? Hs' Hhd]; subst.
    apply isFinite_Fin in Hy. destruct Hy as [q Hq].
    simpl. destruct (compareFn x y <? Fin 0)%num eqn:E.
    + apply (compare_finite Hp Hq) in E.
      split.
      * constructor; [assumption|]. constructor.
        unfold descendingBy. rewrite Hp, Hq. apply nge_Fin.
        now apply Qlt_le_weak.
      * intros z _ Hz. now constructor.
    + assert (L : p <= q).
      { apply Qnot_lt_le. intro C.
        apply (compare_finite Hp Hq) in C. congruence. }
      destruct (IH Hrest Hs') as [IH1 IH2].
      split.
      * constructor; [assumption|]. apply IH2; [assumption|].
        unfold descendingBy. rewrite Hp, Hq. now apply nge_Fin.
      * intros z Hz _. inversion Hz; subst. now constructor.
Qed.

Lemma sortBy_fold_descending (xs : list A) :
  Forall (fun y => isFinite (key y) = true) xs ->
  forall acc,
    Forall (fun y => isFinite (key y) = true) acc ->
    Sorted descending acc ->
    Sorted descending
      (fold_left (fun sorted x => insertSorted compareFn x sorted) xs acc).
Proof.
  induction 1 as [|x xs Hx Hxs IH]; intros acc Hacc Hs; simpl.
  - assumption.
  - apply IH.
    + apply Forall_forall. intros y Hy.
      apply (Permutation_in _ (insertSorted_perm x acc)) in Hy.
      destruct Hy as [<-|Hy]; [assumption|].
      rewrite Forall_forall in Hacc. now apply Hacc.
    + now apply insertSorted_descending.
Qed.

Lemma descending_trans : Relations_1.Transitive descending.
Proof.
  intros a b c. unfold descendingBy, nge.
  destruct (key a) as [p| | |], (key b) as [q| | |], (key c) as [r| | |];
    simpl; try congruence.
  rewrite !Qle_bool_iff. intros H1 H2. now apply Qle_trans with q.
Qed.

Lemma sortBy_descending (xs : list A) :
  Forall (fun y => isFinite (key y) = true) xs ->
  StronglySorted descending (sortBy compareFn xs).
Proof.
  intro H. apply Sorted_StronglySorted; [exact descending_trans|].
  unfold sortBy. apply sortBy_fold_descending; try assumption; constructor.
Qed.

End SortProperties.

(* ===================================================================== *)
(** ** The spectral peak finder *)
(* ===================================================================== *)

Section PeakProperties.

Variable M : MathLib.
Variable a : FFTAnalyzer.FFTAnalyzer.

Local Abbreviation dB := (FFTAnalyzer.getMagnitudeDB M a).

(** The test of the inner loop: nothing within [minDistance] bins is
    above bin [i]. *)
Lemma isLocalMax_iff (minDistance i : nat) :
  (minDistance <= i)%nat ->
  (FFTAnalyzer.isLocalMax M a minDistance i = true
   <-> forall j, (i - minDistance <= j <= i + minDistance)%nat -> j <> i ->
                 (dB j >? dB i)%num = false).
Proof.
  intro Hi. unfold FFTAnalyzer.isLocalMax. rewrite forallb_forall.
  split.
  - intros H j Hj Hne.
    specialize (H (j - (i - minDistance))%nat).
    rewrite in_seq in H.
    assert (E : (i - minDistance + (j - (i - minDistance)) = j)%nat) by lia.
    rewrite E in H.
    destruct (j - (i - minDistance) =? minDistance)%nat eqn:Ek.
    + apply Nat.eqb_eq in Ek. lia.
    + simpl in H. apply negb_true_iff. apply H. lia.
  - intros H k Hk. apply in_seq in Hk.
    destruct (k =? minDistance)%nat eqn:Ek; [reflexivity|].
    apply Nat.eqb_neq in Ek. simpl. apply negb_true_iff.
    apply H; lia.
Qed.

Lemma peakBins_iff (threshold : num) (minDistance i : nat) :
  In i (FFTAnalyzer.peakBins M a threshold minDistance)
  <-> (minDistance <= i
       < List.length (FFTAnalyzer.magnitude a) - minDistance)%nat
      /\ (dB i >? threshold)%num = true
      /\ forall j, (i - minDistance <= j <= i + minDistance)%nat -> j <> i ->
                   (dB j >? dB i)%num = false.
Proof.
  unfold FFTAnalyzer.peakBins. rewrite filter_In, in_seq, andb_true_iff.
  split.
  - intros (Hr & Ht & Hl). split; [lia|]. split; [assumption|].
    apply isLocalMax_iff; [lia|assumption].
  - intros (Hr & Ht & Hl). split; [lia|]. split; [assumption|].
    apply isLocalMax_iff; [lia|assumption].
Qed.

Lemma peakBins_NoDup (threshold : num) (minDistance : nat) :
  NoDup (FFTAnalyzer.peakBins M a threshold minDistance).
Proof. apply NoDup_filter, seq_NoDup. Qed.

Lemma binIndex_peakAt (bins : list nat) :
  map FFTAnalyzer.binIndex (map (FFTAnalyzer.peakAt M a) bins) = bins.
Proof.
  rewrite map_map. simpl. apply map_id.
Qed.

(** C5, as the code has it.  [findPeaks] returns one record per flagged
    bin.  A bin [i] is flagged exactly when it lies at least [minDistance]
    bins away from both ends of the spectrum, its dB value exceeds the
    threshold, and no bin within [minDistance] of it has a greater dB value
    (bins of equal dB value do not disqualify it).  The records describe
    their bins, and, when the magnitudes are finite, they come in descending
    order of magnitude. *)
Theorem findPeaks_characterised (threshold : num) (minDistance : nat) :
  let peaks := FFTAnalyzer.findPeaks M a threshold minDistance in
  (forall i,
      In i (map FFTAnalyzer.binIndex peaks)
      <-> (minDistance <= i
           < List.length (FFTAnalyzer.magnitude a) - minDistance)%nat
          /\ (dB i >? threshold)%num = true
          /\ forall j, (i - minDistance <= j <= i + minDistance)%nat ->
                       j <> i -> (dB j >? dB i)%num = false)
  /\ NoDup (map FFTAnalyzer.binIndex peaks)
  /\ (forall p, In p peaks ->
        p = FFTAnalyzer.peakAt M a (FFTAnalyzer.binIndex p))
  /\ (allFinite (FFTAnalyzer.magnitude a) ->
      StronglySorted
        (fun p q =>
           (FFTAnalyzer.peakMagnitude p >=? FFTAnalyzer.peakMagnitude q)%num
           = true)
        peaks).
Proof.
  intro peaks.
  set (bins := FFTAnalyzer.peakBins M a threshold minDistance).
  assert (Hperm : Permutation peaks (map (FFTAnalyzer.peakAt M a) bins)).
  { apply sortBy_perm. }
  assert (Hbins : Permutation (map FFTAnalyzer.binIndex peaks) bins).
  { rewrite <- (binIndex_peakAt bins). now apply Permutation_map. }
  split; [|split; [|split]].
  - intro i. rewrite <- peakBins_iff. fold bins. split; intro H.
    + now apply (Permutation_in _ Hbins).
    + now apply (Permutation_in _ (Permutation_sym Hbins)).
  - apply (Permutation_NoDup (Permutation_sym Hbins)).
    apply peakBins_NoDup.
  - intros p Hp. apply (Permutation_in _ Hperm) in Hp.
    apply in_map_iff in Hp. destruct Hp as (i & <- & _). reflexivity.
  - intro Hfin. unfold peaks, FFTAnalyzer.findPeaks.
    apply (@sortBy_descending _ _ FFTAnalyzer.peakMagnitude).
    + reflexivity.
    + apply Forall_forall. intros p Hp. apply in_map_iff in Hp.
      destruct Hp as (i & <- & Hi). fold bins in Hi.
      apply peakBins_iff in Hi. destruct Hi as (Hr & _).
      simpl. destruct (@allFinite_nth (FFTAnalyzer.magnitude a) i Hfin)
        as [q ->]; [lia|reflexivity].
Qed.

End PeakProperties.

Lemma findPeaks_characterised_witness :
  allFinite (FFTAnalyzer.magnitude Examples.lineSpectrum)
  /\ forall M : MathLib,
       StronglySorted
         (fun p q =>
            (FFTAnalyzer.peakMagnitude p >=? FFTAnalyzer.peakMagnitude q)%num
            = true)
         (FFTAnalyzer.findPeaks M Examples.lineSpectrum (Fin (-30)) 1).
Proof.
  assert (H : allFinite (FFTAnalyzer.magnitude Examples.lineSpectrum)).
  { repeat constructor. }
  split; [exact H|]. intro M.
  apply (findPeaks_characterised M Examples.lineSpectrum (Fin (-30)) 1).
  exact H.
Defined.

(** C5 as stated fails: with every bin at the -100 dB floor and a threshold
    of -150 dB, bin 1 is returned although it does not strictly dominate its
    neighbours, whose dB value is the same. *)
Lemma findPeaks_keeps_ties :
  (forall M : MathLib,
      map FFTAnalyzer.binIndex
        (FFTAnalyzer.findPeaks M Examples.flatSpectrum (Fin (-150)) 1)
      = [1%nat])
  /\ (forall M : MathLib,
        FFTAnalyzer.getMagnitudeDB M Examples.flatSpectrum 0
        = FFTAnalyzer.getMagnitudeDB M Examples.flatSpectrum 1
        /\ (FFTAnalyzer.getMagnitudeDB M Examples.flatSpectrum 1
            >? FFTAnalyzer.getMagnitudeDB M Examples.flatSpectrum 0)%num
           = false).
Proof.
  split; intro M; [|split]; vm_compute; reflexivity.
Qed.

(* ===================================================================== *)
(** ** Grids *)
(* ===================================================================== *)

Lemma updNth_length {A : Type} (f : A -> A) (xs : list A) :
  forall i, List.length (updNth i f xs) = List.length xs.
Proof.
  induction xs as [|x xs IH]; intros [|i]; simpl; auto.
Qed.

Lemma nth_updNth_same {A : Type} (f : A -> A) (d : A) (xs : list A) :
  forall i, (i < List.length xs)%nat ->
            nth i (updNth i f xs) d = f (nth i xs d).
Proof.
  induction xs as [|x xs IH]; intros [|i] H; simpl in *; try lia; auto.
  apply IH. lia.
Qed.

Lemma nth_updNth_other {A : Type} (f : A -> A) (d : A) (xs : list A) :
  forall i j, i <> j -> nth j (updNth i f xs) d = nth j xs d.
Proof.
  induction xs as [|x xs IH]; intros [|i] [|j] H; simpl; auto; try congruence.
Qed.

Lemma updNth_Forall {A : Type} (P : A -> Prop) (f : A -> A) (xs : list A) :
  Forall P xs -> (forall x, P x -> P (f x)) ->
  forall i, Forall P (updNth i f xs).
Proof.
  intros H Hf. induction H as [|x xs Hx Hxs IH]; intros [|i]; simpl;
    constructor; auto.
Qed.

Lemma createGrid_shape (h w : nat) (v : num) :
  hasShape h w (Solver._createGridOf h w v).
Proof.
  unfold hasShape, Solver._createGridOf. split.
  - apply repeat_length.
  - apply Forall_forall. intros row Hrow. apply repeat_spec in Hrow.
    subst. apply repeat_length.
Qed.

Lemma createGrid_cell (h w y x : nat) (v : num) :
  (y < h)%nat -> (x < w)%nat ->
  cellOf (Solver._createGridOf h w v) y x = v.
Proof.
  intros Hy Hx. unfold cellOf, Solver._createGridOf.
  rewrite (nth_indep _ [] (repeat v w)) by now rewrite repeat_length.
  rewrite nth_repeat. apply nth_repeat_lt. exact Hx.
Qed.

Lemma shape_row (h w : nat) (g : Solver.grid) (y : nat) :
  hasShape h w g -> (y < h)%nat ->
  nth_error g y = Some (nth y g []) /\ List.length (nth y g []) = w.
Proof.
  intros [Hl Hr] Hy. split.
  - apply nth_error_nth'. lia.
  - rewrite Forall_forall in Hr. apply Hr. apply nth_In. lia.
Qed.

Lemma updCell_shape (h w : nat) (g : Solver.grid) (y x : nat)
  (f : num -> num) :
  hasShape h w g -> hasShape h w (updCell g y x f).
Proof.
  intros [Hl Hr]. unfold updCell. split.
  - now rewrite updNth_length.
  - apply updNth_Forall; [assumption|].
    intros row Hrow. now rewrite updNth_length.
Qed.

Lemma updCell_same (h w : nat) (g : Solver.grid) (y x : nat)
  (f : num -> num) :
  hasShape h w g -> (y < h)%nat -> (x < w)%nat ->
  cellOf (updCell g y x f) y x = f (cellOf g y x).
Proof.
  intros Hs Hy Hx. destruct (shape_row Hs Hy) as [_ Hrow].
  destruct Hs as [Hl _]. unfold cellOf, updCell.
  rewrite nth_updNth_same by lia.
  apply nth_updNth_same. lia.
Qed.

Lemma updCell_other (g : Solver.grid) (y x y' x' : nat) (f : num -> num) :
  (y', x') <> (y, x) ->
  cellOf (updCell g y x f) y' x' = cellOf g y' x'.
Proof.
  intro H. unfold cellOf, updCell.
  destruct (Nat.eq_dec y y') as [->|Hy].
  - destruct (Nat.lt_ge_cases y' (List.length g)) as [L|G].
    + rewrite nth_updNth_same by assumption.
      apply nth_updNth_other. congruence.
    + rewrite !(nth_overflow _ []); [reflexivity|lia|].
      rewrite updNth_length. lia.
  - now rewrite nth_updNth_other.
Qed.

Lemma getCell_shape (h w : nat) (g : Solver.grid) (y x : nat) :
  hasShape h w g -> (y < h)%nat -> (x < w)%nat ->
  Solver.getCell g y x = Ok (cellOf g y x).
Proof.
  intros Hs Hy Hx. destruct (shape_row Hs Hy) as [Hrow Hlen].
  unfold Solver.getCell, cellOf. rewrite Hrow.
  rewrite (nth_error_nth' _ (Fin 0)) by lia. reflexivity.
Qed.

Lemma setCell_shape (h w : nat) (g : Solver.grid) (y x : nat) (v : num) :
  hasShape h w g -> (y < h)%nat -> (x < w)%nat ->
  Solver.setCell g y x v = Ok (updCell g y x (fun _ => v)).
Proof.
  intros Hs Hy Hx. destruct (shape_row Hs Hy) as [Hrow Hlen].
  unfold Solver.setCell. rewrite Hrow, Hlen.
  apply Nat.ltb_lt in Hx. rewrite Hx. reflexivity.
Qed.

(** Two grids of one shape with the same cells are the same grid. *)
Lemma grid_ext (h w : nat) (g1 g2 : Solver.grid) :
  hasShape h w g1 -> hasShape h w g2 ->
  (forall y x, (y < h)%nat -> (x < w)%nat -> cellOf g1 y x = cellOf g2 y x) ->
  g1 = g2.
Proof.
  intros S1 S2 H.
  apply (nth_ext g1 g2 [] []).
  - destruct S1, S2. congruence.
  - intros y Hy. destruct S1 as [L1 R1], S2 as [L2 R2].
    assert (Hy' : (y < h)%nat) by lia.
    apply (nth_ext _ _ (Fin 0) (Fin 0)).
    + rewrite Forall_forall in R1, R2.
      rewrite R1, R2; [reflexivity| |]; apply nth_In; lia.
    + intros x Hx. apply H; [assumption|].
      rewrite Forall_forall in R1. rewrite R1 in Hx; [assumption|].
      apply nth_In. lia.
Qed.

Lemma tabulate_shape (h w : nat) (val : nat -> nat -> num) :
  hasShape h w (tabulate h w val).
Proof.
  unfold hasShape, tabulate. split.
  - now rewrite length_map, length_seq.
  - apply Forall_forall. intros row Hrow. apply in_map_iff in Hrow.
    destruct Hrow as (y & <- & _). now rewrite length_map, length_seq.
Qed.

Lemma tabulate_cell (h w : nat) (val : nat -> nat -> num) (y x : nat) :
  (y < h)%nat -> (x < w)%nat -> cellOf (tabulate h w val) y x = val y x.
Proof.
  intros Hy Hx. unfold cellOf, tabulate.
  rewrite (nth_indep _ [] (map (val 0%nat) (seq 0 w)))
    by now rewrite length_map, length_seq.
  rewrite (map_nth (fun y => map (val y) (seq 0 w)) (seq 0 h) 0%nat y).
  rewrite seq_nth by assumption. simpl.
  rewrite (nth_indep _ (Fin 0) (val y 0%nat))
    by now rewrite length_map, length_seq.
  rewrite (map_nth (val y) (seq 0 w) 0%nat x).
  now rewrite seq_nth.
Qed.

(* ===================================================================== *)
(** ** Loops *)
(* ===================================================================== *)

(** A loop whose body always returns, and keeps an invariant, returns the
    state that the bodies produce one after the other. *)
Lemma forRange_pure {S : Type} (Inv : S -> Prop)
  (body : nat -> S -> result S) (upd : nat -> S -> S) :
  forall n start s,
    (forall i s, (start <= i < start + n)%nat -> Inv s ->
                 body i s = Ok (upd i s) /\ Inv (upd i s)) ->
    Inv s ->
    forRange n start body s
    = Ok (fold_left (fun s i => upd i s) (seq start n) s)
    /\ Inv (fold_left (fun s i => upd i s) (seq start n) s).
Proof.
  induction n as [|n IH]; intros start s Hbody Hinv.
  - simpl. auto.
  - cbn [forRange seq fold_left].
    destruct (Hbody start s) as [Hb Hi]; [lia|assumption|].
    rewrite Hb. cbn [bind]. apply IH; [|assumption].
    intros i s' Hr Hs'. apply Hbody; [lia|assumption].
Qed.

(** Writing [val x] into the cells of one row, left to right. *)
Lemma write_row (h w : nat) (val : nat -> num) (y : nat) :
  (y < h)%nat ->
  forall n start g,
    (start + n <= w)%nat ->
    hasShape h w g ->
    let g' :=
      fold_left (fun g x => updCell g y x (fun _ => val x)) (seq start n) g in
    hasShape h w g'
    /\ forall y' x', (y' < h)%nat -> (x' < w)%nat ->
         cellOf g' y' x'
         = if (y' =? y)%nat && (start <=? x')%nat && (x' <? start + n)%nat
           then val x' else cellOf g y' x'.
Proof.
  intro Hy. induction n as [|n IH]; intros start g Hn Hs; cbn zeta.
  - simpl. split; [assumption|]. intros y' x' _ _.
    destruct (y' =? y)%nat, (start <=? x')%nat eqn:E1,
      (x' <? start + 0)%nat eqn:E2; try reflexivity.
    apply Nat.leb_le in E1. apply Nat.ltb_lt in E2. lia.
  - cbn [seq fold_left].
    destruct (IH (S start) (updCell g y start (fun _ => val start)))
      as [Hs' Hc]; [lia|now apply updCell_shape|].
    split; [exact Hs'|].
    intros y' x' Hy' Hx'. rewrite Hc by assumption.
    destruct (Nat.eq_dec y' y) as [->|Ny].
    + rewrite Nat.eqb_refl. cbn [andb].
      destruct (Nat.lt_trichotomy x' start) as [L|[->|G]].
      * assert (E1 : (S start <=? x')%nat = false) by (apply Nat.leb_gt; lia).
        assert (E2 : (start <=? x')%nat = false) by (apply Nat.leb_gt; lia).
        rewrite E1, E2. cbn [andb]. apply updCell_other. intro C.
        injection C as C. lia.
      * assert (E1 : (S start <=? start)%nat = false)
          by (apply Nat.leb_gt; lia).
        assert (E2 : (start <=? start)%nat = true) by (apply Nat.leb_le; lia).
        assert (E3 : (start <? start + S n)%nat = true)
          by (apply Nat.ltb_lt; lia).
        rewrite E1, E2, E3. cbn [andb].
        now rewrite (updCell_same _ Hs) by (assumption || lia).
      * assert (E1 : (S start <=? x')%nat = true) by (apply Nat.leb_le; lia).
        assert (E2 : (start <=? x')%nat = true) by (apply Nat.leb_le; lia).
        rewrite E1, E2. cbn [andb].
        replace (S start + n)%nat with (start + S n)%nat by lia.
        destruct (x' <? start + S n)%nat; [reflexivity|].
        apply updCell_other. intro C. injection C as C. lia.
    + apply Nat.eqb_neq in Ny as E. rewrite E. cbn [andb].
      apply updCell_other. intro C. injection C as C. congruence.
Qed.

(** Writing [val y x] into every cell, row after row. *)
Lemma write_grid (h w : nat) (val : nat -> nat -> num) :
  forall n start g,
    (start + n <= h)%nat ->
    hasShape h w g ->
    let g' :=
      fold_left
        (fun g y =>
           fold_left (fun g x => updCell g y x (fun _ => val y x))
             (seq 0 w) g)
        (seq start n) g in
    hasShape h w g'
    /\ forall y' x', (y' < h)%nat -> (x' < w)%nat ->
         cellOf g' y' x'
         = if (start <=? y')%nat && (y' <? start + n)%nat
           then val y' x' else cellOf g y' x'.
Proof.
  induction n as [|n IH]; intros start g Hn Hs; cbn zeta.
  - simpl. split; [assumption|]. intros y' x' _ _.
    destruct (start <=? y')%nat eqn:E1, (y' <? start + 0)%nat eqn:E2;
      try reflexivity.
    apply Nat.leb_le in E1. apply Nat.ltb_lt in E2. lia.
  - cbn [seq fold_left].
    assert (Hrow : (start < h)%nat) by lia.
    destruct (@write_row h w (val start) start Hrow w 0%nat g) as [Hs1 Hc1];
      [lia|assumption|].
    destruct (IH (S start) _ ltac:(lia) Hs1) as [Hs' Hc].
    split; [exact Hs'|].
    intros y' x' Hy' Hx'. rewrite Hc by assumption.
    rewrite Hc1 by assumption.
    assert (X1 : (0 <=? x')%nat = true) by (apply Nat.leb_le; lia).
    assert (X2 : (x' <? 0 + w)%nat = true) by (apply Nat.ltb_lt; lia).
    rewrite X1, X2.
    destruct (Nat.lt_trichotomy y' start) as [L|[->|G]].
    + assert (E1 : (S start <=? y')%nat = false) by (apply Nat.leb_gt; lia).
      assert (E2 : (start <=? y')%nat = false) by (apply Nat.leb_gt; lia).
      assert (E3 : (y' =? start)%nat = false) by (apply Nat.eqb_neq; lia).
      now rewrite E1, E2, E3.
    + assert (E1 : (S start <=? start)%nat = false)
        by (apply Nat.leb_gt; lia).
      assert (E2 : (start <=? start)%nat = true) by (apply Nat.leb_le; lia).
      assert (E3 : (start <? start + S n)%nat = true)
        by (apply Nat.ltb_lt; lia).
      now rewrite E1, E2, E3, Nat.eqb_refl.
    + assert (E1 : (S start <=? y')%nat = true) by (apply Nat.leb_le; lia).
      assert (E2 : (start <=? y')%nat = true) by (apply Nat.leb_le; lia).
      assert (E3 : (y' =? start)%nat = false) by (apply Nat.eqb_neq; lia).
      rewrite E1, E2, E3. cbn [andb].
      now replace (S start + n)%nat with (start + S n)%nat by lia.
Qed.

(** The two loops over a grid that write [val y x] into every cell turn
    any grid of the right shape into the table of [val]. *)
Lemma write_all (h w : nat) (val : nat -> nat -> num) (g : Solver.grid) :
  hasShape h w g ->
  fold_left
    (fun g y =>
       fold_left (fun g x => updCell g y x (fun _ => val y x)) (seq 0 w) g)
    (seq 0 h) g
  = tabulate h w val.
Proof.
  intro Hs.
  destruct (@write_grid h w val h 0%nat g) as [Hs' Hc]; [lia|assumption|].
  apply (@grid_ext h w); [assumption|apply tabulate_shape|].
  intros y x Hy Hx. rewrite Hc, tabulate_cell by assumption.
  assert (E1 : (0 <=? y)%nat = true) by (apply Nat.leb_le; lia).
  assert (E2 : (y <? 0 + h)%nat = true) by (apply Nat.ltb_lt; lia).
  now rewrite E1, E2.
Qed.

(* ===================================================================== *)
(** ** One step of the solver *)
(* ===================================================================== *)

Lemma padded_inside (h w : nat) (g : Solver.grid) (y x : nat) :
  (y < h)%nat -> (x < w)%nat ->
  padded h w g (Z.of_nat y) (Z.of_nat x) = cellOf g y x.
Proof.
  intros Hy Hx. unfold padded.
  assert (E : ((0 <=? Z.of_nat y) && (Z.of_nat y <? Z.of_nat h)
               && (0 <=? Z.of_nat x) && (Z.of_nat x <? Z.of_nat w))%Z = true).
  { rewrite !andb_true_iff, !Z.leb_le, !Z.ltb_lt. lia. }
  rewrite E. now rewrite !Nat2Z.id.
Qed.

Lemma padded_outside (h w : nat) (g : Solver.grid) (y x : Z) :
  (y < 0 \/ Z.of_nat h <= y \/ x < 0 \/ Z.of_nat w <= x)%Z ->
  padded h w g y x = Fin 0.
Proof.
  intro H. unfold padded.
  assert (E : ((0 <=? y) && (y <? Z.of_nat h)
               && (0 <=? x) && (x <? Z.of_nat w))%Z = false).
  { rewrite !andb_false_iff, !Z.leb_gt, !Z.ltb_ge. lia. }
  now rewrite E.
Qed.

(** [_laplacian] reads cells of the grid only, and computes the stencil of
    the grid continued by zero. *)
Lemma laplacian_is_padded (sim : Solver.AcousticSimulator) (g : Solver.grid)
  (x y : nat) :
  hasShape (Solver.height sim) (Solver.width sim) g ->
  (x < Solver.width sim)%nat -> (y < Solver.height sim)%nat ->
  Solver._laplacian sim g x y
  = Ok (paddedLaplacian (Solver.height sim) (Solver.width sim) g x y).
Proof.
  intros Hs Hx Hy. unfold Solver._laplacian, paddedLaplacian.
  set (h := Solver.height sim) in *. set (w := Solver.width sim) in *.
  assert (Up : (if (0 <? y)%nat then Solver.getCell g (y - 1) x
                else Ok (Fin 0))
               = Ok (padded h w g (Z.of_nat y - 1) (Z.of_nat x))).
  { destruct (0 <? y)%nat eqn:E.
    - apply Nat.ltb_lt in E. rewrite (getCell_shape Hs) by lia.
      replace (Z.of_nat y - 1)%Z with (Z.of_nat (y - 1)) by lia.
      now rewrite padded_inside by lia.
    - apply Nat.ltb_ge in E. now rewrite padded_outside by lia. }
  assert (Down : (if (y <? h - 1)%nat then Solver.getCell g (y + 1) x
                  else Ok (Fin 0))
                 = Ok (padded h w g (Z.of_nat y + 1) (Z.of_nat x))).
  { destruct (y <? h - 1)%nat eqn:E.
    - apply Nat.ltb_lt in E. rewrite (getCell_shape Hs) by lia.
      replace (Z.of_nat y + 1)%Z with (Z.of_nat (y + 1)) by lia.
      now rewrite padded_inside by lia.
    - apply Nat.ltb_ge in E. now rewrite padded_outside by lia. }
  assert (Left : (if (0 <? x)%nat then Solver.getCell g y (x - 1)
                  else Ok (Fin 0))
                 = Ok (padded h w g (Z.of_nat y) (Z.of_nat x - 1))).
  { destruct (0 <? x)%nat eqn:E.
    - apply Nat.ltb_lt in E. rewrite (getCell_shape Hs) by lia.
      replace (Z.of_nat x - 1)%Z with (Z.of_nat (x - 1)) by lia.
      now rewrite padded_inside by lia.
    - apply Nat.ltb_ge in E. now rewrite padded_outside by lia. }
  assert (Right : (if (x <? w - 1)%nat then Solver.getCell g y (x + 1)
                   else Ok (Fin 0))
                  = Ok (padded h w g (Z.of_nat y) (Z.of_nat x + 1))).
  { destruct (x <? w - 1)%nat eqn:E.
    - apply Nat.ltb_lt in E. rewrite (getCell_shape Hs) by lia.
      replace (Z.of_nat x + 1)%Z with (Z.of_nat (x + 1)) by lia.
      now rewrite padded_inside by lia.
    - apply Nat.ltb_ge in E. now rewrite padded_outside by lia. }
  rewrite Up, Down, Left, Right. cbn [bind].
  rewrite (getCell_shape Hs) by assumption. cbn [bind].
  now rewrite padded_inside by assumption.
Qed.

Lemma updNth_twice {A : Type} (f f' : A -> A) (xs : list A) :
  forall i, updNth i f' (updNth i f xs) = updNth i (fun x => f' (f x)) xs.
Proof.
  induction xs as [|x xs IH]; intros [|i]; simpl; try reflexivity.
  now rewrite IH.
Qed.

Lemma updNth_ext {A : Type} (f f' : A -> A) (xs : list A) :
  (forall x, f x = f' x) -> forall i, updNth i f xs = updNth i f' xs.
Proof.
  intro H. induction xs as [|x xs IH]; intros [|i]; simpl; try reflexivity.
  - now rewrite H.
  - now rewrite IH.
Qed.

Lemma updCell_twice (g : Solver.grid) (y x : nat) (f f' : num -> num) :
  updCell (updCell g y x f) y x f' = updCell g y x (fun v => f' (f v)).
Proof.
  unfold updCell. rewrite updNth_twice. apply updNth_ext.
  intro row. apply updNth_twice.
Qed.

Section StepLemmas.

Variable sim : Solver.AcousticSimulator.

Let h := Solver.height sim.
Let w := Solver.width sim.

Hypothesis shape_pressure : hasShape h w (Solver.pressure sim).
Hypothesis shape_prev : hasShape h w (Solver.pressurePrev sim).

(** The body of the pressure loop writes the new pressure of its cell. *)
Lemma pressureCell_writes (sv next : Solver.grid) (y x : nat) :
  hasShape h w sv -> hasShape h w next ->
  (y < h)%nat -> (x < w)%nat ->
  Solver.pressureCell sim sv y x next
  = Ok (updCell next y x (fun _ => nextPressure sim sv y x)).
Proof.
  intros Hsv Hnext Hy Hx. unfold Solver.pressureCell.
  rewrite laplacian_is_padded by assumption. cbn [bind].
  rewrite (getCell_shape shape_pressure) by assumption. cbn [bind].
  rewrite (getCell_shape shape_prev) by assumption. cbn [bind].
  rewrite (getCell_shape Hsv) by assumption. cbn [bind].
  rewrite (setCell_shape _ Hnext) by assumption. cbn [bind].
  assert (Hn1 : hasShape h w
                  (updCell next y x
                     (fun _ =>
                        (Fin 2 * cellOf (Solver.pressure sim) y x
                         - cellOf (Solver.pressurePrev sim) y x
                         + Solver.coeff sim
                           * paddedLaplacian (Solver.height sim)
                               (Solver.width sim) (Solver.pressure sim) x y
                         + cellOf sv y x)%num)))
    by now apply updCell_shape.
  rewrite (getCell_shape Hn1) by assumption. cbn [bind].
  rewrite (setCell_shape _ Hn1) by assumption.
  rewrite (@updCell_same h w next y x _ Hnext Hy Hx).
  rewrite updCell_twice. reflexivity.
Qed.

(** The pressure loops fill [pressureNext] with the new pressures. *)
Lemma pressure_loops (sv next : Solver.grid) :
  hasShape h w sv -> hasShape h w next ->
  forRange h 0 (fun y => forRange w 0 (Solver.pressureCell sim sv y)) next
  = Ok (tabulate h w (nextPressure sim sv)).
Proof.
  intros Hsv Hnext.
  destruct (@forRange_pure Solver.grid (hasShape h w)
              (fun y => forRange w 0 (Solver.pressureCell sim sv y))
              (fun y g =>
                 fold_left
                   (fun g x => updCell g y x (fun _ => nextPressure sim sv y x))
                   (seq 0 w) g)
              h 0%nat next) as [Hrun _]; [|assumption|].
  - intros y g Hy Hg.
    apply (@forRange_pure Solver.grid (hasShape h w)
             (Solver.pressureCell sim sv y)
             (fun x g => updCell g y x (fun _ => nextPressure sim sv y x))
             w 0%nat g); [|assumption].
    intros x g' Hx Hg'. split.
    + apply pressureCell_writes; (assumption || lia).
    + now apply updCell_shape.
  - rewrite Hrun. f_equal. now apply write_all.
Qed.

End StepLemmas.

Lemma fold_pair {A B I : Type} (F : I -> A -> A) (G : I -> B -> B)
  (l : list I) :
  forall a b,
    fold_left (fun s i => (F i (fst s), G i (snd s))) l (a, b)
    = (fold_left (fun a i => F i a) l a, fold_left (fun b i => G i b) l b).
Proof.
  induction l as [|i l IH]; intros a b; simpl; [reflexivity|apply IH].
Qed.

Lemma nested_pair {A B I J : Type} (F : I -> J -> A -> A)
  (G : I -> J -> B -> B) (xs : list J) (ys : list I) :
  forall a b,
    fold_left
      (fun s y => fold_left (fun s x => (F y x (fst s), G y x (snd s))) xs s)
      ys (a, b)
    = (fold_left (fun a y => fold_left (fun a x => F y x a) xs a) ys a,
       fold_left (fun b y => fold_left (fun b x => G y x b) xs b) ys b).
Proof.
  induction ys as [|y ys IH]; intros a b; simpl; [reflexivity|].
  rewrite (fold_pair (F y) (G y)). apply IH.
Qed.

Lemma cellsOf_In (h w : nat) (g : Solver.grid) (v : num) :
  In v (cellsOf h w g)
  <-> exists y x, (y < h)%nat /\ (x < w)%nat /\ cellOf g y x = v.
Proof.
  unfold cellsOf. rewrite in_flat_map. split.
  - intros (y & Hy & Hv). apply in_map_iff in Hv.
    destruct Hv as (x & <- & Hx). apply in_seq in Hy, Hx.
    exists y, x. repeat split; lia.
  - intros (y & x & Hy & Hx & <-). exists y. split; [apply in_seq; lia|].
    apply in_map. apply in_seq. lia.
Qed.

Lemma fold_cells {S : Type} (f : S -> num -> S) (h w : nat)
  (g : Solver.grid) (s : S) :
  fold_left
    (fun s y => fold_left (fun s x => f s (cellOf g y x)) (seq 0 w) s)
    (seq 0 h) s
  = fold_left f (cellsOf h w g) s.
Proof.
  unfold cellsOf. generalize (seq 0 h) as ys. intro ys. revert s.
  induction ys as [|y ys IH]; intro s; simpl; [reflexivity|].
  rewrite fold_left_app, IH. f_equal.
  generalize (seq 0 w) as xs. intro xs. revert s.
  induction xs as [|x xs IHx]; intro s; simpl; [reflexivity|apply IHx].
Qed.

Section VelocityAndStats.

Variable sim : Solver.AcousticSimulator.

Let h := Solver.height sim.
Let w := Solver.width sim.

Hypothesis shape_pressure : hasShape h w (Solver.pressure sim).

Lemma velocityCell_writes (vx vy : Solver.grid) (y x : nat) :
  hasShape h w vx -> hasShape h w vy ->
  (y < h)%nat -> (x < w)%nat ->
  Solver.velocityCell sim y x (vx, vy)
  = Ok (updCell vx y x (fun _ => velocityXAt sim y x),
        updCell vy y x (fun _ => velocityYAt sim y x)).
Proof.
  intros Hvx Hvy Hy Hx. unfold Solver.velocityCell.
  fold h w.
  assert (Dx : (if (x <? w - 1)%nat
                then bind (Solver.getCell (Solver.pressure sim) y (x + 1))
                       (fun a =>
                          bind (Solver.getCell (Solver.pressure sim) y x)
                            (fun b => Ok (a - b)%num))
                else Ok (Fin 0))
               = Ok (differenceX w (Solver.pressure sim) y x)).
  { unfold differenceX. destruct (x <? w - 1)%nat eqn:E; [|reflexivity].
    apply Nat.ltb_lt in E.
    rewrite !(getCell_shape shape_pressure) by lia. reflexivity. }
  assert (Dy : (if (y <? h - 1)%nat
                then bind (Solver.getCell (Solver.pressure sim) (y + 1) x)
                       (fun a =>
                          bind (Solver.getCell (Solver.pressure sim) y x)
                            (fun b => Ok (a - b)%num))
                else Ok (Fin 0))
               = Ok (differenceY h (Solver.pressure sim) y x)).
  { unfold differenceY. destruct (y <? h - 1)%nat eqn:E; [|reflexivity].
    apply Nat.ltb_lt in E.
    rewrite !(getCell_shape shape_pressure) by lia. reflexivity. }
  rewrite Dx, Dy. cbn [bind fst snd].
  rewrite (setCell_shape _ Hvx), (setCell_shape _ Hvy) by assumption.
  reflexivity.
Qed.

Lemma velocity_loops :
  hasShape h w (Solver.velocityX sim) ->
  hasShape h w (Solver.velocityY sim) ->
  Solver._calculateVelocity sim
  = Ok (tabulate h w (velocityXAt sim), tabulate h w (velocityYAt sim)).
Proof.
  intros Hvx Hvy. unfold Solver._calculateVelocity. fold h w.
  set (Inv := fun v : Solver.grid * Solver.grid =>
                hasShape h w (fst v) /\ hasShape h w (snd v)).
  destruct (@forRange_pure (Solver.grid * Solver.grid) Inv
              (fun y => forRange w 0 (Solver.velocityCell sim y))
              (fun y v =>
                 fold_left
                   (fun v x =>
                      (updCell (fst v) y x (fun _ => velocityXAt sim y x),
                       updCell (snd v) y x (fun _ => velocityYAt sim y x)))
                   (seq 0 w) v)
              h 0%nat (Solver.velocityX sim, Solver.velocityY sim))
    as [Hrun _].
  - intros y v Hy Hv.
    apply (@forRange_pure (Solver.grid * Solver.grid) Inv
             (Solver.velocityCell sim y)
             (fun x v =>
                (updCell (fst v) y x (fun _ => velocityXAt sim y x),
                 updCell (snd v) y x (fun _ => velocityYAt sim y x)))
             w 0%nat v); [|assumption].
    intros x [vx vy] Hx [Hsx Hsy]. simpl in Hsx, Hsy. split.
    + apply velocityCell_writes; (assumption || lia).
    + split; simpl; now apply updCell_shape.
  - split; assumption.
  - rewrite Hrun.
    rewrite (nested_pair
               (fun y x g => updCell g y x (fun _ => velocityXAt sim y x))
               (fun y x g => updCell g y x (fun _ => velocityYAt sim y x))).
    now rewrite !write_all.
Qed.

Lemma stats_loops :
  hasShape h w (Solver.velocityX sim) ->
  hasShape h w (Solver.velocityY sim) ->
  exists energy,
    Solver._updateStats sim = Ok (maxAbs h w (Solver.pressure sim), energy).
Proof.
  intros Hvx Hvy. unfold Solver._updateStats. fold h w.
  destruct (@forRange_pure (num * num) (fun _ => True)
              (fun y => forRange w 0 (Solver.statsCell sim y))
              (fun y st =>
                 fold_left
                   (fun st x =>
                      (nmax (fst st)
                         (nabs (cellOf (Solver.pressure sim) y x)),
                       (snd st
                        + energyTerm sim (Solver.velocityX sim)
                            (Solver.velocityY sim) y x)%num))
                   (seq 0 w) st)
              h 0%nat (Fin 0, Fin 0)) as [Hrun _].
  - intros y st Hy _. split; [|exact I].
    apply (@forRange_pure (num * num) (fun _ => True)
             (Solver.statsCell sim y)
             (fun x st =>
                (nmax (fst st) (nabs (cellOf (Solver.pressure sim) y x)),
                 (snd st
                  + energyTerm sim (Solver.velocityX sim)
                      (Solver.velocityY sim) y x)%num))
             w 0%nat st); [|exact I].
    intros x st' Hx _. split; [|exact I].
    unfold Solver.statsCell.
    rewrite (getCell_shape shape_pressure) by lia. cbn [bind].
    rewrite (getCell_shape Hvx), (getCell_shape Hvy) by lia.
    reflexivity.
  - exact I.
  - rewrite Hrun.
    rewrite (nested_pair
               (fun y x m => nmax m (nabs (cellOf (Solver.pressure sim) y x)))
               (fun y x e =>
                  (e + energyTerm sim (Solver.velocityX sim)
                         (Solver.velocityY sim) y x)%num)).
    eexists. f_equal. f_equal. unfold maxAbs.
    apply (fold_cells (fun m v => nmax m (nabs v))).
Qed.

End VelocityAndStats.

(** What [step] returns once the sources are evaluated: every loop reads
    and writes cells of the grids only, and the new fields are these. *)
Lemma step_after_sources (M : MathLib) (sim : Solver.AcousticSimulator)
  (t : num) (sv : Solver.grid) :
  wellFormed sim ->
  Solver._updateSources M sim t = Ok sv ->
  hasShape (Solver.height sim) (Solver.width sim) sv ->
  exists sim',
    Solver.step M sim t = Ok sim'
    /\ Solver.width sim' = Solver.width sim
    /\ Solver.height sim' = Solver.height sim
    /\ Solver.coeff sim' = Solver.coeff sim
    /\ Solver.dampingFactor sim' = Solver.dampingFactor sim
    /\ Solver.sources sim' = Solver.sources sim
    /\ Solver.pressure sim'
       = tabulate (Solver.height sim) (Solver.width sim) (nextPressure sim sv)
    /\ Solver.pressurePrev sim' = Solver.pressure sim
    /\ Solver.pressureNext sim' = Solver.pressurePrev sim
    /\ Solver.velocityX sim'
       = tabulate (Solver.height sim) (Solver.width sim) (velocityXAt sim')
    /\ Solver.velocityY sim'
       = tabulate (Solver.height sim) (Solver.width sim) (velocityYAt sim')
    /\ Solver.maxPressure sim'
       = maxAbs (Solver.height sim) (Solver.width sim) (Solver.pressure sim')
    /\ wellFormed sim'.
Proof.
  intros (Hp & Hpp & Hpn & Hvx & Hvy) Hsv Hshape.
  unfold Solver.step. rewrite Hsv. cbn [bind].
  rewrite (@pressure_loops sim Hp Hpp sv _ Hshape Hpn). cbn [bind].
  set (next := tabulate (Solver.height sim) (Solver.width sim)
                 (nextPressure sim sv)).
  assert (Hnext : hasShape (Solver.height sim) (Solver.width sim) next)
    by apply tabulate_shape.
  match goal with
  | |- context [Solver._calculateVelocity ?r] => set (rolled := r)
  end.
  assert (Hv : Solver._calculateVelocity rolled
               = Ok (tabulate (Solver.height sim) (Solver.width sim)
                       (velocityXAt rolled),
                     tabulate (Solver.height sim) (Solver.width sim)
                       (velocityYAt rolled))).
  { apply (@velocity_loops rolled); assumption. }
  rewrite Hv. cbn [bind fst snd].
  match goal with
  | |- context [Solver._updateStats ?r] => set (moved := r)
  end.
  destruct (@stats_loops moved) as [energy Hst].
  { exact Hnext. }
  { apply tabulate_shape. }
  { apply tabulate_shape. }
  rewrite Hst. cbn [bind fst snd].
  eexists. split; [reflexivity|].
  repeat (split; [reflexivity|]).
  unfold wellFormed.
  cbn [Solver.width Solver.height Solver.pressure Solver.pressurePrev
       Solver.pressureNext Solver.velocityX Solver.velocityY].
  refine (conj _ (conj _ (conj _ (conj _ _))));
    first [assumption | apply tabulate_shape].
Qed.

(* ===================================================================== *)
(** ** Sources *)
(* ===================================================================== *)

Lemma foldM_skip {A S : Type} (skip : A -> bool) (f : S -> A -> result S)
  (xs : list A) :
  forall s,
    foldM (fun s x => if skip x then Ok s else f s x) xs s
    = foldM f (filter (fun x => negb (skip x)) xs) s.
Proof.
  induction xs as [|x xs IH]; intro s; simpl; [reflexivity|].
  destruct (skip x); simpl.
  - apply IH.
  - destruct (f s x); simpl; auto.
Qed.

Lemma foldM_invariant {A S : Type} (Inv : S -> Prop)
  (f : S -> A -> result S) (xs : list A) :
  (forall s x s', In x xs -> Inv s -> f s x = Ok s' -> Inv s') ->
  forall s s', Inv s -> foldM f xs s = Ok s' -> Inv s'.
Proof.
  induction xs as [|x xs IH]; intros Hf s s' Hs Hrun; simpl in Hrun.
  - injection Hrun as <-. exact Hs.
  - apply bind_Ok in Hrun. destruct Hrun as (s1 & H1 & H2).
    apply (IH (fun s x s' Hin => Hf s x s' (or_intror Hin)) s1 s');
      [|assumption].
    apply (Hf s x s1); [now left|assumption|assumption].
Qed.

Lemma foldM_returns {A S : Type} (Inv : S -> Prop)
  (f : S -> A -> result S) (xs : list A) :
  (forall s x, In x xs -> Inv s -> exists s', f s x = Ok s' /\ Inv s') ->
  forall s, Inv s -> exists s', foldM f xs s = Ok s' /\ Inv s'.
Proof.
  induction xs as [|x xs IH]; intros Hf s Hs; simpl.
  - eauto.
  - destruct (Hf s x (or_introl eq_refl) Hs) as (s1 & H1 & Hs1).
    rewrite H1. cbn [bind].
    apply IH; [|assumption].
    intros s2 y Hy. apply Hf. now right.
Qed.

Lemma toIndex_ofZ (len : nat) (z : Z) :
  (0 <= z < Z.of_nat len)%Z -> toIndex len (ofZ z) = Some (Z.to_nat z).
Proof.
  intro H. unfold toIndex, ofZ. rewrite Qfloor_Z.
  rewrite Qeq_bool_refl.
  assert (E1 : (0 <=? z)%Z = true) by (apply Z.leb_le; lia).
  assert (E2 : (z <? Z.of_nat len)%Z = true) by (apply Z.ltb_lt; lia).
  now rewrite E1, E2.
Qed.

Lemma inBounds_ofZ (sim : Solver.AcousticSimulator) (x y : Z) :
  Solver._inBounds sim (ofZ x) (ofZ y) = true
  <-> (0 <= x < Z.of_nat (Solver.width sim))%Z
      /\ (0 <= y < Z.of_nat (Solver.height sim))%Z.
Proof.
  unfold Solver._inBounds, ofNat, ofZ.
  rewrite !andb_true_iff, !nge_Fin, !nlt_Fin.
  change 0 with (inject_Z 0).
  rewrite <- !Zle_Qle, <- !Zlt_Qlt. tauto.
Qed.

(** On a grid of the solver's shape, [sourceValues[y][x] += v] at integer
    coordinates adds [v] to the cell when the cell exists, and does nothing
    otherwise. *)
Lemma splat_ofZ (sim : Solver.AcousticSimulator) (sv : Solver.grid)
  (x y : Z) (v : num) :
  hasShape (Solver.height sim) (Solver.width sim) sv ->
  exists sv',
    Solver.splat sim sv (ofZ x) (ofZ y) v = Ok sv'
    /\ hasShape (Solver.height sim) (Solver.width sim) sv'
    /\ sv' = if Solver._inBounds sim (ofZ x) (ofZ y)
             then updCell sv (Z.to_nat y) (Z.to_nat x)
                    (fun old => (old + v)%num)
             else sv.
Proof.
  intro Hs. unfold Solver.splat.
  destruct (Solver._inBounds sim (ofZ x) (ofZ y)) eqn:E.
  - apply inBounds_ofZ in E. destruct E as [Hx Hy].
    destruct Hs as [Hl Hr]. unfold Solver.addAt.
    rewrite toIndex_ofZ by lia.
    assert (Hrow : List.length (nth (Z.to_nat y) sv []) = Solver.width sim).
    { rewrite Forall_forall in Hr. apply Hr. apply nth_In. lia. }
    rewrite Hrow, toIndex_ofZ by lia.
    eexists. split; [reflexivity|]. split; [|reflexivity].
    apply updCell_shape. split; assumption.
  - exists sv. repeat split; destruct Hs; assumption.
Qed.

(** *** The line rasteriser *)

(** The loop of [_bresenhamLine] ends: [a] and [b] count the steps taken
    along each axis, and every iteration takes one at least. *)
Lemma bresenhamLoop_returns (x0 y0 x1 y1 dx dy sx sy : Z) :
  (0 <= dx)%Z -> (0 <= dy)%Z ->
  (sx = 1 \/ sx = -1)%Z -> (sy = 1 \/ sy = -1)%Z ->
  (x1 = x0 + sx * dx)%Z -> (y1 = y0 + sy * dy)%Z ->
  forall fuel a b,
    (0 <= a <= dx)%Z -> (0 <= b <= dy)%Z ->
    (Z.to_nat ((dx - a) + (dy - b)) < fuel)%nat ->
    exists points,
      Solver.bresenhamLoop fuel x1 y1 dx dy sx sy
        (dx - dy - a * dy + b * dx)%Z (x0 + sx * a)%Z (y0 + sy * b)%Z
      = Ok points.
Proof.
  intros Hdx Hdy Hsx Hsy Hx1 Hy1.
  induction fuel as [|fuel IH]; intros a b Ha Hb Hfuel; [lia|].
  cbn [Solver.bresenhamLoop].
  destruct ((x0 + sx * a =? x1) && (y0 + sy * b =? y1))%Z eqn:At.
  - eauto.
  - assert (Far : (a < dx \/ b < dy)%Z).
    { apply andb_false_iff in At. rewrite !Z.eqb_neq in At.
      destruct At as [N|N]; [left|right]; subst; nia. }
    set (err := (dx - dy - a * dy + b * dx)%Z).
    destruct (2 * err >? - dy)%Z eqn:Ex; destruct (2 * err <? dx)%Z eqn:Ey;
      rewrite ?Z.gtb_ltb in Ex;
      rewrite ?Z.ltb_lt, ?Z.ltb_ge in Ex, Ey; unfold err in *.
    + (* a step along both axes *)
      assert (A : (a < dx)%Z) by nia.
      assert (B : (b < dy)%Z) by nia.
      destruct (IH (a + 1)%Z (b + 1)%Z) as [pts Hpts]; [lia|lia|lia|].
      replace (dx - dy - a * dy + b * dx - dy + dx)%Z
        with (dx - dy - (a + 1) * dy + (b + 1) * dx)%Z by ring.
      replace (x0 + sx * a + sx)%Z with (x0 + sx * (a + 1))%Z by ring.
      replace (y0 + sy * b + sy)%Z with (y0 + sy * (b + 1))%Z by ring.
      rewrite Hpts. simpl. eauto.
    + (* a step along x *)
      assert (A : (a < dx)%Z) by nia.
      destruct (IH (a + 1)%Z b) as [pts Hpts]; [lia|lia|lia|].
      replace (dx - dy - a * dy + b * dx - dy)%Z
        with (dx - dy - (a + 1) * dy + b * dx)%Z by ring.
      replace (x0 + sx * a + sx)%Z with (x0 + sx * (a + 1))%Z by ring.
      rewrite Hpts. simpl. eauto.
    + (* a step along y *)
      assert (B : (b < dy)%Z) by nia.
      destruct (IH a (b + 1)%Z) as [pts Hpts]; [lia|lia|lia|].
      replace (dx - dy - a * dy + b * dx + dx)%Z
        with (dx - dy - a * dy + (b + 1) * dx)%Z by ring.
      replace (y0 + sy * b + sy)%Z with (y0 + sy * (b + 1))%Z by ring.
      rewrite Hpts. simpl. eauto.
    + (* no step is impossible away from the end point *)
      exfalso. nia.
Qed.

Lemma bresenhamLine_returns (x0 y0 x1 y1 : Z) :
  exists points, Solver._bresenhamLine x0 y0 x1 y1 = Ok points.
Proof.
  unfold Solver._bresenhamLine.
  set (dx := Z.abs (x1 - x0)). set (dy := Z.abs (y1 - y0)).
  set (sx := if (x0 <? x1)%Z then 1%Z else (-1)%Z).
  set (sy := if (y0 <? y1)%Z then 1%Z else (-1)%Z).
  assert (Hsx : (sx = 1 \/ sx = -1)%Z)
    by (unfold sx; destruct (x0 <? x1)%Z; auto).
  assert (Hsy : (sy = 1 \/ sy = -1)%Z)
    by (unfold sy; destruct (y0 <? y1)%Z; auto).
  assert (Hx1 : (x1 = x0 + sx * dx)%Z).
  { unfold sx, dx. destruct (x0 <? x1)%Z eqn:E;
      rewrite ?Z.ltb_lt, ?Z.ltb_ge in E; lia. }
  assert (Hy1 : (y1 = y0 + sy * dy)%Z).
  { unfold sy, dy. destruct (y0 <? y1)%Z eqn:E;
      rewrite ?Z.ltb_lt, ?Z.ltb_ge in E; lia. }
  destruct (@bresenhamLoop_returns x0 y0 x1 y1 dx dy sx sy
              (Z.abs_nonneg _) (Z.abs_nonneg _) Hsx Hsy Hx1 Hy1
              (S (Z.to_nat (dx + dy))) 0%Z 0%Z) as [pts Hpts].
  - unfold dx. lia.
  - unfold dy. lia.
  - replace (dx - 0 + (dy - 0))%Z with (dx + dy)%Z by ring. lia.
  - exists pts. rewrite <- Hpts. f_equal; ring.
Qed.

(** *** The source grid keeps its shape *)

Lemma addAt_shape (h w : nat) (sv sv' : Solver.grid) (x y v : num) :
  hasShape h w sv -> Solver.addAt sv x y v = Ok sv' -> hasShape h w sv'.
Proof.
  intros Hs. unfold Solver.addAt.
  destruct (toIndex (List.length sv) y) as [yi|]; [|discriminate].
  destruct (toIndex (List.length (nth yi sv [])) x) as [xi|];
    intro H; injection H as <-; [|assumption].
  now apply updCell_shape.
Qed.

Lemma splat_shape (sim : Solver.AcousticSimulator) (h w : nat)
  (sv sv' : Solver.grid) (x y v : num) :
  hasShape h w sv -> Solver.splat sim sv x y v = Ok sv' -> hasShape h w sv'.
Proof.
  intros Hs. unfold Solver.splat.
  destruct (Solver._inBounds sim x y).
  - now apply addAt_shape.
  - intro H. injection H as <-. assumption.
Qed.

Lemma applySource_shape (M : MathLib) (sim : Solver.AcousticSimulator)
  (h w : nat) (t : num) (sv sv' : Solver.grid) (s : Solver.source) :
  hasShape h w sv -> Solver.applySource M sim t sv s = Ok sv' ->
  hasShape h w sv'.
Proof.
  intros Hs. destruct s as [x y f a ty d st ph|cx cy r f a m st ph
                            |sx sy ex ey f a st ph]; simpl.
  - destruct (String.eqb ty "sine" || String.eqb ty "point")%bool.
    + now apply splat_shape.
    + intro H. injection H as <-. assumption.
  - intro H. apply bind_Ok in H. destruct H as (offsets & _ & H).
    revert H. apply foldM_invariant; [|assumption].
    intros g dy g' _ Hg. apply foldM_invariant; [|assumption].
    intros g1 dx g2 _ Hg1. unfold Solver.membraneCell.
    destruct (_ <=? r)%num; [|intro H; injection H as <-; assumption].
    destruct (Solver._inBounds sim _ _);
      [|intro H; injection H as <-; assumption].
    now apply addAt_shape.
  - intro H. apply bind_Ok in H. destruct H as (points & _ & H).
    revert H. apply foldM_invariant; [|assumption].
    intros g [px py] g' _ Hg. now apply splat_shape.
Qed.

(** Whatever the sources, the grid that [_updateSources] returns has the
    shape of the solver's grid. *)
Lemma updateSources_shape (M : MathLib) (sim : Solver.AcousticSimulator)
  (t : num) (sv : Solver.grid) :
  Solver._updateSources M sim t = Ok sv ->
  hasShape (Solver.height sim) (Solver.width sim) sv.
Proof.
  unfold Solver._updateSources.
  apply foldM_invariant; [|apply createGrid_shape].
  intros g s g' _ Hg. destruct (Solver.sourceSkipped t s).
  - intro H. injection H as <-. assumption.
  - now apply applySource_shape.
Qed.

(** *** The membrane loops *)

Lemma Qfloor_unique (x : Q) (m : Z) :
  inject_Z m <= x -> x < inject_Z (m + 1) -> Qfloor x = m.
Proof.
  intros H1 H2. apply Z.le_antisymm.
  - assert (L : inject_Z (Qfloor x) < inject_Z (m + 1)).
    { apply Qle_lt_trans with x; [apply Qfloor_le|assumption]. }
    rewrite <- Zlt_Qlt in L. lia.
  - rewrite <- (Qfloor_Z m). now apply Qfloor_resp_le.
Qed.

(** The counting loop ends within its fuel, and visits the start value
    plus 0, 1, 2, ... *)
Lemma numRange_returns (b : Q) :
  forall fuel i,
    b < i \/ (Z.to_nat (Qfloor (b - i)) < fuel)%nat ->
    exists l,
      Solver.numRange fuel (Fin i) (Fin b) = Ok l
      /\ forall v, In v l ->
           exists q (k : Z), v = Fin q /\ q == i + inject_Z k.
Proof.
  induction fuel as [|fuel IH]; intros i H.
  - destruct H as [H|H]; [|lia].
    exists []. split; [|intros v []].
    simpl. apply Qle_bool_false_iff in H. now rewrite H.
  - cbn [Solver.numRange].
    destruct (Fin i <=? Fin b)%num eqn:E;
      [|exists []; split; [reflexivity|intros v []]].
    apply nle_Fin in E.
    change (Fin i + Fin 1)%num with (Fin (Qred (i + 1))).
    assert (V : Qred (i + 1) == i + 1) by apply Qred_correct.
    destruct (IH (Qred (i + 1))) as (l & Hl & Hin).
    { destruct H as [H|H]; [exfalso; lra|].
      set (n := Qfloor (b - i)) in *.
      assert (N0 : (0 <= n)%Z).
      { unfold n. change 0%Z with (Qfloor 0). apply Qfloor_resp_le. lra. }
      pose proof (Qfloor_le (b - i)) as F1.
      pose proof (Qlt_floor (b - i)) as F2. fold n in F1, F2.
      rewrite inject_Z_plus in F2.
      destruct (Z.eq_dec n 0) as [Z0|NZ].
      - left. rewrite V. rewrite Z0 in F2.
        change (inject_Z 0 + inject_Z 1) with (0 + 1) in F2. lra.
      - right.
        assert (Fl : Qfloor (b - Qred (i + 1)) = (n - 1)%Z).
        { apply Qfloor_unique; rewrite V.
          - unfold Zminus. rewrite inject_Z_plus, inject_Z_opp.
            change (inject_Z 1) with 1 in *. lra.
          - replace (n - 1 + 1)%Z with n by ring.
            change (inject_Z 1) with 1 in F2. lra. }
        rewrite Fl. lia. }
    rewrite Hl. cbn [bind]. eexists. split; [reflexivity|].
    intros v [<-|Hv].
    + exists i, 0%Z. split; [reflexivity|]. simpl. ring.
    + destruct (Hin v Hv) as (q & k & -> & Hq).
      exists q, (k + 1)%Z. split; [reflexivity|].
      rewrite Hq, V, inject_Z_plus. simpl. ring.
Qed.

(** The offsets of a membrane of integer radius are integers. *)
Lemma membraneOffsets_returns (radius : num) :
  match radius with
  | Fin r => Qlt_bool r 0 || Qeq_bool r (inject_Z (Qfloor r))
  | PInf => false
  | _ => true
  end = true ->
  exists offsets,
    Solver.membraneOffsets radius = Ok offsets
    /\ forall v, In v offsets -> integral v.
Proof.
  unfold Solver.membraneOffsets.
  destruct radius as [r| | |]; try discriminate; intro H.
  - cbn [nopp]. unfold fin.
    assert (V : Qred (- r) == - r) by apply Qred_correct.
    apply orb_true_iff in H. destruct H as [H|H].
    + apply Qlt_bool_iff in H.
      destruct (@numRange_returns r (S (Z.to_nat (Qfloor (2 * r))))
                  (Qred (- r))) as (l & Hl & Hin).
      { left. rewrite V. lra. }
      exists l. split; [exact Hl|].
      intros v Hv. exfalso.
      (* the loop test fails at once: there is no offset *)
      cbn [Solver.numRange] in Hl.
      assert (E : (Fin (Qred (- r)) <=? Fin r)%num = false).
      { apply Qle_bool_false_iff. rewrite V. lra. }
      rewrite E in Hl. injection Hl as <-. exact Hv.
    + apply Qeq_bool_iff in H.
      destruct (@numRange_returns r (S (Z.to_nat (Qfloor (2 * r))))
                  (Qred (- r))) as (l & Hl & Hin).
      { right.
        assert (E : r - Qred (- r) == 2 * r) by (rewrite V; ring).
        rewrite E. lia. }
      exists l. split; [exact Hl|].
      intros v Hv. destruct (Hin v Hv) as (q & k & -> & Hq).
      exists q, (- Qfloor r + k)%Z. split; [reflexivity|].
      rewrite Hq, V, inject_Z_plus, inject_Z_opp. rewrite H at 1. reflexivity.
  - exists []. split; [reflexivity|intros v []].
  - exists []. split; [reflexivity|intros v []].
Qed.

Lemma toIndex_integral (len : nat) (q : Q) (z : Z) :
  q == inject_Z z -> 0 <= q -> q < inject_Z (Z.of_nat len) ->
  toIndex len (Fin q) = Some (Z.to_nat z).
Proof.
  intros Hq H0 H1. unfold toIndex.
  assert (F : Qfloor q = z) by (rewrite Hq; apply Qfloor_Z).
  rewrite F.
  assert (E0 : Qeq_bool q (inject_Z z) = true) by now apply Qeq_bool_iff.
  rewrite Hq in H0, H1. change 0 with (inject_Z 0) in H0.
  rewrite <- Zle_Qle in H0. rewrite <- Zlt_Qlt in H1.
  assert (E1 : (0 <=? z)%Z = true) by (apply Z.leb_le; lia).
  assert (E2 : (z <? Z.of_nat len)%Z = true) by (apply Z.ltb_lt; lia).
  now rewrite E0, E1, E2.
Qed.

(** At integer coordinates inside the grid, [sourceValues[y][x] += v]
    returns. *)
Lemma addAt_integral (sim : Solver.AcousticSimulator) (sv : Solver.grid)
  (x y v : num) :
  hasShape (Solver.height sim) (Solver.width sim) sv ->
  integral x -> integral y ->
  Solver._inBounds sim x y = true ->
  exists sv',
    Solver.addAt sv x y v = Ok sv'
    /\ hasShape (Solver.height sim) (Solver.width sim) sv'.
Proof.
  intros Hs (a & za & -> & Ha) (b & zb & -> & Hb) Hin.
  unfold Solver._inBounds, ofNat, ofZ in Hin.
  rewrite !andb_true_iff, !nge_Fin, !nlt_Fin in Hin.
  destruct Hin as [[[A0 A1] B0] B1].
  destruct Hs as [Hl Hr]. unfold Solver.addAt.
  rewrite (@toIndex_integral (List.length sv) b zb Hb B0)
    by now rewrite Hl.
  assert (Zb : (0 <= zb < Z.of_nat (Solver.height sim))%Z).
  { rewrite Hb in B0, B1. change 0 with (inject_Z 0) in B0.
    rewrite <- Zle_Qle in B0. rewrite <- Zlt_Qlt in B1. lia. }
  assert (Hrow : List.length (nth (Z.to_nat zb) sv []) = Solver.width sim).
  { rewrite Forall_forall in Hr. apply Hr. apply nth_In. lia. }
  rewrite Hrow, (@toIndex_integral (Solver.width sim) a za Ha A0 A1).
  eexists. split; [reflexivity|].
  apply updCell_shape. split; assumption.
Qed.

Lemma integral_shift (c : Z) (v : num) :
  integral v -> integral (ofZ c + v)%num.
Proof.
  intros (q & z & -> & Hq). exists (Qred (inject_Z c + q)), (c + z)%Z.
  split; [reflexivity|].
  now rewrite Qred_correct, Hq, inject_Z_plus.
Qed.

(** Every evaluable source is evaluated to the end. *)
Lemma applySource_returns (M : MathLib) (sim : Solver.AcousticSimulator)
  (t : num) (sv : Solver.grid) (s : Solver.source) :
  evaluable s = true ->
  hasShape (Solver.height sim) (Solver.width sim) sv ->
  exists sv',
    Solver.applySource M sim t sv s = Ok sv'
    /\ hasShape (Solver.height sim) (Solver.width sim) sv'.
Proof.
  intros Hm Hs. destruct s as [x y f a ty d st ph|cx cy r f a m st ph
                               |sx sy ex ey f a st ph]; simpl.
  - destruct (String.eqb ty "sine" || String.eqb ty "point")%bool.
    + destruct (@splat_ofZ sim sv x y (Solver.waveform M a f t ph) Hs)
        as (sv' & H1 & H2 & _). eauto.
    + eauto.
  - destruct (membraneOffsets_returns r Hm) as (offsets & Ho & Hint).
    rewrite Ho. cbn [bind].
    apply (@foldM_returns _ _
             (hasShape (Solver.height sim) (Solver.width sim)));
      [|assumption].
    intros g dy Hdy Hg.
    apply (@foldM_returns _ _
             (hasShape (Solver.height sim) (Solver.width sim)));
      [|assumption].
    intros g1 dx Hdx Hg1. unfold Solver.membraneCell.
    destruct (_ <=? r)%num; [|eauto].
    destruct (Solver._inBounds sim _ _) eqn:E; [|eauto].
    apply (@addAt_integral sim g1); try assumption.
    + apply integral_shift. now apply Hint.
    + apply integral_shift. now apply Hint.
  - destruct (bresenhamLine_returns sx sy ex ey) as [points Hp].
    rewrite Hp. cbn [bind].
    apply (@foldM_returns _ _
             (hasShape (Solver.height sim) (Solver.width sim)));
      [|assumption].
    intros g [px py] _ Hg.
    destruct (@splat_ofZ sim g px py (Solver.waveform0 M a f t) Hg)
      as (g' & H1 & H2 & _). eauto.
Qed.

Lemma updateSources_returns (M : MathLib) (sim : Solver.AcousticSimulator)
  (t : num) :
  (forall s, In s (Solver.sources sim) -> evaluable s = true) ->
  exists sv,
    Solver._updateSources M sim t = Ok sv
    /\ hasShape (Solver.height sim) (Solver.width sim) sv.
Proof.
  intro Hm. unfold Solver._updateSources.
  apply (@foldM_returns _ _
           (hasShape (Solver.height sim) (Solver.width sim)));
    [|apply createGrid_shape].
  intros g s Hin Hg. destruct (Solver.sourceSkipped t s); [eauto|].
  apply applySource_returns; [now apply Hm|assumption].
Qed.

(** *** The activity window *)

Lemma elapsed_value (t st : Q) :
  (Fin t - Fin st)%num = Fin (Qred (t + Qred (- st)))
  /\ Qred (t + Qred (- st)) == t - st.
Proof.
  split; [reflexivity|]. rewrite !Qred_correct. ring.
Qed.

Lemma foldM_ext {A S : Type} (f g : S -> A -> result S) (xs : list A) :
  (forall s x, f s x = g s x) ->
  forall s, foldM f xs s = foldM g xs s.
Proof.
  intro E. induction xs as [|x xs IH]; intro s; simpl; [reflexivity|].
  rewrite E. destruct (g s x); simpl; auto.
Qed.

(** C3, as the code has it.  The times since the sources were registered
    being binary64 numbers (the subtraction [time - startTime] is then
    exact, as it is for a source registered at time 0), a source that
    [_updateSources] passes over adds nothing: the accumulation grid is the
    one computed without it; the sources that are not passed over are
    evaluated in order on a zeroed grid.  A point source with a finite
    duration is passed over at time [t] exactly when [t] lies outside
    [startTime <= t <= startTime + duration], a window closed at both
    ends.  With the default duration [Infinity], and for string and
    membrane sources, which carry no duration, the window is
    [startTime <= t].  A point source of type 'sine' or 'point' that is not
    passed over adds its waveform value to its cell when the cell is in the
    grid; a point source of another type adds nothing. *)
Theorem sources_active_in_closed_window :
  (forall (M : MathLib) sim t pre s post,
      Solver.sources sim = pre ++ s :: post ->
      (forall s', In s' (Solver.sources sim) -> exactElapsed t s' = true) ->
      Solver.sourceSkipped t s = true ->
      Solver._updateSources M sim t
      = Solver._updateSources M (Solver.withSources sim (pre ++ post)) t)
  /\ (forall (M : MathLib) sim t,
      (forall s, In s (Solver.sources sim) -> exactElapsed t s = true) ->
      Solver._updateSources M sim t
      = foldM (Solver.applySource M sim t)
          (filter (fun s => negb (Solver.sourceSkipped t s))
             (Solver.sources sim))
          (Solver._createGrid sim (Fin 0)))
  /\ (forall x y f a type ph (d st t : Q),
        exactElapsed (Fin t)
          (Solver.PointSource x y f a type (Fin d) (Fin st) ph) = true ->
        (Solver.sourceSkipped (Fin t)
           (Solver.PointSource x y f a type (Fin d) (Fin st) ph) = false
         <-> st <= t /\ t <= st + d))
  /\ (forall x y f a type ph (st t : Q),
        Solver.sourceSkipped (Fin t)
          (Solver.PointSource x y f a type PInf (Fin st) ph) = false
        <-> st <= t)
  /\ (forall s (st t : Q),
        Solver.durationOf s = None -> Solver.startTimeOf s = Fin st ->
        (Solver.sourceSkipped (Fin t) s = false <-> st <= t))
  /\ (forall (M : MathLib) sim sv t x y f a type d st ph,
        type = "sine"%string \/ type = "point"%string ->
        hasShape (Solver.height sim) (Solver.width sim) sv ->
        (0 <= x < Z.of_nat (Solver.width sim))%Z ->
        (0 <= y < Z.of_nat (Solver.height sim))%Z ->
        Solver.applySource M sim t sv
          (Solver.PointSource x y f a type d st ph)
        = Ok (updCell sv (Z.to_nat y) (Z.to_nat x)
                (fun old => (old + Solver.waveform M a f t ph)%num)))
  /\ (forall (M : MathLib) sim sv t x y f a type d st ph,
        type <> "sine"%string -> type <> "point"%string ->
        Solver.applySource M sim t sv
          (Solver.PointSource x y f a type d st ph)
        = Ok sv).
Proof.
  split; [|split; [|split; [|split; [|split; [|split]]]]].
  - intros M sim t pre s post Hs _ Hskip.
    unfold Solver._updateSources. rewrite !foldM_skip. rewrite Hs.
    cbn [Solver.sources Solver.withSources].
    rewrite !filter_app. cbn [filter]. rewrite Hskip. cbn [negb].
    apply foldM_ext. intros sv s'. destruct s'; reflexivity.
  - intros M sim t _. unfold Solver._updateSources. apply foldM_skip.
  - intros x y f a type ph d st t _. unfold Solver.sourceSkipped.
    cbn [Solver.startTimeOf Solver.durationOf].
    destruct (elapsed_value t st) as [-> V].
    rewrite orb_false_iff. unfold ngt. cbn [nlt].
    rewrite !Qlt_bool_false_iff, V. split; intros [H1 H2]; split; lra.
  - intros x y f a type ph st t. unfold Solver.sourceSkipped.
    cbn [Solver.startTimeOf Solver.durationOf].
    destruct (elapsed_value t st) as [-> V].
    rewrite orb_false_iff. unfold ngt. cbn [nlt].
    rewrite !Qlt_bool_false_iff, V. split.
    + intros [H1 _]. lra.
    + intro H. split; [lra|reflexivity].
  - intros s st t Hd Hst. unfold Solver.sourceSkipped. rewrite Hd, Hst.
    destruct (elapsed_value t st) as [-> V].
    rewrite orb_false_r. cbn [nlt].
    rewrite !Qlt_bool_false_iff, V. split; intro H; lra.
  - intros M sim sv t x y f a type d st ph Ht Hs Hx Hy.
    cbn [Solver.applySource].
    assert (Et : (String.eqb type "sine" || String.eqb type "point")%bool
                 = true).
    { destruct Ht as [-> | ->]; reflexivity. }
    rewrite Et.
    destruct (@splat_ofZ sim sv x y (Solver.waveform M a f t ph) Hs)
      as (sv' & H1 & _ & H3).
    rewrite H1, H3.
    assert (E : Solver._inBounds sim (ofZ x) (ofZ y) = true)
      by now apply inBounds_ofZ.
    now rewrite E.
  - intros M sim sv t x y f a type d st ph N1 N2.
    cbn [Solver.applySource].
    apply String.eqb_neq in N1, N2. now rewrite N1, N2.
Qed.

(** C3 as stated fails at the end of the window: a source registered at
    time 0 for a duration of 1 is still evaluated at [t = 1], where its
    waveform value is added to its cell; it is passed over only after. *)
Lemma source_contributes_at_window_end :
  Solver.sources Examples.timedRoom
  = [Solver.PointSource 0 0 (Fin (1 # 4)) (Fin 1000) "sine" (Fin 1) (Fin 0)
       (Fin 0)]
  /\ (Fin 0 + Fin 1)%num = Fin 1
  /\ Solver.sourceSkipped (Fin 1)
       (Solver.PointSource 0 0 (Fin (1 # 4)) (Fin 1000) "sine" (Fin 1)
          (Fin 0) (Fin 0)) = false
  /\ (forall M : MathLib,
        Solver._updateSources M Examples.timedRoom (Fin 1)
        = Ok [[(Fin 0
                + Solver.waveform M (Fin 1000) (Fin (1 # 4)) (Fin 1) (Fin 0))
               %num]])
  /\ (forall M : MathLib,
        Solver._updateSources M Examples.timedRoom (Fin (3 # 2))
        = Ok [[Fin 0]]).
Proof.
  split; [reflexivity|]. split; [reflexivity|]. split; [reflexivity|].
  split; intro M; reflexivity.
Qed.

(* ===================================================================== *)
(** ** Boundary containment *)
(* ===================================================================== *)

Lemma new_wellFormed (o : Solver.options) : wellFormed (Solver.new o).
Proof.
  unfold wellFormed, Solver.new.
  cbn [Solver.width Solver.height Solver.pressure Solver.pressurePrev
       Solver.pressureNext Solver.velocityX Solver.velocityY].
  refine (conj _ (conj _ (conj _ (conj _ _)))); apply createGrid_shape.
Qed.



(** On the smallest grid, one cell, every neighbour is outside the grid:
    the stencil is [-4] times the cell, and both velocities are zero. *)
Example single_cell_step :
  forall M : MathLib,
    exists sim',
      Solver.step M
        (Solver.mkSimulator 1 1 (Fin (1 # 100)) (Fin 343) (Fin (12 # 10))
           (Fin (1 # 100000)) (Fin (1 # 4)) [[Fin 8]] [[Fin 0]] [[Fin 0]]
           [[Fin 0]] [[Fin 0]] [] [[Fin 0]] (Fin 1) 0 0 (Fin 0) (Fin 0)
           None [])
        (Fin 0) = Ok sim'
      /\ Solver.pressure sim' = [[Fin 8]]
      /\ Solver.velocityX sim' = [[Fin 0]]
      /\ Solver.velocityY sim' = [[Fin 0]].
Proof.
  intro M. eexists. split; [vm_compute; reflexivity|].
  repeat split; reflexivity.
Qed.

(* ===================================================================== *)
(** ** Pressure without sources *)
(* ===================================================================== *)

Lemma updateSources_all_skipped (M : MathLib)
  (sim : Solver.AcousticSimulator) (t : num) :
  (forall s, In s (Solver.sources sim) -> Solver.sourceSkipped t s = true) ->
  Solver._updateSources M sim t = Ok (Solver._createGrid sim (Fin 0)).
Proof.
  intro H. unfold Solver._updateSources. rewrite foldM_skip.
  replace (filter (fun x => negb (Solver.sourceSkipped t x))
             (Solver.sources sim)) with (@nil Solver.source); [reflexivity|].
  symmetry. induction (Solver.sources sim) as [|s l IH]; [reflexivity|].
  simpl. rewrite (H s (or_introl eq_refl)). simpl.
  apply IH. intros s' Hs'. apply H. now right.
Qed.

Lemma padded_bounded (h w : nat) (g : Solver.grid) (B : Q) (y x : Z) :
  0 <= B -> boundedBy h w g B ->
  exists q, padded h w g y x = Fin q /\ Qabs q <= B.
Proof.
  intros HB Hg. unfold padded.
  destruct ((0 <=? y) && (y <? Z.of_nat h) && (0 <=? x)
            && (x <? Z.of_nat w))%Z eqn:E.
  - rewrite !andb_true_iff, !Z.leb_le, !Z.ltb_lt in E.
    apply Hg; lia.
  - exists 0. split; [reflexivity|exact HB].
Qed.

(** The update formula on finite numbers. *)
Lemma update_value (p pPrev up down left right s c d : Q) :
  exists v,
    ((Fin 2 * Fin p - Fin pPrev
      + Fin c * (Fin up + Fin down + Fin left + Fin right - Fin 4 * Fin p)
      + Fin s) * Fin d)%num = Fin v
    /\ v == (2 * p - pPrev + c * (up + down + left + right - 4 * p) + s) * d.
Proof.
  eexists. split; [reflexivity|].
  rewrite !Qred_correct. ring.
Qed.

Lemma update_bound (p pPrev up down left right c d B Bprev : Q) :
  0 <= c -> 0 <= d ->
  Qabs p <= B -> Qabs pPrev <= Bprev ->
  Qabs up <= B -> Qabs down <= B -> Qabs left <= B -> Qabs right <= B ->
  Qabs ((2 * p - pPrev + c * (up + down + left + right - 4 * p) + 0) * d)
  <= d * ((2 + 8 * c) * B + Bprev).
Proof.
  intros Hc Hd Hp Hpp Hu Hdn Hl Hr.
  apply Qabs_Qle_condition in Hp, Hpp, Hu, Hdn, Hl, Hr.
  set (L := up + down + left + right - 4 * p).
  assert (HL : - (8 * B) <= L /\ L <= 8 * B) by (unfold L; lra).
  assert (C1 : 0 <= c * (8 * B - L)) by (apply Qmult_le_0_compat; lra).
  assert (C2 : 0 <= c * (L + 8 * B)) by (apply Qmult_le_0_compat; lra).
  set (T := 2 * p - pPrev + c * L + 0).
  set (K := (2 + 8 * c) * B + Bprev).
  assert (HT : - K <= T /\ T <= K) by (unfold T, K; lra).
  assert (D1 : 0 <= d * (K - T)) by (apply Qmult_le_0_compat; lra).
  assert (D2 : 0 <= d * (T + K)) by (apply Qmult_le_0_compat; lra).
  apply Qabs_Qle_condition. lra.
Qed.

(** [maxPressure] is the largest magnitude among the cells. *)
Lemma maxAbs_bounded (h w : nat) (g : Solver.grid) (B : Q) :
  0 <= B -> boundedBy h w g B ->
  exists m,
    maxAbs h w g = Fin m /\ 0 <= m /\ m <= B /\ boundedBy h w g m.
Proof.
  intros HB Hg.
  assert (Hfin : allFinite (cellsOf h w g)).
  { apply Forall_forall. intros v Hv. apply cellsOf_In in Hv.
    destruct Hv as (y & x & Hy & Hx & <-).
    destruct (Hg y x Hy Hx) as (q & -> & _). reflexivity. }
  destruct (running_peak Hfin (q0 := 0) (Qle_refl 0))
    as (m & Hm & H0 & Hall & Hex).
  exists m. split; [exact Hm|]. split; [exact H0|]. split.
  - destruct Hex as [E|(q & Hin & E)].
    + now rewrite E.
    + rewrite <- E. apply cellsOf_In in Hin.
      destruct Hin as (y & x & Hy & Hx & Hc).
      destruct (Hg y x Hy Hx) as (q' & Hq' & Hb).
      rewrite Hc in Hq'. injection Hq' as <-. exact Hb.
  - intros y x Hy Hx. destruct (Hg y x Hy Hx) as (q & Hq & _).
    exists q. split; [exact Hq|]. apply Hall. apply cellsOf_In.
    exists y, x. auto.
Qed.

(** C7, as the code has it.  With no active source, a step multiplies by
    the damping factor the undamped update [2 p - pPrev + coeff * laplacian]:
    when the magnitudes of the current field are at most [B] and those of
    the previous field at most [Bprev], the new [maxPressure] is the largest
    magnitude of the new field and is at most
    [dampingFactor * ((2 + 8 * coeff) * B + Bprev)].  It is not bounded by
    the previous [maxPressure]. *)
Theorem maxPressure_growth_bound (M : MathLib)
  (sim : Solver.AcousticSimulator) (t : num) (c d B Bprev : Q) :
  wellFormed sim ->
  (forall s, In s (Solver.sources sim) -> Solver.sourceSkipped t s = true) ->
  Solver.coeff sim = Fin c -> 0 <= c ->
  Solver.dampingFactor sim = Fin d -> 0 <= d ->
  0 <= B -> 0 <= Bprev ->
  boundedBy (Solver.height sim) (Solver.width sim) (Solver.pressure sim) B ->
  boundedBy (Solver.height sim) (Solver.width sim) (Solver.pressurePrev sim)
    Bprev ->
  exists sim' m,
    Solver.step M sim t = Ok sim'
    /\ Solver.maxPressure sim' = Fin m
    /\ 0 <= m
    /\ m <= d * ((2 + 8 * c) * B + Bprev)
    /\ boundedBy (Solver.height sim) (Solver.width sim)
         (Solver.pressure sim') m
    /\ Solver.pressurePrev sim' = Solver.pressure sim
    /\ wellFormed sim'
    /\ Solver.width sim' = Solver.width sim
    /\ Solver.height sim' = Solver.height sim
    /\ Solver.coeff sim' = Solver.coeff sim
    /\ Solver.dampingFactor sim' = Solver.dampingFactor sim
    /\ Solver.sources sim' = Solver.sources sim.
Proof.
  intros Hwf Hskip Hc Pc Hd Pd PB PBp Hcur Hprev.
  set (h := Solver.height sim) in *. set (w := Solver.width sim) in *.
  pose proof (updateSources_all_skipped M sim t Hskip) as Hsv.
  destruct (@step_after_sources M sim t _ Hwf Hsv (createGrid_shape _ _ _))
    as (sim' & H1 & H2 & H3 & H4 & H5 & H6 & H7 & H8 & _ & _ & _ & H12 & H13).
  fold h w in H7, H12.
  set (K := d * ((2 + 8 * c) * B + Bprev)).
  assert (PK : 0 <= K).
  { unfold K. apply Qmult_le_0_compat; [assumption|].
    assert (0 <= (2 + 8 * c) * B) by (apply Qmult_le_0_compat; lra). lra. }
  assert (Hnew : boundedBy h w (Solver.pressure sim') K).
  { intros y x Hy Hx. rewrite H7, tabulate_cell by assumption.
    unfold nextPressure, paddedLaplacian. fold h w.
    rewrite padded_inside by assumption.
    destruct (Hcur y x Hy Hx) as (p & -> & Bp).
    destruct (Hprev y x Hy Hx) as (pp & -> & Bpp).
    destruct (@padded_bounded h w (Solver.pressure sim) B
                (Z.of_nat y - 1) (Z.of_nat x) PB Hcur) as (u & -> & Bu).
    destruct (@padded_bounded h w (Solver.pressure sim) B
                (Z.of_nat y + 1) (Z.of_nat x) PB Hcur) as (dn & -> & Bdn).
    destruct (@padded_bounded h w (Solver.pressure sim) B
                (Z.of_nat y) (Z.of_nat x - 1) PB Hcur) as (l & -> & Bl).
    destruct (@padded_bounded h w (Solver.pressure sim) B
                (Z.of_nat y) (Z.of_nat x + 1) PB Hcur) as (r & -> & Br).
    unfold Solver._createGrid. fold h w.
    rewrite createGrid_cell by assumption. rewrite Hc, Hd.
    destruct (update_value p pp u dn l r 0 c d) as (v & -> & Hv).
    exists v. split; [reflexivity|]. rewrite Hv.
    now apply update_bound. }
  destruct (@maxAbs_bounded h w (Solver.pressure sim') K PK Hnew)
    as (m & Hm & Pm & Lm & Bm).
  exists sim', m. rewrite H12.
  repeat (split; [assumption|]). assumption.
Qed.

Lemma restingRoom_wellFormed : wellFormed Examples.restingRoom.
Proof.
  unfold wellFormed, hasShape. simpl.
  repeat split; repeat constructor.
Qed.

Lemma restingRoom_bounded :
  boundedBy 2 2 (Solver._createGridOf 2 2 (Fin 1)) 1.
Proof.
  intros y x Hy Hx. exists 1. split; [|apply Qle_refl].
  destruct y as [|[|y]]; [| |lia]; destruct x as [|[|x]]; try lia;
    reflexivity.
Qed.

Lemma maxPressure_growth_bound_witness :
  wellFormed Examples.restingRoom
  /\ Solver.sources Examples.restingRoom = []
  /\ forall M : MathLib,
       exists sim' m,
         Solver.step M Examples.restingRoom (Fin 0) = Ok sim'
         /\ Solver.maxPressure sim' = Fin m
         /\ m <= (9995 # 10000)
                 * ((2 + 8 * (117649 # 1000000)) * 1 + 1).
Proof.
  split; [exact restingRoom_wellFormed|]. split; [reflexivity|].
  intro M.
  destruct (@maxPressure_growth_bound M Examples.restingRoom (Fin 0)
              (117649 # 1000000) (9995 # 10000) 1 1
              restingRoom_wellFormed)
    as (sim' & m & H1 & H2 & _ & H4 & _).
  - intros s [].
  - reflexivity.
  - discriminate.
  - reflexivity.
  - discriminate.
  - discriminate.
  - discriminate.
  - exact restingRoom_bounded.
  - exact restingRoom_bounded.
  - exists sim', m. repeat split; assumption.
Defined.

(** C7 as stated fails: the 2 x 2 solver with damping factor 0.9995 and no
    source, started at rest at pressure 1, oscillates.  Its [maxPressure] is
    about 0.149 after the third step and about 0.611 after the fourth. *)
Lemma maxPressure_can_increase :
  Solver.sources Examples.restingRoom = []
  /\ Solver.dampingFactor Examples.restingRoom = Fin (9995 # 10000)
  /\ forall M : MathLib,
       exists s1 s2 s3 s4,
         Solver.step M Examples.restingRoom (Fin 0) = Ok s1
         /\ Solver.step M s1 (Fin (1 # 100000)) = Ok s2
         /\ Solver.step M s2 (Fin (2 # 100000)) = Ok s3
         /\ Solver.step M s3 (Fin (3 # 100000)) = Ok s4
         /\ (Solver.maxPressure s3 <? Fin (15 # 100))%num = true
         /\ (Fin (6 # 10) <? Solver.maxPressure s4)%num = true.
Proof.
  split; [reflexivity|]. split; [reflexivity|].
  intro M. eexists. eexists. eexists. eexists.
  split; [vm_compute; reflexivity|].
  split; [vm_compute; reflexivity|].
  split; [vm_compute; reflexivity|].
  split; [vm_compute; reflexivity|].
  split; vm_compute; reflexivity.
Qed.

(* ===================================================================== *)
(** ** Periodicity: the autocorrelation ratio and the voicing verdict *)
(* ===================================================================== *)

(** A sum of two squares is a finite number that is not negative, or
    [+Infinity], or [NaN]. *)
Lemma squares_kind (a b : num) :
  (exists p q, a = Fin p /\ b = Fin q
               /\ (a * a + b * b)%num = Fin (Qred (Qred (p * p) + Qred (q * q))))
  \/ heavy (a * a + b * b)%num.
Proof.
  destruct a as [p| | |], b as [q| | |]; unfold heavy; simpl; auto.
  left. exists p, q. auto.
Qed.

Lemma heavy_add_l (x y : num) :
  heavy x -> (exists q, y = Fin q) \/ heavy y -> heavy (x + y)%num.
Proof.
  intros [-> | ->] [[q ->]|[-> | ->]]; unfold heavy; simpl; auto.
Qed.

Lemma heavy_add_r (x y : num) :
  (exists q, x = Fin q) \/ heavy x -> heavy y -> heavy (x + y)%num.
Proof.
  intros [[q ->]|[-> | ->]] [-> | ->]; unfold heavy; simpl; auto.
Qed.

Lemma twice_product (p q : Q) : 2 * Qabs (p * q) <= p * p + q * q.
Proof.
  assert (H1 : 0 <= (p - q) * (p - q)) by apply square_nonneg.
  assert (H2 : 0 <= (p + q) * (p + q)) by apply square_nonneg.
  assert (E1 : (p - q) * (p - q) == p * p + q * q - 2 * (p * q)) by ring.
  assert (E2 : (p + q) * (p + q) == p * p + q * q + 2 * (p * q)) by ring.
  rewrite E1 in H1. rewrite E2 in H2.
  apply Qabs_case; intro; lra.
Qed.

(** The two sums of [calculateAutocorrelation] keep
    [2 |numerator| <= denominator], unless the denominator left the finite
    numbers. *)
Lemma autocorrelation_sums (frame : list num) (lag : nat) (idx : list nat) :
  forall numerator denominator,
    balanced numerator denominator ->
    let sums :=
      fold_left
        (fun '(numerator, denominator) i =>
           let a := getNum frame i in
           let b := getNum frame (i + lag) in
           ((numerator + a * b)%num, (denominator + (a * a + b * b))%num))
        idx (numerator, denominator) in
    balanced (fst sums) (snd sums).
Proof.
  induction idx as [|i idx IH]; intros n d Hb; [exact Hb|].
  cbn [fold_left]. cbv zeta. apply IH. clear IH.
  set (a := getNum frame i). set (b := getNum frame (i + lag)).
  destruct (squares_kind a b) as [(p & q & Ha & Hb' & Hs)|Hh].
  - rewrite Hs. destruct Hb as [(qn & qd & -> & -> & Hle)|Hd].
    + left. rewrite Ha, Hb'.
      exists (Qred (qn + Qred (p * q))),
             (Qred (qd + Qred (Qred (p * p) + Qred (q * q)))).
      split; [reflexivity|]. split; [reflexivity|].
      rewrite !Qred_correct.
      pose proof (twice_product p q) as T.
      pose proof (Qabs_triangle qn (p * q)) as Tr. lra.
    + right. apply heavy_add_l; [assumption|]. left. eauto.
  - right. apply heavy_add_r; [|assumption].
    destruct Hb as [(qn & qd & -> & -> & Hle)|Hd]; [left; eauto|now right].
Qed.

Lemma balanced_ratio (numerator denominator : num) :
  balanced numerator denominator ->
  (nabs numerator / (denominator + AcousticAnalyzer.epsilon)
   >? Fin (5 # 10))%num = false.
Proof.
  intros [(qn & qd & -> & -> & Hle)|[-> | ->]].
  - cbn [nabs]. unfold fin.
    change (Fin qd + AcousticAnalyzer.epsilon)%num
      with (Fin (Qred (qd + (1 # 10000000000)))).
    assert (P : 0 <= Qabs qn) by apply Qabs_nonneg.
    assert (D : 0 < Qred (qd + (1 # 10000000000))).
    { rewrite Qred_correct. lra. }
    rewrite ndiv_Fin by (intro E; rewrite E in D; exact (Qlt_irrefl 0 D)).
    unfold ngt. cbn [nlt]. apply Qlt_bool_false_iff.
    unfold fin. rewrite !Qred_correct.
    apply Qle_shift_div_r; [rewrite Qred_correct in D; exact D|]. lra.
  - destruct numerator; reflexivity.
  - destruct numerator; reflexivity.
Qed.

Lemma autocorrelation_bound (frame : list num) (lag : nat) :
  (AcousticAnalyzer.calculateAutocorrelation frame lag >? Fin (5 # 10))%num
  = false.
Proof.
  unfold AcousticAnalyzer.calculateAutocorrelation. cbv zeta.
  apply balanced_ratio.
  apply (autocorrelation_sums frame lag). left. exists 0, 0.
  split; [reflexivity|]. split; [reflexivity|]. discriminate.
Qed.

Lemma isFrameVoiced_false (frame : list num) :
  AcousticAnalyzer.isFrameVoiced frame = false.
Proof.
  unfold AcousticAnalyzer.isFrameVoiced. cbv zeta.
  destruct (_ <? Fin (1 # 1000))%num; [reflexivity|].
  destruct (_ >? Fin (2 # 10))%num; [reflexivity|].
  apply autocorrelation_bound.
Qed.

(** Why the samples are taken to be binary32 numbers: on binary64 the
    product of two samples is rounded, and the sums can tip over one half.
    A frame of 81 samples, zero but for the first and the last, which
    differ in their last digits only, has an autocorrelation of
    0.5000000000000001 at lag 80. *)
Example binary64_frame_above_half :
  Binary64.calculateAutocorrelation
    ([1543155.7944975793%float] ++ repeat 0%float 79
     ++ [1543155.79449758%float]) 80
  = 0.5000000000000001%float.
Proof. vm_compute. reflexivity. Qed.

(** X1.  The normalised autocorrelation of a frame of binary32 samples
    (the frames are slices of a [Float32Array], so the products of two
    samples are exact in binary64 and rounding keeps the sums in order), at
    any lag, is never above one half ([2 |a b| <= a^2 + b^2] term by term,
    and the denominator carries an extra [1e-10]); so [isFrameVoiced], which
    asks for more than 0.5 at lag 80, answers [false] on every such
    frame. *)
Theorem autocorrelation_never_exceeds_half (frame : list num) (lag : nat) :
  float32Array frame ->
  (AcousticAnalyzer.calculateAutocorrelation frame lag >? Fin (5 # 10))%num
  = false
  /\ AcousticAnalyzer.isFrameVoiced frame = false.
Proof.
  intros _. split; [apply autocorrelation_bound|apply isFrameVoiced_false].
Qed.

Lemma autocorrelation_never_exceeds_half_witness :
  float32Array Clips.squareWave
  /\ (AcousticAnalyzer.calculateAutocorrelation Clips.squareWave 80
      >? Fin (5 # 10))%num = false
  /\ AcousticAnalyzer.isFrameVoiced Clips.squareWave = false.
Proof.
  assert (H : float32Array Clips.squareWave) by (vm_compute; reflexivity).
  split; [exact H|].
  exact (@autocorrelation_never_exceeds_half Clips.squareWave 80 H).
Defined.

Lemma voicingFrames_zero (frames : list (list num)) :
  map (fun frame =>
         if AcousticAnalyzer.isFrameVoiced frame then Fin 1 else Fin 0) frames
  = repeat (Fin 0) (List.length frames).
Proof.
  induction frames as [|f frames IH]; [reflexivity|].
  cbn [map List.length repeat]. rewrite isFrameVoiced_false, IH. reflexivity.
Qed.

Lemma sum_zeros (n : nat) :
  fold_left nadd (repeat (Fin 0) n) (Fin 0) = Fin 0.
Proof. induction n as [|n IH]; [reflexivity|exact IH]. Qed.

Lemma segments_of_silence (n : nat) :
  forall (idx : list nat) segments startTime,
    fold_left (fun st '(i, f) => AcousticAnalyzer.segmentStep st i f)
      (combine idx (repeat (Fin 0) n)) (segments, false, startTime)
    = (segments, false, startTime).
Proof.
  induction n as [|n IH]; intros [|i idx] segments startTime;
    try reflexivity.
  cbn [repeat combine fold_left]. exact (IH idx segments startTime).
Qed.

Lemma zero_over (n : nat) : (1 <= n)%nat -> (Fin 0 / ofNat n)%num = Fin 0.
Proof.
  intro H. unfold ofNat, ofZ. rewrite ndiv_Fin by (apply ofNat_nonzero; exact H).
  unfold fin. apply (f_equal Fin).
  transitivity (Qred 0); [|reflexivity].
  apply Qred_complete. unfold Qdiv. ring.
Qed.

(** What [analyzeVoicing] returns when it returns. *)
Lemma analyzeVoicing_result (sampleRate : Q) (audioData : list num)
  (v : Voicing.t) :
  AcousticAnalyzer.analyzeVoicing sampleRate audioData = Ok v ->
  (exists n, (1 <= n)%nat /\ Voicing.frames v = repeat (Fin 0) n)
  /\ Voicing.voicingRatio v = Fin 0
  /\ Voicing.isVoiced v = false
  /\ Voicing.voicedSegments v = [].
Proof.
  unfold AcousticAnalyzer.analyzeVoicing. intro H.
  apply bind_Ok in H. destruct H as (frames & _ & H). cbv zeta in H.
  rewrite voicingFrames_zero in H.
  destruct frames as [|f frames]; [discriminate H|].
  cbn [List.length repeat reduceSum bind] in H.
  rewrite sum_zeros in H.
  rewrite !zero_over in H by lia. injection H as <-. cbn [Voicing.frames Voicing.voicingRatio
    Voicing.isVoiced Voicing.voicedSegments].
  split; [exists (S (List.length frames)); split; [lia|reflexivity]|].
  split; [reflexivity|]. split; [reflexivity|].
  unfold AcousticAnalyzer.getVoicedSegments.
  change (Fin 0 :: repeat (Fin 0) (List.length frames))
    with (repeat (Fin 0) (S (List.length frames))).
  rewrite segments_of_silence. reflexivity.
Qed.

Lemma frames_nonempty (sampleRate : Q) (audioData : list num) :
  100 <= sampleRate ->
  (AcousticAnalyzer.frameSizeOf sampleRate < List.length audioData)%nat ->
  exists f frames,
    AcousticAnalyzer.framesOf sampleRate audioData = Ok (f :: frames).
Proof.
  intros Hrate Hlen.
  pose proof (hopSize_positive Hrate) as Hhop.
  destruct (@frameStarts_spec sampleRate audioData Hhop)
    as (starts & Hstarts & Hin).
  unfold AcousticAnalyzer.framesOf. rewrite Hstarts. cbn [bind].
  destruct starts as [|s starts].
  - exfalso. apply (proj2 (Hin 0%nat)). split; [lia|]. exists 0%nat.
    reflexivity.
  - cbn [map]. eauto.
Qed.

(** X2.  [analyzeVoicing] never finds a voiced frame.  On every clip of
    binary32 samples (what [getChannelData] returns) longer than one frame,
    it returns a series of zeros, a voicing ratio of 0, the verdict
    [isVoiced = false] and no voiced segment: the test [autocorr > 0.5] of
    [isFrameVoiced] cannot succeed. *)
Theorem analyzeVoicing_never_voiced (sampleRate : Q) (audioData : list num) :
  float32Array audioData ->
  100 <= sampleRate ->
  (AcousticAnalyzer.frameSizeOf sampleRate < List.length audioData)%nat ->
  exists v,
    AcousticAnalyzer.analyzeVoicing sampleRate audioData = Ok v
    /\ (exists n, (1 <= n)%nat /\ Voicing.frames v = repeat (Fin 0) n)
    /\ Voicing.voicingRatio v = Fin 0
    /\ Voicing.isVoiced v = false
    /\ Voicing.voicedSegments v = [].
Proof.
  intros _ Hrate Hlen.
  destruct (frames_nonempty audioData Hrate Hlen) as (f & frames & Hf).
  assert (R : exists v,
             AcousticAnalyzer.analyzeVoicing sampleRate audioData = Ok v).
  { unfold AcousticAnalyzer.analyzeVoicing. rewrite Hf. cbn [bind map].
    cbn [reduceSum bind]. eauto. }
  destruct R as [v Hv]. exists v. split; [exact Hv|].
  exact (analyzeVoicing_result _ _ Hv).
Qed.

Lemma analyzeVoicing_never_voiced_witness :
  float32Array Clips.squareWave
  /\ 100 <= 8000
  /\ (AcousticAnalyzer.frameSizeOf 8000 < List.length Clips.squareWave)%nat
  /\ exists v,
       AcousticAnalyzer.analyzeVoicing 8000 Clips.squareWave = Ok v
       /\ Voicing.voicingRatio v = Fin 0
       /\ Voicing.isVoiced v = false
       /\ Voicing.voicedSegments v = [].
Proof.
  assert (H0 : float32Array Clips.squareWave) by (vm_compute; reflexivity).
  assert (H1 : 100 <= 8000) by discriminate.
  assert (H2 : (AcousticAnalyzer.frameSizeOf 8000
                < List.length Clips.squareWave)%nat)
    by (apply Nat.ltb_lt; vm_compute; reflexivity).
  split; [exact H0|]. split; [exact H1|]. split; [exact H2|].
  destruct (@analyzeVoicing_never_voiced 8000 Clips.squareWave H0 H1 H2)
    as (v & Hv & _ & Hr & Hb & Hs).
  exists v. split; [exact Hv|]. split; [exact Hr|]. split; assumption.
Defined.

(** X3.  [analyzeAudio] never classifies a clip as voiced.  For every clip
    of binary32 samples that is longer than one frame and has at most 65536
    samples (its spectrum can then be spread into [Math.max]), the call
    returns, the features say [isVoiced = false], the sound type is one of
    the two unvoiced labels (the fricative one exactly when the features say
    [isFricative]), the characteristics read "unvoiced" and the first hint
    is the unvoiced one. *)
Theorem analyzeAudio_never_voiced (M : MathLib) (sampleRate : Q)
  (input : AcousticAnalyzer.audioInput) :
  float32Array (AcousticAnalyzer.channelData input) ->
  spreadable (AcousticAnalyzer.channelData input) = true ->
  100 <= sampleRate ->
  (AcousticAnalyzer.frameSizeOf sampleRate
   < List.length (AcousticAnalyzer.channelData input))%nat ->
  exists f s,
    AcousticAnalyzer.analyzeAudio M sampleRate input = Ok f
    /\ Features.summary f = Some s
    /\ Voicing.isVoiced (Features.voicing f) = false
    /\ Summary.soundType s
       = (if ZCR.isFricative (Features.zeroCrossingRate f)
          then "unvoiced fricative (f, s, sh, etc.)"
          else "unvoiced stop (p, t, k, etc.)")%string
    /\ Characteristics.voicing (Summary.characteristics s)
       = "unvoiced"%string
    /\ hd HintVoiced (Summary.phonemeHints s) = HintUnvoiced.
Proof.
  intros _ _ Hrate Hlen.
  destruct (analyzeAudio_returns M input Hrate Hlen) as (f & Hf & _).
  pose proof Hf as Hf'.
  unfold AcousticAnalyzer.analyzeAudio in Hf'. cbv zeta in Hf'.
  apply bind_Ok in Hf'. destruct Hf' as (e & _ & Hf').
  apply bind_Ok in Hf'. destruct Hf' as (v & Hv & Hf').
  apply bind_Ok in Hf'. destruct Hf' as (p & _ & Hf').
  apply bind_Ok in Hf'. destruct Hf' as (z & _ & Hf').
  apply bind_Ok in Hf'. destruct Hf' as (series & _ & Hf').
  destruct (analyzeVoicing_result _ _ Hv) as (_ & _ & Hb & _).
  injection Hf' as <-.
  eexists. eexists. split; [exact Hf|].
  cbn [Features.summary Features.voicing Features.zeroCrossingRate].
  split; [reflexivity|]. split; [exact Hb|].
  unfold AcousticAnalyzer.generateSummary.
  cbn [Features.voicing Features.zeroCrossingRate Features.pitch
       Summary.soundType Summary.characteristics Summary.phonemeHints
       Characteristics.voicing].
  rewrite Hb. unfold AcousticAnalyzer.classifySoundType,
    AcousticAnalyzer.getPhonemeHints.
  cbn [negb andb].
  destruct (ZCR.isFricative z); split; try reflexivity;
    split; reflexivity.
Qed.

Lemma analyzeAudio_never_voiced_witness :
  float32Array Clips.squareWave
  /\ spreadable Clips.squareWave = true
  /\ 100 <= 8000
  /\ (AcousticAnalyzer.frameSizeOf 8000
      < List.length (AcousticAnalyzer.channelData
                       (AcousticAnalyzer.mkAudioInput Clips.squareWave
                          (Fin (321 # 8000)))))%nat
  /\ forall M : MathLib,
     exists f s,
       AcousticAnalyzer.analyzeAudio M 8000
         (AcousticAnalyzer.mkAudioInput Clips.squareWave (Fin (321 # 8000)))
       = Ok f
       /\ Features.summary f = Some s
       /\ Voicing.isVoiced (Features.voicing f) = false
       /\ Characteristics.voicing (Summary.characteristics s)
          = "unvoiced"%string.
Proof.
  assert (F : float32Array Clips.squareWave) by (vm_compute; reflexivity).
  assert (S : spreadable Clips.squareWave = true) by reflexivity.
  assert (H1 : 100 <= 8000) by discriminate.
  assert (H2 : (AcousticAnalyzer.frameSizeOf 8000
                < List.length (AcousticAnalyzer.channelData
                       (AcousticAnalyzer.mkAudioInput Clips.squareWave
                          (Fin (321 # 8000)))))%nat)
    by (apply Nat.ltb_lt; vm_compute; reflexivity).
  split; [exact F|]. split; [exact S|].
  split; [exact H1|]. split; [exact H2|]. intro M.
  destruct (@analyzeAudio_never_voiced M 8000
              (AcousticAnalyzer.mkAudioInput Clips.squareWave
                 (Fin (321 # 8000))) F S H1 H2)
    as (f & s & Hf & Hs & Hb & _ & Hc & _).
  exists f, s. split; [exact Hf|]. split; [exact Hs|]. split; assumption.
Defined.

(* ===================================================================== *)
(** ** The rasterised line of a string source *)
(* ===================================================================== *)

Lemma bresenhamLoop_path (x0 y0 x1 y1 dx dy sx sy : Z) :
  (0 <= dx)%Z -> (0 <= dy)%Z -> (0 < dx \/ 0 < dy)%Z ->
  (sx = 1 \/ sx = -1)%Z -> (sy = 1 \/ sy = -1)%Z ->
  (x1 = x0 + sx * dx)%Z -> (y1 = y0 + sy * dy)%Z ->
  forall fuel a b,
    (0 <= a <= dx)%Z -> (0 <= b <= dy)%Z ->
    (Z.to_nat ((dx - a) + (dy - b)) < fuel)%nat ->
    (dy <= dx ->
     - dy < 2 * (dx - dy - a * dy + b * dx) < 3 * dx - 2 * dy)%Z ->
    (dx <= dy ->
     2 * dx - 3 * dy < 2 * (dx - dy - a * dy + b * dx) < dx)%Z ->
    exists points,
      Solver.bresenhamLoop fuel x1 y1 dx dy sx sy
        (dx - dy - a * dy + b * dx)%Z (x0 + sx * a)%Z (y0 + sy * b)%Z
      = Ok points
      /\ hd_error points = Some ((x0 + sx * a)%Z, (y0 + sy * b)%Z)
      /\ last points (x0, y0) = (x1, y1)
      /\ stepwise points
      /\ Forall (inBox x0 y0 x1 y1) points
      /\ (dy <= dx -> List.length points = S (Z.to_nat (dx - a)))%Z
      /\ (dx <= dy -> List.length points = S (Z.to_nat (dy - b)))%Z
      /\ Forall (fun p => (a + b <= sx * (fst p - x0) + sy * (snd p - y0))%Z)
           points
      /\ NoDup points.
Proof.
  intros Hdx Hdy Hpos Hsx Hsy Hx1 Hy1.
  assert (Rank : forall a b,
             (sx * (x0 + sx * a - x0) + sy * (y0 + sy * b - y0) = a + b)%Z).
  { intros a b. destruct Hsx as [-> | ->], Hsy as [-> | ->]; lia. }
  assert (Box : forall a b, (0 <= a <= dx)%Z -> (0 <= b <= dy)%Z ->
                inBox x0 y0 x1 y1 ((x0 + sx * a)%Z, (y0 + sy * b)%Z)).
  { intros a b Ha Hb. unfold inBox. cbn [fst snd].
    destruct Hsx as [-> | ->], Hsy as [-> | ->]; lia. }
  induction fuel as [|fuel IH]; intros a b Ha Hb Hfuel Jx Jy; [lia|].
  cbn [Solver.bresenhamLoop].
  destruct ((x0 + sx * a =? x1) && (y0 + sy * b =? y1))%Z eqn:At.
  - apply andb_true_iff in At. rewrite !Z.eqb_eq in At. destruct At as [E1 E2].
    assert (Ea : a = dx) by (destruct Hsx as [-> | ->]; lia).
    assert (Eb : b = dy) by (destruct Hsy as [-> | ->]; lia).
    eexists. split; [reflexivity|]. cbn [hd_error last stepwise List.length].
    split; [reflexivity|]. split; [congruence|]. split; [exact I|].
    split; [constructor; [apply Box; assumption|constructor]|].
    split; [intros _; subst; rewrite Z.sub_diag; reflexivity|].
    split; [intros _; subst; rewrite Z.sub_diag; reflexivity|].
    split.
    + constructor; [|constructor]. cbn [fst snd]. rewrite Rank.
      apply Z.le_refl.
    + constructor; [intros []|constructor].
  - assert (Far : (a < dx \/ b < dy)%Z).
    { apply andb_false_iff in At. rewrite !Z.eqb_neq in At.
      destruct At as [N|N]; [left|right]; subst; nia. }
    set (err := (dx - dy - a * dy + b * dx)%Z) in *.
    assert (Finish : forall a' b' pts,
               (a' = a \/ a' = a + 1)%Z -> (b' = b \/ b' = b + 1)%Z ->
               (a' <> a \/ b' <> b) ->
               (dy <= dx -> a' = a + 1)%Z -> (dx <= dy -> b' = b + 1)%Z ->
               (a' <= dx)%Z -> (b' <= dy)%Z ->
               hd_error pts = Some ((x0 + sx * a')%Z, (y0 + sy * b')%Z) ->
               last pts (x0, y0) = (x1, y1) ->
               stepwise pts ->
               Forall (inBox x0 y0 x1 y1) pts ->
               (dy <= dx -> List.length pts = S (Z.to_nat (dx - a')))%Z ->
               (dx <= dy -> List.length pts = S (Z.to_nat (dy - b')))%Z ->
               Forall (fun p => (a' + b'
                                 <= sx * (fst p - x0) + sy * (snd p - y0))%Z)
                 pts ->
               NoDup pts ->
               let points := ((x0 + sx * a)%Z, (y0 + sy * b)%Z) :: pts in
               hd_error points = Some ((x0 + sx * a)%Z, (y0 + sy * b)%Z)
               /\ last points (x0, y0) = (x1, y1)
               /\ stepwise points
               /\ Forall (inBox x0 y0 x1 y1) points
               /\ (dy <= dx -> List.length points = S (Z.to_nat (dx - a)))%Z
               /\ (dx <= dy -> List.length points = S (Z.to_nat (dy - b)))%Z
               /\ Forall (fun p => (a + b <= sx * (fst p - x0)
                                             + sy * (snd p - y0))%Z) points
               /\ NoDup points).
    { intros a' b' pts Ha' Hb' Hmove Mx My La Lb Hhd Hlast Hstep Hall Lx Ly
             Hrank Hnd.
      assert (Up : (a + b < a' + b')%Z) by (clear - Ha' Hb' Hmove; lia).
      destruct pts as [|q pts]; [discriminate Hhd|].
      injection Hhd as ->. cbv zeta.
      split; [reflexivity|]. split; [exact Hlast|].
      split.
      { cbn [stepwise]. split; [|exact Hstep].
        unfold kingMove. cbn [fst snd].
        split; [destruct Hsx as [-> | ->], Ha' as [-> | ->]; lia|].
        split; [destruct Hsy as [-> | ->], Hb' as [-> | ->]; lia|].
        intro E. injection E as E1 E2.
        destruct Hsx as [-> | ->], Hsy as [-> | ->]; lia. }
      split; [constructor; [apply Box; assumption|exact Hall]|].
      split.
      { intro D.
        change (S (List.length
                     (((x0 + sx * a')%Z, (y0 + sy * b')%Z) :: pts))
                = S (Z.to_nat (dx - a))).
        rewrite (Lx D). pose proof (Mx D) as E. clear - E La Ha.
        f_equal. lia. }
      split.
      { intro D.
        change (S (List.length
                     (((x0 + sx * a')%Z, (y0 + sy * b')%Z) :: pts))
                = S (Z.to_nat (dy - b))).
        rewrite (Ly D). pose proof (My D) as E. clear - E Lb Hb.
        f_equal. lia. }
      split.
      { constructor; [cbn [fst snd]; rewrite Rank; apply Z.le_refl|].
        apply Forall_forall. intros p Hp.
        pose proof (proj1 (Forall_forall _ _) Hrank p Hp) as Hr. cbv beta in Hr.
        clear - Hr Up. lia. }
      constructor; [|exact Hnd].
      intro Hin.
      pose proof (proj1 (Forall_forall _ _) Hrank _ Hin) as Hr.
      cbv beta in Hr. cbn [fst snd] in Hr. rewrite Rank in Hr.
      clear - Hr Up. lia. }
    destruct (2 * err >? - dy)%Z eqn:Ex; destruct (2 * err <? dx)%Z eqn:Ey;
      rewrite ?Z.gtb_ltb in Ex;
      rewrite ?Z.ltb_lt, ?Z.ltb_ge in Ex, Ey.
    + (* a step along both axes *)
      assert (A : (a < dx)%Z) by (unfold err in *; nia).
      assert (B : (b < dy)%Z) by (unfold err in *; nia).
      destruct (IH (a + 1)%Z (b + 1)%Z)
        as (pts & Hpts & Hhd & Hlast & Hstep & Hall & Lx & Ly & Hrank & Hnd);
        [lia|lia|lia|unfold err in *; intro; lia|unfold err in *; intro; lia|].
      replace (err - dy + dx)%Z
        with (dx - dy - (a + 1) * dy + (b + 1) * dx)%Z by (unfold err; ring).
      replace (x0 + sx * a + sx)%Z with (x0 + sx * (a + 1))%Z by ring.
      replace (y0 + sy * b + sy)%Z with (y0 + sy * (b + 1))%Z by ring.
      rewrite Hpts. cbn [bind]. eexists. split; [reflexivity|].
      apply (Finish (a + 1)%Z (b + 1)%Z); auto; lia.
    + (* a step along x *)
      assert (A : (a < dx)%Z) by (unfold err in *; nia).
      assert (Major : (dy < dx)%Z).
      { destruct (Z.lt_ge_cases dy dx) as [L|G]; [exact L|].
        specialize (Jy G). lia. }
      destruct (IH (a + 1)%Z b)
        as (pts & Hpts & Hhd & Hlast & Hstep & Hall & Lx & Ly & Hrank & Hnd);
        [lia|lia|lia|unfold err in *; intro; lia|intro; lia|].
      replace (err - dy)%Z
        with (dx - dy - (a + 1) * dy + b * dx)%Z by (unfold err; ring).
      replace (x0 + sx * a + sx)%Z with (x0 + sx * (a + 1))%Z by ring.
      rewrite Hpts. cbn [bind]. eexists. split; [reflexivity|].
      apply (Finish (a + 1)%Z b); auto; lia.
    + (* a step along y *)
      assert (B : (b < dy)%Z) by (unfold err in *; nia).
      assert (Major : (dx < dy)%Z).
      { destruct (Z.lt_ge_cases dx dy) as [L|G]; [exact L|].
        specialize (Jx G). lia. }
      destruct (IH a (b + 1)%Z)
        as (pts & Hpts & Hhd & Hlast & Hstep & Hall & Lx & Ly & Hrank & Hnd);
        [lia|lia|lia|intro; lia|unfold err in *; intro; lia|].
      replace (err + dx)%Z
        with (dx - dy - a * dy + (b + 1) * dx)%Z by (unfold err; ring).
      replace (y0 + sy * b + sy)%Z with (y0 + sy * (b + 1))%Z by ring.
      rewrite Hpts. cbn [bind]. eexists. split; [reflexivity|].
      apply (Finish a (b + 1)%Z); auto; lia.
    + exfalso. lia.
Qed.

Lemma bresenhamLine_path (x0 y0 x1 y1 : Z) :
  exists points,
    Solver._bresenhamLine x0 y0 x1 y1 = Ok points
    /\ hd_error points = Some (x0, y0)
    /\ last points (x0, y0) = (x1, y1)
    /\ stepwise points
    /\ Forall (inBox x0 y0 x1 y1) points
    /\ NoDup points
    /\ List.length points
       = S (Z.to_nat (Z.max (Z.abs (x1 - x0)) (Z.abs (y1 - y0)))).
Proof.
  unfold Solver._bresenhamLine.
  set (dx := Z.abs (x1 - x0)). set (dy := Z.abs (y1 - y0)).
  set (sx := if (x0 <? x1)%Z then 1%Z else (-1)%Z).
  set (sy := if (y0 <? y1)%Z then 1%Z else (-1)%Z).
  assert (Hsx : (sx = 1 \/ sx = -1)%Z)
    by (unfold sx; destruct (x0 <? x1)%Z; auto).
  assert (Hsy : (sy = 1 \/ sy = -1)%Z)
    by (unfold sy; destruct (y0 <? y1)%Z; auto).
  assert (Hx1 : (x1 = x0 + sx * dx)%Z).
  { unfold sx, dx. destruct (x0 <? x1)%Z eqn:E;
      rewrite ?Z.ltb_lt, ?Z.ltb_ge in E; lia. }
  assert (Hy1 : (y1 = y0 + sy * dy)%Z).
  { unfold sy, dy. destruct (y0 <? y1)%Z eqn:E;
      rewrite ?Z.ltb_lt, ?Z.ltb_ge in E; lia. }
  assert (Hdx : (0 <= dx)%Z) by apply Z.abs_nonneg.
  assert (Hdy : (0 <= dy)%Z) by apply Z.abs_nonneg.
  destruct (Z.eq_dec dx 0) as [Zx|Nx]; [destruct (Z.eq_dec dy 0) as [Zy|Ny]|].
  - (* a single cell *)
    rewrite Zx, Zy. cbn [Z.add Z.to_nat Solver.bresenhamLoop].
    assert (E1 : x1 = x0) by lia. assert (E2 : y1 = y0) by lia.
    rewrite E1, E2, !Z.eqb_refl. cbn [andb].
    eexists. split; [reflexivity|]. cbn [hd_error last stepwise List.length].
    split; [reflexivity|]. split; [reflexivity|]. split; [exact I|].
    split; [constructor; [|constructor]; unfold inBox; cbn [fst snd]; lia|].
    split; [constructor; [intros []|constructor]|reflexivity].
  - destruct (@bresenhamLoop_path x0 y0 x1 y1 dx dy sx sy Hdx Hdy
                ltac:(lia) Hsx Hsy Hx1 Hy1 (S (Z.to_nat (dx + dy))) 0%Z 0%Z)
      as (pts & Hpts & Hhd & Hlast & Hstep & Hall & Lx & Ly & _ & Hnd);
      [lia|lia|lia|intro; lia|intro; lia|].
    exists pts.
    replace (dx - dy)%Z with (dx - dy - 0 * dy + 0 * dx)%Z by ring.
    replace x0 with (x0 + sx * 0)%Z at 1 by ring.
    replace y0 with (y0 + sy * 0)%Z at 1 by ring.
    split; [exact Hpts|].
    rewrite !Z.mul_0_r, !Z.add_0_r in Hhd.
    split; [exact Hhd|]. split; [exact Hlast|]. split; [exact Hstep|].
    split; [exact Hall|]. split; [exact Hnd|].
    rewrite Ly by lia. f_equal. lia.
  - destruct (@bresenhamLoop_path x0 y0 x1 y1 dx dy sx sy Hdx Hdy
                ltac:(lia) Hsx Hsy Hx1 Hy1 (S (Z.to_nat (dx + dy))) 0%Z 0%Z)
      as (pts & Hpts & Hhd & Hlast & Hstep & Hall & Lx & Ly & _ & Hnd);
      [lia|lia|lia|intro; lia|intro; lia|].
    exists pts.
    replace (dx - dy)%Z with (dx - dy - 0 * dy + 0 * dx)%Z by ring.
    replace x0 with (x0 + sx * 0)%Z at 1 by ring.
    replace y0 with (y0 + sy * 0)%Z at 1 by ring.
    split; [exact Hpts|].
    rewrite !Z.mul_0_r, !Z.add_0_r in Hhd.
    split; [exact Hhd|]. split; [exact Hlast|]. split; [exact Hstep|].
    split; [exact Hall|]. split; [exact Hnd|].
    destruct (Z.le_ge_cases dy dx) as [L|G].
    + rewrite Lx by exact L. f_equal. lia.
    + rewrite Ly by lia. f_equal. lia.
Qed.

(** X4.  For end points within reach (coordinates up to 2^15 in
    magnitude) [_bresenhamLine] returns, and what it returns is a path from
    [(x0, y0)] to [(x1, y1)]: it starts at the first end point, ends at the
    second, moves at each step to one of the eight neighbouring cells, stays
    in the rectangle spanned by the end points, visits no cell twice, and
    has exactly [max(|x1 - x0|, |y1 - y0|) + 1] cells. *)
Theorem bresenhamLine_is_a_path (x0 y0 x1 y1 : Z) :
  inReach x0 = true -> inReach y0 = true ->
  inReach x1 = true -> inReach y1 = true ->
  exists points,
    Solver._bresenhamLine x0 y0 x1 y1 = Ok points
    /\ hd_error points = Some (x0, y0)
    /\ last points (x0, y0) = (x1, y1)
    /\ stepwise points
    /\ Forall (inBox x0 y0 x1 y1) points
    /\ NoDup points
    /\ List.length points
       = S (Z.to_nat (Z.max (Z.abs (x1 - x0)) (Z.abs (y1 - y0)))).
Proof. intros _ _ _ _. exact (bresenhamLine_path x0 y0 x1 y1). Qed.

Lemma bresenhamLine_is_a_path_witness :
  inReach 0 = true /\ inReach 3 = true /\ inReach (-2) = true
  /\ exists points,
       Solver._bresenhamLine 0 0 3 (-2) = Ok points
       /\ hd_error points = Some (0, 0)%Z
       /\ last points (0, 0)%Z = (3, -2)%Z
       /\ NoDup points
       /\ List.length points = 4%nat.
Proof.
  split; [reflexivity|]. split; [reflexivity|]. split; [reflexivity|].
  destruct (@bresenhamLine_is_a_path 0 0 3 (-2)
              eq_refl eq_refl eq_refl eq_refl)
    as (points & H1 & H2 & H3 & _ & _ & H6 & H7).
  exists points. repeat (split; [assumption|]). exact H7.
Defined.

(* ===================================================================== *)
(** ** Sources that are never heard *)
(* ===================================================================== *)

Lemma fin_zero (q : Q) : q == 0 -> fin q = Fin 0.
Proof.
  intro H. unfold fin. apply (f_equal Fin).
  transitivity (Qred 0); [apply Qred_complete; exact H|reflexivity].
Qed.

(** What [step] leaves as it found it. *)
Lemma step_keeps (M : MathLib) (sim sim' : Solver.AcousticSimulator)
  (t : num) :
  Solver.step M sim t = Ok sim' ->
  Solver.microphoneX sim' = Solver.microphoneX sim
  /\ Solver.microphoneY sim' = Solver.microphoneY sim
  /\ Solver.cellSize sim' = Solver.cellSize sim
  /\ Solver.airDensity sim' = Solver.airDensity sim
  /\ Solver.time sim' = Some t.
Proof.
  unfold Solver.step. intro H.
  apply bind_Ok in H. destruct H as (sv & _ & H).
  apply bind_Ok in H. destruct H as (next & _ & H).
  apply bind_Ok in H. destruct H as (v & _ & H).
  apply bind_Ok in H. destruct H as (st & _ & H).
  injection H as <-. cbn. auto.
Qed.

Lemma updateSources_silent (M : MathLib) (sim : Solver.AcousticSimulator)
  (t : num) :
  (forall s, In s (Solver.sources sim) ->
             Solver.sourceSkipped t s = true \/ silent sim s = true) ->
  Solver._updateSources M sim t = Ok (Solver._createGrid sim (Fin 0)).
Proof.
  unfold Solver._updateSources.
  generalize (Solver._createGrid sim (Fin 0)) as sv.
  induction (Solver.sources sim) as [|s l IH]; intros sv H; [reflexivity|].
  cbn [foldM].
  assert (E : (if Solver.sourceSkipped t s then Ok sv
               else Solver.applySource M sim t sv s) = Ok sv).
  { destruct (H s (or_introl eq_refl)) as [Hs|Hs]; [rewrite Hs; reflexivity|].
    destruct (Solver.sourceSkipped t s); [reflexivity|].
    destruct s as [x y f a type d st ph| |]; try discriminate Hs.
    cbn [silent Solver.applySource] in *.
    destruct (String.eqb type "sine" || String.eqb type "point")%bool;
      [|reflexivity].
    cbn [negb orb] in Hs. unfold Solver.splat.
    apply negb_true_iff in Hs. rewrite Hs. reflexivity. }
  rewrite E. cbn [bind]. apply IH. intros s' Hs'. apply H. now right.
Qed.

Lemma maxAbs_zero (h w : nat) :
  maxAbs h w (Solver._createGridOf h w (Fin 0)) = Fin 0.
Proof.
  unfold maxAbs.
  assert (H : forall v, In v (cellsOf h w (Solver._createGridOf h w (Fin 0)))
                        -> v = Fin 0).
  { intros v Hv. apply cellsOf_In in Hv.
    destruct Hv as (y & x & Hy & Hx & <-). now apply createGrid_cell. }
  induction (cellsOf h w (Solver._createGridOf h w (Fin 0))) as [|v l IH];
    [reflexivity|].
  cbn [fold_left]. rewrite (H v (or_introl eq_refl)).
  change (nmax (Fin 0) (nabs (Fin 0))) with (Fin 0).
  apply IH. intros v' Hv'. apply H. now right.
Qed.

Lemma padded_zero (h w : nat) (y x : Z) :
  padded h w (Solver._createGridOf h w (Fin 0)) y x = Fin 0.
Proof.
  unfold padded.
  destruct ((0 <=? y) && (y <? Z.of_nat h) && (0 <=? x)
            && (x <? Z.of_nat w))%Z eqn:E; [|reflexivity].
  rewrite !andb_true_iff, !Z.leb_le, !Z.ltb_lt in E.
  apply createGrid_cell; lia.
Qed.

(** One step from rest, with nothing written by the sources. *)
Lemma step_at_rest (M : MathLib) (sim : Solver.AcousticSimulator) (t : num)
  (c d : Q) :
  wellFormed sim -> atRest sim ->
  Solver.coeff sim = Fin c -> Solver.dampingFactor sim = Fin d ->
  (forall s, In s (Solver.sources sim) ->
             Solver.sourceSkipped t s = true \/ silent sim s = true) ->
  exists sim',
    Solver.step M sim t = Ok sim'
    /\ wellFormed sim' /\ atRest sim'
    /\ Solver.coeff sim' = Fin c /\ Solver.dampingFactor sim' = Fin d
    /\ Solver.sources sim' = Solver.sources sim
    /\ Solver.width sim' = Solver.width sim
    /\ Solver.height sim' = Solver.height sim
    /\ Solver.maxPressure sim' = Fin 0.
Proof.
  intros Hwf [Hp Hpp] Hc Hd Hs.
  pose proof (updateSources_silent M sim t Hs) as Hsv.
  destruct (@step_after_sources M sim t _ Hwf Hsv
              (createGrid_shape _ _ _))
    as (sim' & H1 & H2 & H3 & H4 & H5 & H6 & H7 & H8 & _ & _ & _ & H12 & H14).
  assert (Hnew : Solver.pressure sim' = Solver._createGrid sim (Fin 0)).
  { rewrite H7. unfold Solver._createGrid.
    apply (@grid_ext (Solver.height sim) (Solver.width sim));
      [apply tabulate_shape|apply createGrid_shape|].
    intros y x Hy Hx. rewrite tabulate_cell by assumption.
    rewrite createGrid_cell by assumption.
    unfold nextPressure, paddedLaplacian. rewrite Hp, Hpp, Hc, Hd.
    unfold Solver._createGrid. rewrite !padded_zero.
    rewrite createGrid_cell by assumption.
    change (Fin 0 + Fin 0 + Fin 0 + Fin 0 - Fin 4 * Fin 0)%num with (Fin 0).
    change (Fin 2 * Fin 0 - Fin 0)%num with (Fin 0).
    change (Fin c * Fin 0)%num with (fin (c * 0)).
    rewrite (@fin_zero (c * 0)) by ring.
    change (Fin 0 + Fin 0 + Fin 0)%num with (Fin 0).
    change (Fin 0 * Fin d)%num with (fin (0 * d)).
    apply fin_zero. ring. }
  exists sim'. split; [exact H1|]. split; [exact H14|].
  split.
  { unfold atRest, Solver._createGrid. rewrite H2, H3. split.
    - exact Hnew.
    - rewrite H8. exact Hp. }
  split; [congruence|]. split; [congruence|]. split; [exact H6|].
  split; [exact H2|]. split; [exact H3|].
  rewrite H12, Hnew. apply maxAbs_zero.
Qed.

Lemma microphone_at_rest (sim : Solver.AcousticSimulator) :
  wellFormed sim -> atRest sim ->
  Solver.getMicrophoneSignal sim = Ok (Fin 0).
Proof.
  intros Hwf [Hp _]. unfold Solver.getMicrophoneSignal.
  destruct (Solver._inBounds sim _ _) eqn:E; [|reflexivity].
  change (ofNat (Solver.microphoneX sim))
    with (ofZ (Z.of_nat (Solver.microphoneX sim))) in E.
  change (ofNat (Solver.microphoneY sim))
    with (ofZ (Z.of_nat (Solver.microphoneY sim))) in E.
  apply inBounds_ofZ in E. destruct E as [Ex Ey].
  rewrite (@getCell_shape (Solver.height sim) (Solver.width sim))
    by (try apply Hwf; lia).
  rewrite Hp. unfold Solver._createGrid.
  rewrite createGrid_cell by lia. reflexivity.
Qed.

(** X5.  A source that writes no cell is never heard.  From a field at
    rest, if every registered source is a point source whose type is neither
    'sine' nor 'point' (such as the 'square' the page offers) or whose cell
    lies outside the grid, then any number of steps returns, the field is
    still zero everywhere, and the microphone reads 0. *)
Theorem silent_sources_are_never_heard (M : MathLib)
  (sim : Solver.AcousticSimulator) (c d : Q) (times : list num) :
  wellFormed sim -> atRest sim ->
  Solver.coeff sim = Fin c -> Solver.dampingFactor sim = Fin d ->
  (forall s, In s (Solver.sources sim) -> silent sim s = true) ->
  exists sim',
    stepAll M sim times = Ok sim'
    /\ atRest sim'
    /\ Solver.getMicrophoneSignal sim' = Ok (Fin 0)
    /\ (times <> [] -> Solver.maxPressure sim' = Fin 0).
Proof.
  revert sim. unfold stepAll.
  induction times as [|t times IH]; intros sim Hwf Hrest Hc Hd Hs.
  - exists sim. split; [reflexivity|]. split; [exact Hrest|].
    split; [now apply microphone_at_rest|]. intro N. now elim N.
  - destruct (@step_at_rest M sim t c d Hwf Hrest Hc Hd)
      as (sim1 & H1 & Hwf1 & Hrest1 & Hc1 & Hd1 & Hsrc & Hw & Hh & Hmax).
    { intros s Hin. right. now apply Hs. }
    assert (Hs1 : forall s, In s (Solver.sources sim1) ->
                            silent sim1 s = true).
    { intros s Hin. rewrite Hsrc in Hin. specialize (Hs s Hin).
      destruct s; try discriminate Hs. cbn [silent] in *.
      unfold Solver._inBounds in *. rewrite Hw, Hh. exact Hs. }
    destruct (IH sim1 Hwf1 Hrest1 Hc1 Hd1 Hs1)
      as (sim' & H' & Hrest' & Hmic & Hmax').
    exists sim'. cbn [foldM]. rewrite H1. cbn [bind].
    split; [exact H'|]. split; [exact Hrest'|]. split; [exact Hmic|].
    intros _. destruct times as [|t' times'].
    + cbn [foldM] in H'. injection H' as <-. exact Hmax.
    + apply Hmax'. discriminate.
Qed.

Lemma squareRoom_wellFormed : wellFormed Rooms.squareRoom.
Proof.
  unfold wellFormed, hasShape. simpl.
  repeat split; repeat constructor.
Qed.

Lemma silent_sources_are_never_heard_witness :
  wellFormed Rooms.squareRoom
  /\ atRest Rooms.squareRoom
  /\ forall M : MathLib,
     exists sim',
       stepAll M Rooms.squareRoom [Fin 0; Fin (1 # 44100); Fin (2 # 44100)]
       = Ok sim'
       /\ atRest sim'
       /\ Solver.getMicrophoneSignal sim' = Ok (Fin 0).
Proof.
  assert (R : atRest Rooms.squareRoom) by (split; reflexivity).
  split; [exact squareRoom_wellFormed|]. split; [exact R|]. intro M.
  destruct (@silent_sources_are_never_heard M Rooms.squareRoom
              (117649 # 1000000) (9995 # 10000)
              [Fin 0; Fin (1 # 44100); Fin (2 # 44100)]
              squareRoom_wellFormed R eq_refl eq_refl)
    as (sim' & H1 & H2 & H3 & _).
  - intros s [<-|[]]. reflexivity.
  - exists sim'. split; [exact H1|]. split; assumption.
Defined.

(* ===================================================================== *)
(** ** Running the solver: [runSimulation] and the worker *)
(* ===================================================================== *)

Lemma new_ready (o : Solver.options) : ready (Solver.new o).
Proof.
  split; [apply new_wellFormed|].
  unfold Solver.new. cbn [Solver.microphoneX Solver.microphoneY
                          Solver.width Solver.height].
  assert (P : forall o d, (1 <= d)%nat -> (1 <= orElseNat o d)%nat).
  { intros [[|n]|] d Hd; cbn; lia. }
  split; apply Nat.div_lt; try lia; apply P; lia.
Qed.

Lemma withSources_ready (sim : Solver.AcousticSimulator)
  (srcs : list Solver.source) :
  ready sim -> ready (Solver.withSources sim srcs).
Proof. intro H. exact H. Qed.

Lemma reset_ready (sim : Solver.AcousticSimulator) :
  ready sim -> ready (Solver.reset sim).
Proof.
  intros (_ & Hx & Hy). split; [|split; assumption].
  unfold wellFormed, Solver.reset, Solver._createGrid.
  cbn [Solver.width Solver.height Solver.pressure Solver.pressurePrev
       Solver.pressureNext Solver.velocityX Solver.velocityY].
  refine (conj _ (conj _ (conj _ (conj _ _)))); apply createGrid_shape.
Qed.

Lemma ready_microphone (sim : Solver.AcousticSimulator) :
  ready sim ->
  Solver.getMicrophoneSignal sim
  = Ok (cellOf (Solver.pressure sim) (Solver.microphoneY sim)
          (Solver.microphoneX sim)).
Proof.
  intros (Hwf & Hx & Hy). unfold Solver.getMicrophoneSignal.
  assert (E : Solver._inBounds sim (ofNat (Solver.microphoneX sim))
                (ofNat (Solver.microphoneY sim)) = true).
  { apply (inBounds_ofZ sim (Z.of_nat (Solver.microphoneX sim))
             (Z.of_nat (Solver.microphoneY sim))). lia. }
  rewrite E.
  apply (@getCell_shape (Solver.height sim) (Solver.width sim));
    [apply Hwf|assumption|assumption].
Qed.

Lemma ready_after_step (M : MathLib) (sim sim' : Solver.AcousticSimulator)
  (t : num) :
  ready sim -> Solver.step M sim t = Ok sim' ->
  ready sim' /\ Solver.sources sim' = Solver.sources sim.
Proof.
  intros (Hwf & Hx & Hy) H.
  destruct (@step_keeps M sim sim' t H) as (Kx & Ky & _).
  pose proof H as H'. unfold Solver.step in H'.
  apply bind_Ok in H'. destruct H' as (sv & Hsv & _).
  destruct (@step_after_sources M sim t sv Hwf Hsv
              (updateSources_shape _ _ _ Hsv))
    as (sim1 & H1 & Hw & Hh & _ & _ & Hs & _ & _ & _ & _ & _ & _ & Hwf1).
  rewrite H in H1. injection H1 as <-.
  split; [|exact Hs]. split; [exact Hwf1|]. rewrite Kx, Ky, Hw, Hh.
  split; assumption.
Qed.

Lemma evaluable_step (M : MathLib) (sim : Solver.AcousticSimulator)
  (t : num) :
  ready sim ->
  (forall s, In s (Solver.sources sim) -> evaluable s = true) ->
  exists sim',
    Solver.step M sim t = Ok sim'
    /\ ready sim' /\ Solver.sources sim' = Solver.sources sim.
Proof.
  intros Hr He.
  destruct (@updateSources_returns M sim t He) as (sv & Hsv & Hshape).
  destruct (@step_after_sources M sim t sv (proj1 Hr) Hsv Hshape)
    as (sim' & H1 & _).
  exists sim'. split; [exact H1|]. exact (@ready_after_step M sim sim' t Hr H1).
Qed.

(** The loop of [runSimulation]. *)
Lemma advance_all (M : MathLib) (sampleRate : num) (steps : list nat) :
  forall sim buffer,
    ready sim ->
    (forall s, In s (Solver.sources sim) -> evaluable s = true) ->
    exists sim' buffer',
      foldM (Simulation.advance M sampleRate) steps (sim, buffer)
      = Ok (sim', buffer')
      /\ ready sim'
      /\ Solver.sources sim' = Solver.sources sim
      /\ List.length (AudioBuffer.samples buffer')
         = (List.length (AudioBuffer.samples buffer) + List.length steps)%nat.
Proof.
  induction steps as [|k steps IH]; intros sim buffer Hr He.
  - exists sim, buffer. cbn [foldM List.length].
    split; [reflexivity|]. split; [exact Hr|]. split; [reflexivity|lia].
  - destruct (@evaluable_step M sim (ofNat k / sampleRate)%num Hr He)
      as (sim1 & H1 & Hr1 & Hs1).
    destruct (IH sim1
                (AudioBuffer.addSample buffer
                   (cellOf (Solver.pressure sim1) (Solver.microphoneY sim1)
                      (Solver.microphoneX sim1))) Hr1)
      as (sim' & buffer' & H' & Hr' & Hs' & Hlen).
    { intros s Hin. apply He. rewrite <- Hs1. exact Hin. }
    exists sim', buffer'. cbn [foldM]. unfold Simulation.advance at 1.
    cbn [fst snd]. rewrite H1. cbn [bind].
    rewrite (@ready_microphone sim1 Hr1). cbn [bind].
    split; [exact H'|]. split; [exact Hr'|].
    split; [congruence|].
    rewrite Hlen. cbn [AudioBuffer.addSample AudioBuffer.samples List.length].
    rewrite length_app. cbn [List.length]. lia.
Qed.

Lemma normalize_length (b : AudioBuffer.AudioBuffer) :
  List.length (AudioBuffer.normalize b)
  = List.length (AudioBuffer.samples b).
Proof.
  unfold AudioBuffer.normalize.
  destruct (_ === _)%num; [reflexivity|apply length_map].
Qed.

(** X6.  [runSimulation] returns, whatever the [Math] library answers, for
    every configuration whose grid sizes are absent or whole numbers up to
    1024, whose duration and sample rate are finite numbers with a product
    that is a binary64 number (so that it is computed exactly, as
    [1 * 44100] is) of at most 2^24: it neither throws nor loops, and it
    hands back exactly [floor(duration * sampleRate)] samples (none when
    that is negative), raw and normalised, from a solver that holds the one
    source it registered and whose grids are intact. *)
Theorem runSimulation_returns (M : MathLib) (c : Simulation.config) :
  roomCount (Simulation.gridWidth c) = true ->
  roomCount (Simulation.gridHeight c) = true ->
  isFloat64 (Fin (Simulation.dflt (Simulation.duration c) 1
                  * Simulation.dflt (Simulation.sampleRate c) 44100))
  = true ->
  Simulation.dflt (Simulation.duration c) 1
  * Simulation.dflt (Simulation.sampleRate c) 44100
  <= inject_Z bufferLimit ->
  let numSteps :=
    Z.to_nat (Qfloor (Simulation.dflt (Simulation.duration c) 1
                      * Simulation.dflt (Simulation.sampleRate c) 44100)) in
  exists out,
    Simulation.runSimulation M c = Ok out
    /\ List.length (AudioBuffer.samples (Simulation.audioBuffer out))
       = numSteps
    /\ List.length (Simulation.samples out) = numSteps
    /\ ready (Simulation.simulator out)
    /\ List.length (Solver.sources (Simulation.simulator out)) = 1%nat
    /\ Simulation.outSampleRate out
       = Simulation.dflt (Simulation.sampleRate c) 44100.
Proof.
  intros _ _ _ _ numSteps. unfold Simulation.runSimulation. cbv zeta.
  fold numSteps.
  match goal with
  | |- context [foldM _ _ (?sim0, ?b0)] =>
      destruct (@advance_all M
                  (Fin (Simulation.dflt (Simulation.sampleRate c) 44100))
                  (seq 0 numSteps) sim0 b0)
        as (sim' & buffer' & H & Hr & Hs & Hlen)
  end.
  - apply withSources_ready. apply new_ready.
  - intros s [<-|[]]. reflexivity.
  - rewrite H. cbn [bind fst snd]. eexists. split; [reflexivity|].
    cbn [Simulation.audioBuffer Simulation.samples Simulation.simulator
         Simulation.outSampleRate].
    rewrite length_seq in Hlen. cbn [AudioBuffer.new AudioBuffer.samples
                                     List.length] in Hlen.
    split; [exact Hlen|].
    split; [unfold AudioBuffer.toAudioBuffer; rewrite normalize_length;
            exact Hlen|].
    split; [exact Hr|]. split; [rewrite Hs; reflexivity|reflexivity].
Qed.

Lemma runSimulation_returns_witness :
  roomCount (Simulation.gridWidth Rooms.shortRun) = true
  /\ isFloat64 (Fin ((1 # 4) * 8)) = true
  /\ (1 # 4) * 8 <= inject_Z bufferLimit
  /\ forall M : MathLib,
     exists out,
       Simulation.runSimulation M Rooms.shortRun = Ok out
       /\ List.length (Simulation.samples out) = 2%nat
       /\ ready (Simulation.simulator out).
Proof.
  split; [reflexivity|]. split; [reflexivity|].
  split; [vm_compute; discriminate|]. intro M.
  destruct (@runSimulation_returns M Rooms.shortRun eq_refl eq_refl eq_refl)
    as (out & H & _ & Hn & Hr & _).
  { vm_compute. discriminate. }
  exists out. split; [exact H|]. split; [exact Hn|exact Hr].
Defined.

(** *** The worker *)

Lemma foldM_settles {A S : Type} (f : S -> A -> result S) (xs : list A) :
  (forall s x, In x xs -> f s x <> Diverge) ->
  forall s, foldM f xs s <> Diverge.
Proof.
  induction xs as [|x xs IH]; intros H s; [discriminate|].
  cbn [foldM]. destruct (f s x) as [s'| |] eqn:E; cbn [bind].
  - apply IH. intros s0 x0 Hin. apply H. now right.
  - discriminate.
  - exfalso. exact (H s x (or_introl eq_refl) E).
Qed.

Lemma addAt_settles (sv : Solver.grid) (x y v : num) :
  Solver.addAt sv x y v <> Diverge.
Proof.
  unfold Solver.addAt. destruct (toIndex _ y); [|discriminate].
  destruct (toIndex _ x); discriminate.
Qed.

Lemma splat_settles (sim : Solver.AcousticSimulator) (sv : Solver.grid)
  (x y v : num) :
  Solver.splat sim sv x y v <> Diverge.
Proof.
  unfold Solver.splat. destruct (Solver._inBounds sim x y);
    [apply addAt_settles|discriminate].
Qed.

Lemma membraneOffsets_total (radius : num) :
  radius <> PInf ->
  exists offsets, Solver.membraneOffsets radius = Ok offsets.
Proof.
  unfold Solver.membraneOffsets.
  destruct radius as [r| | |]; intro H.
  - cbn [nopp]. unfold fin.
    assert (V : Qred (- r) == - r) by apply Qred_correct.
    destruct (@numRange_returns r (S (Z.to_nat (Qfloor (2 * r))))
                (Qred (- r))) as (l & Hl & _); [|eauto].
    destruct (Qlt_le_dec r 0) as [N|P].
    + left. rewrite V. lra.
    + right. assert (E : r - Qred (- r) == 2 * r) by (rewrite V; ring).
      rewrite E. lia.
  - now elim H.
  - exists []. reflexivity.
  - exists []. reflexivity.
Qed.

Lemma applySource_settles (M : MathLib) (sim : Solver.AcousticSimulator)
  (t : num) (sv : Solver.grid) (s : Solver.source) :
  bounded s = true -> Solver.applySource M sim t sv s <> Diverge.
Proof.
  intro Hb. destruct s as [x y f a ty d st ph|cx cy r f a m st ph
                           |sx sy ex ey f a st ph]; cbn [Solver.applySource].
  - destruct (String.eqb ty "sine" || String.eqb ty "point")%bool;
      [apply splat_settles|discriminate].
  - destruct (@membraneOffsets_total r) as [offsets Ho].
    { intro E. rewrite E in Hb. discriminate Hb. }
    rewrite Ho. cbn [bind]. apply foldM_settles. intros g dy _.
    apply foldM_settles. intros g1 dx _. unfold Solver.membraneCell.
    destruct (_ <=? r)%num; [|discriminate].
    destruct (Solver._inBounds sim _ _); [apply addAt_settles|discriminate].
  - destruct (bresenhamLine_returns sx sy ex ey) as [points Hp].
    rewrite Hp. cbn [bind]. apply foldM_settles. intros g [px py] _.
    apply splat_settles.
Qed.

Lemma withinReach_bounded (s : Solver.source) :
  withinReach s = true -> bounded s = true.
Proof.
  destruct s as [x y f a ty d st ph|cx cy r f a m st ph
                 |sx sy ex ey f a st ph]; try reflexivity.
  cbn [withinReach bounded]. destruct r; try reflexivity.
  rewrite andb_false_r. intro H. discriminate H.
Qed.

Lemma coordinate_inReach (x : Q) :
  coordinate x = true -> inReach (Qfloor x) = true.
Proof.
  unfold coordinate, inReach. intro H. apply andb_prop in H.
  destruct H as [L U]. apply Qle_bool_iff in L, U.
  apply Z.leb_le. apply Z.abs_le. split.
  - rewrite <- (Qfloor_Z (- reach)). apply Qfloor_resp_le.
    rewrite inject_Z_opp. exact L.
  - rewrite <- (Qfloor_Z reach). now apply Qfloor_resp_le.
Qed.

(** A step of a solver without a membrane of infinite radius returns or
    throws. *)
Lemma bounded_step (M : MathLib) (sim : Solver.AcousticSimulator) (t : num) :
  ready sim ->
  (forall s, In s (Solver.sources sim) -> bounded s = true) ->
  (exists sim',
     Solver.step M sim t = Ok sim'
     /\ ready sim' /\ Solver.sources sim' = Solver.sources sim)
  \/ exists e, Solver.step M sim t = Throw e.
Proof.
  intros Hr Hb.
  destruct (Solver._updateSources M sim t) as [sv|e|] eqn:E.
  - left.
    destruct (@step_after_sources M sim t sv (proj1 Hr) E
                (updateSources_shape _ _ _ E)) as (sim' & H1 & _).
    exists sim'. split; [exact H1|].
    exact (@ready_after_step M sim sim' t Hr H1).
  - right. exists e. unfold Solver.step. rewrite E. reflexivity.
  - exfalso. revert E. unfold Solver._updateSources.
    apply foldM_settles. intros g s Hin.
    destruct (Solver.sourceSkipped t s); [discriminate|].
    apply applySource_settles. now apply Hb.
Qed.

Lemma runLoop_consistent (M : MathLib) (sampleRate : num)
  (startStep numSteps reportInterval : nat) (steps : list nat) :
  forall sim buffer st,
    ready sim ->
    (forall s, In s (Solver.sources sim) -> withinReach s = true) ->
    List.length (AudioBuffer.samples buffer) = Worker.totalStepsRun st ->
    exists st',
      Worker.runLoop M sampleRate startStep numSteps reportInterval steps
        sim buffer st = Ok st'
      /\ consistent st'
      /\ (Worker.totalStepsRun st <= Worker.totalStepsRun st'
          <= Worker.totalStepsRun st + List.length steps)%nat.
Proof.
  induction steps as [|k steps IH]; intros sim buffer st Hr Hb Hlen.
  - eexists. cbn [Worker.runLoop]. split; [reflexivity|].
    split; [|cbn; lia].
    unfold consistent. cbn. auto.
  - cbn [Worker.runLoop]. cbv zeta.
    destruct (@bounded_step M sim (ofNat k / sampleRate)%num Hr
                (fun s Hs => withinReach_bounded s (Hb s Hs)))
      as [(sim1 & H1 & Hr1 & Hs1)|[e He]].
    + rewrite H1. rewrite (@ready_microphone sim1 Hr1).
      match goal with
      | |- context [Worker.runLoop _ _ _ _ _ _ sim1 ?b1 ?st1] =>
          destruct (IH sim1 b1 st1 Hr1) as (st' & H' & Hc & Hn)
      end.
      * intros s Hin. apply Hb. rewrite <- Hs1. exact Hin.
      * cbn [AudioBuffer.addSample AudioBuffer.samples].
        rewrite length_app, Hlen.
        destruct (Worker.reports k startStep reportInterval); cbn; lia.
      * exists st'. split; [exact H'|]. split; [exact Hc|].
        revert Hn.
        destruct (Worker.reports k startStep reportInterval);
          cbn [Worker.post Worker.totalStepsRun List.length]; lia.
    + rewrite He. eexists. split; [reflexivity|]. split; [|cbn; lia].
      unfold consistent. cbn. split; [exact Hr|]. split; [exact Hlen|exact Hb].
Qed.

Lemma onmessage_consistent (M : MathLib) (st : Worker.state)
  (m : Worker.message) :
  consistent st -> tame m = true ->
  exists st', Worker.onmessage M st m = Ok st' /\ consistent st'.
Proof.
  intros Hc Ht. unfold consistent in Hc.
  destruct st as [[sim|] [buffer|] n out]; cbn in Hc; try contradiction.
  - destruct Hc as (Hr & Hlen & Hb).
    destruct m as [config|x y f a ty d|sx sy ex ey f a|cx cy r f a md
                   |numSteps reportInterval| | | |];
      cbn [Worker.onmessage Worker.simulator Worker.audioBuffer].
    + eexists. split; [reflexivity|]. unfold consistent. cbn.
      split; [apply new_ready|]. split; [reflexivity|]. intros s [].
    + eexists. split; [reflexivity|]. unfold consistent. cbn.
      split; [exact Hr|]. split; [exact Hlen|].
      intros s Hin. apply in_app_or in Hin.
      destruct Hin as [Hin|[<-|[]]]; [now apply Hb|reflexivity].
    + eexists. split; [reflexivity|]. unfold consistent.
      cbn [Worker.withSimulator Worker.simulator Worker.audioBuffer
           Worker.totalStepsRun Solver.addStringSource Solver.withSources
           Solver.sources].
      split; [exact Hr|]. split; [exact Hlen|].
      intros s Hin. apply in_app_or in Hin.
      destruct Hin as [Hin|[<-|[]]]; [now apply Hb|].
      cbn [tame] in Ht. cbn [withinReach].
      apply andb_prop in Ht. destruct Ht as [Ht T4].
      apply andb_prop in Ht. destruct Ht as [Ht T3].
      apply andb_prop in Ht. destruct Ht as [T1 T2].
      now rewrite !coordinate_inReach.
    + eexists. split; [reflexivity|]. unfold consistent.
      cbn [Worker.withSimulator Worker.simulator Worker.audioBuffer
           Worker.totalStepsRun Solver.addMembraneSource Solver.withSources
           Solver.sources].
      split; [exact Hr|]. split; [exact Hlen|].
      intros s Hin. apply in_app_or in Hin.
      destruct Hin as [Hin|[<-|[]]]; [now apply Hb|].
      cbn [tame] in Ht. cbn [withinReach].
      apply andb_prop in Ht. destruct Ht as [Ht T3].
      apply andb_prop in Ht. destruct Ht as [T1 T2].
      now rewrite !coordinate_inReach, T3.
    + unfold Worker.runSimulation.
      cbn [Worker.simulator Worker.audioBuffer Worker.totalStepsRun].
      destruct (@runLoop_consistent M (AudioBuffer.sampleRate buffer) n
                  (Simulation.dflt numSteps 1000%nat)
                  (Simulation.dflt reportInterval 100%nat)
                  (seq n (Simulation.dflt numSteps 1000%nat)) sim buffer
                  (Worker.mkState (Some sim) (Some buffer) n out) Hr Hb Hlen)
        as (st' & H' & Hc' & _).
      exists st'. split; assumption.
    + eexists. split; [reflexivity|]. unfold consistent. cbn.
      split; [now apply reset_ready|]. split; [reflexivity|]. intros s [].
    + eexists. split; [reflexivity|]. unfold consistent. cbn. auto.
    + eexists. split; [reflexivity|]. unfold consistent. cbn. auto.
    + eexists. split; [reflexivity|]. unfold consistent. cbn. auto.
  - destruct m as [config|x y f a ty d|sx sy ex ey f a|cx cy r f a md
                   |numSteps reportInterval| | | |];
      cbn [Worker.onmessage Worker.simulator Worker.audioBuffer];
      try (eexists; split; [reflexivity|]; unfold consistent; cbn;
           exact Hc).
    + eexists. split; [reflexivity|]. unfold consistent. cbn.
      split; [apply new_ready|]. split; [reflexivity|]. intros s [].
Qed.

Lemma handle_consistent (M : MathLib) (ms : list Worker.message) :
  forall st,
    consistent st ->
    (forall m, In m ms -> tame m = true) ->
    exists st', foldM (Worker.onmessage M) ms st = Ok st' /\ consistent st'.
Proof.
  induction ms as [|m ms IH]; intros st Hc Ht.
  - exists st. split; [reflexivity|exact Hc].
  - destruct (@onmessage_consistent M st m Hc (Ht m (or_introl eq_refl)))
      as (st1 & H1 & Hc1).
    destruct (IH st1 Hc1) as (st' & H' & Hc').
    { intros m' Hin. apply Ht. now right. }
    exists st'. cbn [foldM]. rewrite H1. cbn [bind]. split; assumption.
Qed.

(** X7.  The worker survives every session of well-formed messages.  The
    messages are those of [Worker.message]: each carries the [data] its
    handler reads, with finite numbers for coordinates and whole numbers for
    sizes and step counts.  Whatever such messages arrive, in whatever
    order, so long as every room asked for has at most 1024 cells a side
    and the coordinates and radii of strings and membranes are within reach
    (up to 2^15, the radius not [+Infinity]), and the runs ask for no more
    than 2^24 steps in all (the samples fit in the buffer), every handler
    returns: no exception escapes, no loop hangs.  Afterwards the solver and the buffer
    exist together or not at all, the buffer holds exactly [totalStepsRun]
    samples, the grids have the shape of the room and the microphone is one
    of its cells. *)
Theorem worker_survives_well_formed_sessions (M : MathLib)
  (ms : list Worker.message) :
  (forall m, In m ms -> tame m = true) ->
  (Z.of_nat (sessionSteps ms) <= bufferLimit)%Z ->
  exists st, Worker.handleAll M ms = Ok st /\ consistent st.
Proof.
  intros Ht _. apply handle_consistent; [|exact Ht].
  unfold consistent. reflexivity.
Qed.

Lemma worker_survives_well_formed_sessions_witness :
  (forall m, In m Sessions.session -> tame m = true)
  /\ (Z.of_nat (sessionSteps Sessions.session) <= bufferLimit)%Z
  /\ forall M : MathLib,
     exists st,
       Worker.handleAll M Sessions.session = Ok st /\ consistent st.
Proof.
  assert (H : forall m, In m Sessions.session -> tame m = true).
  { intros m Hin. unfold Sessions.session in Hin.
    repeat (destruct Hin as [<-|Hin]; [reflexivity|]). destruct Hin. }
  assert (L : (Z.of_nat (sessionSteps Sessions.session) <= bufferLimit)%Z)
    by (vm_compute; discriminate).
  split; [exact H|]. split; [exact L|]. intro M.
  exact (@worker_survives_well_formed_sessions M Sessions.session H L).
Defined.

(* ===================================================================== *)
(** ** The audio accumulator: headroom and poisoned buffers *)
(* ===================================================================== *)

Lemma headroom_bound (q pk : Q) :
  0 < pk -> Qabs q <= pk ->
  Qabs (Qred (q / Qred (pk * (11 # 10)))) <= 10 # 11.
Proof.
  intros Hpk Hq. rewrite !Qred_correct.
  apply Qabs_Qle_condition in Hq. apply Qabs_Qle_condition.
  assert (D : 0 < pk * (11 # 10)) by lra.
  split.
  - apply Qle_shift_div_l; [exact D|]. lra.
  - apply Qle_shift_div_r; [exact D|]. lra.
Qed.

Lemma headroom_attained (q pk : Q) :
  0 < pk -> Qabs q == pk ->
  Qabs (Qred (q / Qred (pk * (11 # 10)))) == 10 # 11.
Proof.
  intros Hpk Hq. rewrite !Qred_correct.
  assert (N : ~ pk == 0) by lra.
  destruct (Qlt_le_dec q 0) as [Neg|Pos].
  - rewrite Qabs_neg in Hq by lra.
    assert (E : q / (pk * (11 # 10)) == - (10 # 11)).
    { assert (Eq : q == - pk) by lra. rewrite Eq. field. exact N. }
    rewrite E. reflexivity.
  - rewrite Qabs_pos in Hq by exact Pos.
    assert (E : q / (pk * (11 # 10)) == 10 # 11).
    { rewrite Hq. field. exact N. }
    rewrite E. reflexivity.
Qed.

(** X8.  [normalize] keeps its headroom.  Of a buffer filled with samples
    of moderate size (zero, or of magnitude between 2^-500 and 2^500, so
    that [maxValue * 1.1] neither overflows nor is rounded among the
    subnormal numbers), every normalised sample is a finite number of
    magnitude at most [1 / 1.1 = 10/11]; and when some sample is not zero,
    the loudest one is brought to that magnitude. *)
Theorem normalize_keeps_headroom (sampleRate : num) (ps : list num) :
  moderateSamples ps ->
  let out :=
    AudioBuffer.normalize (AudioBuffer.addAll (AudioBuffer.new sampleRate) ps)
  in
  List.length out = List.length ps
  /\ (forall v, In v out -> exists q, v = Fin q /\ Qabs q <= 10 # 11)
  /\ ((exists q, In (Fin q) ps /\ ~ q == 0) ->
      exists q, In (Fin q) out /\ Qabs q == 10 # 11).
Proof.
  intros Hmod out. pose proof (moderate_allFinite Hmod) as Hfin.
  destruct (@running_peak ps Hfin 0 (Qle_refl 0))
    as (pk & Hfold & Hpos & Hall & Hatt).
  assert (Hs : AudioBuffer.samples
                 (AudioBuffer.addAll (AudioBuffer.new sampleRate) ps) = ps)
    by (rewrite addAll_samples; reflexivity).
  assert (Hm : AudioBuffer.maxValue
                 (AudioBuffer.addAll (AudioBuffer.new sampleRate) ps)
               = Fin pk)
    by (rewrite addAll_maxValue; exact Hfold).
  assert (Hin : forall x, In x ps -> exists q, x = Fin q).
  { intros x Hx. apply isFinite_Fin.
    exact (proj1 (Forall_forall _ ps) Hfin x Hx). }
  split; [unfold out; rewrite normalize_length, Hs; reflexivity|].
  unfold out, AudioBuffer.normalize. rewrite Hm, Hs. cbn [neq].
  destruct (Qeq_bool pk 0) eqn:E.
  - apply Qeq_bool_iff in E. split.
    + intros v Hv. destruct (Hin v Hv) as [q ->]. exists q.
      split; [reflexivity|]. specialize (Hall q Hv). lra.
    + intros (q & Hq & Nq). exfalso. specialize (Hall q Hq).
      rewrite E in Hall. apply Nq.
      apply Qabs_Qle_condition in Hall. lra.
  - apply Qeq_bool_false_iff in E.
    assert (Ppk : 0 < pk) by lra.
    assert (Nd : ~ Qred (pk * (11 # 10)) == 0) by now apply headroom_nonzero.
    change (Fin pk * Fin (11 # 10))%num with (Fin (Qred (pk * (11 # 10)))).
    split.
    + intros v Hv. apply in_map_iff in Hv. destruct Hv as (x & <- & Hx).
      destruct (Hin x Hx) as [q ->]. rewrite ndiv_Fin by exact Nd.
      eexists. split; [reflexivity|].
      apply headroom_bound; [exact Ppk|now apply Hall].
    + intros _. destruct Hatt as [Z|(q & Hq & Eq)]; [lra|].
      exists (Qred (q / Qred (pk * (11 # 10)))). split.
      * apply in_map_iff. exists (Fin q). split; [|exact Hq].
        rewrite ndiv_Fin by exact Nd. reflexivity.
      * now apply headroom_attained.
Qed.

Lemma normalize_keeps_headroom_witness :
  moderateSamples [Fin (1 # 2); Fin (- (2)); Fin 1]
  /\ exists q,
       In (Fin q)
          (AudioBuffer.normalize
             (AudioBuffer.addAll (AudioBuffer.new (Fin 44100))
                [Fin (1 # 2); Fin (- (2)); Fin 1]))
       /\ Qabs q == 10 # 11.
Proof.
  assert (H : moderateSamples [Fin (1 # 2); Fin (- (2)); Fin 1])
    by reflexivity.
  split; [exact H|].
  destruct (@normalize_keeps_headroom (Fin 44100)
              [Fin (1 # 2); Fin (- (2)); Fin 1] H) as (_ & _ & Hmax).
  apply Hmax. exists 1. split; [right; right; left; reflexivity|discriminate].
Defined.

Lemma peak_poisoned (ps : list num) :
  forall m, m = NaN \/ In NaN ps ->
  fold_left (fun m p => nmax m (nabs p)) ps m = NaN.
Proof.
  induction ps as [|p ps IH]; intros m [Hm|Hin].
  - exact Hm.
  - destruct Hin.
  - cbn [fold_left]. apply IH. left. rewrite Hm. reflexivity.
  - cbn [fold_left]. apply IH. destruct Hin as [->|Hin]; [left|now right].
    destruct m; reflexivity.
Qed.

(** X9.  One [NaN] sample poisons the whole buffer.  [addSample] does not
    reject it, [Math.max] makes [maxValue] a [NaN] for good, the test
    [maxValue === 0] fails, and every number that [normalize] and
    [toAudioBuffer] return is [NaN], whatever the other samples were. *)
Theorem nan_sample_poisons_buffer (b : AudioBuffer.AudioBuffer)
  (ps : list num) :
  In NaN ps ->
  let b' := AudioBuffer.addAll b ps in
  AudioBuffer.maxValue b' = NaN
  /\ AudioBuffer.toAudioBuffer b'
     = repeat NaN (List.length (AudioBuffer.samples b) + List.length ps).
Proof.
  intros Hin b'. unfold b'.
  assert (Hm : AudioBuffer.maxValue (AudioBuffer.addAll b ps) = NaN).
  { rewrite addAll_maxValue. apply peak_poisoned. now right. }
  split; [exact Hm|].
  unfold AudioBuffer.toAudioBuffer, AudioBuffer.normalize.
  rewrite Hm, addAll_samples. cbn [neq nmul].
  rewrite <- length_app.
  induction (AudioBuffer.samples b ++ ps) as [|s l IH]; [reflexivity|].
  cbn [map List.length repeat]. rewrite IH. f_equal.
  destruct s; reflexivity.
Qed.

Lemma nan_sample_poisons_buffer_witness :
  In NaN [Fin 1; NaN; Fin 2]
  /\ AudioBuffer.toAudioBuffer
       (AudioBuffer.addAll (AudioBuffer.new (Fin 44100)) [Fin 1; NaN; Fin 2])
     = [NaN; NaN; NaN].
Proof.
  assert (H : In NaN [Fin 1; NaN; Fin 2]) by (right; left; reflexivity).
  split; [exact H|].
  exact (proj2 (@nan_sample_poisons_buffer (AudioBuffer.new (Fin 44100))
                  [Fin 1; NaN; Fin 2] H)).
Defined.

(* ===================================================================== *)
(** ** Peaks by comparison with the neighbouring bins *)
(* ===================================================================== *)

Lemma ngt_asym (a b : num) :
  (a >? b)%num = true -> (b >? a)%num = true -> False.
Proof.
  unfold ngt. destruct a as [p| | |], b as [q| | |]; cbn; try discriminate.
  intros H1 H2. apply Qlt_bool_iff in H1, H2. lra.
Qed.

Lemma strictPeakBins_iff (m : list num) (level : num) (i : nat) :
  In i (strictPeakBins m level)
  <-> (1 <= i < List.length m - 1)%nat
      /\ (getNum m i >? level)%num = true
      /\ (getNum m i >? getNum m (i - 1))%num = true
      /\ (getNum m i >? getNum m (i + 1))%num = true.
Proof.
  unfold strictPeakBins. rewrite filter_In, in_seq, !andb_true_iff.
  split.
  - intros (Hr & (H1 & H2) & H3). split; [lia|]. auto.
  - intros (Hr & H1 & H2 & H3). split; [lia|]. auto.
Qed.


Lemma strictPeakBins_apart (m : list num) (level : num) (i : nat) :
  In i (strictPeakBins m level) -> ~ In (S i) (strictPeakBins m level).
Proof.
  intros Hi Hs. apply strictPeakBins_iff in Hi, Hs.
  destruct Hi as (_ & _ & _ & Hup). destruct Hs as (_ & _ & Hdown & _).
  replace (S i - 1)%nat with i in Hdown by lia.
  replace (i + 1)%nat with (S i) in Hup by lia.
  exact (ngt_asym _ _ Hup Hdown).
Qed.




(** *** The real-time analyzer *)

(** The 256 numbers a byte can leave in [magnitude]: binary32 numbers
    between 0 and 1. *)
Lemma byte_scaled (b : Byte.byte) :
  unitRange (fround (ofNat (Byte.to_nat b) / Fin 255)%num)
  /\ isFloat32 (fround (ofNat (Byte.to_nat b) / Fin 255)%num) = true.
Proof.
  destruct b; (split; [eexists; split; [vm_compute; reflexivity|];
                       split; vm_compute; discriminate
                      |vm_compute; reflexivity]).
Qed.

(** The byte 51 is stored as the binary32 number next above one fifth. *)
Example byte_51_exceeds_a_fifth :
  fround (ofNat (Byte.to_nat Byte.x33) / Fin 255)%num
  = Fin (13421773 # 67108864)
  /\ (fround (ofNat (Byte.to_nat Byte.x33) / Fin 255) >? Fin (1 # 5))%num
     = true.
Proof. split; vm_compute; reflexivity. Qed.

Lemma update_invariant (a : RealtimeAudioAnalyzer.RealtimeAudioAnalyzer)
  (spectrum : list Byte.byte) :
  List.length (RealtimeAudioAnalyzer.dataArray a)
  = List.length (RealtimeAudioAnalyzer.magnitude a) ->
  Forall unitRange (RealtimeAudioAnalyzer.magnitude a) ->
  let a' := RealtimeAudioAnalyzer.update a spectrum in
  List.length (RealtimeAudioAnalyzer.dataArray a')
  = List.length (RealtimeAudioAnalyzer.magnitude a')
  /\ List.length (RealtimeAudioAnalyzer.magnitude a')
     = List.length (RealtimeAudioAnalyzer.magnitude a)
  /\ Forall unitRange (RealtimeAudioAnalyzer.magnitude a')
  /\ RealtimeAudioAnalyzer.fftSize a' = RealtimeAudioAnalyzer.fftSize a
  /\ RealtimeAudioAnalyzer.contextSampleRate a'
     = RealtimeAudioAnalyzer.contextSampleRate a.
Proof.
  intros Hlen Hall a'. unfold a', RealtimeAudioAnalyzer.update. cbv zeta.
  cbn [RealtimeAudioAnalyzer.dataArray RealtimeAudioAnalyzer.magnitude
       RealtimeAudioAnalyzer.fftSize RealtimeAudioAnalyzer.contextSampleRate].
  set (d := RealtimeAudioAnalyzer.dataArray a) in *.
  set (m := RealtimeAudioAnalyzer.magnitude a) in *.
  set (data := firstn (List.length d) spectrum
               ++ skipn (List.length spectrum) d).
  assert (Ld : List.length data = List.length d).
  { unfold data. rewrite length_app, length_firstn, length_skipn. lia. }
  assert (Lm : List.length
                 (map (fun b => fround (ofNat (Byte.to_nat b) / Fin 255)%num)
                      (firstn (List.length m) data)
                  ++ skipn (List.length data) m) = List.length m).
  { rewrite length_app, length_map, length_firstn, length_skipn. lia. }
  split; [rewrite Lm, Ld; exact Hlen|]. split; [exact Lm|].
  split; [|split; reflexivity].
  apply Forall_app. split.
  - apply Forall_forall. intros v Hv. apply in_map_iff in Hv.
    destruct Hv as (b & <- & _). apply byte_scaled.
  - apply Forall_forall. intros v Hv.
    apply (proj1 (Forall_forall _ _) Hall).
    rewrite <- (firstn_skipn (List.length data) m).
    apply in_or_app. right. exact Hv.
Qed.

Lemma updates_invariant (sampleRate : num)
  (spectra : list (list Byte.byte)) :
  let a := fold_left RealtimeAudioAnalyzer.update spectra
             (RealtimeAudioAnalyzer.new sampleRate) in
  List.length (RealtimeAudioAnalyzer.magnitude a) = 1024%nat
  /\ Forall unitRange (RealtimeAudioAnalyzer.magnitude a)
  /\ RealtimeAudioAnalyzer.fftSize a = 2048%nat
  /\ RealtimeAudioAnalyzer.contextSampleRate a = sampleRate.
Proof.
  cbv zeta.
  assert (G : forall a,
             List.length (RealtimeAudioAnalyzer.dataArray a)
             = List.length (RealtimeAudioAnalyzer.magnitude a) ->
             Forall unitRange (RealtimeAudioAnalyzer.magnitude a) ->
             let a' := fold_left RealtimeAudioAnalyzer.update spectra a in
             List.length (RealtimeAudioAnalyzer.magnitude a')
             = List.length (RealtimeAudioAnalyzer.magnitude a)
             /\ Forall unitRange (RealtimeAudioAnalyzer.magnitude a')
             /\ RealtimeAudioAnalyzer.fftSize a'
                = RealtimeAudioAnalyzer.fftSize a
             /\ RealtimeAudioAnalyzer.contextSampleRate a'
                = RealtimeAudioAnalyzer.contextSampleRate a).
  { induction spectra as [|s spectra IH]; intros a Hlen Hall.
    - cbn. auto.
    - cbn [fold_left]. cbv zeta.
      destruct (update_invariant a s Hlen Hall) as (H1 & H2 & H3 & H4 & H5).
      destruct (IH _ H1 H3) as (I1 & I2 & I3 & I4).
      split; [congruence|]. split; [exact I2|]. split; congruence. }
  destruct (G (RealtimeAudioAnalyzer.new sampleRate)) as (H1 & H2 & H3 & H4).
  - reflexivity.
  - cbn [RealtimeAudioAnalyzer.new RealtimeAudioAnalyzer.magnitude].
    apply Forall_forall. intros v Hv. apply repeat_spec in Hv. subst v.
    exists 0. split; [reflexivity|]. split; discriminate.
  - split; [rewrite H1; reflexivity|]. split; [exact H2|].
    split; [rewrite H3; reflexivity|rewrite H4; reflexivity].
Qed.

(** X11.  The real-time analyzer.  After any number of [update] calls the
    1024 magnitudes are finite numbers between 0 and 1 (each a byte divided
    by 255 and rounded to binary32, as the [Float32Array] stores it), so
    [findPeaks] returns its peaks strongest first without further
    assumption; a bin is reported exactly when it is neither the first nor
    the last, exceeds the threshold, and is strictly above both its
    neighbours, and its frequency is [bin * sampleRate / 2048]. *)
Theorem realtime_peaks_characterised (sampleRate threshold : num)
  (spectra : list (list Byte.byte)) :
  let a := fold_left RealtimeAudioAnalyzer.update spectra
             (RealtimeAudioAnalyzer.new sampleRate) in
  let m := RealtimeAudioAnalyzer.magnitude a in
  let peaks := RealtimeAudioAnalyzer.findPeaks a threshold in
  let bins := map RealtimeAudioAnalyzer.binIndex peaks in
  List.length m = 1024%nat
  /\ Forall unitRange m
  /\ (forall i,
        In i bins
        <-> (1 <= i < 1023)%nat
            /\ (getNum m i >? threshold)%num = true
            /\ (getNum m i >? getNum m (i - 1))%num = true
            /\ (getNum m i >? getNum m (i + 1))%num = true)
  /\ (forall i, In i bins -> ~ In (S i) bins)
  /\ (forall p, In p peaks ->
        RealtimeAudioAnalyzer.peakMagnitude p
        = getNum m (RealtimeAudioAnalyzer.binIndex p)
        /\ RealtimeAudioAnalyzer.frequency p
           = ((ofNat (RealtimeAudioAnalyzer.binIndex p) * sampleRate)
              / Fin 2048)%num)
  /\ StronglySorted
       (fun p q =>
          (RealtimeAudioAnalyzer.peakMagnitude p
           >=? RealtimeAudioAnalyzer.peakMagnitude q)%num = true)
       peaks.
Proof.
  intros a m peaks bins.
  destruct (updates_invariant sampleRate spectra) as (Hlen & Hall & Hfft & Hsr).
  fold a in Hlen, Hall, Hfft, Hsr. fold m in Hlen, Hall.
  set (found := strictPeakBins m threshold).
  set (record := fun i =>
         RealtimeAudioAnalyzer.mkPeak i (getNum m i)
           (RealtimeAudioAnalyzer.getFrequencyForBin a i)).
  assert (Hperm : Permutation peaks (map record found)) by apply sortBy_perm.
  assert (Hbins : Permutation bins found).
  { assert (E : map RealtimeAudioAnalyzer.binIndex (map record found) = found)
      by (rewrite map_map; cbn; apply map_id).
    unfold bins. rewrite <- E. now apply Permutation_map. }
  assert (Hfin : allFinite m).
  { apply Forall_forall. intros v Hv.
    destruct (proj1 (Forall_forall _ _) Hall v Hv) as (q & -> & _).
    reflexivity. }
  split; [exact Hlen|]. split; [exact Hall|].
  split; [|split; [|split]].
  - intro i.
    replace 1023%nat with (List.length m - 1)%nat by (rewrite Hlen; reflexivity).
    rewrite <- strictPeakBins_iff. fold found. split; intro H.
    + now apply (Permutation_in _ Hbins).
    + now apply (Permutation_in _ (Permutation_sym Hbins)).
  - intros i Hi Hs.
    apply (Permutation_in _ Hbins) in Hi, Hs.
    exact (strictPeakBins_apart _ _ _ Hi Hs).
  - intros p Hp. apply (Permutation_in _ Hperm) in Hp.
    apply in_map_iff in Hp. destruct Hp as (i & <- & _).
    split; [reflexivity|].
    cbn [RealtimeAudioAnalyzer.frequency RealtimeAudioAnalyzer.binIndex record].
    unfold RealtimeAudioAnalyzer.getFrequencyForBin. rewrite Hfft, Hsr.
    reflexivity.
  - unfold peaks, RealtimeAudioAnalyzer.findPeaks.
    apply (@sortBy_descending _ _ RealtimeAudioAnalyzer.peakMagnitude).
    + reflexivity.
    + apply Forall_forall. intros p Hp. apply in_map_iff in Hp.
      destruct Hp as (i & <- & Hi).
      apply (strictPeakBins_iff (RealtimeAudioAnalyzer.magnitude a)) in Hi.
      destruct Hi as (Hr & _).
      cbn. destruct (@allFinite_nth m i Hfin) as [q Hq]; [unfold m; lia|].
      unfold m in Hq. rewrite Hq. reflexivity.
Qed.

(* ===================================================================== *)
(** ** Bins and frequencies *)
(* ===================================================================== *)

Lemma round_integer (x : Q) (z : Z) :
  x == inject_Z z -> Qfloor (x + (1 # 2)) = z.
Proof.
  intro E. apply Qfloor_unique.
  - rewrite E. lra.
  - rewrite E, inject_Z_plus. change (inject_Z 1) with 1. lra.
Qed.

Lemma nearest_integer (x : Q) :
  let k := Qfloor (x + (1 # 2)) in
  - (1 # 2) < inject_Z k - x /\ inject_Z k - x <= 1 # 2.
Proof.
  intro k. pose proof (Qfloor_le (x + (1 # 2))) as L.
  pose proof (Qlt_floor (x + (1 # 2))) as U. fold k in L, U.
  rewrite inject_Z_plus in U. change (inject_Z 1) with 1 in U.
  split; lra.
Qed.

(** X12.  Bins and frequencies convert into each other.  For a buffer of
    1 to 2^20 samples and a sample rate between 1 and 2^20 (the rates of
    audio hardware lie well inside), [getBinForFrequency] gives back every
    bin up to 2^20 whose frequency [getFrequencyForBin] computed; and the
    bin it gives to a frequency between 0 and 2^20 is the nearest one, up
    to rounding: the frequency of that bin is off by half a bin width,
    [sampleRate / (2 * bufferSize)], at most, and so by less than three
    quarters of one, which no rounding of the products and quotients
    reaches. *)
Theorem bin_frequency_round_trip (a : FFTAnalyzer.FFTAnalyzer)
  (sampleRate : Q) :
  (1 <= FFTAnalyzer.bufferSize a)%nat ->
  (Z.of_nat (FFTAnalyzer.bufferSize a) <= 2 ^ 20)%Z ->
  1 <= sampleRate -> sampleRate <= inject_Z (2 ^ 20) ->
  (forall i : nat,
      (Z.of_nat i <= 2 ^ 20)%Z ->
      FFTAnalyzer.getBinForFrequency a
        (FFTAnalyzer.getFrequencyForBinAt a (ofNat i) (Fin sampleRate))
        (Fin sampleRate)
      = ofNat i)
  /\ (forall f : Q,
      0 <= f -> f <= inject_Z (2 ^ 20) ->
      exists (k : Z) (c : Q),
        FFTAnalyzer.getBinForFrequency a (Fin f) (Fin sampleRate) = ofZ k
        /\ FFTAnalyzer.getFrequencyForBinAt a (ofZ k) (Fin sampleRate) = Fin c
        /\ Qabs (c - f)
           <= (3 # 4)
              * (sampleRate / inject_Z (Z.of_nat (FFTAnalyzer.bufferSize a)))).
Proof.
  intros Hn _ Pr1 _.
  assert (Pr : 0 < sampleRate) by lra.
  assert (Hr : ~ sampleRate == 0) by lra.
  set (N := inject_Z (Z.of_nat (FFTAnalyzer.bufferSize a))).
  assert (PN : 0 < N) by (apply ofNat_positive; exact Hn).
  assert (NN : ~ N == 0) by lra.
  unfold FFTAnalyzer.getBinForFrequency, FFTAnalyzer.getFrequencyForBinAt.
  split.
  - intros i _. unfold ofNat, ofZ. fold N. cbn [nmul]. unfold fin.
    rewrite ndiv_Fin by exact NN. unfold fin. cbn [nmul]. unfold fin.
    rewrite ndiv_Fin by exact Hr. unfold fin. cbn [nround]. unfold ofZ.
    f_equal. f_equal. apply round_integer.
    rewrite !Qred_correct. field. split; assumption.
  - intros f _ _. unfold ofNat, ofZ. fold N. cbn [nmul]. unfold fin.
    rewrite ndiv_Fin by exact Hr. unfold fin. cbn [nround]. unfold ofZ.
    set (x := Qred (Qred (f * N) / sampleRate)).
    set (k := Qfloor (x + (1 # 2))).
    exists k. cbn [nmul]. unfold fin. rewrite ndiv_Fin by exact NN.
    unfold fin.
    eexists. split; [reflexivity|]. split; [reflexivity|].
    rewrite !Qred_correct.
    destruct (nearest_integer x) as [Lo Hi]. fold k in Lo, Hi.
    assert (Ex : x == f * N / sampleRate)
      by (unfold x; rewrite !Qred_correct; reflexivity).
    set (s := sampleRate / N).
    assert (Ps : 0 < s) by (unfold s; apply Qlt_shift_div_l; lra).
    assert (E1 : inject_Z k * sampleRate / N - f == (inject_Z k - x) * s).
    { rewrite Ex. unfold s. field. split; assumption. }
    rewrite E1.
    assert (A : 0 <= ((1 # 2) - (inject_Z k - x)) * s)
      by (apply Qmult_le_0_compat; lra).
    assert (B : 0 <= ((inject_Z k - x) + (1 # 2)) * s)
      by (apply Qmult_le_0_compat; lra).
    apply Qabs_Qle_condition. lra.
Qed.

Lemma bin_frequency_round_trip_witness :
  (1 <= FFTAnalyzer.bufferSize Examples.lineSpectrum)%nat
  /\ 1 <= 44100 /\ 44100 <= inject_Z (2 ^ 20)
  /\ FFTAnalyzer.getBinForFrequency Examples.lineSpectrum
       (FFTAnalyzer.getFrequencyForBinAt Examples.lineSpectrum (ofNat 3)
          (Fin 44100))
       (Fin 44100)
     = ofNat 3.
Proof.
  assert (H1 : (1 <= FFTAnalyzer.bufferSize Examples.lineSpectrum)%nat)
    by (apply Nat.leb_le; reflexivity).
  assert (H2 : (Z.of_nat (FFTAnalyzer.bufferSize Examples.lineSpectrum)
                <= 2 ^ 20)%Z) by (vm_compute; discriminate).
  assert (H3 : 1 <= 44100) by discriminate.
  assert (H4 : 44100 <= inject_Z (2 ^ 20)) by (vm_compute; discriminate).
  split; [exact H1|]. split; [exact H3|]. split; [exact H4|].
  apply (proj1 (@bin_frequency_round_trip Examples.lineSpectrum 44100
                  H1 H2 H3 H4) 3%nat).
  vm_compute. discriminate.
Defined.

(* ===================================================================== *)
(** ** Frame measures: zero crossings and the quality verdict *)
(* ===================================================================== *)

Lemma count_bound (test : nat -> bool) (idx : list nat) :
  forall c,
    (c <= fold_left (fun c i => if test i then S c else c) idx c
     <= c + List.length idx)%nat.
Proof.
  induction idx as [|i idx IH]; intro c; cbn [fold_left List.length]; [lia|].
  destruct (test i); [specialize (IH (S c))|specialize (IH c)]; lia.
Qed.

Lemma count_none (test : nat -> bool) (idx : list nat) :
  (forall i, In i idx -> test i = false) ->
  forall c, fold_left (fun c i => if test i then S c else c) idx c = c.
Proof.
  induction idx as [|i idx IH]; intros H c; [reflexivity|].
  cbn [fold_left]. rewrite (H i (or_introl eq_refl)).
  apply IH. intros j Hj. apply H. now right.
Qed.

(** X13.  The zero-crossing rate is a proportion.  For a frame of at least
    one sample, whatever its values, [calculateZeroCrossingRate] returns a
    finite number that is at least 0 and less than 1; it is 0 when no sample
    is negative; and for the empty frame it is [NaN] (0 / 0). *)
Theorem zero_crossing_rate_is_a_proportion :
  AcousticAnalyzer.calculateZeroCrossingRate [] = NaN
  /\ (forall (x : num) (frame : list num),
        exists q,
          AcousticAnalyzer.calculateZeroCrossingRate (x :: frame) = Fin q
          /\ 0 <= q /\ q < 1)
  /\ (forall (x : num) (frame : list num),
        (forall v, In v (x :: frame) -> (v <? Fin 0)%num = false) ->
        AcousticAnalyzer.calculateZeroCrossingRate (x :: frame) = Fin 0).
Proof.
  split; [reflexivity|]. split.
  - intros x frame. unfold AcousticAnalyzer.calculateZeroCrossingRate.
    cbv zeta.
    match goal with
    | |- context [fold_left ?f ?l 0%nat] =>
        pose proof (count_bound
                      (fun i =>
                         let a := getNum (x :: frame) i in
                         let b := getNum (x :: frame) (i - 1) in
                         ((a >=? Fin 0)%num && (b <? Fin 0)%num)
                         || ((a <? Fin 0)%num && (b >=? Fin 0)%num))
                      l 0%nat) as B;
          set (c := fold_left f l 0%nat) in *
    end.
    cbv zeta in B. fold c in B. rewrite length_seq in B.
    cbn [List.length] in *.
    replace (S (List.length frame) - 1)%nat with (List.length frame) in B
      by lia.
    set (n := List.length frame) in *.
    unfold ofNat, ofZ.
    rewrite ndiv_Fin by (apply ofNat_nonzero; lia).
    eexists. split; [reflexivity|]. rewrite Qred_correct.
    assert (Pn : 0 < inject_Z (Z.of_nat (S n))) by (apply ofNat_positive; lia).
    assert (Cc : 0 <= inject_Z (Z.of_nat c))
      by (change (inject_Z 0 <= inject_Z (Z.of_nat c));
          rewrite <- Zle_Qle; lia).
    assert (Lt : inject_Z (Z.of_nat c) < inject_Z (Z.of_nat (S n)))
      by (rewrite <- Zlt_Qlt; lia).
    split.
    + apply Qle_shift_div_l; [exact Pn|]. rewrite Qmult_0_l. exact Cc.
    + apply Qlt_shift_div_r; [exact Pn|]. rewrite Qmult_1_l. exact Lt.
  - intros x frame Hpos. unfold AcousticAnalyzer.calculateZeroCrossingRate.
    cbv zeta.
    rewrite (count_none
               (fun i =>
                  let a := getNum (x :: frame) i in
                  let b := getNum (x :: frame) (i - 1) in
                  ((a >=? Fin 0)%num && (b <? Fin 0)%num)
                  || ((a <? Fin 0)%num && (b >=? Fin 0)%num))).
    + apply zero_over. cbn [List.length]. lia.
    + intros i Hi. apply in_seq in Hi. cbv zeta.
      assert (A : (getNum (x :: frame) i <? Fin 0)%num = false).
      { apply Hpos. unfold getNum. apply nth_In. lia. }
      assert (B : (getNum (x :: frame) (i - 1) <? Fin 0)%num = false).
      { apply Hpos. unfold getNum. apply nth_In. lia. }
      rewrite A, B. rewrite andb_false_r. reflexivity.
Qed.

Lemma maxOf_poisoned (xs : list num) :
  forall m, m = NaN \/ In NaN xs -> fold_left nmax xs m = NaN.
Proof.
  induction xs as [|x xs IH]; intros m [Hm|Hin].
  - exact Hm.
  - destruct Hin.
  - cbn [fold_left]. apply IH. left. rewrite Hm. reflexivity.
  - cbn [fold_left]. apply IH. destruct Hin as [->|Hin]; [left|now right].
    destruct m; reflexivity.
Qed.

(** X14.  The quality verdict has two outcomes.  For a finite-valued clip
    longer than one frame, [energy.max] is exactly 1 or [NaN] (when every
    analysed frame is silent), so [assessQuality] either reports
    "clipping/distortion" with a score of 80, or nothing with a score of
    100: the issue "too quiet" is never raised, and no recording scores
    60. *)
Theorem quality_is_never_too_quiet (M : MathLib) (sampleRate : Q)
  (audioData : list num) :
  allFinite audioData ->
  100 <= sampleRate ->
  (AcousticAnalyzer.frameSizeOf sampleRate < List.length audioData)%nat ->
  exists e,
    AcousticAnalyzer.analyzeEnergy M sampleRate audioData = Ok e
    /\ ((Energy.max e = Fin 1
         /\ AcousticAnalyzer.assessQuality (Energy.max e)
            = Quality.mk 80 ["clipping/distortion"%string] false)
        \/ (Energy.max e = NaN
            /\ AcousticAnalyzer.assessQuality (Energy.max e)
               = Quality.mk 100 [] true)).
Proof.
  intros Hfin Hrate Hlen.
  pose proof (hopSize_positive Hrate) as Hhop.
  set (fs := AcousticAnalyzer.frameSizeOf sampleRate) in *.
  set (hop := AcousticAnalyzer.hopSizeOf sampleRate) in *.
  assert (Hfs : (1 <= fs)%nat).
  { unfold fs, AcousticAnalyzer.frameSizeOf.
    assert (L : (2 <= Qfloor (sampleRate * (25 # 1000)))%Z).
    { rewrite <- (Qfloor_Z 2). apply Qfloor_resp_le.
      change (inject_Z 2) with 2. lra. }
    lia. }
  destruct (@frameStarts_spec sampleRate audioData Hhop)
    as (starts & Hstarts & Hin).
  fold fs hop in Hin.
  set (energy := map (AcousticAnalyzer.frameEnergy audioData fs) starts).
  assert (Hen : forall x, In x energy -> exists e, x = Fin e /\ 0 <= e).
  { intros x Hx. apply in_map_iff in Hx. destruct Hx as (s & <- & Hs).
    apply Hin in Hs. destruct Hs as [Hs _].
    destruct (@frameEnergy_finite audioData fs s Hfin) as (e & He & Hpos & _);
      [lia|lia|].
    exists e. split; assumption. }
  assert (Hfe : allFinite energy).
  { apply Forall_forall. intros x Hx.
    destruct (Hen x Hx) as (e & -> & _). reflexivity. }
  assert (Hne : energy <> []).
  { intro E. apply map_eq_nil in E.
    assert (H0 : In 0%nat starts).
    { apply Hin. split; [lia|]. exists 0%nat. reflexivity. }
    rewrite E in H0. exact H0. }
  destruct (@maxOf_finite energy Hfe Hne) as (mx & Hmx & Hmxin & Hmxall).
  destruct (Hen _ Hmxin) as (mx' & Emx & Pmx). injection Emx as <-.
  set (normalized := map (fun e => (e / Fin mx)%num) energy).
  assert (Hnorm : AcousticAnalyzer.normalizedEnergy sampleRate audioData
                  = Ok normalized).
  { unfold AcousticAnalyzer.normalizedEnergy. rewrite Hstarts.
    cbn [bind]. fold fs. fold energy. rewrite Hmx. reflexivity. }
  assert (Hnn : normalized <> []).
  { intro E. apply map_eq_nil in E. contradiction. }
  assert (Hret : exists total,
             AcousticAnalyzer.analyzeEnergy M sampleRate audioData
             = Ok (Energy.mk normalized
                     (total / ofNat (List.length normalized))%num
                     (maxOf normalized) (minOf normalized)
                     (Fin 20
                      * Math_log10 M
                          (maxOf normalized + AcousticAnalyzer.epsilon))%num)).
  { unfold AcousticAnalyzer.analyzeEnergy. rewrite Hnorm. cbn [bind].
    destruct (@reduceSum_returns normalized Hnn) as [total Ht].
    rewrite Ht. cbn [bind]. eauto. }
  destruct Hret as [total Hret]. eexists. split; [exact Hret|].
  cbn [Energy.max].
  destruct (Qlt_le_dec 0 mx) as [Pos|Zero].
  - (* some analysed frame has energy: the largest ratio is 1 *)
    left.
    assert (Nmx : ~ mx == 0) by lra.
    assert (Hn : forall x, In x normalized ->
                           exists y, x = fin y /\ y <= 1).
    { intros x Hx. apply in_map_iff in Hx. destruct Hx as (e0 & <- & He0).
      destruct (Hen e0 He0) as (e & -> & _).
      rewrite ndiv_Fin by assumption. exists (e / mx). split; [reflexivity|].
      apply Qle_shift_div_r; [assumption|]. rewrite Qmult_1_l.
      now apply Hmxall. }
    assert (Hone : In (Fin 1) normalized).
    { unfold normalized. apply in_map_iff. exists (Fin mx).
      split; [|assumption]. rewrite ndiv_Fin by assumption.
      change (Fin 1) with (fin 1). apply fin_eq. now field. }
    assert (Hfn : allFinite normalized).
    { apply Forall_forall. intros x Hx.
      destruct (Hn x Hx) as (y & -> & _). reflexivity. }
    destruct (@maxOf_finite normalized Hfn Hnn) as (m & Hm & Hmin & Hmall).
    assert (Hm1 : m = 1).
    { destruct (Hn _ Hmin) as (y & Hy & Hle).
      unfold fin in Hy. injection Hy as ->.
      assert (G : 1 <= Qred y) by now apply Hmall.
      rewrite Qred_correct in G.
      change 1 with (Qred 1). apply Qred_complete.
      apply Qle_antisym; assumption. }
    subst m. rewrite Hm. split; reflexivity.
  - (* every analysed frame is silent: 0 / 0 *)
    right.
    assert (Zmx : mx == 0) by lra.
    assert (Hnan : forall x, In x normalized -> x = NaN).
    { intros x Hx. apply in_map_iff in Hx. destruct Hx as (e0 & <- & He0).
      destruct (Hen e0 He0) as (e & -> & Pe).
      assert (Ze : e == 0).
      { apply Qle_antisym; [|exact Pe]. rewrite <- Zmx. now apply Hmxall. }
      cbn [ndiv]. apply Qeq_bool_iff in Zmx. rewrite Zmx.
      unfold infBySign. apply Qeq_bool_iff in Ze. rewrite Ze. reflexivity. }
    assert (Hmax : maxOf normalized = NaN).
    { unfold maxOf. apply maxOf_poisoned. right.
      destruct normalized as [|n0 rest]; [now elim Hnn|].
      left. apply Hnan. now left. }
    rewrite Hmax. split; reflexivity.
Qed.

Lemma quality_is_never_too_quiet_witness :
  allFinite Examples.faintClip
  /\ 100 <= 8000
  /\ (AcousticAnalyzer.frameSizeOf 8000
      < List.length Examples.faintClip)%nat
  /\ forall M : MathLib,
     exists e,
       AcousticAnalyzer.analyzeEnergy M 8000 Examples.faintClip = Ok e
       /\ (AcousticAnalyzer.assessQuality (Energy.max e)
           = Quality.mk 80 ["clipping/distortion"%string] false
           \/ AcousticAnalyzer.assessQuality (Energy.max e)
              = Quality.mk 100 [] true).
Proof.
  assert (H1 : allFinite Examples.faintClip) by apply repeat_allFinite.
  assert (H2 : 100 <= 8000) by discriminate.
  assert (H3 : (AcousticAnalyzer.frameSizeOf 8000
                < List.length Examples.faintClip)%nat)
    by (apply Nat.ltb_lt; vm_compute; reflexivity).
  split; [exact H1|]. split; [exact H2|]. split; [exact H3|]. intro M.
  destruct (@quality_is_never_too_quiet M 8000 Examples.faintClip H1 H2 H3)
    as (e & He & [[_ Hq]|[_ Hq]]);
    exists e; (split; [exact He|]); [left|right]; exact Hq.
Defined.

(* ===================================================================== *)
(** ** PhoneticsStudio: the guess shown for a recording *)
(* ===================================================================== *)

Lemma analyzeAudio_voicing (M : MathLib) (sampleRate : Q)
  (input : AcousticAnalyzer.audioInput) (f : Features.t) :
  AcousticAnalyzer.analyzeAudio M sampleRate input = Ok f ->
  Voicing.isVoiced (Features.voicing f) = false
  /\ exists s, Features.summary f = Some s.
Proof.
  intro Hf. unfold AcousticAnalyzer.analyzeAudio in Hf. cbv zeta in Hf.
  apply bind_Ok in Hf. destruct Hf as (e & _ & Hf).
  apply bind_Ok in Hf. destruct Hf as (v & Hv & Hf).
  apply bind_Ok in Hf. destruct Hf as (p & _ & Hf).
  apply bind_Ok in Hf. destruct Hf as (z & _ & Hf).
  apply bind_Ok in Hf. destruct Hf as (series & _ & Hf).
  destruct (analyzeVoicing_result _ _ Hv) as (_ & _ & Hb & _).
  injection Hf as <-. cbn [Features.voicing Features.summary].
  split; [exact Hb|eauto].
Qed.

(** X15.  The guess shown after a recording of at most 65536 samples is
    never a voiced phoneme of the analysis's own.  With an analyzer at a
    sample rate of at least 100 Hz and a recording of binary32 samples (a
    decoded [AudioBuffer]) short enough for its spectrum to be spread into
    [Math.max], [generateSystemGuess] is always reached.  For a clip of at
    most one frame the [TypeError] of [analyzeAudio] is caught and the guess
    echoes the phoneme that was prompted, without acoustic hints; for a
    longer clip the guess is 'f' or 'p' (the first when the features say
    [isFricative]), whatever was recorded and whatever was prompted. *)
Theorem system_guess_is_never_voiced (M : MathLib) (sampleRate : Q)
  (random : nat -> num) (currentSymbol : string)
  (audioData : AcousticAnalyzer.audioInput) :
  float32Array (AcousticAnalyzer.channelData audioData) ->
  spreadable (AcousticAnalyzer.channelData audioData) = true ->
  100 <= sampleRate ->
  exists g,
    PhoneticsStudio.guessForRecording M sampleRate true random
      currentSymbol audioData = Ok g
    /\ (((List.length (AcousticAnalyzer.channelData audioData)
          <= AcousticAnalyzer.frameSizeOf sampleRate)%nat
         /\ PhoneticsStudio.guessedPhoneme g = currentSymbol
         /\ PhoneticsStudio.acousticHints g = None)
        \/ ((AcousticAnalyzer.frameSizeOf sampleRate
             < List.length (AcousticAnalyzer.channelData audioData))%nat
            /\ (PhoneticsStudio.guessedPhoneme g = "f"%string
                \/ PhoneticsStudio.guessedPhoneme g = "p"%string)
            /\ PhoneticsStudio.acousticHints g <> None)).
Proof.
  intros _ _ Hrate. unfold PhoneticsStudio.guessForRecording.
  destruct (Nat.le_gt_cases
              (List.length (AcousticAnalyzer.channelData audioData))
              (AcousticAnalyzer.frameSizeOf sampleRate)) as [Short|Long].
  - rewrite (analyzeAudio_short M sampleRate audioData Short).
    eexists. split; [reflexivity|]. left.
    split; [exact Short|]. split; reflexivity.
  - destruct (analyzeAudio_returns M audioData Hrate Long) as (f & Hf & _).
    destruct (analyzeAudio_voicing M sampleRate audioData Hf)
      as (Hv & s & Hs).
    rewrite Hf. cbn [PhoneticsStudio.generateSystemGuess]. rewrite Hs.
    eexists. split; [reflexivity|]. right. split; [exact Long|].
    cbn [PhoneticsStudio.guessedPhoneme PhoneticsStudio.acousticHints].
    split; [|discriminate].
    unfold PhoneticsStudio.getPhonemeGuessFromFeatures. rewrite Hv.
    cbn [negb andb].
    destruct (ZCR.isFricative (Features.zeroCrossingRate f));
      [left|right]; reflexivity.
Qed.

Lemma system_guess_is_never_voiced_witness :
  float32Array Clips.squareWave
  /\ spreadable Clips.squareWave = true
  /\ 100 <= 8000
  /\ forall M : MathLib,
     exists g,
       PhoneticsStudio.guessForRecording M 8000 true
         (fun _ => Fin (1 # 2)) "m"
         (AcousticAnalyzer.mkAudioInput Clips.squareWave (Fin (321 # 8000)))
       = Ok g
       /\ (PhoneticsStudio.guessedPhoneme g = "f"%string
           \/ PhoneticsStudio.guessedPhoneme g = "p"%string).
Proof.
  assert (F : float32Array Clips.squareWave) by (vm_compute; reflexivity).
  assert (S : spreadable Clips.squareWave = true) by reflexivity.
  assert (H : 100 <= 8000) by discriminate.
  split; [exact F|]. split; [exact S|]. split; [exact H|]. intro M.
  destruct (@system_guess_is_never_voiced M 8000 (fun _ => Fin (1 # 2)) "m"
              (AcousticAnalyzer.mkAudioInput Clips.squareWave
                 (Fin (321 # 8000))) F S H)
    as (g & Hg & [(Short & _)|(_ & Hp & _)]).
  - exfalso. apply Nat.leb_le in Short. vm_compute in Short.
    discriminate Short.
  - exists g. split; assumption.
Defined.

(** *** The waveform thumbnails *)

Lemma sum_of_magnitudes (g : nat -> num) (B : Q) (js : list nat) :
  (forall j, In j js -> exists q, g j = Fin q /\ Qabs q <= B) ->
  forall acc, exists total,
    fold_left (fun sum j => (sum + nabs (g j))%num) js (Fin acc) = Fin total
    /\ acc <= total
    /\ total <= acc + inject_Z (Z.of_nat (List.length js)) * B.
Proof.
  induction js as [|j js IH]; intros H acc.
  - exists acc. cbn [fold_left List.length].
    split; [reflexivity|]. split; [lra|].
    change (inject_Z (Z.of_nat 0)) with 0. lra.
  - destruct (H j (or_introl eq_refl)) as (q & Hq & Bq).
    cbn [fold_left]. rewrite Hq. cbn [nabs nadd]. unfold fin.
    destruct (IH (fun j' Hj' => H j' (or_intror Hj'))
                (Qred (acc + Qred (Qabs q)))) as (total & Ht & Lo & Hi).
    exists total. split; [exact Ht|].
    rewrite !Qred_correct in Lo, Hi.
    pose proof (Qabs_nonneg q) as Pq.
    split; [lra|].
    cbn [List.length]. rewrite Nat2Z.inj_succ. unfold Z.succ.
    rewrite inject_Z_plus. change (inject_Z 1) with 1. lra.
Qed.

(** X16.  The waveform thumbnail.  [extractWaveformData] yields one value
    per full block of 512 samples, [floor(length / 512)] in all, and drops
    the rest of the clip; it reads no sample beyond the clip, and for
    finite samples of magnitude at most [B] every value is a finite number
    between 0 and [B]. *)
Theorem waveform_thumbnail_is_bounded (rawData : list num) (B : Q) :
  allFinite rawData ->
  (forall q, In (Fin q) rawData -> Qabs q <= B) ->
  let waveform := PhoneticsStudio.extractWaveformData rawData in
  List.length waveform = Nat.div (List.length rawData) 512
  /\ forall v, In v waveform -> exists q, v = Fin q /\ 0 <= q <= B.
Proof.
  intros Hfin HB waveform. unfold waveform, PhoneticsStudio.extractWaveformData.
  cbv zeta. split; [rewrite length_map, length_seq; reflexivity|].
  intros v Hv. apply in_map_iff in Hv. destruct Hv as (i & <- & Hi).
  apply in_seq in Hi.
  pose proof (Nat.Div0.mul_div_le (List.length rawData) 512) as Hle.
  destruct (@sum_of_magnitudes (fun j => getNum rawData (i * 512 + j)) B
              (seq 0 512)) with (acc := 0) as (total & Ht & Lo & Hi').
  { intros j Hj. apply in_seq in Hj.
    destruct (@allFinite_nth rawData (i * 512 + j) Hfin) as [q Hq]; [nia|].
    exists q. split; [exact Hq|]. apply HB. rewrite <- Hq.
    unfold getNum. apply nth_In. nia. }
  change (Fin 0) with (Fin 0%Q). rewrite Ht.
  rewrite ndiv_Fin by discriminate. eexists. split; [reflexivity|].
  rewrite Qred_correct. rewrite length_seq in Hi'.
  change (inject_Z (Z.of_nat 512)) with 512 in Hi'.
  split.
  - apply Qle_shift_div_l; [reflexivity|]. lra.
  - apply Qle_shift_div_r; [reflexivity|]. lra.
Qed.

Lemma waveform_thumbnail_is_bounded_witness :
  allFinite (repeat (Fin (1 # 2)) 1100)
  /\ (forall q, In (Fin q) (repeat (Fin (1 # 2)) 1100) -> Qabs q <= 1 # 2)
  /\ List.length
       (PhoneticsStudio.extractWaveformData (repeat (Fin (1 # 2)) 1100))
     = 2%nat.
Proof.
  assert (H1 : allFinite (repeat (Fin (1 # 2)) 1100))
    by apply repeat_allFinite.
  assert (H2 : forall q, In (Fin q) (repeat (Fin (1 # 2)) 1100) ->
                         Qabs q <= 1 # 2).
  { intros q Hq. apply repeat_spec in Hq. injection Hq as ->. discriminate. }
  split; [exact H1|]. split; [exact H2|].
  rewrite (proj1 (@waveform_thumbnail_is_bounded
                    (repeat (Fin (1 # 2)) 1100) (1 # 2) H1 H2)).
  rewrite repeat_length. reflexivity.
Defined.

(* ===================================================================== *)
(** ** The frame grid: how many frames, and where *)
(* ===================================================================== *)

Lemma ceil_step (d hop : nat) :
  (1 <= hop)%nat -> (1 <= d)%nat ->
  Nat.div (d + hop - 1) hop = S (Nat.div (d - hop + hop - 1) hop).
Proof.
  intros Hhop Hd. destruct (Nat.le_gt_cases hop d) as [Ge|Lt].
  - replace (d + hop - 1)%nat with ((d - hop + hop - 1) + 1 * hop)%nat by lia.
    rewrite Nat.div_add by lia. lia.
  - replace (d - hop + hop - 1)%nat with (hop - 1)%nat by lia.
    rewrite (Nat.div_small (hop - 1) hop) by lia.
    symmetry. apply (Nat.div_unique _ _ 1%nat (d - 1)%nat); lia.
Qed.

(** The loop [for (i = start; i < limit; i += hop)] visits
    [start, start + hop, ...]: [ceil((limit - start) / hop)] values. *)
Lemma frameLoop_exact (hop limit : nat) :
  (1 <= hop)%nat ->
  forall fuel i,
    (limit - i <= fuel)%nat ->
    AcousticAnalyzer.frameLoop fuel i limit hop
    = Ok (map (fun k => (i + k * hop)%nat)
            (seq 0 (Nat.div (limit - i + hop - 1) hop))).
Proof.
  intro Hhop. induction fuel as [|fuel IH]; intros i Hfuel.
  - cbn [AcousticAnalyzer.frameLoop].
    assert (E : (i <? limit)%nat = false) by (apply Nat.ltb_ge; lia).
    rewrite E. replace (limit - i)%nat with 0%nat by lia.
    rewrite (Nat.div_small (0 + hop - 1) hop) by lia. reflexivity.
  - cbn [AcousticAnalyzer.frameLoop].
    destruct (i <? limit)%nat eqn:E.
    + apply Nat.ltb_lt in E. rewrite IH by lia. cbn [bind].
      rewrite (@ceil_step (limit - i) hop) by lia.
      replace (limit - i - hop)%nat with (limit - (i + hop))%nat by lia.
      cbn [seq map]. f_equal. f_equal; [lia|].
      rewrite <- seq_shift, map_map. apply map_ext. intro k. lia.
    + apply Nat.ltb_ge in E. replace (limit - i)%nat with 0%nat by lia.
      rewrite (Nat.div_small (0 + hop - 1) hop) by lia. reflexivity.
Qed.

(** X17.  The per-frame series line up.  For a clip longer than one frame
    and of at most 65536 samples (its spectrum can then be spread into
    [Math.max]; sample rate at least 100 Hz) [analyzeAudio] returns, and
    the energy
    values, the voicing frames and the zero-crossing values all have the
    same length, [ceil((length - frameSize) / hopSize)], at least 1; the raw
    pitch series, which is filtered, is not longer; and the time series has
    one point per started block of 512 samples, [ceil(length / 512)]. *)
Theorem frame_series_line_up (M : MathLib) (sampleRate : Q)
  (input : AcousticAnalyzer.audioInput) :
  spreadable (AcousticAnalyzer.channelData input) = true ->
  100 <= sampleRate ->
  (AcousticAnalyzer.frameSizeOf sampleRate
   < List.length (AcousticAnalyzer.channelData input))%nat ->
  let len := List.length (AcousticAnalyzer.channelData input) in
  let frames :=
    Nat.div (len - AcousticAnalyzer.frameSizeOf sampleRate
             + AcousticAnalyzer.hopSizeOf sampleRate - 1)
      (AcousticAnalyzer.hopSizeOf sampleRate) in
  exists f,
    AcousticAnalyzer.analyzeAudio M sampleRate input = Ok f
    /\ (1 <= frames)%nat
    /\ List.length (Energy.values (Features.energy f)) = frames
    /\ List.length (Voicing.frames (Features.voicing f)) = frames
    /\ List.length (ZCR.values (Features.zeroCrossingRate f)) = frames
    /\ (List.length (Pitch.values (Features.pitch f)) <= frames)%nat
    /\ List.length (Features.timeSeriesData f) = Nat.div (len + 511) 512.
Proof.
  intros _ Hrate Hlen len frames.
  pose proof (hopSize_positive Hrate) as Hhop.
  set (fs := AcousticAnalyzer.frameSizeOf sampleRate) in *.
  set (hop := AcousticAnalyzer.hopSizeOf sampleRate) in *.
  set (audioData := AcousticAnalyzer.channelData input) in *.
  assert (Hstarts : AcousticAnalyzer.frameStarts sampleRate audioData
                    = Ok (map (fun k => (0 + k * hop)%nat) (seq 0 frames))).
  { unfold AcousticAnalyzer.frameStarts. fold fs hop.
    rewrite (@frameLoop_exact hop (List.length audioData - fs) Hhop) by lia.
    unfold frames, len. rewrite Nat.sub_0_r. reflexivity. }
  assert (Hframes : (1 <= frames)%nat).
  { unfold frames. rewrite (@ceil_step (len - fs) hop) by (unfold len; lia).
    lia. }
  destruct (analyzeAudio_returns M input Hrate Hlen) as (f & Hf & _).
  exists f. split; [exact Hf|]. split; [exact Hframes|].
  unfold AcousticAnalyzer.analyzeAudio in Hf. cbv zeta in Hf.
  fold audioData in Hf.
  apply bind_Ok in Hf. destruct Hf as (e & He & Hf).
  apply bind_Ok in Hf. destruct Hf as (v & Hv & Hf).
  apply bind_Ok in Hf. destruct Hf as (p & Hp & Hf).
  apply bind_Ok in Hf. destruct Hf as (z & Hz & Hf).
  apply bind_Ok in Hf. destruct Hf as (series & Hs & Hf).
  injection Hf as <-.
  cbn [Features.energy Features.voicing Features.zeroCrossingRate
       Features.pitch Features.timeSeriesData].
  (* energy *)
  unfold AcousticAnalyzer.analyzeEnergy, AcousticAnalyzer.normalizedEnergy
    in He.
  rewrite Hstarts in He. cbn [bind] in He.
  apply bind_Ok in He. destruct He as (total & _ & He). injection He as <-.
  (* voicing *)
  unfold AcousticAnalyzer.analyzeVoicing, AcousticAnalyzer.framesOf in Hv.
  rewrite Hstarts in Hv. cbn [bind] in Hv.
  apply bind_Ok in Hv. destruct Hv as (tv & _ & Hv). injection Hv as <-.
  (* pitch *)
  unfold AcousticAnalyzer.analyzePitch, AcousticAnalyzer.framesOf in Hp.
  rewrite Hstarts in Hp. cbn [bind] in Hp. cbv zeta in Hp.
  apply bind_Ok in Hp. destruct Hp as (mean & _ & Hp).
  apply bind_Ok in Hp. destruct Hp as (mn & _ & Hp).
  apply bind_Ok in Hp. destruct Hp as (mxp & _ & Hp). injection Hp as <-.
  (* zero crossings *)
  unfold AcousticAnalyzer.analyzeZeroCrossingRate, AcousticAnalyzer.framesOf
    in Hz.
  rewrite Hstarts in Hz. cbn [bind] in Hz.
  apply bind_Ok in Hz. destruct Hz as (tz & _ & Hz).
  apply bind_Ok in Hz. destruct Hz as (fr & _ & Hz). injection Hz as <-.
  (* time series *)
  unfold AcousticAnalyzer.extractTimeSeriesData in Hs. cbv zeta in Hs.
  rewrite (@frameLoop_exact 512 (List.length audioData) ltac:(lia)) in Hs
    by lia.
  cbn [bind] in Hs. injection Hs as <-.
  cbn [Energy.values Voicing.frames ZCR.values Pitch.values].
  rewrite !length_map, !length_seq.
  split; [reflexivity|]. split; [reflexivity|]. split; [reflexivity|].
  split.
  - etransitivity; [apply filter_length_le|].
    rewrite !length_map, length_seq. lia.
  - unfold len. rewrite Nat.sub_0_r.
    replace (List.length audioData + 512 - 1)%nat
      with (List.length audioData + 511)%nat by lia.
    reflexivity.
Qed.

Lemma frame_series_line_up_witness :
  spreadable Clips.squareWave = true
  /\ 100 <= 8000
  /\ (AcousticAnalyzer.frameSizeOf 8000
      < List.length (AcousticAnalyzer.channelData
                       (AcousticAnalyzer.mkAudioInput Clips.squareWave
                          (Fin (321 # 8000)))))%nat
  /\ forall M : MathLib,
     exists f,
       AcousticAnalyzer.analyzeAudio M 8000
         (AcousticAnalyzer.mkAudioInput Clips.squareWave (Fin (321 # 8000)))
       = Ok f
       /\ List.length (Energy.values (Features.energy f)) = 2%nat
       /\ List.length (Voicing.frames (Features.voicing f)) = 2%nat
       /\ List.length (Features.timeSeriesData f) = 1%nat.
Proof.
  assert (H1 : 100 <= 8000) by discriminate.
  assert (H2 : (AcousticAnalyzer.frameSizeOf 8000
                < List.length (AcousticAnalyzer.channelData
                       (AcousticAnalyzer.mkAudioInput Clips.squareWave
                          (Fin (321 # 8000)))))%nat)
    by (apply Nat.ltb_lt; vm_compute; reflexivity).
  split; [reflexivity|]. split; [exact H1|]. split; [exact H2|]. intro M.
  destruct (@frame_series_line_up M 8000
              (AcousticAnalyzer.mkAudioInput Clips.squareWave
                 (Fin (321 # 8000))) eq_refl H1 H2)
    as (f & Hf & _ & He & Hv & _ & _ & Hs).
  exists f. split; [exact Hf|].
  split; [rewrite He; vm_compute; reflexivity|].
  split; [rewrite Hv; vm_compute; reflexivity|].
  rewrite Hs. vm_compute. reflexivity.
Defined.

(* ===================================================================== *)
(** ** The page: the colour of a cell *)
(* ===================================================================== *)

Lemma clamp_unit (y : Q) :
  exists z,
    nmax (- (Fin 1))%num (nmin (Fin 1) (Fin y)) = Fin z
    /\ - (1) <= z <= 1
    /\ (0 < z <-> 0 < y)
    /\ (1 <= y -> z == 1)
    /\ (y <= - (1) -> z == - (1))
    /\ (y == 0 -> z == 0).
Proof.
  change (- (Fin 1))%num with (Fin (- (1))).
  cbn [nmin nle]. destruct (Qle_bool 1 y) eqn:E1.
  - apply Qle_bool_iff in E1. exists 1. split; [reflexivity|].
    split; [split; discriminate|]. split; [split; intro; lra|].
    split; [intro; lra|]. split; intro; lra.
  - apply Qle_bool_false_iff in E1. cbn [nmax nle].
    destruct (Qle_bool (- (1)) y) eqn:E2.
    + apply Qle_bool_iff in E2. exists y. split; [reflexivity|].
      split; [lra|]. split; [reflexivity|]. split; [intro; lra|].
      split; intro; lra.
    + apply Qle_bool_false_iff in E2. exists (- (1)). split; [reflexivity|].
      split; [split; discriminate|]. split; [split; intro; lra|].
      split; [intro; lra|]. split; intro; lra.
Qed.

Lemma floor_of_channel (z : Q) :
  0 <= z <= 1 ->
  (0 <= Qfloor (Qred (255 * z)) <= 255)%Z
  /\ (z == 1 -> Qfloor (Qred (255 * z)) = 255%Z).
Proof.
  intros [Lo Hi]. split; [split|].
  - assert (H : (Qfloor (inject_Z 0) <= Qfloor (Qred (255 * z)))%Z).
    { apply Qfloor_resp_le. rewrite Qred_correct.
      change (inject_Z 0) with 0. lra. }
    rewrite Qfloor_Z in H. exact H.
  - assert (H : (Qfloor (Qred (255 * z)) <= Qfloor (inject_Z 255))%Z).
    { apply Qfloor_resp_le. rewrite Qred_correct.
      change (inject_Z 255) with 255. lra. }
    rewrite Qfloor_Z in H. exact H.
  - intro E. apply Qfloor_unique; rewrite Qred_correct, E.
    + discriminate.
    + reflexivity.
Qed.

(** X18.  The colour of a cell.  For a finite pressure and a finite
    [maxPressure], [drawPressure] stores whole numbers between 0 and 255 in
    the red and blue channels, 0 in green and 255 in alpha; red is used for
    positive pressure only and blue for negative pressure only, and a
    pressure of magnitude [max(1, maxPressure)] or more saturates its
    channel at 255. *)
Theorem pressure_pixel_is_a_colour (maxPressure pressure : Q) :
  exists red blue : Z,
    Page.pressurePixel (Fin maxPressure) (Fin pressure)
    = (ofZ red, Fin 0, ofZ blue, Fin 255)
    /\ (0 <= red <= 255)%Z /\ (0 <= blue <= 255)%Z
    /\ (pressure <= 0 -> red = 0%Z)
    /\ (0 <= pressure -> blue = 0%Z)
    /\ (1 <= pressure -> maxPressure <= pressure -> red = 255%Z)
    /\ (pressure <= - (1) -> pressure <= - maxPressure -> blue = 255%Z).
Proof.
  unfold Page.pressurePixel. cbv zeta.
  assert (Hmax : exists mx,
             nmax (Fin 1) (Fin maxPressure) = Fin mx
             /\ 1 <= mx /\ maxPressure <= mx
             /\ (mx == 1 \/ mx == maxPressure)).
  { rewrite nmax_Fin. destruct (Qle_bool 1 maxPressure) eqn:E.
    - apply Qle_bool_iff in E. exists maxPressure.
      split; [reflexivity|]. split; [exact E|]. split; [lra|].
      right. reflexivity.
    - apply Qle_bool_false_iff in E. exists 1.
      split; [reflexivity|]. split; [lra|]. split; [lra|]. left. reflexivity. }
  destruct Hmax as (mx & -> & Pmx & Gmx & Cmx).
  assert (Nmx : ~ mx == 0) by lra.
  rewrite ndiv_Fin by exact Nmx. unfold fin.
  set (y := Qred (pressure / mx)).
  assert (Ey : y == pressure / mx) by (unfold y; apply Qred_correct).
  assert (Sy : 0 < y <-> 0 < pressure).
  { assert (Ep : pressure == y * mx) by (rewrite Ey; field; exact Nmx).
    split; intro H.
    - rewrite Ep. apply Qmult_lt_0_compat; lra.
    - rewrite Ey. apply Qlt_shift_div_l; lra. }
  assert (Uy : 1 <= pressure -> maxPressure <= pressure -> 1 <= y).
  { intros H1 H2. rewrite Ey. apply Qle_shift_div_l; [lra|].
    destruct Cmx as [C|C]; rewrite C; lra. }
  assert (Dy : pressure <= - (1) -> pressure <= - maxPressure -> y <= - (1)).
  { intros H1 H2. rewrite Ey. apply Qle_shift_div_r; [lra|].
    destruct Cmx as [C|C]; rewrite C; lra. }
  destruct (clamp_unit y) as (z & -> & Bz & Sz & Uz & Dz & Zc).
  unfold ngt. cbn [nlt]. destruct (Qlt_bool 0 z) eqn:E.
  - apply Qlt_bool_iff in E.
    destruct (@floor_of_channel z) as [Bf Sf]; [lra|].
    exists (Qfloor (Qred (255 * z))), 0%Z.
    split; [reflexivity|]. split; [exact Bf|]. split; [lia|].
    split; [intro H; exfalso; apply Sz in E; apply Sy in E; lra|].
    split; [reflexivity|].
    split; [intros H1 H2; apply Sf; apply Uz; now apply Uy|].
    intros H1 H2. exfalso. apply Sz in E. apply Sy in E. lra.
  - apply Qlt_bool_false_iff in E.
    assert (Ez : Qred (- z) == - z) by apply Qred_correct.
    destruct (@floor_of_channel (Qred (- z))) as [Bf Sf]; [lra|].
    exists 0%Z, (Qfloor (Qred (255 * Qred (- z)))).
    split; [reflexivity|]. split; [lia|]. split; [exact Bf|].
    split; [reflexivity|].
    split.
    { intro H. destruct (Qlt_le_dec 0 pressure) as [P|Z].
      - exfalso. apply Sy in P. apply Sz in P. lra.
      - assert (Zp : pressure == 0) by lra.
        assert (Zy : y == 0) by (rewrite Ey, Zp; reflexivity).
        assert (Zz : z == 0).
        { apply Zc. exact Zy. }
        apply Qfloor_unique; rewrite Qred_correct, Ez, Zz;
          [discriminate|reflexivity]. }
    split.
    { intros H1 H2. exfalso.
      assert (P : 0 < y) by (apply Sy; lra). apply Sz in P. lra. }
    intros H1 H2. apply Sf. rewrite Ez, (Dz (Dy H1 H2)). reflexivity.
Qed.

(* ===================================================================== *)
(** ** The worker: what a run posts *)
(* ===================================================================== *)

Lemma div_succ (j r : nat) :
  (1 <= r)%nat ->
  (Nat.modulo (S j) r = 0%nat ->
   Nat.div (S j) r = S (Nat.div j r) /\ (S (Nat.div j r) * r = S j)%nat)
  /\ (Nat.modulo (S j) r <> 0%nat -> Nat.div (S j) r = Nat.div j r).
Proof.
  intro Hr.
  pose proof (Nat.div_mod_eq j r) as Ej.
  pose proof (Nat.mod_upper_bound j r ltac:(lia)) as Bj.
  pose proof (Nat.div_mod_eq (S j) r) as Es.
  pose proof (Nat.mod_upper_bound (S j) r ltac:(lia)) as Bs.
  set (q := Nat.div j r) in *. set (q' := Nat.div (S j) r) in *.
  set (m := Nat.modulo j r) in *. set (m' := Nat.modulo (S j) r) in *.
  split.
  - intro Z. rewrite Z in Es.
    assert (E : q' = S q) by nia. split; [exact E|]. nia.
  - intro N. nia.
Qed.

Lemma div_monotone (a b r : nat) : (a <= b)%nat -> (a / r <= b / r)%nat.
Proof.
  intro H. destruct r as [|r]; [reflexivity|].
  apply Nat.Div0.div_le_mono. exact H.
Qed.

Lemma runLoop_reports (M : MathLib) (sampleRate : num)
  (start n r : nat) :
  forall m j sim buffer st,
    ready sim ->
    (forall s, In s (Solver.sources sim) -> evaluable s = true) ->
    Worker.totalStepsRun st = (start + j)%nat ->
    exists st' sim' buffer' progress mp en dur,
      Worker.runLoop M sampleRate start n r (seq (start + j) m) sim buffer st
      = Ok st'
      /\ Worker.totalStepsRun st' = (start + j + m)%nat
      /\ Worker.simulator st' = Some sim' /\ ready sim'
      /\ Solver.sources sim' = Solver.sources sim
      /\ Worker.audioBuffer st' = Some buffer'
      /\ List.length (AudioBuffer.samples buffer')
         = (List.length (AudioBuffer.samples buffer) + m)%nat
      /\ Worker.outbox st'
         = Worker.outbox st ++ progress
           ++ [Worker.Complete (start + j + m) mp en dur]
      /\ map reported progress
         = map (fun q => Some ((start + q * r)%nat, (start + n)%nat))
             (seq (S (j / r)) ((j + m) / r - j / r)).
Proof.
  induction m as [|m IH]; intros j sim buffer st Hr He Ht.
  - cbn [seq Worker.runLoop]. rewrite Ht.
    eexists. exists sim, buffer, []. eexists. eexists. eexists.
    split; [reflexivity|].
    cbn [Worker.post Worker.totalStepsRun Worker.simulator
         Worker.audioBuffer Worker.outbox app].
    rewrite !Nat.add_0_r, Nat.sub_diag.
    split; [reflexivity|]. split; [reflexivity|]. split; [exact Hr|].
    split; [reflexivity|]. split; [reflexivity|]. split; [reflexivity|].
    split; reflexivity.
  - cbn [seq Worker.runLoop]. cbv zeta.
    destruct (@evaluable_step M sim (ofNat (start + j) / sampleRate)%num
                Hr He) as (sim1 & H1 & Hr1 & Hs1).
    rewrite H1. rewrite (@ready_microphone sim1 Hr1).
    set (buffer1 :=
           AudioBuffer.addSample buffer
             (cellOf (Solver.pressure sim1) (Solver.microphoneY sim1)
                (Solver.microphoneX sim1))).
    assert (Rp : Worker.reports (start + j) start r
                 = match r with
                   | O => false
                   | _ => Nat.eqb (Nat.modulo (S j) r) 0
                   end).
    { unfold Worker.reports.
      replace (start + j - start + 1)%nat with (S j) by lia. reflexivity. }
    assert (He1 : forall s, In s (Solver.sources sim1) -> evaluable s = true).
    { intros s Hin. apply He. rewrite <- Hs1. exact Hin. }
    replace (S (start + j)) with (start + S j)%nat by lia.
    match goal with
    | |- context [Worker.runLoop _ _ _ _ _ _ sim1 buffer1 ?st2] =>
        destruct (IH (S j) sim1 buffer1 st2 Hr1 He1)
          as (st' & sim' & buffer' & progress & mp & en & dur
              & H' & Ht' & Hsim & Hr' & Hs' & Hb' & Hlen & Hout & Hrep)
    end.
    { destruct (Worker.reports (start + j) start r); cbn; lia. }
    rewrite H'.
    pose proof (@div_monotone (S j) (S j + m) r ltac:(lia)) as Mono.
    destruct (Worker.reports (start + j) start r) eqn:Rep.
    + (* a report after this step *)
      destruct r as [|r0]; [discriminate Rp|].
      clear Rep. symmetry in Rp. apply Nat.eqb_eq in Rp. rename Rp into Rep.
      destruct (@div_succ j (S r0) ltac:(lia)) as [Dz _].
      destruct (Dz Rep) as [Ed Em].
      exists st', sim', buffer'.
      exists (Worker.Progress (start + j + 1) (start + n)
                (Solver.maxPressure sim1) (Solver.energyContent sim1)
              :: progress).
      exists mp, en, dur.
      split; [reflexivity|]. split; [rewrite Ht'; lia|].
      split; [exact Hsim|]. split; [exact Hr'|]. split; [congruence|].
      split; [exact Hb'|].
      split.
      { rewrite Hlen. unfold buffer1.
        cbn [AudioBuffer.addSample AudioBuffer.samples].
        rewrite length_app. cbn [List.length]. lia. }
      split.
      { rewrite Hout. cbn [Worker.post Worker.outbox].
        rewrite <- !app_assoc. cbn [app].
        replace (start + S j + m)%nat with (start + j + S m)%nat by lia.
        reflexivity. }
      cbn [map reported]. rewrite Hrep.
      replace (j + S m)%nat with (S j + m)%nat by lia.
      rewrite Ed in *.
      replace ((S j + m) / S r0 - j / S r0)%nat
        with (S ((S j + m) / S r0 - S (j / S r0)))%nat by lia.
      cbn [seq map]. f_equal. f_equal. f_equal. lia.
    + (* no report *)
      exists st', sim', buffer', progress, mp, en, dur.
      split; [reflexivity|]. split; [rewrite Ht'; lia|].
      split; [exact Hsim|]. split; [exact Hr'|]. split; [congruence|].
      split; [exact Hb'|].
      split.
      { rewrite Hlen. unfold buffer1.
        cbn [AudioBuffer.addSample AudioBuffer.samples].
        rewrite length_app. cbn [List.length]. lia. }
      split.
      { rewrite Hout. cbn [Worker.outbox].
        replace (start + S j + m)%nat with (start + j + S m)%nat by lia.
        reflexivity. }
      rewrite Hrep. replace (j + S m)%nat with (S j + m)%nat by lia.
      destruct r as [|r0]; [reflexivity|].
      clear Rep. symmetry in Rp. apply Nat.eqb_neq in Rp. rename Rp into Rep.
      destruct (@div_succ j (S r0) ltac:(lia)) as [_ Dn].
      rewrite (Dn Rep). reflexivity.
Qed.

(** X19.  What a run posts.  When the worker is initialised, its sources
    are point sources, strings or membranes of integer radius, all within
    reach (coordinates and radii up to 2^15), and the buffer has room for
    the samples (at most 2^24 after the run), a 'run' request for [n] steps
    with report interval [r] executes all of them: the step counter and the
    audio buffer grow by exactly [n], and the worker posts [floor(n / r)]
    'progress' messages (none when [r] is 0), the [k]-th after step
    [k * r] of the run, followed by one 'complete' message that carries the
    new total. *)
Theorem worker_run_completes (M : MathLib) (st : Worker.state)
  (sim : Solver.AcousticSimulator) (buffer : AudioBuffer.AudioBuffer)
  (numSteps reportInterval : option nat) :
  Worker.simulator st = Some sim ->
  Worker.audioBuffer st = Some buffer ->
  ready sim ->
  (forall s, In s (Solver.sources sim) ->
             evaluable s = true /\ withinReach s = true) ->
  (Z.of_nat (List.length (AudioBuffer.samples buffer)
             + Simulation.dflt numSteps 1000%nat) <= bufferLimit)%Z ->
  let n := Simulation.dflt numSteps 1000%nat in
  let r := Simulation.dflt reportInterval 100%nat in
  let start := Worker.totalStepsRun st in
  exists st' buffer' progress mp en dur,
    Worker.onmessage M st (Worker.Run numSteps reportInterval) = Ok st'
    /\ Worker.totalStepsRun st' = (start + n)%nat
    /\ Worker.audioBuffer st' = Some buffer'
    /\ List.length (AudioBuffer.samples buffer')
       = (List.length (AudioBuffer.samples buffer) + n)%nat
    /\ Worker.outbox st'
       = Worker.outbox st ++ progress
         ++ [Worker.Complete (start + n) mp en dur]
    /\ map reported progress
       = map (fun k => Some ((start + k * r)%nat, (start + n)%nat))
           (seq 1 (n / r)).
Proof.
  intros Hsim Hbuf Hr He _ n r start.
  cbn [Worker.onmessage]. unfold Worker.runSimulation. rewrite Hsim, Hbuf.
  cbv zeta. fold n r start.
  destruct (@runLoop_reports M (AudioBuffer.sampleRate buffer) start n r n
              0%nat sim buffer st Hr (fun s Hs => proj1 (He s Hs)))
    as (st' & sim' & buffer' & progress & mp & en & dur
        & H' & Ht' & _ & _ & _ & Hb' & Hlen & Hout & Hrep).
  { unfold start. lia. }
  rewrite Nat.add_0_r in H', Ht', Hout.
  exists st', buffer', progress, mp, en, dur.
  split; [exact H'|]. split; [exact Ht'|]. split; [exact Hb'|].
  split; [exact Hlen|]. split; [exact Hout|].
  rewrite Hrep. cbn [Nat.add].
  assert (Z : (0 / r = 0)%nat) by (destruct r; reflexivity).
  rewrite Z, Nat.sub_0_r. reflexivity.
Qed.

Lemma worker_run_completes_witness :
  ready Examples.smallRoom
  /\ (Z.of_nat (List.length (AudioBuffer.samples (AudioBuffer.new (Fin 44100)))
                + 5) <= bufferLimit)%Z
  /\ forall M : MathLib,
     exists st' progress mp en dur,
       Worker.onmessage M Fields.idleWorker
         (Worker.Run (Some 5%nat) (Some 2%nat)) = Ok st'
       /\ Worker.totalStepsRun st' = 5%nat
       /\ Worker.outbox st' = progress ++ [Worker.Complete 5 mp en dur]
       /\ map reported progress = [Some (2%nat, 5%nat); Some (4%nat, 5%nat)].
Proof.
  assert (Hr : ready Examples.smallRoom) by apply new_ready.
  assert (Hl : (Z.of_nat (List.length (AudioBuffer.samples
                                         (AudioBuffer.new (Fin 44100)))
                           + 5) <= bufferLimit)%Z)
    by (vm_compute; discriminate).
  split; [exact Hr|]. split; [exact Hl|]. intro M.
  destruct (@worker_run_completes M Fields.idleWorker Examples.smallRoom
              (AudioBuffer.new (Fin 44100)) (Some 5%nat) (Some 2%nat)
              eq_refl eq_refl Hr)
    as (st' & buffer' & progress & mp & en & dur
        & H1 & H2 & _ & _ & H5 & H6).
  - intros s [].
  - exact Hl.
  - exists st', progress, mp, en, dur.
    split; [exact H1|]. split; [exact H2|]. split; [exact H5|exact H6].
Defined.

(* ===================================================================== *)
(** ** The wave front: one cell per step *)
(* ===================================================================== *)

Lemma beyond_weaken (k k' : nat) (srcs : list Solver.source) (y x : nat) :
  (k' <= k)%nat -> beyond k srcs y x -> beyond k' srcs y x.
Proof.
  intros Hk H s sx sy Hin Hc. specialize (H s sx sy Hin Hc). lia.
Qed.

(** The point sources write their own cells only. *)
Lemma sourceValues_far (M : MathLib) (sim : Solver.AcousticSimulator)
  (t : num) :
  (forall s, In s (Solver.sources sim) -> pointCell s <> None) ->
  exists sv,
    Solver._updateSources M sim t = Ok sv
    /\ hasShape (Solver.height sim) (Solver.width sim) sv
    /\ forall y x,
         beyond 1 (Solver.sources sim) y x -> cellOf sv y x = Fin 0.
Proof.
  intro Hpoint. unfold Solver._updateSources.
  set (h := Solver.height sim). set (w := Solver.width sim).
  set (srcs := Solver.sources sim) in *.
  destruct (@foldM_returns Solver.source Solver.grid
              (fun sv => hasShape h w sv
                         /\ forall y x, beyond 1 srcs y x ->
                                        cellOf sv y x
                                        = cellOf (Solver._createGrid sim (Fin 0))
                                            y x)
              (fun sv s =>
                 if Solver.sourceSkipped t s then Ok sv
                 else Solver.applySource M sim t sv s)
              srcs) with (s := Solver._createGrid sim (Fin 0))
    as (sv & Hsv & Hshape & Hfar).
  - intros sv s Hin [Hshape Hfar].
    destruct (Solver.sourceSkipped t s); [eauto|].
    destruct s as [sx sy f a ty d st ph| |];
      try (exfalso; apply (Hpoint _ Hin); reflexivity).
    cbn [Solver.applySource].
    destruct (String.eqb ty "sine" || String.eqb ty "point")%bool; [|eauto].
    destruct (@splat_ofZ sim sv sx sy (Solver.waveform M a f t ph) Hshape)
      as (sv' & H1 & H2 & H3).
    exists sv'. split; [exact H1|]. split; [exact H2|].
    intros y x Hb. rewrite <- (Hfar y x Hb). rewrite H3.
    destruct (Solver._inBounds sim (ofZ sx) (ofZ sy)) eqn:E; [|reflexivity].
    apply inBounds_ofZ in E. apply updCell_other.
    intro Eq. injection Eq as Ey Ex.
    specialize (Hb _ sx sy Hin eq_refl). lia.
  - split; [apply createGrid_shape|]. reflexivity.
  - exists sv. split; [exact Hsv|]. split; [exact Hshape|].
    intros y x Hb. rewrite (Hfar y x Hb).
    unfold Solver._createGrid, cellOf, Solver._createGridOf.
    destruct (Nat.lt_ge_cases y (Solver.height sim)) as [Hy|Hy].
    + rewrite nth_repeat_lt by exact Hy.
      destruct (Nat.lt_ge_cases x (Solver.width sim)) as [Hx|Hx].
      * now rewrite nth_repeat_lt.
      * rewrite nth_overflow by (rewrite repeat_length; exact Hx). reflexivity.
    + rewrite (nth_overflow _ _ ltac:(rewrite repeat_length; exact Hy)).
      destruct x; reflexivity.
Qed.

Lemma padded_far (h w k : nat) (g : Solver.grid) (srcs : list Solver.source)
  (y x : nat) (dy dx : Z) :
  (Z.abs dy + Z.abs dx <= 1)%Z ->
  (forall y' x', (y' < h)%nat -> (x' < w)%nat -> beyond k srcs y' x' ->
                 cellOf g y' x' = Fin 0) ->
  beyond (S k) srcs y x ->
  padded h w g (Z.of_nat y + dy) (Z.of_nat x + dx) = Fin 0.
Proof.
  intros Hd Hg Hb. unfold padded.
  destruct ((0 <=? Z.of_nat y + dy) && (Z.of_nat y + dy <? Z.of_nat h)
            && (0 <=? Z.of_nat x + dx) && (Z.of_nat x + dx <? Z.of_nat w))%Z
    eqn:E; [|reflexivity].
  rewrite !andb_true_iff, !Z.leb_le, !Z.ltb_lt in E.
  apply Hg; try lia.
  intros s sx sy Hin Hc. specialize (Hb s sx sy Hin Hc).
  rewrite !Z2Nat.id by lia. lia.
Qed.

Lemma front_step (M : MathLib) (sim : Solver.AcousticSimulator) (t : num)
  (c d : Q) (k : nat) :
  wellFormed sim ->
  Solver.coeff sim = Fin c -> Solver.dampingFactor sim = Fin d ->
  (forall s, In s (Solver.sources sim) -> pointCell s <> None) ->
  (forall y x, (y < Solver.height sim)%nat -> (x < Solver.width sim)%nat ->
               beyond k (Solver.sources sim) y x ->
               cellOf (Solver.pressure sim) y x = Fin 0
               /\ cellOf (Solver.pressurePrev sim) y x = Fin 0) ->
  exists sim',
    Solver.step M sim t = Ok sim'
    /\ wellFormed sim'
    /\ Solver.coeff sim' = Fin c /\ Solver.dampingFactor sim' = Fin d
    /\ Solver.sources sim' = Solver.sources sim
    /\ Solver.width sim' = Solver.width sim
    /\ Solver.height sim' = Solver.height sim
    /\ forall y x, (y < Solver.height sim)%nat -> (x < Solver.width sim)%nat ->
                   beyond (S k) (Solver.sources sim) y x ->
                   cellOf (Solver.pressure sim') y x = Fin 0
                   /\ cellOf (Solver.pressurePrev sim') y x = Fin 0.
Proof.
  intros Hwf Hc Hd Hpoint Hzero.
  destruct (@sourceValues_far M sim t Hpoint) as (sv & Hsv & Hshape & Hfar).
  destruct (@step_after_sources M sim t sv Hwf Hsv Hshape)
    as (sim' & H1 & H2 & H3 & H4 & H5 & H6 & H7 & H8 & _ & _ & _ & _ & H14).
  exists sim'. split; [exact H1|]. split; [exact H14|].
  split; [congruence|]. split; [congruence|]. split; [exact H6|].
  split; [exact H2|]. split; [exact H3|].
  intros y x Hy Hx Hb.
  assert (Hbk : beyond k (Solver.sources sim) y x)
    by (apply (@beyond_weaken (S k)); [lia|exact Hb]).
  destruct (Hzero y x Hy Hx Hbk) as [Zp Zpp].
  split; [|rewrite H8; exact Zp].
  rewrite H7, tabulate_cell by assumption.
  unfold nextPressure, paddedLaplacian. rewrite Zp, Zpp, Hc, Hd.
  rewrite (Hfar y x) by (apply (@beyond_weaken (S k)); [lia|exact Hb]).
  assert (Pz : forall dy dx, (Z.abs dy + Z.abs dx <= 1)%Z ->
               padded (Solver.height sim) (Solver.width sim)
                 (Solver.pressure sim) (Z.of_nat y + dy) (Z.of_nat x + dx)
               = Fin 0).
  { intros dy dx Hdd.
    apply (@padded_far _ _ k _ (Solver.sources sim)); [exact Hdd| |exact Hb].
    intros y' x' Hy' Hx' Hb'. exact (proj1 (Hzero y' x' Hy' Hx' Hb')). }
  pose proof (Pz (-1)%Z 0%Z ltac:(cbn; lia)) as U.
  pose proof (Pz 1%Z 0%Z ltac:(cbn; lia)) as Dn.
  pose proof (Pz 0%Z (-1)%Z ltac:(cbn; lia)) as L.
  pose proof (Pz 0%Z 1%Z ltac:(cbn; lia)) as R.
  pose proof (Pz 0%Z 0%Z ltac:(cbn; lia)) as C.
  rewrite Z.add_0_r in U, Dn, C. rewrite Z.add_0_r in L, R, C.
  change (Z.of_nat y + -1)%Z with (Z.of_nat y - 1)%Z in U.
  change (Z.of_nat x + -1)%Z with (Z.of_nat x - 1)%Z in L.
  rewrite U, Dn, L, R, C.
  change (Fin 0 + Fin 0 + Fin 0 + Fin 0 - Fin 4 * Fin 0)%num with (Fin 0).
  change (Fin 2 * Fin 0 - Fin 0)%num with (Fin 0).
  change (Fin c * Fin 0)%num with (fin (c * 0)).
  rewrite (@fin_zero (c * 0)) by ring.
  change (Fin 0 + Fin 0 + Fin 0)%num with (Fin 0).
  change (Fin 0 * Fin d)%num with (fin (0 * d)).
  apply fin_zero. ring.
Qed.

(** X20.  Pressure spreads by one cell per step.  From a field at rest
    with point sources only, after [k] calls of [step] every cell that is
    [k] or more moves along the grid axes away from all the sources still
    holds a pressure of exactly 0, whatever the sources emit (even [NaN]):
    the first step reaches the source cells only, and each further step
    one more ring of cells. *)
Theorem pressure_spreads_one_cell_per_step (M : MathLib)
  (sim : Solver.AcousticSimulator) (c d : Q) (times : list num) :
  wellFormed sim -> atRest sim ->
  Solver.coeff sim = Fin c -> Solver.dampingFactor sim = Fin d ->
  (forall s, In s (Solver.sources sim) -> pointCell s <> None) ->
  exists sim',
    stepAll M sim times = Ok sim'
    /\ forall y x,
         (y < Solver.height sim)%nat -> (x < Solver.width sim)%nat ->
         beyond (List.length times) (Solver.sources sim) y x ->
         cellOf (Solver.pressure sim') y x = Fin 0.
Proof.
  intros Hwf Hrest Hc Hd Hpoint.
  assert (G : forall times k sim0,
             wellFormed sim0 ->
             Solver.coeff sim0 = Fin c -> Solver.dampingFactor sim0 = Fin d ->
             Solver.sources sim0 = Solver.sources sim ->
             Solver.width sim0 = Solver.width sim ->
             Solver.height sim0 = Solver.height sim ->
             (forall y x, (y < Solver.height sim)%nat ->
                          (x < Solver.width sim)%nat ->
                          beyond k (Solver.sources sim) y x ->
                          cellOf (Solver.pressure sim0) y x = Fin 0
                          /\ cellOf (Solver.pressurePrev sim0) y x = Fin 0) ->
             exists sim',
               stepAll M sim0 times = Ok sim'
               /\ forall y x,
                    (y < Solver.height sim)%nat ->
                    (x < Solver.width sim)%nat ->
                    beyond (k + List.length times) (Solver.sources sim) y x ->
                    cellOf (Solver.pressure sim') y x = Fin 0).
  { clear times. induction times as [|t times IH];
      intros k sim0 Hwf0 Hc0 Hd0 Hs0 Hw0 Hh0 Hz0.
    - exists sim0. split; [reflexivity|].
      intros y x Hy Hx Hb. cbn [List.length] in Hb.
      rewrite Nat.add_0_r in Hb. exact (proj1 (Hz0 y x Hy Hx Hb)).
    - destruct (@front_step M sim0 t c d k Hwf0 Hc0 Hd0)
        as (sim1 & H1 & Hwf1 & Hc1 & Hd1 & Hs1 & Hw1 & Hh1 & Hz1).
      { rewrite Hs0. exact Hpoint. }
      { rewrite Hs0, Hw0, Hh0. exact Hz0. }
      destruct (IH (S k) sim1 Hwf1 Hc1 Hd1) as (sim' & H' & Hz').
      { congruence. }
      { congruence. }
      { congruence. }
      { rewrite Hs0, Hw0, Hh0 in Hz1. exact Hz1. }
      exists sim'. unfold stepAll in *. cbn [foldM]. rewrite H1. cbn [bind].
      split; [exact H'|].
      intros y x Hy Hx Hb. apply Hz'; try assumption.
      cbn [List.length] in Hb.
      replace (S k + List.length times)%nat
        with (k + S (List.length times))%nat by lia. exact Hb. }
  destruct (G times 0%nat sim Hwf Hc Hd eq_refl eq_refl eq_refl)
    as (sim' & H' & Hz').
  - intros y x Hy Hx _. destruct Hrest as [Hp Hpp]. rewrite Hp, Hpp.
    unfold Solver._createGrid. rewrite createGrid_cell by assumption.
    split; reflexivity.
  - exists sim'. split; [exact H'|exact Hz'].
Qed.

Lemma cornerRoom_wellFormed : wellFormed Fields.cornerRoom.
Proof.
  unfold wellFormed, hasShape. simpl.
  repeat split; repeat constructor.
Qed.

Lemma pressure_spreads_one_cell_per_step_witness :
  wellFormed Fields.cornerRoom
  /\ atRest Fields.cornerRoom
  /\ forall M : MathLib,
     exists sim',
       stepAll M Fields.cornerRoom [Fin 0; Fin (1 # 44100)] = Ok sim'
       /\ cellOf (Solver.pressure sim') 1 1 = Fin 0
       /\ cellOf (Solver.pressure sim') 3 3 = Fin 0.
Proof.
  assert (R : atRest Fields.cornerRoom) by (split; reflexivity).
  split; [exact cornerRoom_wellFormed|]. split; [exact R|]. intro M.
  destruct (@pressure_spreads_one_cell_per_step M Fields.cornerRoom
              (117649 # 1000000) (9995 # 10000)
              [Fin 0; Fin (1 # 44100)] cornerRoom_wellFormed R
              eq_refl eq_refl) as (sim' & H1 & H2).
  - intros s [<-|[]]. discriminate.
  - exists sim'. split; [exact H1|].
    split; apply H2; try (cbn; lia);
      intros s sx sy [<-|[]] E; injection E as <- <-; cbn; lia.
Defined.

(* ===================================================================== *)
(** ** Voiced segments *)
(* ===================================================================== *)

Lemma segments_fold (frames : list num) :
  forall k segments inVoiced startTime open,
    match open with
    | Some i =>
        inVoiced = true
        /\ startTime = (ofNat i * AcousticAnalyzer.frameTime)%num
    | None => inVoiced = false
    end ->
    let '(segments', inVoiced', startTime') :=
      fold_left (fun st '(i, f) => AcousticAnalyzer.segmentStep st i f)
        (combine (seq k (List.length frames)) frames)
        (segments, inVoiced, startTime) in
    (if inVoiced' then
       segments'
       ++ [Segment.mk startTime'
             (ofNat (k + List.length frames)
              * AcousticAnalyzer.frameTime)%num
             (ofNat (k + List.length frames) * AcousticAnalyzer.frameTime
              - startTime')%num]
     else segments')
    = segments ++ map segmentOf (runsFrom open k frames).
Proof.
  induction frames as [|f frames IH]; intros k segments inVoiced startTime
                                             open Hrel.
  - cbn [List.length seq combine fold_left runsFrom]. rewrite Nat.add_0_r.
    destruct open as [i|].
    + destruct Hrel as [-> ->]. reflexivity.
    + rewrite Hrel. cbn [map]. now rewrite app_nil_r.
  - cbn [List.length seq combine fold_left runsFrom].
    replace (k + S (List.length frames))%nat
      with (S k + List.length frames)%nat by lia.
    unfold AcousticAnalyzer.segmentStep at 2.
    destruct (f >? Fin 0)%num eqn:Ef; cbn [negb andb].
    + destruct open as [i|].
      * destruct Hrel as [-> ->]. cbn [negb andb].
        apply (IH (S k) segments true _ (Some i)). split; reflexivity.
      * rewrite Hrel. cbn [negb andb].
        apply (IH (S k) segments true _ (Some k)). split; reflexivity.
    + destruct open as [i|].
      * destruct Hrel as [-> ->]. cbn [negb andb].
        specialize (IH (S k)
                      (segments
                       ++ [Segment.mk
                             (ofNat i * AcousticAnalyzer.frameTime)%num
                             (ofNat k * AcousticAnalyzer.frameTime)%num
                             (ofNat k * AcousticAnalyzer.frameTime
                              - ofNat i * AcousticAnalyzer.frameTime)%num])
                      false (ofNat i * AcousticAnalyzer.frameTime)%num None
                      eq_refl).
        cbn [map]. rewrite <- app_assoc in IH. exact IH.
      * rewrite Hrel. cbn [negb andb].
        apply (IH (S k) segments false startTime None). reflexivity.
Qed.

Lemma runsFrom_spaced (frames : list num) :
  forall open k lo,
    match open with
    | Some i => (lo <= i < k)%nat
    | None => (lo <= k)%nat
    end ->
    spaced lo (runsFrom open k frames).
Proof.
  induction frames as [|f frames IH]; intros open k lo H.
  - destruct open as [i|]; cbn; [split; [lia|exact I]|exact I].
  - cbn [runsFrom]. destruct (f >? Fin 0)%num.
    + destruct open as [i|]; apply IH; lia.
    + destruct open as [i|].
      * cbn [spaced]. split; [lia|]. apply IH. lia.
      * apply IH. lia.
Qed.

Lemma runsFrom_frames (frames : list num) :
  forall open k,
    match open with Some i => (i <= k)%nat | None => True end ->
    framesIn (runsFrom open k frames)
    = (match open with Some i => k - i | None => 0 end
       + List.length (filter (fun f => (f >? Fin 0)%num) frames))%nat.
Proof.
  induction frames as [|f frames IH]; intros open k H.
  - destruct open as [i|]; cbn; lia.
  - cbn [runsFrom filter]. destruct (f >? Fin 0)%num.
    + cbn [List.length]. destruct open as [i|].
      * rewrite (IH (Some i) (S k)) by lia. lia.
      * rewrite (IH (Some k) (S k)) by lia. lia.
    + destruct open as [i|].
      * cbn [framesIn fold_right fst snd].
        change (fold_right _ 0%nat (runsFrom None (S k) frames))
          with (framesIn (runsFrom None (S k) frames)).
        rewrite (IH None (S k) I). lia.
      * rewrite (IH None (S k) I). lia.
Qed.

Lemma skipn_head (all : list num) :
  forall k f rest,
    skipn k all = f :: rest ->
    getNum all k = f /\ skipn (S k) all = rest.
Proof.
  induction all as [|a all IH]; intros k f rest H.
  - destruct k; discriminate H.
  - destruct k as [|k].
    + cbn in H. injection H as -> ->. split; reflexivity.
    + cbn [skipn] in H. destruct (IH k f rest H) as [H1 H2].
      split; [exact H1|exact H2].
Qed.

Lemma runsFrom_voiced (all : list num) :
  forall frames open k,
    skipn k all = frames ->
    match open with
    | Some i =>
        forall m, (i <= m < k)%nat -> (getNum all m >? Fin 0)%num = true
    | None => True
    end ->
    Forall (fun run =>
              forall m, (fst run <= m < snd run)%nat ->
                        (getNum all m >? Fin 0)%num = true)
      (runsFrom open k frames).
Proof.
  induction frames as [|f frames IH]; intros open k Hk Hopen.
  - destruct open as [i|]; cbn [runsFrom]; [|constructor].
    constructor; [exact Hopen|constructor].
  - destruct (skipn_head all k Hk) as [Hf Hrest].
    cbn [runsFrom]. destruct (f >? Fin 0)%num eqn:Ef.
    + destruct open as [i|]; apply IH; try exact Hrest.
      * intros m Hm. destruct (Nat.eq_dec m k) as [->|N].
        -- rewrite Hf. exact Ef.
        -- apply Hopen. lia.
      * intros m Hm. replace m with k by lia. rewrite Hf. exact Ef.
    + destruct open as [i|]; [|apply IH; [exact Hrest|exact I]].
      constructor; [exact Hopen|apply IH; [exact Hrest|exact I]].
Qed.

(** X21.  [getVoicedSegments] returns the maximal runs of voiced frames.
    Its segments are those of the runs of consecutive frames with a value
    above 0, in order: each starts and ends on a multiple of 10 ms, none is
    empty, two successive segments are separated by at least one frame, a
    run that reaches the end of the series is closed there, every frame of
    a segment is voiced, and together the segments span exactly as many
    frames as are voiced. *)
Theorem voiced_segments_are_the_runs (voicingFrames : list num) :
  let runs := runsFrom None 0 voicingFrames in
  AcousticAnalyzer.getVoicedSegments voicingFrames = map segmentOf runs
  /\ spaced 0 runs
  /\ Forall (fun run => (snd run <= List.length voicingFrames)%nat) runs
  /\ Forall (fun run =>
               forall m, (fst run <= m < snd run)%nat ->
                         (getNum voicingFrames m >? Fin 0)%num = true) runs
  /\ framesIn runs
     = List.length (filter (fun f => (f >? Fin 0)%num) voicingFrames).
Proof.
  intro runs. split; [|split; [|split; [|split]]].
  - unfold AcousticAnalyzer.getVoicedSegments.
    pose proof (@segments_fold voicingFrames 0%nat [] false (Fin 0) None
                  eq_refl) as H.
    destruct (fold_left _ _ _) as [[segments' inVoiced'] startTime'].
    cbn [Nat.add app] in H. exact H.
  - apply runsFrom_spaced. lia.
  - unfold runs.
    assert (G : forall frames open k,
               match open with Some i => (i <= k)%nat | None => True end ->
               Forall (fun run => (snd run <= k + List.length frames)%nat)
                 (runsFrom open k frames)).
    { induction frames as [|f frames IH]; intros open k H.
      - destruct open as [i|]; cbn; [|constructor].
        constructor; [cbn; lia|constructor].
      - cbn [runsFrom List.length].
        replace (k + S (List.length frames))%nat
          with (S k + List.length frames)%nat by lia.
        destruct (f >? Fin 0)%num.
        + destruct open as [i|]; apply IH; lia.
        + destruct open as [i|]; [|apply IH; exact I].
          constructor; [cbn; lia|apply IH; exact I]. }
    apply (G voicingFrames None 0%nat I).
  - apply (@runsFrom_voiced voicingFrames voicingFrames None 0%nat);
      [reflexivity|exact I].
  - unfold runs. rewrite (@runsFrom_frames voicingFrames None 0%nat I).
    reflexivity.
Qed.

(* ===================================================================== *)
(** ** The bandwidth of a formant *)
(* ===================================================================== *)

Lemma findIndexFrom_bound {A : Type} (pred : A -> bool) (xs : list A) :
  forall i k,
    AcousticAnalyzer.findIndexFrom pred xs i = Some k ->
    (i <= k < i + List.length xs)%nat.
Proof.
  induction xs as [|x xs IH]; intros i k H; [discriminate H|].
  cbn [AcousticAnalyzer.findIndexFrom] in H. cbn [List.length].
  destruct (pred x).
  - injection H as <-. lia.
  - apply IH in H. lia.
Qed.

Lemma frequency_bin (sampleRate : Q) (length i : nat) :
  (i < length)%nat ->
  exists v,
    getNum (AcousticAnalyzer.getFrequencyBins sampleRate length) i = Fin v
    /\ v == inject_Z (Z.of_nat i) * sampleRate
            / (inject_Z (Z.of_nat length) * 2).
Proof.
  intro Hi. unfold getNum, AcousticAnalyzer.getFrequencyBins.
  rewrite (nth_indep _ NaN
             ((ofNat 0 * Fin sampleRate) / (ofNat length * Fin 2))%num)
    by (rewrite length_map, length_seq; exact Hi).
  rewrite (map_nth
             (fun i => ((ofNat i * Fin sampleRate)
                        / (ofNat length * Fin 2))%num)).
  rewrite seq_nth by exact Hi. cbn [Nat.add].
  unfold ofNat, ofZ. cbn [nmul]. unfold fin.
  assert (N : ~ Qred (inject_Z (Z.of_nat length) * 2) == 0).
  { rewrite Qred_correct.
    pose proof (@ofNat_positive length ltac:(lia)) as P. lra. }
  rewrite ndiv_Fin by exact N. eexists. split; [reflexivity|].
  rewrite !Qred_correct. reflexivity.
Qed.

(** X22.  The bandwidth of a formant lies within the spectrum.  For the
    frequency axis that [getFrequencyBins] lays over the magnitudes, with a
    sample rate that is not negative, [estimateBandwidth] returns a finite
    number between 0 and half the sample rate, whatever the magnitudes are
    (even [NaN]) and whatever [Math.sqrt] answers. *)
Theorem bandwidth_lies_within_the_spectrum (M : MathLib) (sampleRate : Q)
  (magnitude : list num) (peakFreq : num) :
  0 <= sampleRate ->
  exists b,
    AcousticAnalyzer.estimateBandwidth M magnitude
      (AcousticAnalyzer.getFrequencyBins sampleRate (List.length magnitude))
      peakFreq = Fin b
    /\ 0 <= b /\ b <= sampleRate / 2.
Proof.
  intro Hrate. unfold AcousticAnalyzer.estimateBandwidth.
  set (L := List.length magnitude).
  set (frequency := AcousticAnalyzer.getFrequencyBins sampleRate L).
  assert (HL : List.length frequency = L)
    by (unfold frequency, AcousticAnalyzer.getFrequencyBins;
        rewrite length_map, length_seq; reflexivity).
  assert (Half : 0 <= sampleRate / 2)
    by (apply Qle_shift_div_l; [reflexivity|lra]).
  destruct (AcousticAnalyzer.findIndexFrom _ frequency 0) as [peakIndex|] eqn:E.
  - apply findIndexFrom_bound in E. rewrite HL in E. cbv zeta.
    set (below := fun i =>
           (getNum magnitude i
            <? getNum magnitude peakIndex / Math_sqrt M (Fin 2))%num).
    set (lowIndex := match find below (rev (seq 1 peakIndex)) with
                     | Some i => i
                     | None => peakIndex
                     end).
    set (highIndex := match find below (seq peakIndex (L - peakIndex)) with
                      | Some i => i
                      | None => peakIndex
                      end).
    assert (Hlow : (lowIndex <= peakIndex)%nat).
    { unfold lowIndex.
      destruct (find below (rev (seq 1 peakIndex))) as [i|] eqn:F; [|lia].
      apply find_some in F. destruct F as [F _].
      apply in_rev in F. apply in_seq in F. lia. }
    assert (Hhigh : (peakIndex <= highIndex < L)%nat).
    { unfold highIndex.
      destruct (find below (seq peakIndex (L - peakIndex))) as [i|] eqn:F;
        [|lia].
      apply find_some in F. destruct F as [F _]. apply in_seq in F. lia. }
    destruct (@frequency_bin sampleRate L highIndex ltac:(lia))
      as (vh & Hvh & Evh).
    destruct (@frequency_bin sampleRate L lowIndex ltac:(lia))
      as (vl & Hvl & Evl).
    fold frequency in Hvh, Hvl. rewrite Hvh, Hvl.
    cbn [nsub nopp nadd]. unfold fin. eexists. split; [reflexivity|].
    rewrite !Qred_correct, Evh, Evl.
    set (N := inject_Z (Z.of_nat L)).
    assert (PN : 0 < N) by (apply ofNat_positive; lia).
    set (h := inject_Z (Z.of_nat highIndex)).
    set (l := inject_Z (Z.of_nat lowIndex)).
    assert (Hl0 : 0 <= l)
      by (unfold l; change 0 with (inject_Z 0); rewrite <- Zle_Qle; lia).
    assert (Hlh : l <= h) by (unfold l, h; rewrite <- Zle_Qle; lia).
    assert (HhN : h <= N) by (unfold h, N; rewrite <- Zle_Qle; lia).
    assert (Ed : h * sampleRate / (N * 2) + - (l * sampleRate / (N * 2))
                 == (h - l) * (sampleRate / (N * 2)))
      by (field; lra).
    rewrite Ed.
    assert (Ps : 0 <= sampleRate / (N * 2))
      by (apply Qle_shift_div_l; lra).
    assert (Eh : sampleRate / 2 == N * (sampleRate / (N * 2)))
      by (field; lra).
    rewrite Eh.
    split.
    + apply Qmult_le_0_compat; lra.
    + apply Qmult_le_compat_r; lra.
  - exists 0. split; [reflexivity|]. split; [lra|exact Half].
Qed.

Lemma bandwidth_lies_within_the_spectrum_witness :
  0 <= 8000
  /\ forall M : MathLib,
     exists b,
       AcousticAnalyzer.estimateBandwidth M
         [Fin 0; Fin 1; Fin 3; Fin 1; Fin 0]
         (AcousticAnalyzer.getFrequencyBins 8000
            (List.length [Fin 0; Fin 1; Fin 3; Fin 1; Fin 0]))
         (Fin 1600) = Fin b
       /\ 0 <= b /\ b <= 8000 / 2.
Proof.
  assert (H : 0 <= 8000) by discriminate.
  split; [exact H|]. intro M.
  exact (@bandwidth_lies_within_the_spectrum M 8000
           [Fin 0; Fin 1; Fin 3; Fin 1; Fin 0] (Fin 1600) H).
Defined.

(* ===================================================================== *)
(** ** The cells a string source drives *)
(* ===================================================================== *)

Lemma splat_points (sim : Solver.AcousticSimulator) (v : num)
  (points : list (Z * Z)) :
  NoDup points ->
  (forall p, In p points ->
             (0 <= fst p < Z.of_nat (Solver.width sim))%Z
             /\ (0 <= snd p < Z.of_nat (Solver.height sim))%Z) ->
  forall sv0,
    hasShape (Solver.height sim) (Solver.width sim) sv0 ->
    exists sv,
      foldM (fun sv '(x, y) => Solver.splat sim sv (ofZ x) (ofZ y) v)
        points sv0 = Ok sv
      /\ hasShape (Solver.height sim) (Solver.width sim) sv
      /\ forall y x,
           (y < Solver.height sim)%nat -> (x < Solver.width sim)%nat ->
           (In (Z.of_nat x, Z.of_nat y) points ->
            cellOf sv y x = (cellOf sv0 y x + v)%num)
           /\ (~ In (Z.of_nat x, Z.of_nat y) points ->
               cellOf sv y x = cellOf sv0 y x).
Proof.
  induction points as [|[px py] points IH]; intros Hnd Hin sv0 Hshape.
  - exists sv0. split; [reflexivity|]. split; [exact Hshape|].
    intros y x _ _. split; [intros []|reflexivity].
  - inversion Hnd as [|p l Hnot Hnd']. subst p l.
    destruct (Hin (px, py) (or_introl eq_refl)) as [Bx By].
    cbn [fst snd] in Bx, By.
    destruct (@splat_ofZ sim sv0 px py v Hshape) as (sv1 & H1 & Hs1 & E1).
    assert (Eb : Solver._inBounds sim (ofZ px) (ofZ py) = true)
      by (apply inBounds_ofZ; split; assumption).
    rewrite Eb in E1.
    destruct (IH Hnd' (fun p Hp => Hin p (or_intror Hp)) sv1 Hs1)
      as (sv & H & Hs & Hcells).
    exists sv. cbn [foldM]. rewrite H1. cbn [bind].
    split; [exact H|]. split; [exact Hs|].
    intros y x Hy Hx. destruct (Hcells y x Hy Hx) as [Hyes Hno].
    destruct (Z.eq_dec (Z.of_nat x) px) as [Ex|Nx];
      [destruct (Z.eq_dec (Z.of_nat y) py) as [Ey|Ny]|].
    + (* the cell of the head: the tail does not visit it again *)
      subst px py. split; [|intro N; exfalso; apply N; now left].
      intros _. rewrite (Hno Hnot), E1, !Nat2Z.id.
      apply (@updCell_same (Solver.height sim) (Solver.width sim));
        assumption.
    + assert (Other : cellOf sv1 y x = cellOf sv0 y x).
      { rewrite E1. apply updCell_other. intro Eq. injection Eq as E2 E3.
        apply Ny. rewrite E2. rewrite Z2Nat.id by lia. reflexivity. }
      split.
      * intros [Eq|Hp]; [injection Eq as _ E3; now elim Ny|].
        rewrite (Hyes Hp), Other. reflexivity.
      * intro N. rewrite Hno by (intro Hp; apply N; now right). exact Other.
    + assert (Other : cellOf sv1 y x = cellOf sv0 y x).
      { rewrite E1. apply updCell_other. intro Eq. injection Eq as E2 E3.
        apply Nx. rewrite E3. rewrite Z2Nat.id by lia. reflexivity. }
      split.
      * intros [Eq|Hp]; [injection Eq as E3 _; now elim Nx|].
        rewrite (Hyes Hp), Other. reflexivity.
      * intro N. rewrite Hno by (intro Hp; apply N; now right). exact Other.
Qed.

(** X23.  A string source drives the cells of its line, each once.  When
    the solver's only source is a string with both ends inside the grid, at
    a time the string is active [_updateSources] returns a grid in which
    each of the [max(|endX - startX|, |endY - startY|) + 1] cells of the
    rasterised line holds [0 + amplitude * sin(2 pi frequency time)], and
    every other cell holds 0. *)
Theorem string_source_drives_its_line (M : MathLib)
  (sim : Solver.AcousticSimulator) (t : num)
  (startX startY endX endY : Z) (frequency amplitude startTime phase : num) :
  let s :=
    Solver.StringSource startX startY endX endY frequency amplitude startTime
      phase in
  Solver.sources sim = [s] ->
  Solver.sourceSkipped t s = false ->
  (0 <= startX < Z.of_nat (Solver.width sim))%Z ->
  (0 <= startY < Z.of_nat (Solver.height sim))%Z ->
  (0 <= endX < Z.of_nat (Solver.width sim))%Z ->
  (0 <= endY < Z.of_nat (Solver.height sim))%Z ->
  exists sv points,
    Solver._updateSources M sim t = Ok sv
    /\ Solver._bresenhamLine startX startY endX endY = Ok points
    /\ NoDup points
    /\ List.length points
       = S (Z.to_nat (Z.max (Z.abs (endX - startX)) (Z.abs (endY - startY))))
    /\ forall y x,
         (y < Solver.height sim)%nat -> (x < Solver.width sim)%nat ->
         (In (Z.of_nat x, Z.of_nat y) points ->
          cellOf sv y x
          = (Fin 0 + Solver.waveform0 M amplitude frequency t)%num)
         /\ (~ In (Z.of_nat x, Z.of_nat y) points -> cellOf sv y x = Fin 0).
Proof.
  intros s Hsrc Hact Bsx Bsy Bex Bey.
  destruct (bresenhamLine_path startX startY endX endY)
    as (points & Hp & _ & _ & _ & Hbox & Hnd & Hlen).
  destruct (@splat_points sim (Solver.waveform0 M amplitude frequency t)
              points Hnd) with (sv0 := Solver._createGrid sim (Fin 0))
    as (sv & Hsv & _ & Hcells).
  { intros p Hin. pose proof (proj1 (Forall_forall _ _) Hbox p Hin) as B.
    unfold inBox in B. lia. }
  { apply createGrid_shape. }
  exists sv, points.
  split.
  { unfold Solver._updateSources. rewrite Hsrc. cbn [foldM].
    fold s. rewrite Hact. unfold s. cbn [Solver.applySource].
    rewrite Hp. cbn [bind]. rewrite Hsv. reflexivity. }
  split; [exact Hp|]. split; [exact Hnd|]. split; [exact Hlen|].
  intros y x Hy Hx. destruct (Hcells y x Hy Hx) as [Hyes Hno].
  unfold Solver._createGrid in Hyes, Hno.
  rewrite createGrid_cell in Hyes, Hno by assumption.
  split; assumption.
Qed.

Lemma string_source_drives_its_line_witness :
  Solver.sourceSkipped (Fin 0)
    (Solver.StringSource 0 0 3 2 (Fin 220) (Fin 10) (Fin 0) (Fin 0)) = false
  /\ forall M : MathLib,
     exists sv points,
       Solver._updateSources M Fields.stringRoom (Fin 0) = Ok sv
       /\ Solver._bresenhamLine 0 0 3 2 = Ok points
       /\ List.length points = 4%nat.
Proof.
  split; [reflexivity|]. intro M.
  destruct (@string_source_drives_its_line M Fields.stringRoom (Fin 0)
              0 0 3 2 (Fin 220) (Fin 10) (Fin 0) (Fin 0) eq_refl eq_refl)
    as (sv & points & H1 & H2 & _ & H4 & _); try (cbn; lia).
  exists sv, points. split; [exact H1|]. split; [exact H2|exact H4].
Defined.
